(** * Houdini Engine plugin: input translator and output details

    A shallow embedding of
      - Source/HoudiniEngine/Private/HoudiniInputTranslator.cpp
      - Source/HoudiniEngineEditor/Private/HoudiniOutputDetails.cpp
    Pointers to engine objects are [option] values ([None] is [nullptr]),
    node ids are integers, and every call into the procedural engine is
    an event appended to the session's call log. *)

From Stdlib Require Import ZArith List Bool Ascii String Lia.
From Stdlib Require Import Numbers.DecimalString.
Import ListNotations.

Local Open Scope Z_scope.

(* ===================================================================== *)
(** * Output details: FHoudiniOutputDetails::CreateWidget                 *)
(* ===================================================================== *)

Module OutputDetails.

(** The output kinds of HoudiniOutput.h that [CreateWidget] switches on;
    [Invalid] stands for the values that fall into [default:]. *)
Inductive EHoudiniOutputType :=
| Invalid | Mesh | Instancer | Landscape | Curve | Skeletal.

Record UHoudiniOutput := {
  Type_ : EHoudiniOutputType;       (* GetType()        *)
  bIsEditableNode : bool;           (* IsEditableNode() *)
  bPendingKill : bool               (* IsPendingKill()  *)
}.

(** [IsValid(Ptr)]: not null and not pending kill. *)
Definition IsValid (p : option UHoudiniOutput) : bool :=
  match p with
  | None => false
  | Some o => negb (bPendingKill o)
  end.

(** The five widget builders [CreateWidget] can call, each with the
    output it is called on. *)
Inductive WidgetCall :=
| CreateMeshOutputWidget (o : UHoudiniOutput)
| CreateLandscapeOutputWidget (o : UHoudiniOutput)
| CreateInstancerOutputWidget (o : UHoudiniOutput)
| CreateCurveOutputWidget (o : UHoudiniOutput)
| CreateDefaultOutputWidget (o : UHoudiniOutput).

(** [CreateWidget]: the list of builder calls it performs. *)
Definition CreateWidget (InOutputs : list (option UHoudiniOutput))
  : list WidgetCall :=
  if Z.of_nat (Datatypes.length InOutputs) <=? 0 then []
  else
    let MainOutput := nth 0 InOutputs None in
    if negb (IsValid MainOutput) then []
    else
      match MainOutput with
      | None => []
      | Some o =>
          (* Don't create UI for editable curve. *)
          if bIsEditableNode o &&
             match Type_ o with Curve => true | _ => false end
          then []
          else
            match Type_ o with
            | Mesh => [CreateMeshOutputWidget o]
            | Landscape => [CreateLandscapeOutputWidget o]
            | Instancer => [CreateInstancerOutputWidget o]
            | Curve => [CreateCurveOutputWidget o]
            | Skeletal => [CreateDefaultOutputWidget o]
            | _ => [CreateDefaultOutputWidget o]
            end
      end.

(** What the detail panel is expected to show for an output: which
    builder, if any.  Written from the description of the dispatch, to
    be compared with [CreateWidget]. *)
Inductive Renders : list (option UHoudiniOutput) -> list WidgetCall -> Prop :=
| R_empty : Renders [] []
| R_null : forall rest, Renders (None :: rest) []
| R_killed : forall o rest,
    bPendingKill o = true -> Renders (Some o :: rest) []
| R_editable_curve : forall o rest,
    bPendingKill o = false -> bIsEditableNode o = true -> Type_ o = Curve ->
    Renders (Some o :: rest) []
| R_mesh : forall o rest,
    bPendingKill o = false -> Type_ o = Mesh ->
    Renders (Some o :: rest) [CreateMeshOutputWidget o]
| R_landscape : forall o rest,
    bPendingKill o = false -> Type_ o = Landscape ->
    Renders (Some o :: rest) [CreateLandscapeOutputWidget o]
| R_instancer : forall o rest,
    bPendingKill o = false -> Type_ o = Instancer ->
    Renders (Some o :: rest) [CreateInstancerOutputWidget o]
| R_curve : forall o rest,
    bPendingKill o = false -> bIsEditableNode o = false -> Type_ o = Curve ->
    Renders (Some o :: rest) [CreateCurveOutputWidget o]
| R_default : forall o rest,
    bPendingKill o = false ->
    Type_ o <> Mesh -> Type_ o <> Landscape ->
    Type_ o <> Instancer -> Type_ o <> Curve ->
    Renders (Some o :: rest) [CreateDefaultOutputWidget o].

End OutputDetails.

(* ===================================================================== *)
(** * The data the input translator works on                              *)
(* ===================================================================== *)

(** HAPI_NodeId and the other ids are 32-bit integers; -1 is the invalid
  id.  No arithmetic that could wrap is done on them. *)
Definition HAPI_NodeId := Z.

(** FTransform: ten single-precision components, kept as bit patterns.
  Nothing here computes with them; comparisons and conversions are the
  host engine's. *)
Definition FTransform := list Z.

Module EHoudiniInputType.
Inductive t := Invalid | Geometry | Curve | Asset | Landscape | World | Skeletal.

Definition eqb (a b : t) : bool :=
  match a, b with
  | Invalid, Invalid | Geometry, Geometry | Curve, Curve | Asset, Asset
  | Landscape, Landscape | World, World | Skeletal, Skeletal => true
  | _, _ => false
  end.
End EHoudiniInputType.

Module EHoudiniInputObjectType.
Inductive t :=
| Invalid | Object | StaticMesh | SkeletalMesh | SceneComponent
| StaticMeshComponent | InstancedStaticMeshComponent | SplineComponent
| HoudiniSplineComponent | HoudiniAssetActor | HoudiniAssetComponent
| Actor | Landscape | Brush | CameraComponent | DataTable
| FoliageType_InstancedStaticMesh.

(** The enumerators are compared by their position. *)
Definition index (a : t) : Z :=
  match a with
  | Invalid => 0 | Object => 1 | StaticMesh => 2 | SkeletalMesh => 3
  | SceneComponent => 4 | StaticMeshComponent => 5
  | InstancedStaticMeshComponent => 6 | SplineComponent => 7
  | HoudiniSplineComponent => 8 | HoudiniAssetActor => 9
  | HoudiniAssetComponent => 10 | Actor => 11 | Landscape => 12
  | Brush => 13 | CameraComponent => 14 | DataTable => 15
  | FoliageType_InstancedStaticMesh => 16
  end.

Definition eqb (a b : t) : bool := index a =? index b.
End EHoudiniInputObjectType.

(** The classes of input objects that the translator casts to. *)
Module UClass.
Inductive t :=
| HoudiniInputObject | HoudiniInputStaticMesh | HoudiniInputSkeletalMesh
| HoudiniInputSceneComponent | HoudiniInputMeshComponent
| HoudiniInputInstancedMeshComponent | HoudiniInputSplineComponent
| HoudiniInputHoudiniSplineComponent | HoudiniInputHoudiniAsset
| HoudiniInputActor | HoudiniInputLandscape | HoudiniInputBrush
| HoudiniInputCameraComponent | HoudiniInputDataTable
| HoudiniInputFoliageType_InstancedStaticMesh.
End UClass.

Module HoudiniInput.

(** ** Input objects *)

(** The members of the base class UHoudiniInputObject.  [Class] is the
    dynamic class; Cast<> looks at it. *)
Record UHoudiniInputObject := mkInputObject {
  Type_ : EHoudiniInputObjectType.t;
  Class : UClass.t;
  InputNodeId : Z;
  InputObjectNodeId : Z;
  bHasChanged : bool;              (* HasChanged()          *)
  bTransformChanged : bool;        (* HasTransformChanged() *)
  bNeedsToTriggerUpdate : bool;
  bPendingKill : bool;             (* IsPendingKill()       *)
  Transform : FTransform;
  Obj_bImportAsReference : bool    (* GetImportAsReference() *)
}.

Definition set_InputNodeId (v : Z) (o : UHoudiniInputObject) :=
  mkInputObject (Type_ o) (Class o) v (InputObjectNodeId o) (bHasChanged o)
    (bTransformChanged o) (bNeedsToTriggerUpdate o) (bPendingKill o)
    (Transform o) (Obj_bImportAsReference o).

Definition set_InputObjectNodeId (v : Z) (o : UHoudiniInputObject) :=
  mkInputObject (Type_ o) (Class o) (InputNodeId o) v (bHasChanged o)
    (bTransformChanged o) (bNeedsToTriggerUpdate o) (bPendingKill o)
    (Transform o) (Obj_bImportAsReference o).

Definition set_Transform (v : FTransform) (o : UHoudiniInputObject) :=
  mkInputObject (Type_ o) (Class o) (InputNodeId o) (InputObjectNodeId o)
    (bHasChanged o) (bTransformChanged o) (bNeedsToTriggerUpdate o)
    (bPendingKill o) v (Obj_bImportAsReference o).

Definition SetNeedsToTriggerUpdate (b : bool) (o : UHoudiniInputObject) :=
  mkInputObject (Type_ o) (Class o) (InputNodeId o) (InputObjectNodeId o)
    (bHasChanged o) (bTransformChanged o) b (bPendingKill o) (Transform o)
    (Obj_bImportAsReference o).

Definition SetImportAsReference (b : bool) (o : UHoudiniInputObject) :=
  mkInputObject (Type_ o) (Class o) (InputNodeId o) (InputObjectNodeId o)
    (bHasChanged o) (bTransformChanged o) (bNeedsToTriggerUpdate o)
    (bPendingKill o) (Transform o) b.

(** Modelled from the spec: UHoudiniInputObject::MarkChanged is declared
    in HoudiniInputObject.h, which is not among the sources; it sets the
    changed flag and gives the trigger flag the same value. *)
Definition MarkChanged (b : bool) (o : UHoudiniInputObject) :=
  mkInputObject (Type_ o) (Class o) (InputNodeId o) (InputObjectNodeId o)
    b (bTransformChanged o) b (bPendingKill o) (Transform o)
    (Obj_bImportAsReference o).

(** Modelled from the spec: UHoudiniInputObject::MarkTransformChanged
    (HoudiniInputObject.h), the same for the transform-changed flag. *)
Definition MarkTransformChanged (b : bool) (o : UHoudiniInputObject) :=
  mkInputObject (Type_ o) (Class o) (InputNodeId o) (InputObjectNodeId o)
    (bHasChanged o) b b (bPendingKill o) (Transform o)
    (Obj_bImportAsReference o).

(** The curve component a UHoudiniInputHoudiniSplineComponent points at. *)
Record UHoudiniSplineComponent := {
  NodeId : Z;
  Spline_bPendingKill : bool
}.

(** An element of an input's object array: the base members and, for the
    subclasses whose own members the translator reads, those members.
    [AsActor] is [Cast<UHoudiniInputActor>] with GetActorComponents(),
    a TArray<UHoudiniInputSceneComponent*>; [AsStaticMesh] is
    [Cast<UHoudiniInputStaticMesh>] with bIsBlueprint() and
    BlueprintStaticMeshes; [AsHoudiniSpline] is
    [Cast<UHoudiniInputHoudiniSplineComponent>] with GetCurveComponent().
    [None] is a failed cast. *)
Record InputObject := mkEntry {
  Self :> UHoudiniInputObject;
  AsActor : option (list (option UHoudiniInputObject));
  AsStaticMesh : option (bool * list UHoudiniInputObject);
  AsHoudiniSpline : option (option UHoudiniSplineComponent)
}.

Definition WithSelf (f : UHoudiniInputObject -> UHoudiniInputObject)
  (o : InputObject) : InputObject :=
  mkEntry (f (Self o)) (AsActor o) (AsStaticMesh o) (AsHoudiniSpline o).

Definition WithActorComponents
  (cs : list (option UHoudiniInputObject)) (o : InputObject) : InputObject :=
  mkEntry (Self o) (Some cs) (AsStaticMesh o) (AsHoudiniSpline o).

Definition WithCurveComponent
  (c : option UHoudiniSplineComponent) (o : InputObject) : InputObject :=
  mkEntry (Self o) (AsActor o) (AsStaticMesh o) (Some c).

(** A scene component handed to a function that takes a
    UHoudiniInputObject*: it is not an actor, a static mesh or a Houdini
    spline input object. *)
Definition OfComponent (c : UHoudiniInputObject) : InputObject :=
  mkEntry c None None None.

(** ** Inputs *)

(** Members of UHoudiniInput that the translator only reads. *)
Record InputSettings := {
  bCanDeleteHoudiniNodes : bool;   (* CanDeleteHoudiniNodes() *)
  bKeepWorldTransform : bool;      (* GetKeepWorldTransform() *)
  bPackBeforeMerge : bool;         (* GetPackBeforeMerge()    *)
  NodeBaseName : string;           (* GetNodeBaseName()       *)
  In_bImportAsReference : bool;    (* GetImportAsReference()  *)
  (* Cast<UHoudiniAssetComponent>(GetOuter()), as its GetAssetId(), and
     the IsPendingKill() of that component *)
  OuterHAC : option Z;
  OuterHAC_bPendingKill : bool
}.

Record UHoudiniInput := mkInput {
  ObjectName : string;             (* the FName given to NewObject *)
  Name : string;
  Label : string;
  Help : string;
  InputType : EHoudiniInputType.t;          (* GetInputType()         *)
  PreviousType : EHoudiniInputType.t;       (* GetPreviousInputType() *)
  AssetNodeId : Z;
  In_InputNodeId : Z;              (* GetInputNodeId()        *)
  InputIndex : Z;
  ParmId : Z;                      (* GetParameterId()        *)
  bIsObjectPathParameter : bool;
  CreatedDataNodeIds : list Z;
  In_bHasChanged : bool;           (* HasChanged()            *)
  In_bNeedsToTriggerUpdate : bool;
  In_bPendingKill : bool;
  bDataUploadNeeded : bool;
  bLandscapeExportTypeChanged : bool;
  (* GetHoudiniInputObjectArray(T); [None] is a null array pointer *)
  InputObjects : EHoudiniInputType.t -> option (list (option InputObject));
  Settings : InputSettings
}.

(** The accessors below are declared in HoudiniInput.h, which is not among
    the sources; each writes the member it is named after. *)

Definition SetName (v : string) (i : UHoudiniInput) : UHoudiniInput :=
  mkInput (ObjectName i) v (Label i) (Help i) (InputType i) (PreviousType i)
    (AssetNodeId i) (In_InputNodeId i) (InputIndex i) (ParmId i)
    (bIsObjectPathParameter i) (CreatedDataNodeIds i) (In_bHasChanged i)
    (In_bNeedsToTriggerUpdate i) (In_bPendingKill i) (bDataUploadNeeded i)
    (bLandscapeExportTypeChanged i) (InputObjects i) (Settings i).

Definition SetLabel (v : string) (i : UHoudiniInput) : UHoudiniInput :=
  mkInput (ObjectName i) (Name i) v (Help i) (InputType i) (PreviousType i)
    (AssetNodeId i) (In_InputNodeId i) (InputIndex i) (ParmId i)
    (bIsObjectPathParameter i) (CreatedDataNodeIds i) (In_bHasChanged i)
    (In_bNeedsToTriggerUpdate i) (In_bPendingKill i) (bDataUploadNeeded i)
    (bLandscapeExportTypeChanged i) (InputObjects i) (Settings i).

Definition SetHelp (v : string) (i : UHoudiniInput) : UHoudiniInput :=
  mkInput (ObjectName i) (Name i) (Label i) v (InputType i) (PreviousType i)
    (AssetNodeId i) (In_InputNodeId i) (InputIndex i) (ParmId i)
    (bIsObjectPathParameter i) (CreatedDataNodeIds i) (In_bHasChanged i)
    (In_bNeedsToTriggerUpdate i) (In_bPendingKill i) (bDataUploadNeeded i)
    (bLandscapeExportTypeChanged i) (InputObjects i) (Settings i).

Definition SetPreviousInputType (v : EHoudiniInputType.t) (i : UHoudiniInput) : UHoudiniInput :=
  mkInput (ObjectName i) (Name i) (Label i) (Help i) (InputType i) v
    (AssetNodeId i) (In_InputNodeId i) (InputIndex i) (ParmId i)
    (bIsObjectPathParameter i) (CreatedDataNodeIds i) (In_bHasChanged i)
    (In_bNeedsToTriggerUpdate i) (In_bPendingKill i) (bDataUploadNeeded i)
    (bLandscapeExportTypeChanged i) (InputObjects i) (Settings i).

Definition SetAssetNodeId (v : Z) (i : UHoudiniInput) : UHoudiniInput :=
  mkInput (ObjectName i) (Name i) (Label i) (Help i) (InputType i)
    (PreviousType i) v (In_InputNodeId i) (InputIndex i) (ParmId i)
    (bIsObjectPathParameter i) (CreatedDataNodeIds i) (In_bHasChanged i)
    (In_bNeedsToTriggerUpdate i) (In_bPendingKill i) (bDataUploadNeeded i)
    (bLandscapeExportTypeChanged i) (InputObjects i) (Settings i).

Definition SetInputNodeId (v : Z) (i : UHoudiniInput) : UHoudiniInput :=
  mkInput (ObjectName i) (Name i) (Label i) (Help i) (InputType i)
    (PreviousType i) (AssetNodeId i) v (InputIndex i) (ParmId i)
    (bIsObjectPathParameter i) (CreatedDataNodeIds i) (In_bHasChanged i)
    (In_bNeedsToTriggerUpdate i) (In_bPendingKill i) (bDataUploadNeeded i)
    (bLandscapeExportTypeChanged i) (InputObjects i) (Settings i).

Definition set_CreatedDataNodeIds (v : list Z) (i : UHoudiniInput) : UHoudiniInput :=
  mkInput (ObjectName i) (Name i) (Label i) (Help i) (InputType i)
    (PreviousType i) (AssetNodeId i) (In_InputNodeId i) (InputIndex i)
    (ParmId i) (bIsObjectPathParameter i) v (In_bHasChanged i)
    (In_bNeedsToTriggerUpdate i) (In_bPendingKill i) (bDataUploadNeeded i)
    (bLandscapeExportTypeChanged i) (InputObjects i) (Settings i).

Definition In_SetNeedsToTriggerUpdate (b : bool) (i : UHoudiniInput) : UHoudiniInput :=
  mkInput (ObjectName i) (Name i) (Label i) (Help i) (InputType i)
    (PreviousType i) (AssetNodeId i) (In_InputNodeId i) (InputIndex i)
    (ParmId i) (bIsObjectPathParameter i) (CreatedDataNodeIds i)
    (In_bHasChanged i) b (In_bPendingKill i) (bDataUploadNeeded i)
    (bLandscapeExportTypeChanged i) (InputObjects i) (Settings i).

Definition MarkDataUploadNeeded (b : bool) (i : UHoudiniInput) : UHoudiniInput :=
  mkInput (ObjectName i) (Name i) (Label i) (Help i) (InputType i)
    (PreviousType i) (AssetNodeId i) (In_InputNodeId i) (InputIndex i)
    (ParmId i) (bIsObjectPathParameter i) (CreatedDataNodeIds i)
    (In_bHasChanged i) (In_bNeedsToTriggerUpdate i) (In_bPendingKill i) b
    (bLandscapeExportTypeChanged i) (InputObjects i) (Settings i).

Definition SetHasLandscapeExportTypeChanged (b : bool) (i : UHoudiniInput) : UHoudiniInput :=
  mkInput (ObjectName i) (Name i) (Label i) (Help i) (InputType i)
    (PreviousType i) (AssetNodeId i) (In_InputNodeId i) (InputIndex i)
    (ParmId i) (bIsObjectPathParameter i) (CreatedDataNodeIds i)
    (In_bHasChanged i) (In_bNeedsToTriggerUpdate i) (In_bPendingKill i)
    (bDataUploadNeeded i) b (InputObjects i) (Settings i).

(** Modelled from the spec: UHoudiniInput::MarkChanged (HoudiniInput.h) sets
    the input's changed flag and gives the trigger flag the same value. *)
Definition In_MarkChanged (b : bool) (i : UHoudiniInput) : UHoudiniInput :=
  mkInput (ObjectName i) (Name i) (Label i) (Help i) (InputType i)
    (PreviousType i) (AssetNodeId i) (In_InputNodeId i) (InputIndex i)
    (ParmId i) (bIsObjectPathParameter i) (CreatedDataNodeIds i) b b
    (In_bPendingKill i) (bDataUploadNeeded i)
    (bLandscapeExportTypeChanged i) (InputObjects i) (Settings i).

(** Modelled from the spec: UHoudiniInput::SetSOPInput (HoudiniInput.h) marks
    the input as the SOP input of that index, bound to no parameter. *)
Definition SetSOPInput (InInputIndex : Z) (i : UHoudiniInput) : UHoudiniInput :=
  mkInput (ObjectName i) (Name i) (Label i) (Help i) (InputType i)
    (PreviousType i) (AssetNodeId i) (In_InputNodeId i) InInputIndex (-1)
    false (CreatedDataNodeIds i) (In_bHasChanged i)
    (In_bNeedsToTriggerUpdate i) (In_bPendingKill i) (bDataUploadNeeded i)
    (bLandscapeExportTypeChanged i) (InputObjects i) (Settings i).

(** Modelled from the spec: UHoudiniInput::SetObjectPathParameter
    (HoudiniInput.h) marks the input as bound to that object-path
    parameter. *)
Definition SetObjectPathParameter (InParmId : Z) (i : UHoudiniInput) : UHoudiniInput :=
  mkInput (ObjectName i) (Name i) (Label i) (Help i) (InputType i)
    (PreviousType i) (AssetNodeId i) (In_InputNodeId i) 0 InParmId true
    (CreatedDataNodeIds i) (In_bHasChanged i) (In_bNeedsToTriggerUpdate i)
    (In_bPendingKill i) (bDataUploadNeeded i)
    (bLandscapeExportTypeChanged i) (InputObjects i) (Settings i).

Definition set_InputObjects (T : EHoudiniInputType.t)
  (arr : list (option InputObject)) (i : UHoudiniInput) : UHoudiniInput :=
  mkInput (ObjectName i) (Name i) (Label i) (Help i) (InputType i)
    (PreviousType i) (AssetNodeId i) (In_InputNodeId i) (InputIndex i)
    (ParmId i) (bIsObjectPathParameter i) (CreatedDataNodeIds i)
    (In_bHasChanged i) (In_bNeedsToTriggerUpdate i) (In_bPendingKill i)
    (bDataUploadNeeded i) (bLandscapeExportTypeChanged i)
    (fun T' => if EHoudiniInputType.eqb T T' then Some arr
              else InputObjects i T')
    (Settings i).

(** Modelled from the spec: UHoudiniInput::MarkAllInputObjectsChanged
    (HoudiniInput.cpp, not among the sources) marks the data upload as
    needed or not, and marks every valid input object of the current
    input type. *)
Definition MarkAllInputObjectsChanged (b : bool) (i : UHoudiniInput)
  : UHoudiniInput :=
  let i1 := MarkDataUploadNeeded b i in
  match InputObjects i1 (InputType i1) with
  | None => i1
  | Some arr =>
      set_InputObjects (InputType i1)
        (map (fun p : option InputObject =>
                match p with
                | Some o => if bPendingKill o then Some o
                            else Some (WithSelf (MarkChanged b) o)
                | None => None
                end) arr) i1
  end.

(** [IsValid(Ptr)] and the test [!Ptr || Ptr->IsPendingKill()]. *)
Definition IsValidInput (p : option UHoudiniInput) : bool :=
  match p with
  | Some i => negb (In_bPendingKill i)
  | None => false
  end.

Definition IsValidObject (p : option InputObject) : bool :=
  match p with
  | Some o => negb (bPendingKill o)
  | None => false
  end.

(** ** Parameters and the asset component *)

(** EHoudiniParameterType: only [Input] is told apart here. *)
Inductive EHoudiniParameterType := Input | NotInput.

(** A parameter of the asset.  [bIsOperatorPath] is
    [Cast<UHoudiniParameterOperatorPath>]; [HoudiniInput_] is the input an
    operator-path parameter points at, as its index in the Inputs array. *)
Record UHoudiniParameter := mkParameter {
  ParameterType : EHoudiniParameterType;
  Parm_ParmId : Z;
  ParameterName : string;
  ParameterLabel : string;
  ParameterHelp : string;
  Parm_bPendingKill : bool;
  bIsOperatorPath : bool;
  HoudiniInput_ : option Z
}.

Definition set_HoudiniInput (v : option Z) (p : UHoudiniParameter) :=
  mkParameter (ParameterType p) (Parm_ParmId p) (ParameterName p)
    (ParameterLabel p) (ParameterHelp p) (Parm_bPendingKill p)
    (bIsOperatorPath p) v.

(** EWorldType::Type of the host engine. *)
Module EWorldType.
Inductive t := None_ | Game | Editor | PIE | EditorPreview | GamePreview
             | GameRPC | Inactive.
End EWorldType.

(** The actor owning an asset component; [World] is GetWorld(), with its
    WorldType. *)
Record AOwner := { World : option EWorldType.t }.

Record UHoudiniAssetComponent := mkHAC {
  HAC_bPendingKill : bool;
  AssetId : Z;                                (* GetAssetId() *)
  Inputs : list (option UHoudiniInput);
  Parameters : list UHoudiniParameter;
  Owner : option AOwner                       (* GetOwner()   *)
}.

Definition set_Inputs (v : list (option UHoudiniInput))
  (h : UHoudiniAssetComponent) :=
  mkHAC (HAC_bPendingKill h) (AssetId h) v (Parameters h) (Owner h).

End HoudiniInput.

(* ===================================================================== *)
(** * The two foreign object models, as a call log and oracles           *)
(* ===================================================================== *)

Module Api.
Import HoudiniInput.

(** The translators of one kind of input object each, named after the
    HapiCreateInputNodeFor* function.  The translators of Houdini asset
    components and of actors are not among them: they write the input,
    or upload other input objects, and are given in full further down. *)
Inductive TranslatorKind :=
| ForObject | ForStaticMesh | ForSkeletalMesh | ForSceneComponent
| ForStaticMeshComponent | ForInstancedStaticMeshComponent
| ForSplineComponent | ForHoudiniSplineComponent
| ForLandscape | ForBrush
| ForCamera | ForDataTable | ForFoliageType_InstancedStaticMesh.

(** A call that leaves this translation unit: FHoudiniApi functions,
    FHoudiniEngineUtils helpers, the marshalling part of a translator, and
    the host-engine calls that change host state. *)
Inductive ApiCall :=
| GetAssetInfo (AssetId : Z)
| GetNodeInputName (node idx : Z)
| SetParmStringValue (node : Z) (value : string) (parm idx : Z)
| SetParmIntValue (node : Z) (parm : string) (idx value : Z)
| SetParmNodeValue (node : Z) (parm : string) (value : Z)
| DisconnectNodeInput (node idx : Z)
| ConnectNodeInput (node idx src out : Z)
| QueryNodeInput (node idx : Z)
| DeleteNode (node : Z)
| CreateNode (parent : Z) (op name : string)
| SetObjectTransform (node : Z) (xform : FTransform)
| GetObjectTransform (node : Z)
| HapiGetParentNodeId (node : Z)
| IsHoudiniNodeValid (node : Z)
| Translate (k : TranslatorKind) (o : InputObject)
    (* CreateInputNodeForReference, with the value of InputNodeId it is
       given, the reference and the transform *)
| CreateReferenceNode (InputNodeId : Z) (InRef : string) (xform : FTransform)
| ClearDownstreamHoudiniAsset
    (* InputHAC->AddDownstreamHoudiniAsset(OuterHAC), by their asset ids *)
| AddDownstreamHoudiniAsset (InputAssetId OuterAssetId : Z)
    (* InputHAC->SetAssetState(EHoudiniAssetState::PreInstantiation) *)
| SetAssetState_PreInstantiation (InputAssetId : Z)
| BuildStaticMeshesOnHoudiniProxyMeshOutputs
| MarkAsNeedCook
| TryCollectGarbage
| NewObject (name : string)
| GetParmInfo (node parm : Z)
| GetParmStringValues (node idx : Z)
| ToFString (handle : Z).

(** The session: the calls made so far, the latest first. *)
Definition Session := list ApiCall.

(** The actor an actor input object points at. *)
Record AActor := {
  Actor_bPendingKill : bool;
  Actor_Transform : FTransform;       (* GetTransform(), ActorToWorld() *)
  bIsHoudiniAssetActor : bool         (* IsA<AHoudiniAssetActor>()      *)
}.

(** What HapiCreateInputNodeForActor finds on the asset component of a
    Houdini asset actor used as a world input. *)
Inductive ProxyState :=
| NoValidHAC
| ProxyCookedDataAvailable      (* HasAnyCurrentProxyOutput, data available *)
| ProxyNeedsCook                (* proxy output, no data, no rebuild pending *)
| ProxyPending                  (* proxy output, delete, rebuild or invalid  *)
| NoProxy (HasAnyOutputComponent : bool).

(** The asset component a Houdini asset input object points at, the
    result of GetHoudiniAssetComponent(). *)
Record InputAssetComponent := {
  IAC_bPendingKill : bool;
  IAC_CanDeleteHoudiniNodes : bool;   (* CanDeleteHoudiniNodes() *)
  IAC_AssetId : Z;                    (* GetAssetId()            *)
  IAC_FullName : string               (* GetFullName()           *)
}.

(** What the session and the host engine answer.  Each answer may depend
    on every call made before. *)
Record Engine := {
  (* HAPI_RESULT_SUCCESS, or the bool a helper returns *)
  hapi_result : Session -> ApiCall -> bool;
  (* the integer a call writes or returns: a node id, geoInputCount *)
  hapi_int : Session -> ApiCall -> Z;
  hapi_string : Session -> ApiCall -> string;
  hapi_transform : Session -> ApiCall -> FTransform;
  (* the object NewObject<UHoudiniInput> returns *)
  new_input : Session -> string -> option UHoudiniInput;
  (* the part of a translator after its null and pending-kill guards;
     these translators read the input and write the object *)
  translate : Session -> TranslatorKind -> UHoudiniInput -> InputObject ->
              bool * InputObject;
  (* what the translator of Houdini asset components asks of the host:
     the component behind the object ([None] is a null pointer), whether
     the object's outer is a UHoudiniInput, whether the component's state
     is NeedInstantiation, and NeedsInitialization() || NeedUpdate() *)
  GetHoudiniAssetComponent : Session -> UHoudiniInputObject ->
                             option InputAssetComponent;
  OuterIsInput : UHoudiniInputObject -> bool;
  NeedInstantiation : Session -> UHoudiniInputObject -> bool;
  NeedsInitializationOrUpdate : Session -> UHoudiniInputObject -> bool;
  (* Cast<To>(object of class From) succeeds *)
  IsA : UClass.t -> UClass.t -> bool;
  IsGarbageCollecting : bool;
  (* FTransform::Equals(FTransform::Identity) *)
  EqualsIdentity : FTransform -> bool;
  (* UHoudiniInput queries whose bodies are in HoudiniInput.cpp *)
  HasInputTypeChanged : UHoudiniInput -> bool;
  IsDataUploadNeeded : UHoudiniInput -> bool;
  IsTransformUploadNeeded : UHoudiniInput -> bool;
  GetNumberOfInputMeshes : UHoudiniInput -> EHoudiniInputType.t -> Z;
  (* host objects behind an input object; [None] is a null pointer *)
  GetActor : UHoudiniInputObject -> option AActor;
  GetStaticMeshComponent : UHoudiniInputObject -> option FTransform;
  GetSceneComponent : UHoudiniInputObject -> option FTransform;
  GetLandscapeProxy : UHoudiniInputObject -> option AActor;
  (* the heightfield transform after applying the landscape's move *)
  LandscapeHeightfieldTransform :
    FTransform -> FTransform -> FTransform -> FTransform;
  GetProxyState : Session -> InputObject -> ProxyState;
  (* UHoudiniInputActor::Update on a valid GetObject(); [None] otherwise *)
  UpdateActor : Session -> InputObject -> option InputObject;
  (* UHoudiniInput::SetInputType, the host part of SetDefaultAssetFromHDA
     and FHoudiniSplineTranslator::UpdateHoudiniInputCurves *)
  SetInputType : EHoudiniInputType.t -> UHoudiniInput -> UHoudiniInput;
  PresetDefaultObjects : Session -> UHoudiniInput -> string -> UHoudiniInput;
  UpdateHoudiniInputCurves : Session -> UHoudiniInput -> UHoudiniInput;
  (* what UpdateWorldInput finds in the level: the object array after
     dead actors are dropped, and whether anything has changed *)
  ScanWorldInput : UHoudiniInput -> list (option InputObject) * bool
}.

(** ** The state monad over the session *)

Definition M (A : Type) : Type := Session -> A * Session.

Definition ret {A} (a : A) : M A := fun s => (a, s).

Definition bind {A B} (m : M A) (k : A -> M B) : M B :=
  fun s => let (a, s') := m s in k a s'.

Definition run {A} (m : M A) (s : Session) : A * Session := m s.

End Api.

Declare Scope api_scope.
Delimit Scope api_scope with api.
Notation "x <- m ;; k" := (Api.bind m (fun x => k))
  (at level 61, m at next level, right associativity) : api_scope.
Notation "m ;;; k" := (Api.bind m (fun _ => k))
  (at level 61, right associativity) : api_scope.
Notation "' p <- m ;; k" := (Api.bind m (fun p => k))
  (at level 61, p pattern, m at next level, right associativity) : api_scope.

(* ===================================================================== *)
(** * FHoudiniInputTranslator                                             *)
(* ===================================================================== *)

Module InputTranslator.
Import HoudiniInput Api.
Local Open Scope api_scope.

Section WithEngine.

Variable E : Engine.

(** A call whose result is tested against HAPI_RESULT_SUCCESS (or, for a
    helper, its bool). *)
Definition call (c : ApiCall) : M bool :=
  fun s => (hapi_result E s c, c :: s).

(** A call that also writes or returns an integer. *)
Definition call_int (c : ApiCall) : M (bool * Z) :=
  fun s => ((hapi_result E s c, hapi_int E s c), c :: s).

(** A loop over an array whose elements are updated in place, threading
    the loop's local variables. *)
Fixpoint forEach {A S : Type} (body : A -> S -> M (A * S))
  (l : list A) (st : S) : M (list A * S) :=
  match l with
  | [] => ret ([], st)
  | a :: l' =>
      '(a', st1) <- body a st ;;
      '(l'', st2) <- forEach body l' st1 ;;
      ret (a' :: l'', st2)
  end.

(** A loop that only makes calls. *)
Fixpoint forEach_ {A : Type} (body : A -> M unit) (l : list A) : M unit :=
  match l with
  | [] => ret tt
  | a :: l' => body a ;;; forEach_ body l'
  end.

(** TArray::Remove(Item): removes every element equal to [Item]. *)
Definition TArray_Remove (Item : Z) (l : list Z) : list Z :=
  filter (fun x => negb (x =? Item)) l.

(** ** DisconnectInput (lines 303-348) *)

Definition DisconnectInput (InputToDestroy : option UHoudiniInput)
  (InputType : EHoudiniInputType.t) : M (bool * option UHoudiniInput) :=
  match InputToDestroy with
  | None => ret (false, None)
  | Some i =>
      if In_bPendingKill i then ret (false, Some i)
      else
        (* disconnect the input / nullify the object path parameter *)
        (if bIsObjectPathParameter i then
           call (SetParmStringValue (AssetNodeId i) EmptyString (ParmId i) 0) ;;;
           ret tt
         else
           let HostAssetId := AssetNodeId i in
           let CreatedInputId := In_InputNodeId i in
           if (HostAssetId >=? 0) && (CreatedInputId >=? 0) then
             call (DisconnectNodeInput HostAssetId (InputIndex i)) ;;; ret tt
           else ret tt) ;;;
        if EHoudiniInputType.eqb InputType EHoudiniInputType.Asset then
          (match OuterHAC (Settings i) with
           | Some _ => call ClearDownstreamHoudiniAsset ;;; ret tt
           | None => ret tt
           end) ;;;
          ret (true, Some (SetInputNodeId (-1) i))
        else ret (true, Some i)
  end.

(** ** DestroyInputNodes (lines 350-467) *)

(** The loop over an actor's components: their input node id is reset. *)
Definition DestroyInputNodes_component
  (CurActorComponent : option UHoudiniInputObject)
  : option UHoudiniInputObject :=
  match CurActorComponent with
  | None => None
  | Some c => if bPendingKill c then Some c
              else Some (set_InputNodeId (-1) c)
  end.

(** The body of the loop over the input objects; [Ids] is the local copy
    CreatedInputDataAssetIds. *)
Definition DestroyInputNodes_object (CurInputObject : option InputObject)
  (Ids : list Z) : M (option InputObject * list Z) :=
  match CurInputObject with
  | None => ret (None, Ids)
  | Some o =>
      if bPendingKill o then ret (Some o, Ids)
      else if EHoudiniInputObjectType.eqb (Type_ o)
                EHoudiniInputObjectType.HoudiniAssetComponent
      then
        (* keep this object's node out of the deletion further down *)
        ret (Some (WithSelf (set_InputObjectNodeId (-1))
                     (WithSelf (set_InputNodeId (-1)) o)),
             TArray_Remove (InputNodeId o) Ids)
      else
        (* for actor input objects, reset the node id of the components *)
        let o1 :=
          if EHoudiniInputObjectType.eqb (Type_ o) EHoudiniInputObjectType.Actor
          then match AsActor o with
               | Some comps =>
                   WithActorComponents (map DestroyInputNodes_component comps) o
               | None => o
               end
          else o in
        o2 <- (if InputNodeId o1 >=? 0 then
                 call (DeleteNode (InputNodeId o1)) ;;;
                 ret (WithSelf (set_InputNodeId (-1)) o1)
               else ret o1) ;;
        o3 <- (if InputObjectNodeId o2 >=? 0 then
                 call (DeleteNode (InputObjectNodeId o2)) ;;;
                 let o' := WithSelf (set_InputObjectNodeId (-1)) o2 in
                 '(_, ParentNodeId) <-
                    call_int (HapiGetParentNodeId (InputObjectNodeId o')) ;;
                 valid <- call (IsHoudiniNodeValid ParentNodeId) ;;
                 (if valid then call (DeleteNode ParentNodeId) ;;; ret tt
                  else ret tt) ;;;
                 ret o'
               else ret o2) ;;
        (* also invalidate the HoudiniSplineComponent's node id *)
        let o4 :=
          match AsHoudiniSpline o3 with
          | Some (Some SplineComponent) =>
              if negb (IsGarbageCollecting E) &&
                 negb (Spline_bPendingKill SplineComponent)
              then WithCurveComponent
                     (Some {| NodeId := -1;
                              Spline_bPendingKill :=
                                Spline_bPendingKill SplineComponent |}) o3
              else o3
          | _ => o3
          end in
        ret (Some (WithSelf (MarkChanged true) o4), Ids)
  end.

(** The loop that destroys the input assets left in the local copy. *)
Definition DestroyInputNodes_assets (Ids : list Z) : M unit :=
  forEach_ (fun AssetNodeId =>
              if AssetNodeId <? 0 then ret tt
              else call (DeleteNode AssetNodeId) ;;; ret tt) Ids.

Definition DestroyInputNodes (InputToDestroy : option UHoudiniInput)
  (InputType : EHoudiniInputType.t) : M (bool * option UHoudiniInput) :=
  match InputToDestroy with
  | None => ret (false, None)
  | Some i =>
      if In_bPendingKill i then ret (false, Some i)
      else if negb (bCanDeleteHoudiniNodes (Settings i)) then ret (false, Some i)
      else if EHoudiniInputType.eqb InputType EHoudiniInputType.Asset then
        (* don't destroy the input HDA; a simple disconnect is sufficient *)
        ret (true, Some i)
      else
        (* a copy of the array: the input's own member is not written *)
        let CreatedInputDataAssetIds := CreatedDataNodeIds i in
        '(i1, Ids) <-
           match InputObjects i InputType with
           | Some InputObjectNodes =>
               '(objs, Ids) <- forEach DestroyInputNodes_object
                                 InputObjectNodes CreatedInputDataAssetIds ;;
               ret (set_InputObjects InputType objs i, Ids)
           | None => ret (i, CreatedInputDataAssetIds)
           end ;;
        DestroyInputNodes_assets Ids ;;;
        (* then destroy the input's parent OBJ node *)
        i2 <- (if In_InputNodeId i1 >=? 0 then
                 let CreatedInputId := In_InputNodeId i1 in
                 '(_, ParentId) <- call_int (HapiGetParentNodeId CreatedInputId) ;;
                 i' <- (if CreatedInputId >=? 0 then
                          call (DeleteNode CreatedInputId) ;;;
                          ret (SetInputNodeId (-1) i1)
                        else ret i1) ;;
                 valid <- call (IsHoudiniNodeValid ParentId) ;;
                 (if valid then call (DeleteNode ParentId) ;;; ret tt
                  else ret tt) ;;;
                 ret i'
               else ret i1) ;;
        ret (true, Some i2)
  end.

(** ** DisconnectAndDestroyInput (lines 469-479) *)

Definition DisconnectAndDestroyInput (InputToDestroy : option UHoudiniInput)
  (InputType : EHoudiniInputType.t) : M (bool * option UHoudiniInput) :=
  '(bSuccess, i1) <- DisconnectInput InputToDestroy InputType ;;
  '(b2, i2) <- DestroyInputNodes i1 InputType ;;
  ret (bSuccess && b2, i2).


(** ** GetDefaultInputTypeFromLabel (lines 482-519) *)

(** Modelled from the spec: FString::Contains with ESearchCase::IgnoreCase
    is the host engine's; it is a substring search that compares
    characters after folding them to upper case.  The words searched for
    here are never empty. *)
Definition ToUpper (c : ascii) : ascii :=
  let n := nat_of_ascii c in
  if Nat.leb 97 n && Nat.leb n 122 then ascii_of_nat (n - 32) else c.

Fixpoint StartsWith_IgnoreCase (s sub : string) : bool :=
  match sub, s with
  | EmptyString, _ => true
  | String b sub', String a s' =>
      Ascii.eqb (ToUpper a) (ToUpper b) && StartsWith_IgnoreCase s' sub'
  | String _ _, EmptyString => false
  end.

Fixpoint Contains_IgnoreCase (s sub : string) : bool :=
  StartsWith_IgnoreCase s sub ||
  match s with
  | EmptyString => false
  | String _ s' => Contains_IgnoreCase s' sub
  end.

Definition GetDefaultInputTypeFromLabel (InputName : string)
  : EHoudiniInputType.t :=
  let curvePrefix := "curve"%string in
  let landscapePrefix := "landscape"%string in
  let landscapePrefix2 := "terrain"%string in
  let landscapePrefix3 := "heightfield"%string in
  let worldPrefix := "world"%string in
  let worldPrefix2 := "outliner"%string in
  let assetPrefix := "asset"%string in
  let assetPrefix2 := "hda"%string in
  (* By default, geometry input is chosen. *)
  let InputType := EHoudiniInputType.Geometry in
  if Contains_IgnoreCase InputName curvePrefix then EHoudiniInputType.Curve
  else if Contains_IgnoreCase InputName landscapePrefix
          || Contains_IgnoreCase InputName landscapePrefix2
          || Contains_IgnoreCase InputName landscapePrefix3
  then EHoudiniInputType.Landscape
  else if Contains_IgnoreCase InputName worldPrefix
          || Contains_IgnoreCase InputName worldPrefix2
  then EHoudiniInputType.World
  else if Contains_IgnoreCase InputName assetPrefix
          || Contains_IgnoreCase InputName assetPrefix2
  then EHoudiniInputType.Asset
  else InputType.

(** ** ChangeInputType (lines 521-546) *)

Definition ChangeInputType (InInput : option UHoudiniInput) (bForce : bool)
  : M (bool * option UHoudiniInput) :=
  match InInput with
  | None => ret (false, None)
  | Some i =>
      if In_bPendingKill i then ret (false, Some i)
      else if negb (HasInputTypeChanged E i) && negb bForce then
        ret (true, Some i)
      else
        (* handle switching away from an input type *)
        '(_, i1) <- DisconnectAndDestroyInput (Some i) (PreviousType i) ;;
        (* mark all the objects of this input as changed *)
        ret (true, option_map (MarkAllInputObjectsChanged true) i1)
  end.

(** ** UpdateInputProperties and its three steps (lines 733-913) *)

(** The integers 0, 1, ..., n-1 of a counting [for] loop. *)
Definition upto (n : Z) : list Z := map Z.of_nat (seq 0 (Z.to_nat n)).

(** The loop of UpdateTransformType and UpdatePackBeforeMerge over the
    object merges plugged into the input's merge node. *)
Definition SetParmOnObjectMerges (ParentNodeId : Z) (parm : string)
  (value NumberOfInputMeshes : Z) (bSuccess : bool) : M bool :=
  '(_, b) <- forEach (fun (n : Z) (bSuccess : bool) =>
                '(ok, InputObjectNodeId) <-
                   call_int (QueryNodeInput ParentNodeId n) ;;
                if negb ok then ret (n, bSuccess)
                else if InputObjectNodeId =? -1 then ret (n, bSuccess)
                else
                  set <- call (SetParmIntValue InputObjectNodeId parm 0 value) ;;
                  ret (n, if set then bSuccess else false))
             (upto NumberOfInputMeshes) bSuccess ;;
  ret b.

Definition UpdateTransformType (InInput : option UHoudiniInput) : M bool :=
  match InInput with
  | None => ret false
  | Some i =>
      if In_bPendingKill i then ret false
      else
        let InputType := InputType i in
        (* geometry inputs are always set to none *)
        let nTransformType :=
          if EHoudiniInputType.eqb InputType EHoudiniInputType.Geometry
          then 0
          else if bKeepWorldTransform (Settings i) then 1 else 0 in
        let HostAssetId := AssetNodeId i in
        let sXformType := "xformtype"%string in
        bSuccess <-
          (if bIsObjectPathParameter i then
             ok <- call (SetParmIntValue HostAssetId sXformType 0 nTransformType) ;;
             ret ok
           else
             '(ok, InputNodeId) <-
                call_int (QueryNodeInput HostAssetId (InputIndex i)) ;;
             if ok then
               call (SetParmIntValue InputNodeId sXformType 0 nTransformType)
             else ret true) ;;
        let ParentNodeId := In_InputNodeId i in
        if (ParentNodeId >=? 0)
           && negb (EHoudiniInputType.eqb InputType EHoudiniInputType.Geometry)
           && negb (EHoudiniInputType.eqb InputType EHoudiniInputType.Asset)
        then
          SetParmOnObjectMerges ParentNodeId sXformType nTransformType
            (GetNumberOfInputMeshes E i InputType) bSuccess
        else ret bSuccess
  end.

Definition UpdatePackBeforeMerge (InInput : option UHoudiniInput) : M bool :=
  match InInput with
  | None => ret false
  | Some i =>
      if In_bPendingKill i then ret false
      else
        let InputType := InputType i in
        (* pack before merge is only available for Geo/World input *)
        if negb (EHoudiniInputType.eqb InputType EHoudiniInputType.World)
           && negb (EHoudiniInputType.eqb InputType EHoudiniInputType.Geometry)
        then ret true
        else
          let nPackValue := if bPackBeforeMerge (Settings i) then 1 else 0 in
          let ParentNodeId := In_InputNodeId i in
          if ParentNodeId >=? 0 then
            SetParmOnObjectMerges ParentNodeId "pack"%string nPackValue
              (GetNumberOfInputMeshes E i InputType) true
          else ret true
  end.

(** The loop of UpdateTransformOffset: the first failing SetObjectTransform
    returns false at once. *)
Fixpoint UpdateTransformOffset_loop (objs : list (option InputObject))
  : M bool :=
  match objs with
  | [] => ret true
  | None :: rest => UpdateTransformOffset_loop rest
  | Some o :: rest =>
      if bPendingKill o then UpdateTransformOffset_loop rest
      else if negb (EqualsIdentity E (Transform o)) then
        ok <- call (SetObjectTransform (InputObjectNodeId o) (Transform o)) ;;
        if ok then UpdateTransformOffset_loop rest else ret false
      else UpdateTransformOffset_loop rest
  end.

Definition UpdateTransformOffset (InInput : option UHoudiniInput) : M bool :=
  match InInput with
  | None => ret false
  | Some i =>
      if In_bPendingKill i then ret false
      else
        (* transform offsets are only for geometry inputs *)
        if negb (EHoudiniInputType.eqb (InputType i) EHoudiniInputType.Geometry)
        then ret true
        else
          match InputObjects i (InputType i) with
          | None => ret false
          | Some InputObjectsArray => UpdateTransformOffset_loop InputObjectsArray
          end
  end.

Definition UpdateInputProperties (InInput : option UHoudiniInput) : M bool :=
  bSucess <- UpdateTransformType InInput ;;
  b2 <- UpdatePackBeforeMerge InInput ;;
  b3 <- UpdateTransformOffset InInput ;;
  ret (bSucess && b2 && b3).

(** ** ConnectInputNode (lines 1145-1181) *)

Definition ConnectInputNode (InInput : option UHoudiniInput) : M bool :=
  match InInput with
  | None => ret false
  | Some i =>
      if In_bPendingKill i then ret false
      else if AssetNodeId i <? 0 then ret false
      else if In_InputNodeId i <? 0 then ret false
      else if bIsObjectPathParameter i then
        call (SetParmNodeValue (AssetNodeId i) (Name i) (In_InputNodeId i))
      else
        call (ConnectNodeInput (AssetNodeId i) (InputIndex i)
                (In_InputNodeId i) 0)
  end.


(** ** The reference to an asset (lines 1772-1783, 1968-1979, 2194-2205,
    3009-3020)

    The loop that replaces the first space of the object's full name by a
    single quote, and the quote attached to the end. *)
Fixpoint ReplaceFirstSpace (AssetReference : string) : string :=
  match AssetReference with
  | EmptyString => EmptyString
  | String c rest =>
      if Ascii.eqb c " " then String "'" rest
      else String c (ReplaceFirstSpace rest)
  end.

Definition QuoteAssetReference (FullName : string) : string :=
  (ReplaceFirstSpace FullName ++ "'")%string.

(** ** The translators HapiCreateInputNodeFor* (lines 1630-2479, 2790-3046)

    Each starts with guards on its arguments; what follows marshals host
    data through the session and is the engine's [translate]. *)

Definition Cast (To : UClass.t) (o : InputObject) : option InputObject :=
  if IsA E (Class o) To then Some o else None.

(** [InObject] is the pointer the translator receives, the result of a
    cast; [orig] is the object it was cast from, returned unchanged when a
    guard fails. *)
Definition HapiCreateInputNodeFor (k : TranslatorKind) (InInput : UHoudiniInput)
  (InObject : option InputObject) (orig : InputObject)
  : M (bool * InputObject) :=
  match InObject with
  | None => ret (false, orig)
  | Some o =>
      let guard :=
        match k with
        | ForObject => false                (* only the null test *)
        | ForLandscape => bPendingKill o || In_bPendingKill InInput
        | _ => bPendingKill o
        end in
      if guard then ret (false, orig)
      else fun s => (translate E s k InInput o, Translate k o :: s)
  end.

(** A function on a valid input gives the input back. *)
Definition orSame (i : UHoudiniInput) (r : option UHoudiniInput) : UHoudiniInput :=
  match r with Some i' => i' | None => i end.

(** ** HapiCreateInputNodeForHoudiniAssetComponent (lines 2131-2251)

    The translator does not receive the input: it takes it from the
    object, as Cast<UHoudiniInput>(InObject->GetOuter()).  An input object
    is held in the arrays of one input; when its outer is an input
    ([OuterIsInput]), this is the input [HoudiniInput] that holds it, the
    one being uploaded.  The function writes the object and that input:
    the result carries both as it leaves them. *)
Definition HapiCreateInputNodeForHoudiniAssetComponent
  (HoudiniInput : UHoudiniInput) (InObject : option InputObject)
  (orig : InputObject) (bImportAsReference : bool)
  : M (bool * InputObject * UHoudiniInput) :=
  match InObject with
  | None => ret (false, orig, HoudiniInput)
  | Some o =>
      if bPendingKill o then ret (false, orig, HoudiniInput)
      else
        InputHAC <- (fun s => (GetHoudiniAssetComponent E s o, s)) ;;
        match InputHAC with
        | None => ret (true, o, HoudiniInput)
        | Some InputHAC =>
            if IAC_bPendingKill InputHAC then ret (true, o, HoudiniInput)
            else if negb (IAC_CanDeleteHoudiniNodes InputHAC)
            then ret (true, o, HoudiniInput)
            else if negb (OuterIsInput E o) || In_bPendingKill HoudiniInput
            then ret (true, o, HoudiniInput)
            else
              match OuterHAC (Settings HoudiniInput) with
              | None => ret (true, o, HoudiniInput)
              | Some OuterAssetId =>
                  if OuterHAC_bPendingKill (Settings HoudiniInput)
                  then ret (true, o, HoudiniInput)
                  (* do not allow using ourself as an input *)
                  else if IAC_AssetId InputHAC =? OuterAssetId
                  then ret (false, o, HoudiniInput)
                  else
                    (* if previously imported as ref, delete the input node *)
                    (if (InputNodeId o >? -1) && Obj_bImportAsReference o then
                       let PreviousInputNodeId := InputNodeId o in
                       '(_, PreviousInputOBJNode) <-
                          call_int (HapiGetParentNodeId PreviousInputNodeId) ;;
                       call (DeleteNode PreviousInputNodeId) ;;;
                       call (DeleteNode PreviousInputOBJNode) ;;;
                       ret tt
                     else ret tt) ;;;
                    let o1 := WithSelf (SetImportAsReference bImportAsReference) o in
                    (* an object of an Asset input sets the input's node id
                       directly, to avoid creating extra merge nodes *)
                    let bIsAssetInput :=
                      EHoudiniInputType.eqb (InputType HoudiniInput)
                        EHoudiniInputType.Asset in
                    '(created, o2, i1) <-
                       (if bImportAsReference then
                          let o2 := WithSelf (set_InputObjectNodeId (-1))
                                      (WithSelf (set_InputNodeId (-1)) o1) in
                          let i1 := if bIsAssetInput
                                    then SetInputNodeId (-1) HoudiniInput
                                    else HoudiniInput in
                          let AssetReference :=
                            QuoteAssetReference (IAC_FullName InputHAC) in
                          '(ok, NewNodeId) <-
                             call_int (CreateReferenceNode (InputNodeId o2)
                                         AssetReference (Transform o2)) ;;
                          if negb ok then ret (false, o2, i1)
                          else
                            let o3 := WithSelf (set_InputNodeId NewNodeId) o2 in
                            ret (true, o3,
                                 if bIsAssetInput
                                 then SetInputNodeId (InputNodeId o3) i1
                                 else i1)
                        else ret (true, o1, HoudiniInput)) ;;
                    if negb created then ret (false, o2, i1)
                    else
                      call (AddDownstreamHoudiniAsset (IAC_AssetId InputHAC)
                              OuterAssetId) ;;;
                      need <- (fun s => (NeedInstantiation E s o2, s)) ;;
                      i2 <- (if need : bool then
                               (* tell the input asset to instantiate, and
                                  mark this object's input as changed *)
                               call (SetAssetState_PreInstantiation
                                       (IAC_AssetId InputHAC)) ;;;
                               ret (In_MarkChanged true i1)
                             else ret i1) ;;
                      wait <- (fun s => (NeedsInitializationOrUpdate E s o2, s)) ;;
                      if wait : bool then ret (false, o2, i2)
                      else
                        let o3 :=
                          if negb bImportAsReference
                          then WithSelf (set_InputNodeId (IAC_AssetId InputHAC)) o2
                          else o2 in
                        let i3 :=
                          if negb bImportAsReference && bIsAssetInput
                          then SetInputNodeId (IAC_AssetId InputHAC) i2
                          else i2 in
                        let o4 := WithSelf (set_InputObjectNodeId (InputNodeId o3))
                                    o3 in
                        if bIsAssetInput then
                          bReturn <- ConnectInputNode (Some i3) ;;
                          ret (bReturn, o4, i3)
                        else ret (InputNodeId o4 >? -1, o4, i3)
              end
        end
  end.

(** The part of HapiCreateInputNodeForActor for a Houdini asset actor used
    as world input: proxy meshes are refined and the components updated. *)
Definition RefreshActorComponents (o : InputObject) : M InputObject :=
  let update (o : InputObject) : M InputObject :=
    fun s => match UpdateActor E s o with
             | Some o' => (o', TryCollectGarbage :: s)
             | None => (o, s)
             end in
  st <- (fun s => (GetProxyState E s o, s)) ;;
  match st with
  | NoValidHAC => ret o
  | ProxyCookedDataAvailable =>
      call BuildStaticMeshesOnHoudiniProxyMeshOutputs ;;; update o
  | ProxyNeedsCook => call MarkAsNeedCook ;;; ret o
  | ProxyPending => ret o
  | NoProxy HasAnyOutputComponent =>
      match AsActor o with
      | Some [] => if HasAnyOutputComponent then update o else ret o
      | _ => ret o
      end
  end.

Section Upload.

(** UploadHoudiniInputObject applied to a component of an actor; like
    the function itself it gives back the component, the created-node
    list and the input as it leaves them. *)
Variable UploadComponent :
  option UHoudiniInput -> option UHoudiniInputObject -> list Z ->
  M (bool * option UHoudiniInputObject * list Z * option UHoudiniInput).

Definition HapiCreateInputNodeForActor (InInput : option UHoudiniInput)
  (InObject : option InputObject) (orig : InputObject)
  (OutCreatedNodeIds : list Z)
  : M (bool * InputObject * list Z * option UHoudiniInput) :=
  match InInput, InObject with
  | None, _ | _, None => ret (false, orig, OutCreatedNodeIds, InInput)
  | Some i, Some o =>
      if In_bPendingKill i || bPendingKill o then
        ret (false, orig, OutCreatedNodeIds, InInput)
      else
        match GetActor E o with
        | None => ret (true, o, OutCreatedNodeIds, InInput)
        | Some Actor =>
            if Actor_bPendingKill Actor
            then ret (true, o, OutCreatedNodeIds, InInput)
            else
              o1 <- (if EHoudiniInputType.eqb (InputType i)
                          EHoudiniInputType.World
                        && bIsHoudiniAssetActor Actor
                     then RefreshActorComponents o else ret o) ;;
              (* now, commit all of this actor's components *)
              '(comps, (ids, i')) <-
                 forEach (fun CurComponent '(ids, i0) =>
                            '(_, c, ids', r) <-
                               UploadComponent (Some i0) CurComponent ids ;;
                            ret (c, (ids', orSame i0 r)))
                   (match AsActor o1 with Some cs => cs | None => [] end)
                   (OutCreatedNodeIds, i) ;;
              (* cache our transform *)
              ret (true,
                   WithSelf (set_Transform (Actor_Transform Actor))
                     (match AsActor o1 with
                      | Some _ => WithActorComponents comps o1
                      | None => o1
                      end),
                   ids, Some i')
        end
  end.

(** ** UploadHoudiniInputObject (lines 1183-1394) *)

Definition UploadHoudiniInputObject_switch (i : UHoudiniInput)
  (o : InputObject) (OutCreatedNodeIds : list Z)
  : M (bool * InputObject * list Z * UHoudiniInput) :=
  (* the common shape: one translator, one node id added on success *)
  let one (k : TranslatorKind) (casted : option InputObject) :=
    '(bSuccess, o') <- HapiCreateInputNodeFor k i casted o ;;
    ret (bSuccess, o',
         if bSuccess then OutCreatedNodeIds ++ [InputObjectNodeId o']
         else OutCreatedNodeIds,
         i) in
  match Type_ o with
  | EHoudiniInputObjectType.Object => one ForObject (Some o)
  | EHoudiniInputObjectType.StaticMesh =>
      '(bSuccess, o') <-
         HapiCreateInputNodeFor ForStaticMesh i
           (match AsStaticMesh o with Some _ => Some o | None => None end) o ;;
      ret (bSuccess, o',
           if bSuccess then
             match AsStaticMesh o' with
             | Some (true, BlueprintStaticMeshes) =>
                 (* a blueprint: the ids of all its static mesh objects *)
                 OutCreatedNodeIds ++ map InputObjectNodeId BlueprintStaticMeshes
             | _ => OutCreatedNodeIds ++ [InputObjectNodeId o']
             end
           else OutCreatedNodeIds,
           i)
  | EHoudiniInputObjectType.SkeletalMesh =>
      one ForSkeletalMesh (Cast UClass.HoudiniInputSkeletalMesh o)
  | EHoudiniInputObjectType.SceneComponent =>
      one ForSceneComponent (Cast UClass.HoudiniInputSceneComponent o)
  | EHoudiniInputObjectType.StaticMeshComponent =>
      one ForStaticMeshComponent (Cast UClass.HoudiniInputMeshComponent o)
  | EHoudiniInputObjectType.InstancedStaticMeshComponent =>
      one ForInstancedStaticMeshComponent
        (Cast UClass.HoudiniInputInstancedMeshComponent o)
  | EHoudiniInputObjectType.SplineComponent =>
      one ForSplineComponent (Cast UClass.HoudiniInputSplineComponent o)
  | EHoudiniInputObjectType.HoudiniSplineComponent =>
      one ForHoudiniSplineComponent
        (match AsHoudiniSpline o with Some _ => Some o | None => None end)
  | EHoudiniInputObjectType.HoudiniAssetActor
  | EHoudiniInputObjectType.HoudiniAssetComponent =>
      '(bSuccess, o', i') <-
         HapiCreateInputNodeForHoudiniAssetComponent i
           (Cast UClass.HoudiniInputHoudiniAsset o) o
           (In_bImportAsReference (Settings i)) ;;
      ret (bSuccess, o',
           if bSuccess then OutCreatedNodeIds ++ [InputObjectNodeId o']
           else OutCreatedNodeIds,
           i')
  | EHoudiniInputObjectType.Actor =>
      '(bSuccess, o', ids, r) <-
         HapiCreateInputNodeForActor (Some i)
           (match AsActor o with Some _ => Some o | None => None end) o
           OutCreatedNodeIds ;;
      ret (bSuccess, o', ids, orSame i r)
  | EHoudiniInputObjectType.Landscape =>
      one ForLandscape (Cast UClass.HoudiniInputLandscape o)
  | EHoudiniInputObjectType.Brush =>
      one ForBrush (Cast UClass.HoudiniInputBrush o)
  | EHoudiniInputObjectType.CameraComponent =>
      one ForCamera (Cast UClass.HoudiniInputCameraComponent o)
  | EHoudiniInputObjectType.DataTable =>
      one ForDataTable (Cast UClass.HoudiniInputDataTable o)
  | EHoudiniInputObjectType.FoliageType_InstancedStaticMesh =>
      one ForFoliageType_InstancedStaticMesh
        (Cast UClass.HoudiniInputFoliageType_InstancedStaticMesh o)
  | EHoudiniInputObjectType.Invalid => ret (true, o, OutCreatedNodeIds, i)
  end.

Definition UploadHoudiniInputObject_ (InInput : option UHoudiniInput)
  (InInputObject : option InputObject) (OutCreatedNodeIds : list Z)
  : M (bool * option InputObject * list Z * option UHoudiniInput) :=
  match InInput, InInputObject with
  | Some i, Some o =>
      '(bSuccess, o1, ids, i') <-
         UploadHoudiniInputObject_switch i o OutCreatedNodeIds ;;
      (* mark that input object as not changed *)
      let o2 :=
        if bSuccess then
          WithSelf (SetNeedsToTriggerUpdate false)
            (WithSelf (MarkChanged false) o1)
        else
          (* keep it changed but prevent it from triggering updates *)
          WithSelf (SetNeedsToTriggerUpdate false) o1 in
      ret (bSuccess, Some o2, ids, Some i')
  | _, _ => ret (false, InInputObject, OutCreatedNodeIds, InInput)
  end.

End Upload.

(** A component is a UHoudiniInputSceneComponent: the cast to
    UHoudiniInputActor fails on it, so the upload of a component never
    reaches components of its own. *)
Definition UploadHoudiniInputComponent (InInput : option UHoudiniInput)
  (CurComponent : option UHoudiniInputObject) (OutCreatedNodeIds : list Z)
  : M (bool * option UHoudiniInputObject * list Z * option UHoudiniInput) :=
  '(b, o, ids, i) <-
     UploadHoudiniInputObject_
       (fun i c ids => ret (false, c, ids, i))
       InInput (option_map OfComponent CurComponent) OutCreatedNodeIds ;;
  ret (b, option_map Self o, ids, i).

Definition UploadHoudiniInputObject :=
  UploadHoudiniInputObject_ UploadHoudiniInputComponent.


(** ** UploadInputData (lines 915-1109) *)

(** The test that keeps an input object's node instead of uploading it. *)
Definition KeepsNode (o : UHoudiniInputObject) : bool :=
  negb (bHasChanged o) && (InputObjectNodeId o >=? 0).

(** The loop over the components of an unchanged actor; the state is
    CreatedNodeIds, bSuccess and the input, which an upload may write. *)
Definition UploadInputData_component
  (CurrentComp : option UHoudiniInputObject)
  (st : list Z * bool * UHoudiniInput)
  : M (option UHoudiniInputObject * (list Z * bool * UHoudiniInput)) :=
  let '(CreatedNodeIds, bSuccess, InInput) := st in
  match CurrentComp with
  | None => ret (None, st)
  | Some c =>
      if bPendingKill c then ret (Some c, st)
      else if KeepsNode c then
        (* the component hasn't changed and is valid, keep it *)
        ret (Some c, (CreatedNodeIds ++ [InputObjectNodeId c], bSuccess, InInput))
      else
        '(ok, c', ids, r) <-
           UploadHoudiniInputComponent (Some InInput) (Some c) CreatedNodeIds ;;
        ret (c', (ids, if ok then bSuccess else false, orSame InInput r))
  end.

(** The body of the loop over the input objects. *)
Definition UploadInputData_object
  (CurrentInputObject : option InputObject)
  (st : list Z * bool * UHoudiniInput)
  : M (option InputObject * (list Z * bool * UHoudiniInput)) :=
  let '(CreatedNodeIds, bSuccess, InInput) := st in
  match CurrentInputObject with
  | None => ret (None, st)
  | Some o =>
      if bPendingKill o then ret (Some o, st)
      else if KeepsNode o then
        match Type_ o with
        | EHoudiniInputObjectType.Actor =>
            (* an actor holds an input object per component: keep them *)
            match AsActor o with
            | Some comps =>
                '(comps', st') <-
                   forEach UploadInputData_component comps st ;;
                ret (Some (WithActorComponents comps' o), st')
            | None => ret (Some o, st)
            end
        | _ =>
            (* no changes, keep it *)
            ret (Some o,
                 (CreatedNodeIds ++ [InputObjectNodeId o], bSuccess, InInput))
        end
      else
        '(ok, o', ids, r) <-
           UploadHoudiniInputObject (Some InInput) (Some o) CreatedNodeIds ;;
        ret (o', (ids, if ok then bSuccess else false, orSame InInput r))
  end.

(** HOUDINI_CHECK_ERROR: the call is made, a failure is only logged. *)
Definition check (c : ApiCall) : M unit := call c ;;; ret tt.

(** Disconnects and deletes the object merges at the given indices of the
    merge node. *)
Definition DisconnectObjectMerges (InputNodeId : Z) (indices : list Z)
  (bQueryAndDelete : bool) : M unit :=
  forEach_ (fun Idx =>
              InputObjectMergeId <-
                (if bQueryAndDelete then
                   '(_, id) <- call_int (QueryNodeInput InputNodeId Idx) ;;
                   ret id
                 else ret (-1)) ;;
              check (DisconnectNodeInput InputNodeId Idx) ;;;
              if bQueryAndDelete then check (DeleteNode InputObjectMergeId)
              else ret tt) indices.

(** The integers lo, lo+1, ..., hi-1. *)
Definition range (lo hi : Z) : list Z :=
  map (fun n => lo + Z.of_nat n) (seq 0 (Z.to_nat (hi - lo))).

(** The loop that plugs the created nodes into the merge node. *)
Fixpoint ConnectCreatedNodes (InputNodeId : Z) (CreatedNodeIds : list Z)
  (InputIndex : Z) : M unit :=
  match CreatedNodeIds with
  | [] => ret tt
  | CurrentNodeId :: rest =>
      if CurrentNodeId <? 0 then ConnectCreatedNodes InputNodeId rest InputIndex
      else if InputNodeId =? CurrentNodeId then
        ConnectCreatedNodes InputNodeId rest InputIndex
      else
        check (ConnectNodeInput InputNodeId InputIndex CurrentNodeId 0) ;;;
        ConnectCreatedNodes InputNodeId rest (InputIndex + 1)
  end.

(** The part of UploadInputData after the loop over the input objects:
    [i1] is the input with its objects as the loop left them.  The result
    is [None] when the source dereferences a null pointer: on an Asset
    input for which no node was created, the cast of the input's outer to
    an asset component is used without a test (lines 991-992). *)
Definition UploadInputData_merge (i1 : UHoudiniInput)
  (CreatedNodeIds : list Z) (bSuccess : bool)
  : M (option (bool * option UHoudiniInput)) :=
  if Z.of_nat (Datatypes.length CreatedNodeIds) =? 0 then
    (* no input was created: invalidate our input node id *)
    ok <-
      (if negb (HasInputTypeChanged E i1) then
         let InputNodeId := In_InputNodeId i1 in
         let PreviousInputObjectNodeIds := CreatedDataNodeIds i1 in
         match InputType i1 with
         | EHoudiniInputType.Asset =>
             match OuterHAC (Settings i1) with
             | None => ret false
             | Some AssetId =>
                 (* disconnect the asset input *)
                 (if (InputNodeId >=? 0) && (InputIndex i1 >=? 0) then
                    check (DisconnectNodeInput AssetId (InputIndex i1))
                  else ret tt) ;;;
                 ret true
             end
         | EHoudiniInputType.World => ret true
         | _ =>
             (if InputNodeId >=? 0 then
                DisconnectObjectMerges InputNodeId
                  (range 0 (Z.of_nat
                     (Datatypes.length PreviousInputObjectNodeIds)))
                  true
              else ret tt) ;;;
             ret true
         end
       else ret true) ;;
    if negb ok then ret None
    else
      ret (Some (bSuccess,
                 Some (SetInputNodeId (-1) (set_CreatedDataNodeIds [] i1))))
  else
    (* check that the input's node id is still valid *)
    let InputNodeId := In_InputNodeId i1 in
    stale <- (if InputNodeId <? 0 then ret true
              else valid <- call (IsHoudiniNodeValid InputNodeId) ;;
                   ret (negb valid)) ;;
    created <-
      (if stale : bool then
         (* create this input's merge node *)
         let MergeName := (NodeBaseName (Settings i1) ++ "_Merge")%string in
         '(ok, id) <- call_int
                        (CreateNode (-1) "SOP/merge"%string MergeName) ;;
         ret (if ok then Some id else None)
       else ret (Some InputNodeId)) ;;
    match created with
    | None => ret (Some (false, Some i1))
    | Some InputNodeId =>
        let i2 := if stale then SetInputNodeId InputNodeId i1 else i1 in
        (* connect all the input objects to the merge node *)
        ConnectCreatedNodes InputNodeId CreatedNodeIds 0 ;;;
        (* disconnect what was plugged in on the previous cook *)
        (if negb (HasInputTypeChanged E i2) then
           DisconnectObjectMerges InputNodeId
             (range (Z.of_nat (Datatypes.length CreatedNodeIds))
                (Z.of_nat (Datatypes.length (CreatedDataNodeIds i2))))
             (negb (EHoudiniInputType.eqb (InputType i2)
                      EHoudiniInputType.Asset))
         else ret tt) ;;;
        (* keep track of the nodes plugged into our input's merge *)
        let i3 := set_CreatedDataNodeIds CreatedNodeIds i2 in
        (* finally, connect our main input node to the asset *)
        bSuccess <- ConnectInputNode (Some i3) ;;
        ret (Some (bSuccess, Some i3))
    end.

(** The array of the input's type is taken once, before the loop; the
    objects are written in place while an upload may write the input. *)
Definition UploadInputData (InInput : option UHoudiniInput)
  : M (option (bool * option UHoudiniInput)) :=
  match InInput with
  | None => ret (Some (false, None))
  | Some i =>
      if In_bPendingKill i then ret (Some (false, Some i))
      else
        let InputType := InputType i in
        match InputObjects i InputType with
        | None => ret (Some (false, Some i))
        | Some InputObjectsArray =>
            (* see which input objects need to be uploaded *)
            '(objs, (CreatedNodeIds, bSuccess, i')) <-
               forEach UploadInputData_object InputObjectsArray ([], true, i) ;;
            UploadInputData_merge (set_InputObjects InputType objs i')
              CreatedNodeIds bSuccess
        end
  end.

(** ** UploadHoudiniInputTransform (lines 1397-1628) *)

(** The lambda UpdateTransform: sets the transform on the OBJ parent. *)
Definition UpdateTransform (InTransform : FTransform) (InNodeId : Z) : M bool :=
  call (SetObjectTransform InNodeId InTransform).

Section UploadTransform.

(** UploadHoudiniInputTransform applied to a component of an actor. *)
Variable UploadComponentTransform :
  option UHoudiniInput -> option UHoudiniInputObject ->
  M (bool * option UHoudiniInputObject).

(** The loop of the Actor case over the actor's components. *)
Definition UploadHoudiniInputTransform_component (InInput : UHoudiniInput)
  (CurrentComponent : option UHoudiniInputObject) (bSuccess : bool)
  : M (option UHoudiniInputObject * bool) :=
  match CurrentComponent with
  | None => ret (None, bSuccess)
  | Some c =>
      if bPendingKill c then ret (Some c, bSuccess)
      else if negb (bTransformChanged c) then ret (Some c, bSuccess)
      else
        '(ok, c') <- UploadComponentTransform (Some InInput) (Some c) ;;
        ret (c', if ok then bSuccess else false)
  end.

Definition UploadHoudiniInputTransform_switch (i : UHoudiniInput)
  (o : InputObject) : M (bool * InputObject) :=
  match Type_ o with
  | EHoudiniInputObjectType.StaticMesh
  | EHoudiniInputObjectType.FoliageType_InstancedStaticMesh =>
      (* simply update the input mesh's transform offset *)
      ok <- UpdateTransform (Transform o) (InputObjectNodeId o) ;;
      ret (ok, o)
  | EHoudiniInputObjectType.StaticMeshComponent =>
      match Cast UClass.HoudiniInputMeshComponent o with
      | None => ret (false, o)
      | Some InSMC =>
          if bPendingKill InSMC then ret (false, o)
          else
            let NewTransform :=
              match GetStaticMeshComponent E InSMC with
              | Some t => t
              | None => Transform o
              end in
            ok <- UpdateTransform NewTransform (InputObjectNodeId o) ;;
            ret (ok, WithSelf (set_Transform NewTransform) o)
      end
  | EHoudiniInputObjectType.Actor =>
      match AsActor o with
      | None => ret (false, o)
      | Some comps =>
          if bPendingKill o then ret (false, o)
          else
            (* update the actor's transform, to avoid further updates *)
            let o1 :=
              match GetActor E o with
              | Some Actor => WithSelf (set_Transform (Actor_Transform Actor)) o
              | None => o
              end in
            '(comps', bSuccess) <-
               forEach (UploadHoudiniInputTransform_component i) comps true ;;
            ret (bSuccess, WithActorComponents comps' o1)
      end
  | EHoudiniInputObjectType.SceneComponent =>
      match Cast UClass.HoudiniInputSceneComponent o with
      | None => ret (false, o)
      | Some InputSceneComp =>
          if bPendingKill InputSceneComp then ret (false, o)
          else
            ret (true,
                 match GetSceneComponent E InputSceneComp with
                 | Some t => WithSelf (set_Transform t) o
                 | None => o
                 end)
      end
  | EHoudiniInputObjectType.Landscape =>
      match Cast UClass.HoudiniInputLandscape o with
      | None => ret (false, o)
      | Some InputLandscape =>
          if bPendingKill InputLandscape then ret (false, o)
          else
            match GetLandscapeProxy E InputLandscape with
            | None => ret (false, o)
            | Some Landscape =>
                if Actor_bPendingKill Landscape then ret (false, o)
                else
                  let CurrentTransform := Transform InputLandscape in
                  let NewTransform := Actor_Transform Landscape in
                  (* get the heightfield's current transform *)
                  let get := GetObjectTransform (InputObjectNodeId InputLandscape) in
                  '(ok, HFTransform) <-
                     (fun s => ((hapi_result E s get, hapi_transform E s get),
                                get :: s)) ;;
                  if negb ok then ret (false, o)
                  else
                    (* apply the position and rotation differences *)
                    let NewHAPITransform :=
                      LandscapeHeightfieldTransform E CurrentTransform
                        NewTransform HFTransform in
                    set <- call (SetObjectTransform
                                   (InputObjectNodeId InputLandscape)
                                   NewHAPITransform) ;;
                    if negb set then ret (false, o)
                    else
                      (* update the cached transform; the case then falls
                         through to the Brush case, which only breaks *)
                      ret (true, WithSelf (set_Transform NewTransform) o)
            end
      end
  | EHoudiniInputObjectType.InstancedStaticMeshComponent
  | EHoudiniInputObjectType.HoudiniSplineComponent
  | EHoudiniInputObjectType.HoudiniAssetActor
  | EHoudiniInputObjectType.HoudiniAssetComponent
  | EHoudiniInputObjectType.Brush
  | EHoudiniInputObjectType.Object
  | EHoudiniInputObjectType.SkeletalMesh
  | EHoudiniInputObjectType.SplineComponent
  | EHoudiniInputObjectType.Invalid
  | EHoudiniInputObjectType.CameraComponent
  | EHoudiniInputObjectType.DataTable => ret (true, o)
  end.

Definition UploadHoudiniInputTransform_ (InInput : option UHoudiniInput)
  (InInputObject : option InputObject) : M (bool * option InputObject) :=
  match InInput, InInputObject with
  | Some i, Some o =>
      '(bSuccess, o1) <- UploadHoudiniInputTransform_switch i o ;;
      let o2 :=
        if bSuccess then
          WithSelf (SetNeedsToTriggerUpdate false)
            (WithSelf (MarkTransformChanged false) o1)
        else
          (* keep it changed but prevent it from triggering updates *)
          WithSelf (SetNeedsToTriggerUpdate false) o1 in
      ret (bSuccess, Some o2)
  | _, _ => ret (false, InInputObject)
  end.

End UploadTransform.

(** As for the upload: a component is never an actor. *)
Definition UploadHoudiniInputComponentTransform
  (InInput : option UHoudiniInput)
  (CurrentComponent : option UHoudiniInputObject)
  : M (bool * option UHoudiniInputObject) :=
  '(b, o) <-
     UploadHoudiniInputTransform_
       (fun _ c => ret (false, c))
       InInput (option_map OfComponent CurrentComponent) ;;
  ret (b, option_map Self o).

Definition UploadHoudiniInputTransform :=
  UploadHoudiniInputTransform_ UploadHoudiniInputComponentTransform.

(** ** UploadInputTransform (lines 1111-1143) *)

Definition UploadInputTransform_object (InInput : UHoudiniInput)
  (CurrentInputObject : option InputObject) (bSuccess : bool)
  : M (option InputObject * bool) :=
  match CurrentInputObject with
  | None => ret (None, bSuccess)
  | Some o =>
      if bPendingKill o then ret (Some o, bSuccess)
      else if negb (bTransformChanged o) then ret (Some o, bSuccess)
      else
        '(ok, o') <- UploadHoudiniInputTransform (Some InInput) (Some o) ;;
        ret (o', if ok then bSuccess else false)
  end.

Definition UploadInputTransform (InInput : option UHoudiniInput)
  : M (bool * option UHoudiniInput) :=
  match InInput with
  | None => ret (false, None)
  | Some i =>
      if In_bPendingKill i then ret (false, Some i)
      else
        match InputObjects i (InputType i) with
        | None => ret (false, Some i)
        | Some InputObjectsArray =>
            '(objs, bSuccess) <-
               forEach (UploadInputTransform_object i) InputObjectsArray true ;;
            ret (bSuccess, Some (set_InputObjects (InputType i) objs i))
        end
  end.


(** ** UploadChangedInputs (lines 676-731) *)

(** The body of the loop over the component's inputs; the result is
    [None] when UploadInputData runs into its null pointer. *)
Definition UploadChangedInputs_input (CurrentInput : option UHoudiniInput)
  : M (option (option UHoudiniInput)) :=
  match CurrentInput with
  | None => ret (Some None)
  | Some i =>
      if In_bPendingKill i || negb (In_bHasChanged i) then ret (Some (Some i))
      else
        (* first thing, see if we need to change the input type *)
        i1 <- (if HasInputTypeChanged E i then
                 '(_, r) <- ChangeInputType (Some i) false ;;
                 ret (orSame i r)
               else ret i) ;;
        i2 <- (if EHoudiniInputType.eqb (InputType i1) EHoudiniInputType.Landscape
                  && bLandscapeExportTypeChanged i1
               then
                 '(_, r) <- DisconnectAndDestroyInput (Some i1) (InputType i1) ;;
                 ret (SetHasLandscapeExportTypeChanged false
                        (MarkAllInputObjectsChanged true (orSame i1 r)))
               else ret i1) ;;
        let bSuccess := true in
        uploaded <-
           (if IsDataUploadNeeded E i2 then
              r <- UploadInputData (Some i2) ;;
              match r with
              | None => ret None
              | Some (ok, r) =>
                  let bSuccess := bSuccess && ok in
                  ret (Some (bSuccess,
                             MarkDataUploadNeeded (negb bSuccess) (orSame i2 r)))
              end
            else ret (Some (bSuccess, i2))) ;;
        match uploaded with
        | None => ret None
        | Some (bSuccess, i3) =>
            '(bSuccess, i4) <-
               (if IsTransformUploadNeeded E i3 then
                  '(ok, r) <- UploadInputTransform (Some i3) ;;
                  ret (bSuccess && ok, orSame i3 r)
                else ret (bSuccess, i3)) ;;
            (* update the input properties after eventually uploading it;
               the result replaces bSuccess *)
            bSuccess <- UpdateInputProperties (Some i4) ;;
            let i5 :=
              if bSuccess
              then MarkAllInputObjectsChanged false (In_MarkChanged false i4)
              else i4 in
            let i6 :=
              if HasInputTypeChanged E i5
              then SetPreviousInputType EHoudiniInputType.Invalid i5
              else i5 in
            (* even if we failed, no need to try updating again *)
            ret (Some (Some (In_SetNeedsToTriggerUpdate false i6)))
        end
  end.

Fixpoint mapM {A B : Type} (f : A -> M B) (l : list A) : M (list B) :=
  match l with
  | [] => ret []
  | a :: l' => b <- f a ;; bs <- mapM f l' ;; ret (b :: bs)
  end.

(** A loop over an array that stops where its body runs into a null
    pointer. *)
Fixpoint mapM_until {A B : Type} (f : A -> M (option B)) (l : list A)
  : M (option (list B)) :=
  match l with
  | [] => ret (Some [])
  | a :: l' =>
      r <- f a ;;
      match r with
      | None => ret None
      | Some b =>
          rs <- mapM_until f l' ;;
          ret (option_map (cons b) rs)
      end
  end.

Definition UploadChangedInputs (HAC : option UHoudiniAssetComponent)
  : M (option (bool * option UHoudiniAssetComponent)) :=
  match HAC with
  | None => ret (Some (false, None))
  | Some h =>
      if HAC_bPendingKill h then ret (Some (false, Some h))
      else
        r <- mapM_until UploadChangedInputs_input (Inputs h) ;;
        match r with
        | None => ret None
        | Some inputs => ret (Some (true, Some (set_Inputs inputs h)))
        end
  end.

(** ** SetDefaultAssetFromHDA (lines 548-674) *)

Definition SetDefaultAssetFromHDA (Input : option UHoudiniInput)
  : M (bool * option UHoudiniInput) :=
  match Input with
  | None => ret (false, None)
  | Some i =>
      if In_bPendingKill i then ret (false, Some i)
      (* make sure we're linked to a valid object path parameter *)
      else if ParmId i <? 0 then ret (false, Some i)
      else
        '(ok, stringValuesIndex) <-
           call_int (GetParmInfo (AssetNodeId i) (ParmId i)) ;;
        if negb ok then ret (false, Some i)
        else
          '(ok, StringHandle) <-
             call_int (GetParmStringValues (AssetNodeId i) stringValuesIndex) ;;
          if negb ok then ret (false, Some i)
          else
            '(ok, ParamValue) <-
               (fun s => let c := ToFString StringHandle in
                         ((hapi_result E s c, hapi_string E s c), c :: s)) ;;
            if negb ok then ret (false, Some i)
            else if Z.of_nat (String.length ParamValue) <=? 0 then
              ret (false, Some i)
            else
              (* the objects and actors named by the value are preset *)
              fun s => ((true, Some (PresetDefaultObjects E s i ParamValue)), s)
  end.

(** ** BuildAllInputs (lines 111-301) *)

(** The value of an int32 sum: it wraps around when it leaves the range
    (the source does not guard the addition that gives InputCount). *)
Definition int32 (z : Z) : Z := (z + 2^31) mod 2^32 - 2^31.

(** FString::FromInt. *)
Definition FromInt (n : Z) : string := NilEmpty.string_of_int (Z.to_int n).

Definition InputObjectName (InputIdx : Z) : string :=
  ("Input" ++ FromInt (InputIdx + 1))%string.

(** The positions in Parameters of the object path parameters, in order:
    the array InputParameters. *)
Fixpoint InputParameterPositions (pos : nat) (Parameters : list UHoudiniParameter)
  : list nat :=
  match Parameters with
  | [] => []
  | Param :: rest =>
      match ParameterType Param with
      | Input => pos :: InputParameterPositions (S pos) rest
      | NotInput => InputParameterPositions (S pos) rest
      end
  end.

Fixpoint update_nth {A : Type} (n : nat) (f : A -> A) (l : list A) : list A :=
  match l, n with
  | [], _ => []
  | a :: l', O => f a :: l'
  | a :: l', S n' => a :: update_nth n' f l'
  end.

(** The loop that appends new inputs, from index [InputIdx] on. *)
Fixpoint AppendNewInputs (count : nat) (InputIdx : Z)
  (Inputs : list (option UHoudiniInput)) : M (list (option UHoudiniInput)) :=
  match count with
  | O => ret Inputs
  | S count' =>
      let InputObjectName := InputObjectName InputIdx in
      NewInput <- (fun s => (new_input E s InputObjectName,
                             NewObject InputObjectName :: s)) ;;
      if IsValidInput NewInput
      then AppendNewInputs count' (InputIdx + 1) (Inputs ++ [NewInput])
      else AppendNewInputs count' (InputIdx + 1) Inputs
  end.

(** The loop that disconnects and destroys the surplus inputs, the last
    one first. *)
Definition DestroySurplusInputs (surplus : list (option UHoudiniInput))
  : M unit :=
  forEach_ (fun CurrentInput : option UHoudiniInput =>
              match CurrentInput with
              | None => ret tt
              | Some i =>
                  if In_bPendingKill i then ret tt
                  else DisconnectAndDestroyInput (Some i) (InputType i) ;;;
                       ret tt
              end) (rev surplus).

(** The body of the loop that checks the inputs against the asset. *)
Definition BuildAllInputs_input (AssetId geoInputCount : Z) (InputIdx : Z)
  (CurrentInput : option UHoudiniInput) (Parameters : list UHoudiniParameter)
  : M (option UHoudiniInput * list UHoudiniParameter) :=
  match CurrentInput with
  | None => ret (None, Parameters)
  | Some i =>
      if In_bPendingKill i then ret (Some i, Parameters)
      else
        (* default name, label and help *)
        let CurrentInputName := InputObjectName InputIdx in
        let CurrentInputLabel := CurrentInputName in
        let CurrentInputHelp := EmptyString in
        let i1 := SetAssetNodeId AssetId i in
        let bIsObjectPath := InputIdx >=? geoInputCount in
        '(i2, (CurrentInputName, CurrentInputLabel, CurrentInputHelp), Parameters) <-
           (if negb bIsObjectPath then
              (* mark this input as a SOP input, get its name *)
              let i2 := SetSOPInput InputIdx i1 in
              '(ok, label) <-
                 (fun s => let c := GetNodeInputName AssetId InputIdx in
                           ((hapi_result E s c, hapi_string E s c), c :: s)) ;;
              ret (i2, (CurrentInputName,
                        if ok then label else CurrentInputLabel,
                        CurrentInputHelp), Parameters)
            else
              let CurrentParmIdx := InputIdx - geoInputCount in
              let InputParameters := InputParameterPositions 0 Parameters in
              let position :=
                if (0 <=? CurrentParmIdx) &&
                   (CurrentParmIdx <? Z.of_nat (Datatypes.length InputParameters))
                then nth_error InputParameters (Z.to_nat CurrentParmIdx)
                else None in
              let CurrentParm :=
                match position with
                | Some pos =>
                    match nth_error Parameters pos with
                    | Some Param => if Parm_bPendingKill Param then None
                                    else Some (pos, Param)
                    | None => None
                    end
                | None => None
                end in
              match CurrentParm with
              | Some (pos, Param) =>
                  ret (SetObjectPathParameter (Parm_ParmId Param) i1,
                       (ParameterName Param, ParameterLabel Param,
                        ParameterHelp Param),
                       if bIsOperatorPath Param
                       then update_nth pos (set_HoudiniInput (Some InputIdx))
                              Parameters
                       else Parameters)
              | None =>
                  ret (SetObjectPathParameter (-1) i1,
                       (CurrentInputName, CurrentInputLabel, CurrentInputHelp),
                       Parameters)
              end) ;;
        let i3 := SetLabel CurrentInputLabel (SetName CurrentInputName i2) in
        let CurrentInputHelp :=
          if Z.of_nat (String.length CurrentInputHelp) =? 0
          then (CurrentInputLabel ++ "(" ++ CurrentInputName ++ ")")%string
          else CurrentInputHelp in
        let i4 := SetHelp CurrentInputHelp i3 in
        (* an invalid input type is initialised to its default *)
        i5 <- (match InputType i4 with
               | EHoudiniInputType.Invalid =>
                   let i' := SetInputType E
                               (GetDefaultInputTypeFromLabel CurrentInputLabel)
                               i4 in
                   '(_, r) <- SetDefaultAssetFromHDA (Some i') ;;
                   ret (orSame i' r)
               | _ => ret i4
               end) ;;
        (* update the input objects on the host side *)
        i6 <- (match InputType i5 with
               | EHoudiniInputType.Curve =>
                   fun s => (UpdateHoudiniInputCurves E s i5, s)
               | _ => ret i5
               end) ;;
        ret (Some i6, Parameters)
  end.

Fixpoint BuildAllInputs_loop (AssetId geoInputCount : Z) (InputIdx : Z)
  (Inputs : list (option UHoudiniInput)) (Parameters : list UHoudiniParameter)
  : M (list (option UHoudiniInput) * list UHoudiniParameter) :=
  match Inputs with
  | [] => ret ([], Parameters)
  | CurrentInput :: rest =>
      '(i, Parameters1) <-
         BuildAllInputs_input AssetId geoInputCount InputIdx CurrentInput
           Parameters ;;
      '(rest', Parameters2) <-
         BuildAllInputs_loop AssetId geoInputCount (InputIdx + 1) rest
           Parameters1 ;;
      ret (i :: rest', Parameters2)
  end.

(** The result is [None] when the source runs into a failed array bound
    check: with a negative input count the loop over the surplus inputs
    reaches index -1. *)
Definition BuildAllInputs (AssetId : Z) (Inputs : list (option UHoudiniInput))
  (Parameters : list UHoudiniParameter)
  : M (option (bool * list (option UHoudiniInput) * list UHoudiniParameter)) :=
  (* ensure the asset has a valid node id *)
  if AssetId <? 0 then ret (Some (false, Inputs, Parameters))
  else
    '(ok, geoInputCount) <- call_int (GetAssetInfo AssetId) ;;
    if negb ok then ret (Some (false, Inputs, Parameters))
    else
      (* also look for object path parameter inputs *)
      let InputParameters := InputParameterPositions 0 Parameters in
      let InputCount :=
        int32 (geoInputCount + Z.of_nat (Datatypes.length InputParameters)) in
      let Num := Z.of_nat (Datatypes.length Inputs) in
      resized <-
        (if InputCount >? Num then
           r <- AppendNewInputs (Z.to_nat (InputCount - Num)) Num Inputs ;;
           ret (Some r)
         else if InputCount <? Num then
           DestroySurplusInputs (skipn (Z.to_nat InputCount) Inputs) ;;;
           if InputCount <? 0 then ret None
           else ret (Some (firstn (Z.to_nat InputCount) Inputs))
         else ret (Some Inputs)) ;;
      match resized with
      | None => ret None
      | Some Inputs1 =>
          '(Inputs2, Parameters2) <-
             BuildAllInputs_loop AssetId geoInputCount 0 Inputs1 Parameters ;;
          ret (Some (true, Inputs2, Parameters2))
      end.

(** ** FHoudiniMoveTracker (lines 77-93) and UpdateWorldInputs (2514-2549) *)

Inductive EditorDelegate :=
| OnBeginObjectMovement | OnEndObjectMovement
| OnBeginCameraMovement | OnEndCameraMovement.

Record FHoudiniMoveTracker := { IsObjectMoving : bool }.

(** The constructor; it registers the four lambdas. *)
Definition FHoudiniMoveTracker_new : FHoudiniMoveTracker :=
  {| IsObjectMoving := false |}.

(** The lambda registered for a delegate. *)
Definition FHoudiniMoveTracker_on (d : EditorDelegate)
  (t : FHoudiniMoveTracker) : FHoudiniMoveTracker :=
  match d with
  | OnBeginObjectMovement => {| IsObjectMoving := true |}
  | OnEndObjectMovement => {| IsObjectMoving := false |}
  | OnBeginCameraMovement => {| IsObjectMoving := false |}
  | OnEndCameraMovement => {| IsObjectMoving := false |}
  end.

(** The function-local static instance: [None] until the first Get(). *)
Definition FHoudiniMoveTracker_Get (g : option FHoudiniMoveTracker)
  : FHoudiniMoveTracker :=
  match g with Some t => t | None => FHoudiniMoveTracker_new end.

(** The editor broadcasting a delegate: only a constructed tracker has
    lambdas registered. *)
Definition Broadcast (d : EditorDelegate) (g : option FHoudiniMoveTracker)
  : option FHoudiniMoveTracker :=
  option_map (FHoudiniMoveTracker_on d) g.

(** UpdateWorldInput (lines 2551-2660): its guards, and the scan of the
    level as the engine's answer. *)
Definition UpdateWorldInput (InInput : option UHoudiniInput)
  : bool * option UHoudiniInput :=
  match InInput with
  | None => (false, None)
  | Some i =>
      if In_bPendingKill i then (false, Some i)
      else
        match InputType i with
        | EHoudiniInputType.World =>
            match InputObjects i EHoudiniInputType.World with
            | None => (false, Some i)
            | Some _ =>
                let '(objs, bHasChanged) := ScanWorldInput E i in
                let i1 := set_InputObjects EHoudiniInputType.World objs i in
                (true, Some (if bHasChanged then In_MarkChanged true i1 else i1))
            end
        | _ => (false, Some i)
        end
  end.

(** UpdateWorldInputs in an editor build (WITH_EDITOR); [g] is the static
    tracker instance. *)
Definition UpdateWorldInputs (HAC : option UHoudiniAssetComponent)
  (g : option FHoudiniMoveTracker)
  : bool * option UHoudiniAssetComponent * option FHoudiniMoveTracker :=
  match HAC with
  | None => (false, None, g)
  | Some h =>
      if HAC_bPendingKill h then (false, Some h, g)
      else
        (* only tick/cook when in editor *)
        let bNotEditor :=
          match Owner h with
          | Some ActorOwner =>
              match World ActorOwner with
              | None => true
              | Some EWorldType.Editor => false
              | Some _ => true
              end
          | None => false
          end in
        if bNotEditor then (false, Some h, g)
        else
          let t := FHoudiniMoveTracker_Get g in
          (* no recooks while input objects are dragged around *)
          if IsObjectMoving t then (false, Some h, Some t)
          else
            (true,
             Some (set_Inputs
                     (map (fun CurrentInput : option UHoudiniInput =>
                             match CurrentInput with
                             | None => None
                             | Some i =>
                                 match InputType i with
                                 | EHoudiniInputType.World =>
                                     snd (UpdateWorldInput (Some i))
                                 | _ => Some i
                                 end
                             end) (Inputs h)) h),
             Some t)
  end.

(** ** UpdateInputs (lines 96-109) and UpdateLoadedInputs (lines 2481-2512) *)

(** HAC->Inputs and HAC->Parameters, which BuildAllInputs works on by
    reference. *)
Definition set_Inputs_Parameters (v : list (option UHoudiniInput))
  (p : list UHoudiniParameter) (h : UHoudiniAssetComponent) :=
  mkHAC (HAC_bPendingKill h) (AssetId h) v p (Owner h).

Definition UpdateInputs (HAC : option UHoudiniAssetComponent)
  : M (option (bool * option UHoudiniAssetComponent)) :=
  match HAC with
  | None => ret (Some (false, None))
  | Some h =>
      if HAC_bPendingKill h then ret (Some (false, Some h))
      else
        r <- BuildAllInputs (AssetId h) (Inputs h) (Parameters h) ;;
        match r with
        | None => ret None
        | Some (ok, Inputs', Parameters') =>
            (* failed to create the inputs, or not *)
            ret (Some (ok, Some (set_Inputs_Parameters Inputs' Parameters' h)))
        end
  end.

(** The body of the loop of UpdateLoadedInputs over HAC->Inputs. *)
Definition UpdateLoadedInputs_input (HACAssetId : Z)
  (CurrentInput : option UHoudiniInput) : M (option UHoudiniInput) :=
  match CurrentInput with
  | None => ret None
  | Some i =>
      if In_bPendingKill i then ret (Some i)
      else
        let i1 := SetAssetNodeId HACAssetId i in
        (* delete the nodes created for the input objects: the node ids
           are transient *)
        '(_, r) <- DestroyInputNodes (Some i1) (InputType i1) ;;
        ret (Some (orSame i1 r))
  end.

Definition UpdateLoadedInputs (HAC : option UHoudiniAssetComponent)
  : M (option (bool * option UHoudiniAssetComponent)) :=
  match HAC with
  | None => ret (Some (false, None))
  | Some h =>
      if HAC_bPendingKill h then ret (Some (false, Some h))
      else
        r <- BuildAllInputs (AssetId h) (Inputs h) (Parameters h) ;;
        match r with
        | None => ret None
        | Some (false, Inputs', Parameters') =>
            ret (Some (false, Some (set_Inputs_Parameters Inputs' Parameters' h)))
        | Some (true, Inputs', Parameters') =>
            let HACAssetId := AssetId h in
            inputs <- mapM (UpdateLoadedInputs_input HACAssetId) Inputs' ;;
            ret (Some (true, Some (set_Inputs_Parameters inputs Parameters' h)))
        end
  end.

End WithEngine.
End InputTranslator.

(* ===================================================================== *)
(** * The translators that marshal through HAPI themselves                *)
(* ===================================================================== *)

Module Marshalling.
Import HoudiniInput Api InputTranslator.

(** The point attributes the translators create, named by the macros of
    HoudiniEnginePrivatePCH.h; the name of a data table column is the
    macro HAPI_UNREAL_ATTRIB_DATA_TABLE_PREFIX followed by the given
    text. *)
Inductive AttributeName :=
| HAPI_UNREAL_ATTRIB_POSITION
| HAPI_UNREAL_ATTRIB_OBJECT_PATH
| HAPI_UNREAL_ATTRIB_INSTANCE_OVERRIDE
| HAPI_UNREAL_ATTRIB_DATA_TABLE_ROWSTRUCT
| HAPI_UNREAL_ATTRIB_DATA_TABLE_PREFIX (rest : string).

Inductive HAPI_StorageType := HAPI_STORAGETYPE_FLOAT | HAPI_STORAGETYPE_STRING.

(** The fields of HAPI_AttributeInfo that differ between the uses; in
    every use [exists] is true, the owner is HAPI_ATTROWNER_POINT and the
    original owner HAPI_ATTROWNER_INVALID. *)
Record HAPI_AttributeInfo := {
  count : Z;
  tupleSize : Z;
  storage : HAPI_StorageType
}.

(** The fields of HAPI_PartInfo that differ between the uses; the type is
    HAPI_PARTTYPE_MESH in every use. *)
Record HAPI_PartInfo := {
  pointAttributeCount : Z;       (* attributeCounts[HAPI_ATTROWNER_POINT] *)
  vertexCount : Z;
  faceCount : Z;
  pointCount : Z
}.

(** The calls of these translators: those of [ApiCall], and the calls
    that build the geometry of an input node.  Floats are kept as bit
    patterns. *)
Inductive GeoCall :=
| Api (c : ApiCall)
| CreateInputNode (name : string)
| SetPartInfo (node : Z) (part : HAPI_PartInfo)
| AddAttribute (node : Z) (name : AttributeName) (info : HAPI_AttributeInfo)
| SetAttributeFloatData (node : Z) (name : AttributeName)
    (info : HAPI_AttributeInfo) (data : list Z)
| SetAttributeStringData (node : Z) (name : AttributeName)
    (info : HAPI_AttributeInfo) (data : list string)
    (* FHoudiniApi::SetAttributeStringData *)
| Utils_SetAttributeStringData (data : list string) (node : Z)
    (name : AttributeName) (info : HAPI_AttributeInfo)
    (* FHoudiniEngineUtils::SetAttributeStringData *)
| CommitGeo (node : Z)
| CookNode (node : Z).

Definition Log := list GeoCall.

(** A host object behind an input object. *)
Record UObject := {
  Obj_bPendingKill : bool;
  Obj_Name : string;              (* GetName()     *)
  Obj_PathName : string           (* GetPathName() *)
}.

Record UDataTable := {
  Table_bPendingKill : bool;
  Table_Name : string;
  Table_PathName : string;
  RowStructName : string;         (* GetRowStructName().ToString() *)
  TableData : list (list string)  (* GetTableData(EDataTableExportFlags::None) *)
}.

(** What the session and the host engine answer. *)
Record Host := {
  geo_result : Log -> GeoCall -> bool;   (* HAPI_RESULT_SUCCESS, or the bool *)
  geo_node : Log -> GeoCall -> Z;        (* the node id written or returned *)
  GetObject : UHoudiniInputObject -> option UObject;
  GetSkeletalMesh : UHoudiniInputObject -> option UObject;
  GetSceneComponent : UHoudiniInputObject -> option UObject;
  GetDataTable : UHoudiniInputObject -> option UDataTable;
  (* FTransform::GetLocation(): X, Y and Z *)
  GetLocation : FTransform -> Z * Z * Z;
  (* the product with HAPI_UNREAL_SCALE_FACTOR_POSITION *)
  ScalePosition : Z -> Z;
  (* the conversion (float)RowIdx *)
  FloatOfInt : Z -> Z
}.

Definition G (A : Type) : Type := Log -> A * Log.

Definition gret {A} (a : A) : G A := fun s => (a, s).

Definition gbind {A B} (m : G A) (k : A -> G B) : G B :=
  fun s => let (a, s') := m s in k a s'.

Section WithHost.

Variable H : Host.

Definition gcall (c : GeoCall) : G bool :=
  fun s => (geo_result H s c, c :: s).

Definition gcall_int (c : GeoCall) : G (bool * Z) :=
  fun s => ((geo_result H s c, geo_node H s c), c :: s).

(** HOUDINI_CHECK_ERROR_RETURN(call, failed): the function returns
    [failed] when the call does not succeed. *)
Definition checked {A} (c : GeoCall) (failed : A) (k : G A) : G A :=
  gbind (gcall c) (fun ok => if ok then k else gret failed).

(** FHoudiniEngineUtils::HapiGetParentNodeId. *)
Definition GetParentNodeId (node : Z) : G Z :=
  gbind (gcall_int (Api (HapiGetParentNodeId node))) (fun r => gret (snd r)).

(** The position of an object as Houdini wants it: scaled, with Y and Z
    swapped. *)
Definition HoudiniPosition (InTransform : FTransform) : list Z :=
  let '(X, Y, Z) := GetLocation H InTransform in
  [ScalePosition H X; ScalePosition H Z; ScalePosition H Y].

(** ** HapiCreateInputNodeForObject (lines 1630-1723) *)

Definition HapiCreateInputNodeForObject (InObjNodeName : string)
  (InObject : option UHoudiniInputObject)
  : G (bool * option UHoudiniInputObject) :=
  match InObject with
  | None => gret (false, None)
  | Some o =>
      match GetObject H o with
      | None => gret (true, Some o)
      | Some Object =>
          if Obj_bPendingKill Object then gret (true, Some o)
          else
            let NodeName := (InObjNodeName ++ "_" ++ Obj_Name Object)%string in
            (* an input node with a single point, with an attribute
               pointing to the input object's path *)
            gbind (gcall_int (CreateInputNode NodeName)) (fun '(ok, InputNodeId) =>
            if negb ok then gret (false, Some o)
            else
              (* update this input object's NodeId and ObjectNodeId *)
              gbind (GetParentNodeId InputNodeId) (fun Parent =>
              let o1 := set_InputObjectNodeId Parent
                          (set_InputNodeId InputNodeId o) in
              let failed := (false, Some o1) in
              let Part := {| pointAttributeCount := 2; vertexCount := 0;
                             faceCount := 0; pointCount := 1 |} in
              checked (SetPartInfo InputNodeId Part) failed (
              (* point attribute info for P *)
              let AttributeInfoPoint :=
                {| count := 1; tupleSize := 3;
                   storage := HAPI_STORAGETYPE_FLOAT |} in
              checked (AddAttribute InputNodeId HAPI_UNREAL_ATTRIB_POSITION
                         AttributeInfoPoint) failed (
              let Position := HoudiniPosition (Transform o1) in
              checked (SetAttributeFloatData InputNodeId
                         HAPI_UNREAL_ATTRIB_POSITION AttributeInfoPoint
                         Position) failed (
              (* point attribute info for the path *)
              let AttributeInfoPoint :=
                {| count := 1; tupleSize := 1;
                   storage := HAPI_STORAGETYPE_STRING |} in
              checked (AddAttribute InputNodeId HAPI_UNREAL_ATTRIB_OBJECT_PATH
                         AttributeInfoPoint) failed (
              let ObjectPathName := Obj_PathName Object in
              checked (Utils_SetAttributeStringData [ObjectPathName]
                         InputNodeId HAPI_UNREAL_ATTRIB_OBJECT_PATH
                         AttributeInfoPoint) failed (
              (* commit the geo *)
              checked (CommitGeo InputNodeId) failed (
              gret (true, Some o1)))))))))
      end
  end.

(** ** HapiCreateInputNodeForSkeletalMesh (lines 1894-1912) and
    HapiCreateInputNodeForSceneComponent (lines 1914-1936) *)

Definition HapiCreateInputNodeForSkeletalMesh (InObjNodeName : string)
  (InObject : option UHoudiniInputObject)
  : G (bool * option UHoudiniInputObject) :=
  match InObject with
  | None => gret (false, None)
  | Some o =>
      if bPendingKill o then gret (false, Some o)
      else
        match GetSkeletalMesh H o with
        | None => gret (true, Some o)
        | Some SkelMesh =>
            if Obj_bPendingKill SkelMesh then gret (true, Some o)
            else HapiCreateInputNodeForObject InObjNodeName (Some o)
        end
  end.

Definition HapiCreateInputNodeForSceneComponent (InObjNodeName : string)
  (InObject : option UHoudiniInputObject)
  : G (bool * option UHoudiniInputObject) :=
  match InObject with
  | None => gret (false, None)
  | Some o =>
      if bPendingKill o then gret (false, Some o)
      else
        match GetSceneComponent H o with
        | None => gret (true, Some o)
        | Some SceneComp =>
            if Obj_bPendingKill SceneComp then gret (true, Some o)
            else
              (* Dont do that! *)
              gret (false, Some o)
        end
  end.

(** ** CreateInputNodeForReference (lines 2663-2786)

    [InputNodeId] is passed by reference: the result carries its value
    when the function returns. *)
Definition CreateInputNodeForReference (InputNodeId : Z)
  (InRef InputNodeName : string) (InTransform : FTransform)
  : G (bool * Z) :=
  let failed := (false, InputNodeId) in
  (* create a single input node *)
  gbind (gcall_int (CreateInputNode InputNodeName)) (fun '(ok, NewNodeId) =>
  if negb ok then gret failed
  else
    (* check if we have a valid id for this new input asset *)
    gbind (gcall (Api (IsHoudiniNodeValid NewNodeId))) (fun valid =>
    if negb valid then gret failed
    else
      (* we have now created a valid new input node, delete the previous
         one *)
      let PreviousInputNodeId := InputNodeId in
      gbind (if PreviousInputNodeId >=? 0 then
               (* get the parent OBJ node id before deleting *)
               gbind (GetParentNodeId PreviousInputNodeId)
                 (fun PreviousInputOBJNode =>
               gbind (gcall (Api (DeleteNode PreviousInputNodeId))) (fun _ =>
               gbind (gcall (Api (DeleteNode PreviousInputOBJNode))) (fun _ =>
               gret tt)))
             else gret tt) (fun _ =>
      (* a part containing one point with a point attribute *)
      let PartInfo := {| pointAttributeCount := 1; vertexCount := 0;
                         faceCount := 0; pointCount := 1 |} in
      checked (SetPartInfo NewNodeId PartInfo) failed (
      (* point position attribute *)
      let AttributeInfoPoint :=
        {| count := 1; tupleSize := 3; storage := HAPI_STORAGETYPE_FLOAT |} in
      checked (AddAttribute NewNodeId HAPI_UNREAL_ATTRIB_POSITION
                 AttributeInfoPoint) failed (
      let Position := HoudiniPosition InTransform in
      checked (SetAttributeFloatData NewNodeId HAPI_UNREAL_ATTRIB_POSITION
                 AttributeInfoPoint Position) failed (
      (* string attribute *)
      let AttributeInfoPoint :=
        {| count := 1; tupleSize := 1; storage := HAPI_STORAGETYPE_STRING |} in
      checked (AddAttribute NewNodeId HAPI_UNREAL_ATTRIB_INSTANCE_OVERRIDE
                 AttributeInfoPoint) failed (
      checked (SetAttributeStringData NewNodeId
                 HAPI_UNREAL_ATTRIB_INSTANCE_OVERRIDE AttributeInfoPoint
                 [InRef]) failed (
      (* commit the geo *)
      checked (CommitGeo NewNodeId) failed (
      gret (true, NewNodeId)))))))))).

(** ** HapiCreateInputNodeForDataTable (lines 2789-2968) *)

(** AttributeValues: the entry of the column in each row after the first;
    [None] when a row has no such entry, where the source runs into a
    failed array bound check. *)
Fixpoint ColumnValues (Rows : list (list string)) (ColIdx : nat)
  : option (list string) :=
  match Rows with
  | [] => Some []
  | Row :: rest =>
      match nth_error Row ColIdx, ColumnValues rest ColIdx with
      | Some v, Some vs => Some (v :: vs)
      | _, _ => None
      end
  end.

(** The loop over the columns of the table; the result is [None] at a
    failed array bound check. *)
Fixpoint UploadColumns {A : Type} (InputNodeId NumRows : Z)
  (TableData : list (list string)) (Columns : list Z)
  (failed : option A) (k : G (option A)) : G (option A) :=
  match Columns with
  | [] => k
  | ColIdx :: rest =>
      match nth_error (nth 0 TableData []) (Z.to_nat ColIdx),
            ColumnValues (tl TableData) (Z.to_nat ColIdx) with
      | Some ColName, Some AttributeValues =>
          (* the attribute name is the prefix, the index and the name of
             the column *)
          let CurAttrName :=
            HAPI_UNREAL_ATTRIB_DATA_TABLE_PREFIX
              (FromInt ColIdx ++ "_" ++ ColName) in
          let AttributeInfo :=
            {| count := NumRows; tupleSize := 1;
               storage := HAPI_STORAGETYPE_STRING |} in
          checked (AddAttribute InputNodeId CurAttrName AttributeInfo) failed (
          checked (Utils_SetAttributeStringData AttributeValues InputNodeId
                     CurAttrName AttributeInfo) failed (
          UploadColumns InputNodeId NumRows TableData rest failed k))
      | _, _ => gret None
      end
  end.

Definition HapiCreateInputNodeForDataTable (InNodeName : string)
  (InInputObject : option UHoudiniInputObject)
  : G (option (bool * option UHoudiniInputObject)) :=
  match InInputObject with
  | None => gret (Some (false, None))
  | Some o =>
      if bPendingKill o then gret (Some (false, Some o))
      else
        match GetDataTable H o with
        | None => gret (Some (true, Some o))
        | Some DataTable =>
            if Table_bPendingKill DataTable then gret (Some (true, Some o))
            else
              (* the data of the table as strings *)
              let TableData := TableData DataTable in
              if Z.of_nat (Datatypes.length TableData) <=? 1
              then gret (Some (true, Some o))
              else
                let NumRows := Z.of_nat (Datatypes.length TableData) - 1 in
                let NumAttributes :=
                  Z.of_nat (Datatypes.length (nth 0 TableData [])) in
                if (NumRows <=? 0) || (NumAttributes <=? 0)
                then gret (Some (true, Some o))
                else
                  (* create the input node *)
                  let NodeName :=
                    (InNodeName ++ "_" ++ Table_Name DataTable)%string in
                  gbind (gcall_int (CreateInputNode NodeName))
                    (fun '(ok, InputNodeId) =>
                  if negb ok then gret (Some (false, Some o))
                  else
                    gbind (GetParentNodeId InputNodeId) (fun Parent =>
                    let o1 := set_InputObjectNodeId Parent
                                (set_InputNodeId InputNodeId o) in
                    let failed := Some (false, Some o1) in
                    let Part := {| pointAttributeCount := NumAttributes;
                                   vertexCount := 0; faceCount := 0;
                                   pointCount := NumRows |} in
                    checked (SetPartInfo InputNodeId Part) failed (
                    (* point attribute info for P *)
                    let AttributeInfoPoint :=
                      {| count := NumRows; tupleSize := 3;
                         storage := HAPI_STORAGETYPE_FLOAT |} in
                    checked (AddAttribute InputNodeId
                               HAPI_UNREAL_ATTRIB_POSITION AttributeInfoPoint)
                      failed (
                    let Positions :=
                      flat_map (fun RowIdx => [0; FloatOfInt H RowIdx; 0])
                        (upto NumRows) in
                    checked (SetAttributeFloatData InputNodeId
                               HAPI_UNREAL_ATTRIB_POSITION AttributeInfoPoint
                               Positions) failed (
                    (* point attribute info for the path *)
                    let AttributeInfoPoint :=
                      {| count := NumRows; tupleSize := 1;
                         storage := HAPI_STORAGETYPE_STRING |} in
                    checked (AddAttribute InputNodeId
                               HAPI_UNREAL_ATTRIB_OBJECT_PATH
                               AttributeInfoPoint) failed (
                    let ObjectPaths :=
                      repeat (Table_PathName DataTable) (Z.to_nat NumRows) in
                    checked (Utils_SetAttributeStringData ObjectPaths
                               InputNodeId HAPI_UNREAL_ATTRIB_OBJECT_PATH
                               AttributeInfoPoint) failed (
                    (* the class name of the row struct *)
                    checked (AddAttribute InputNodeId
                               HAPI_UNREAL_ATTRIB_DATA_TABLE_ROWSTRUCT
                               AttributeInfoPoint) failed (
                    let RowStructNames :=
                      repeat (RowStructName DataTable) (Z.to_nat NumRows) in
                    checked (Utils_SetAttributeStringData RowStructNames
                               InputNodeId
                               HAPI_UNREAL_ATTRIB_DATA_TABLE_ROWSTRUCT
                               AttributeInfoPoint) failed (
                    (* the values of each column *)
                    UploadColumns InputNodeId NumRows TableData
                      (upto NumAttributes) failed (
                    (* commit the geo, and cook *)
                    checked (CommitGeo InputNodeId) failed (
                    checked (CookNode InputNodeId) failed (
                    gret (Some (true, Some o1))))))))))))))
        end
  end.

End WithHost.

End Marshalling.

(* ===================================================================== *)
(** * The objects of an output in the detail panel                        *)
(* ===================================================================== *)

Module OutputObjects.
Import InputTranslator.

(** The classes Cast<> is asked for. *)
Inductive UClass :=
| UStaticMesh | UHoudiniStaticMesh | UHoudiniLandscapePtr
| UHoudiniLandscapeEditLayer | USceneComponent.

(** An object of the host engine; [IsA] answers for its dynamic class. *)
Record UObject := {
  IsA : UClass -> bool;
  Obj_bPendingKill : bool;        (* IsPendingKill() *)
  Obj_Name : string;              (* GetName()       *)
  Obj_FullName : string           (* GetFullName()   *)
}.

Definition Cast (T : UClass) (p : option UObject) : option UObject :=
  match p with
  | Some o => if IsA o T then Some o else None
  | None => None
  end.

(** [!Ptr || Ptr->IsPendingKill()] *)
Definition Gone (p : option UObject) : bool :=
  match p with
  | Some o => Obj_bPendingKill o
  | None => true
  end.

Record FHoudiniOutputObject := {
  OutputObject : option UObject;
  OutputComponent : option UObject;
  ProxyObject : option UObject;
  bProxyIsCurrent : bool;
  BakeName : string
}.

Definition set_BakeName (v : string) (o : FHoudiniOutputObject) :=
  {| OutputObject := OutputObject o; OutputComponent := OutputComponent o;
     ProxyObject := ProxyObject o; bProxyIsCurrent := bProxyIsCurrent o;
     BakeName := v |}.

Record AActor := {
  Actor_bPendingKill : bool;
  Actor_Name : string
}.

Record UHoudiniAssetComponent := {
  HAC_bPendingKill : bool;
  HAC_Name : string;
  Owner : option AActor;          (* GetOwner()                  *)
  HoudiniAsset : option string;   (* GetHoudiniAsset(): its name *)
  BakeFolder_Path : string        (* BakeFolder.Path             *)
}.

Definition LF : string := String (ascii_of_nat 10) EmptyString.

Section WithParts.

(** FHoudiniOutputObjectIdentifier with its comparison, and the members
    of FHoudiniGeoPartObject that are read here; the part types, their
    names, the match of an identifier with a part and the default part
    are those of HoudiniOutput.h and HoudiniGeoPartObject.h. *)
Variable Identifier : Type.
Variable Identifier_eqb : Identifier -> Identifier -> bool.   (* operator== *)
Variable EHoudiniPartType : Type.
Variable HoudiniPartTypeToString : EHoudiniPartType -> string.

Record FHoudiniGeoPartObject := {
  PartName : string;
  Type_ : EHoudiniPartType;
  SplitGroups : list string;
  VolumeName : string;
  VolumeTileIndex : Z
}.

Variable Matches : Identifier -> FHoudiniGeoPartObject -> bool.
Variable DefaultHGPO : FHoudiniGeoPartObject.   (* FHoudiniGeoPartObject() *)

(** The output objects are kept in the order the map is gone through. *)
Record UHoudiniOutput := {
  bPendingKill : bool;
  Outer : option UHoudiniAssetComponent;
      (* Cast<UHoudiniAssetComponent>(GetOuter()) *)
  HoudiniGeoPartObjects : list FHoudiniGeoPartObject;
  OutputObjects : list (Identifier * FHoudiniOutputObject)
}.

Definition set_OutputObjects (v : list (Identifier * FHoudiniOutputObject))
  (o : UHoudiniOutput) :=
  {| bPendingKill := bPendingKill o; Outer := Outer o;
     HoudiniGeoPartObjects := HoudiniGeoPartObjects o;
     OutputObjects := v |}.

(** ** The bake name of an output object (lines 3624-3654) *)

(** TMap::Find: the value kept for the key. *)
Fixpoint Find (Key : Identifier) (m : list (Identifier * FHoudiniOutputObject))
  : option FHoudiniOutputObject :=
  match m with
  | [] => None
  | (k, v) :: rest => if Identifier_eqb k Key then Some v else Find Key rest
  end.

(** A write through the pointer that Find has given. *)
Fixpoint WriteFound (Key : Identifier)
  (f : FHoudiniOutputObject -> FHoudiniOutputObject)
  (m : list (Identifier * FHoudiniOutputObject)) :=
  match m with
  | [] => []
  | (k, v) :: rest =>
      if Identifier_eqb k Key then (k, f v) :: rest
      else (k, v) :: WriteFound Key f rest
  end.

Definition OnBakeNameCommitted (Val : string)
  (InOutput : option UHoudiniOutput) (InIdentifier : Identifier)
  : option UHoudiniOutput :=
  match InOutput with
  | None => None
  | Some o =>
      match Find InIdentifier (OutputObjects o) with
      | None => Some o
      | Some FoundOutputObject =>
          Some (set_OutputObjects
                  (WriteFound InIdentifier (set_BakeName Val)
                     (OutputObjects o)) o)
      end
  end.

Definition OnRevertBakeNameToDefault (InOutput : option UHoudiniOutput)
  (InIdentifier : Identifier) : option UHoudiniOutput :=
  match InOutput with
  | None => None
  | Some o =>
      match Find InIdentifier (OutputObjects o) with
      | None => Some o
      | Some FoundOutputObject =>
          Some (set_OutputObjects
                  (WriteFound InIdentifier (set_BakeName EmptyString)
                     (OutputObjects o)) o)
      end
  end.

(** ** The widgets of the mesh, landscape and curve outputs
    (lines 134-175 and 930-1027) *)

(** The builders of the rows, each with the arguments that vary: the
    pointer to the object shown, its identifier, and what is said about
    it. *)
Inductive Widget :=
| CreateStaticMeshAndMaterialWidgets (StaticMesh : option UObject)
    (OutputIdentifier : Identifier) (HoudiniAssetName BakeFolder : string)
    (HGPO : FHoudiniGeoPartObject) (bIsProxyMeshCurrent : bool)
| CreateProxyMeshAndMaterialWidgets (ProxyMesh : option UObject)
    (OutputIdentifier : Identifier) (HoudiniAssetName BakeFolder : string)
    (HGPO : FHoudiniGeoPartObject)
| CreateLandscapeOutputWidget_Helper (HGPO : FHoudiniGeoPartObject)
    (LandscapePointer : UObject) (OutputIdentifier : Identifier)
| CreateLandscapeEditLayerOutputWidget_Helper (HGPO : FHoudiniGeoPartObject)
    (LandscapeLayer : UObject) (OutputIdentifier : Identifier)
| CreateCurveWidgets (SplineComponent : UObject)
    (CurrentOutputObject : FHoudiniOutputObject)
    (OutputIdentifier : Identifier) (HGPO : FHoudiniGeoPartObject).

(** The loop that looks for the part of an identifier: the first part
    that matches. *)
Definition FindHGPO (Id : Identifier) (HGPOs : list FHoudiniGeoPartObject)
  : option FHoudiniGeoPartObject :=
  find (Matches Id) HGPOs.

Definition HGPOOrDefault (Id : Identifier)
  (HGPOs : list FHoudiniGeoPartObject) : FHoudiniGeoPartObject :=
  match FindHGPO Id HGPOs with
  | Some HGPO => HGPO
  | None => DefaultHGPO
  end.

Definition CreateLandscapeOutputWidget (InOutput : option UHoudiniOutput)
  : list Widget :=
  match InOutput with
  | None => []
  | Some o =>
      if bPendingKill o then []
      else
        flat_map (fun CurrentOutputObj : Identifier * FHoudiniOutputObject =>
          let (Id, Value) := CurrentOutputObj in
          match FindHGPO Id (HoudiniGeoPartObjects o) with
          | None => []
          | Some HGPO =>
              match Cast UHoudiniLandscapePtr (OutputObject Value) with
              | Some LandscapePointer =>
                  [CreateLandscapeOutputWidget_Helper HGPO LandscapePointer Id]
              | None =>
                  match Cast UHoudiniLandscapeEditLayer (OutputObject Value) with
                  | Some LandscapeLayer =>
                      [CreateLandscapeEditLayerOutputWidget_Helper HGPO
                         LandscapeLayer Id]
                  | None => []
                  end
              end
          end) (OutputObjects o)
  end.

(** The name of the asset shown with a mesh. *)
Definition HoudiniAssetNameOf (HAC : UHoudiniAssetComponent) : string :=
  match Owner HAC with
  | Some owner =>
      if Actor_bPendingKill owner then Actor_Name owner
      else
        match HoudiniAsset HAC with
        | Some name => name
        | None => HAC_Name HAC
        end
  | None =>
      match HoudiniAsset HAC with
      | Some name => name
      | None => HAC_Name HAC
      end
  end.

Definition CreateMeshOutputWidget (InOutput : option UHoudiniOutput)
  : list Widget :=
  match InOutput with
  | None => []
  | Some o =>
      if bPendingKill o then []
      else
        match Outer o with
        | None => []
        | Some HAC =>
            if HAC_bPendingKill HAC then []
            else
              let HoudiniAssetName := HoudiniAssetNameOf HAC in
              flat_map (fun IterObject : Identifier * FHoudiniOutputObject =>
                let (OutputIdentifier, Value) := IterObject in
                let StaticMesh := Cast UStaticMesh (OutputObject Value) in
                let ProxyMesh := Cast UHoudiniStaticMesh (ProxyObject Value) in
                if Gone StaticMesh && Gone ProxyMesh then []
                else
                  (* the corresponding HGPO in the output *)
                  let HoudiniGeoPartObject :=
                    HGPOOrDefault OutputIdentifier (HoudiniGeoPartObjects o) in
                  if negb (Gone StaticMesh) then
                    (* a static mesh is always displayed, even if the
                       proxy is more recent *)
                    [CreateStaticMeshAndMaterialWidgets StaticMesh
                       OutputIdentifier HoudiniAssetName
                       (BakeFolder_Path HAC) HoudiniGeoPartObject
                       (bProxyIsCurrent Value)]
                  else
                    (* only a proxy mesh: the proxy widget *)
                    [CreateProxyMeshAndMaterialWidgets ProxyMesh
                       OutputIdentifier HoudiniAssetName
                       (BakeFolder_Path HAC) HoudiniGeoPartObject]) (OutputObjects o)
        end
  end.

Definition CreateCurveOutputWidget (InOutput : option UHoudiniOutput)
  : list Widget :=
  match InOutput with
  | None => []
  | Some o =>
      if bPendingKill o then []
      else
        flat_map (fun IterObject : Identifier * FHoudiniOutputObject =>
          let (OutputIdentifier, CurrentOutputObject) := IterObject in
          match Cast USceneComponent (OutputComponent CurrentOutputObject) with
          | None => []
          | Some SplineComponent =>
              if Obj_bPendingKill SplineComponent then []
              else
                [CreateCurveWidgets SplineComponent CurrentOutputObject
                   OutputIdentifier
                   (HGPOOrDefault OutputIdentifier (HoudiniGeoPartObjects o))]
          end) (OutputObjects o)
  end.

(** ** GetOutputDebugDescription (lines 2063-2117)

    The output is dereferenced without a check: the function is given
    the output itself. *)

(** The line of one part. *)
Definition DescribeHGPO (OutputValStr : string) (HGPO : FHoudiniGeoPartObject)
  : string :=
  let OutputValStr :=
    (OutputValStr ++ " - " ++ PartName HGPO ++ " ("
     ++ HoudiniPartTypeToString (Type_ HGPO) ++ ")")%string in
  let OutputValStr :=
    if Z.of_nat (Datatypes.length (SplitGroups HGPO)) >? 0 then
      let OutputValStr :=
        (OutputValStr ++ "( "
         ++ FromInt (Z.of_nat (Datatypes.length (SplitGroups HGPO)))
         ++ " splits:")%string in
      let OutputValStr :=
        fold_left (fun acc split => (acc ++ " " ++ split)%string)
          (SplitGroups HGPO) OutputValStr in
      (OutputValStr ++ ")")%string
    else OutputValStr in
  let OutputValStr :=
    if negb (String.eqb (VolumeName HGPO) EmptyString) then
      let OutputValStr :=
        (OutputValStr ++ "( " ++ VolumeName HGPO)%string in
      let OutputValStr :=
        if VolumeTileIndex HGPO >=? 0
        then (OutputValStr ++ " tile " ++ FromInt (VolumeTileIndex HGPO))%string
        else OutputValStr in
      (OutputValStr ++ " )")%string
    else OutputValStr in
  (OutputValStr ++ LF)%string.

(** The lines of the output objects; [None] where the null object of an
    entry is dereferenced. *)
Fixpoint DescribeObjects (OutputValStr : string)
  (AllOutputObj : list (Identifier * FHoudiniOutputObject)) : option string :=
  match AllOutputObj with
  | [] => Some OutputValStr
  | (_, Value) :: rest =>
      let OutObject := OutputObject Value in
      let OutputValStr :=
        match OutObject with
        | Some obj => (OutputValStr ++ Obj_FullName obj ++ " (obj)" ++ LF)%string
        | None => OutputValStr
        end in
      match OutputComponent Value with
      | Some OutComp =>
          match OutObject with
          | Some obj =>
              DescribeObjects
                (OutputValStr ++ Obj_FullName obj ++ " (comp)" ++ LF)%string rest
          | None => None
          end
      | None => DescribeObjects OutputValStr rest
      end
  end.

Definition GetOutputDebugDescription (InOutput : UHoudiniOutput)
  : option string :=
  let OutputValStr := ("HGPOs:" ++ LF)%string in
  let OutputValStr :=
    fold_left DescribeHGPO (HoudiniGeoPartObjects InOutput) OutputValStr in
  (* the output objects, if any *)
  if Z.of_nat (Datatypes.length (OutputObjects InOutput)) >? 0
  then DescribeObjects OutputValStr (OutputObjects InOutput)
  else Some OutputValStr.

End WithParts.

Arguments CreateStaticMeshAndMaterialWidgets {Identifier EHoudiniPartType}.
Arguments CreateProxyMeshAndMaterialWidgets {Identifier EHoudiniPartType}.
Arguments CreateLandscapeOutputWidget_Helper {Identifier EHoudiniPartType}.
Arguments CreateLandscapeEditLayerOutputWidget_Helper
  {Identifier EHoudiniPartType}.
Arguments CreateCurveWidgets {Identifier EHoudiniPartType}.
Arguments set_OutputObjects {Identifier EHoudiniPartType} _ _.
Arguments PartName {EHoudiniPartType} _.
Arguments Type_ {EHoudiniPartType} _.
Arguments SplitGroups {EHoudiniPartType} _.
Arguments VolumeName {EHoudiniPartType} _.
Arguments VolumeTileIndex {EHoudiniPartType} _.
Arguments bPendingKill {Identifier EHoudiniPartType} _.
Arguments Outer {Identifier EHoudiniPartType} _.
Arguments HoudiniGeoPartObjects {Identifier EHoudiniPartType} _.
Arguments OutputObjects {Identifier EHoudiniPartType} _.
Arguments Find {Identifier} _ _ _.
Arguments WriteFound {Identifier} _ _ _ _.
Arguments OnBakeNameCommitted {Identifier} _ {EHoudiniPartType} _ _ _.
Arguments OnRevertBakeNameToDefault {Identifier} _ {EHoudiniPartType} _ _.
Arguments GetOutputDebugDescription {Identifier EHoudiniPartType} _ _.
Arguments DescribeObjects {Identifier} _ _.
Arguments CreateLandscapeOutputWidget {Identifier EHoudiniPartType} _ _.
Arguments CreateMeshOutputWidget {Identifier EHoudiniPartType} _ _ _.
Arguments CreateCurveOutputWidget {Identifier EHoudiniPartType} _ _ _.
Arguments FindHGPO {Identifier EHoudiniPartType} _ _ _.
Arguments HGPOOrDefault {Identifier EHoudiniPartType} _ _ _ _.

End OutputObjects.

(* ===================================================================== *)
(** * The replacement of the materials of a static mesh                   *)
(* ===================================================================== *)

Module MaterialReplacement.

(** Materials, meshes and components are told apart by their address;
    the null pointer is 0. *)
Definition nullptr : Z := 0.

(** What the editor is told, in order. *)
Inductive EditorCall :=
| FScopedTransaction (description : string)
| Modify_Output                      (* HoudiniOutput->Modify() *)
| Modify_StaticMesh (mesh : Z)       (* StaticMesh->Modify(), SM->Modify() *)
| Modify_Component (component : Z)   (* SMC->Modify() *)
| SMC_SetMaterial (component MaterialIdx Material : Z)
| SM_SetMaterial (mesh MaterialIdx Material : Z)
| UpdateEditorProperties
| RedrawAllViewports.

Record UStaticMesh := {
  SM_Address : Z;
  SM_bPendingKill : bool;
  StaticMaterials : list Z       (* the MaterialInterface of each entry *)
}.

Definition set_StaticMaterials (v : list Z) (m : UStaticMesh) :=
  {| SM_Address := SM_Address m; SM_bPendingKill := SM_bPendingKill m;
     StaticMaterials := v |}.

(** The component and the object of an output object, as far as the
    loops over the output objects look at them. *)
Record UComponent := {
  Comp_Address : Z;
  IsStaticMeshComponent : bool;  (* Cast<UStaticMeshComponent> succeeds *)
  Comp_bPendingKill : bool;
  GetStaticMesh : Z
}.

Record UObject := {
  Obj_Address : Z;
  IsStaticMesh : bool;           (* Cast<UStaticMesh> succeeds *)
  Obj_bPendingKill : bool
}.

Record FHoudiniOutputObject := {
  OutputComponent : option UComponent;
  OutputObject : option UObject
}.

(** TArray::IsValidIndex *)
Definition IsValidIndex {A} (l : list A) (Index : Z) : bool :=
  (0 <=? Index) && (Index <? Z.of_nat (Datatypes.length l)).

(** The write to the entry of a valid index. *)
Fixpoint SetAt {A} (l : list A) (n : nat) (v : A) : list A :=
  match l, n with
  | [], _ => []
  | _ :: rest, O => v :: rest
  | x :: rest, S n' => x :: SetAt rest n' v
  end.

(** FString::IsEmpty *)
Definition IsEmpty (s : string) : bool :=
  match s with
  | EmptyString => true
  | _ => false
  end.

Section WithMaps.

(** TMap<FString, UMaterialInterface*>, with what is used of it: Find,
    FindKey, Add and Remove.  Keys are compared by [key_eqb]. *)
Variable TMap : Type.
Variable key_eqb : string -> string -> bool.
Variable Find : string -> TMap -> option Z.
Variable FindKey : Z -> TMap -> option string.
Variable Add : string -> Z -> TMap -> TMap.
Variable Remove : string -> TMap -> TMap.

(** The laws of lookup of the map. *)
Record TMapLaws : Prop := {
  key_refl : forall a, key_eqb a a = true;
  key_sym : forall a b, key_eqb a b = key_eqb b a;
  key_trans : forall a b c,
    key_eqb a b = true -> key_eqb b c = true -> key_eqb a c = true;
  key_empty : forall a b, key_eqb a b = true -> IsEmpty a = IsEmpty b;
  Find_key : forall a b m, key_eqb a b = true -> Find a m = Find b m;
  Find_Add : forall k v m k',
    Find k' (Add k v m) = if key_eqb k k' then Some v else Find k' m;
  Find_Remove : forall k m k',
    Find k' (Remove k m) = if key_eqb k k' then None else Find k' m;
  FindKey_Some : forall v m k, FindKey v m = Some k -> Find k m = Some v;
  FindKey_None : forall v m, FindKey v m = None ->
    forall k, Find k m <> Some v
}.

Record UHoudiniOutput := {
  ReplacementMaterials : TMap;
  AssignementMaterials : TMap;
  OutputObjects : list FHoudiniOutputObject
}.

Definition set_ReplacementMaterials (v : TMap) (o : UHoudiniOutput) :=
  {| ReplacementMaterials := v;
     AssignementMaterials := AssignementMaterials o;
     OutputObjects := OutputObjects o |}.

(** The materials of the host engine: whether the object at an address
    is a material, whether it is pending kill, its name; the default
    material of the plugin, the name HAPI_UNREAL_DEFAULT_MATERIAL_NAME
    stands for, and whether there is an editor. *)
Variable IsMaterialInterface : Z -> bool.
Variable IsPendingKill : Z -> bool.
Variable GetName : Z -> string.
Variable HoudiniDefaultMaterial : Z.
Variable HAPI_UNREAL_DEFAULT_MATERIAL_NAME : string.
Variable GEditor : bool.

(** Cast<UMaterialInterface> *)
Definition Cast_UMaterialInterface (InObject : Z) : Z :=
  if InObject =? nullptr then nullptr
  else if IsMaterialInterface InObject then InObject else nullptr.

Definition Redraw : list EditorCall :=
  if GEditor then [RedrawAllViewports] else [].

(** ** OnMaterialInterfaceDropped on a static mesh (lines 2486-2597)

    The result is the output and the mesh as they are left and what the
    editor has been told; [None] where the null pointer of an empty
    material entry is dereferenced.  The output is dereferenced without a
    check, here and in the reset: both are given the output itself. *)

(** The string of the material that is being replaced. *)
Definition ReplacedMaterialString (HoudiniOutput : UHoudiniOutput)
  (OldMaterialInterface : Z) : option string :=
  match FindKey OldMaterialInterface (ReplacementMaterials HoudiniOutput) with
  | Some FoundString =>
      (* this material has been replaced previously *)
      Some FoundString
  | None =>
      (* no previous replacement: the material assignment list *)
      match FindKey OldMaterialInterface (AssignementMaterials HoudiniOutput) with
      | Some FoundString => Some FoundString
      | None =>
          if OldMaterialInterface =? HoudiniDefaultMaterial
          then Some HAPI_UNREAL_DEFAULT_MATERIAL_NAME
          else
            (* external material? *)
            if OldMaterialInterface =? nullptr then None
            else Some (GetName OldMaterialInterface)
      end
  end.

(** [Ptr && !Ptr->IsPendingKill()] *)
Definition Live_Component (p : option UComponent) : option UComponent :=
  match p with
  | Some c => if Comp_bPendingKill c then None else Some c
  | None => None
  end.

Definition Live_Object (p : option UObject) : option UObject :=
  match p with
  | Some m => if Obj_bPendingKill m then None else Some m
  | None => None
  end.

(** The loop over the output objects after a drop. *)
Definition DroppedOnObjects (StaticMesh : UStaticMesh)
  (MaterialIdx MaterialInterface : Z) (Objects : list FHoudiniOutputObject)
  : list EditorCall :=
  flat_map (fun OutputObject_ =>
    (* only look at mesh components *)
    let SMC := match OutputComponent OutputObject_ with
               | Some c => if IsStaticMeshComponent c then Some c else None
               | None => None
               end in
    match Live_Component SMC with
    | Some c =>
        if GetStaticMesh c =? SM_Address StaticMesh
        then [Modify_Component (Comp_Address c);
              SMC_SetMaterial (Comp_Address c) MaterialIdx MaterialInterface]
        else []
    | None =>
        let SM := match OutputObject OutputObject_ with
                  | Some m => if IsStaticMesh m then Some m else None
                  | None => None
                  end in
        match Live_Object SM with
        | Some m =>
            [Modify_StaticMesh (Obj_Address m);
             SM_SetMaterial (Obj_Address m) MaterialIdx MaterialInterface]
        | None => []
        end
    end) Objects.

Definition OnMaterialInterfaceDropped (InObject : Z)
  (StaticMesh : option UStaticMesh) (HoudiniOutput : UHoudiniOutput)
  (MaterialIdx : Z)
  : option (UHoudiniOutput * option UStaticMesh * list EditorCall) :=
  let unchanged := Some (HoudiniOutput, StaticMesh, []) in
  let MaterialInterface := Cast_UMaterialInterface InObject in
  if (MaterialInterface =? nullptr) || IsPendingKill MaterialInterface
  then unchanged
  else
    match StaticMesh with
    | None => unchanged
    | Some Mesh =>
        if SM_bPendingKill Mesh then unchanged
        else if negb (IsValidIndex (StaticMaterials Mesh) MaterialIdx)
        then unchanged
        else
          (* the material interface which is being replaced *)
          let OldMaterialInterface :=
            nth (Z.to_nat MaterialIdx) (StaticMaterials Mesh) nullptr in
          if OldMaterialInterface =? MaterialInterface then unchanged
          else
            match ReplacedMaterialString HoudiniOutput OldMaterialInterface with
            | None => None
            | Some MaterialString =>
                if IsEmpty MaterialString then unchanged
                else
                  (* a new material replacement entry *)
                  let HoudiniOutput' :=
                    set_ReplacementMaterials
                      (Add MaterialString MaterialInterface
                         (ReplacementMaterials HoudiniOutput))
                      HoudiniOutput in
                  (* the material on the static mesh *)
                  let Mesh' :=
                    set_StaticMaterials
                      (SetAt (StaticMaterials Mesh) (Z.to_nat MaterialIdx)
                         MaterialInterface) Mesh in
                  Some (HoudiniOutput', Some Mesh',
                        [FScopedTransaction "Houdini Material Replacement";
                         Modify_Output;
                         Modify_StaticMesh (SM_Address Mesh)]
                        ++ DroppedOnObjects Mesh MaterialIdx MaterialInterface
                             (OutputObjects HoudiniOutput)
                        ++ [UpdateEditorProperties] ++ Redraw)
            end
    end.

(** ** OnResetMaterialInterfaceClicked on a static mesh (lines 2213-2286) *)

(** The loop over the output objects after a reset. *)
Definition ResetOnObjects (StaticMesh : UStaticMesh)
  (MaterialIdx AssignMaterial : Z) (Objects : list FHoudiniOutputObject)
  : list EditorCall :=
  flat_map (fun OutputObject_ =>
    (* only look at mesh components *)
    match OutputComponent OutputObject_ with
    | Some c =>
        if IsStaticMeshComponent c then
          if negb (GetStaticMesh c =? SM_Address StaticMesh) then []
          else [Modify_Component (Comp_Address c);
                SMC_SetMaterial (Comp_Address c) MaterialIdx AssignMaterial]
        else []
    | None => []
    end) Objects.

Definition OnResetMaterialInterfaceClicked (StaticMesh : option UStaticMesh)
  (HoudiniOutput : UHoudiniOutput) (MaterialIdx : Z)
  : UHoudiniOutput * option UStaticMesh * list EditorCall :=
  let unchanged := (HoudiniOutput, StaticMesh, []) in
  match StaticMesh with
  | None => unchanged
  | Some Mesh =>
      if SM_bPendingKill Mesh then unchanged
      else if negb (IsValidIndex (StaticMaterials Mesh) MaterialIdx)
      then unchanged
      else
        (* the material interface which is being replaced *)
        let MaterialInterface :=
          nth (Z.to_nat MaterialIdx) (StaticMaterials Mesh) nullptr in
        if MaterialInterface =? nullptr then unchanged
        else
          (* the string of the material that is being replaced *)
          match FindKey MaterialInterface
                  (ReplacementMaterials HoudiniOutput) with
          | None =>
              (* this material was not replaced, no need to reset it *)
              unchanged
          | Some MaterialString =>
              (* remove the replacement *)
              let HoudiniOutput' :=
                set_ReplacementMaterials
                  (Remove MaterialString (ReplacementMaterials HoudiniOutput))
                  HoudiniOutput in
              (* the original assignment or, if there is none, the
                 default material *)
              let AssignMaterial :=
                match Find MaterialString
                        (AssignementMaterials HoudiniOutput') with
                | Some FoundMat =>
                    if negb (FoundMat =? nullptr) then FoundMat
                    else HoudiniDefaultMaterial
                | None => HoudiniDefaultMaterial
                end in
              let Mesh' :=
                set_StaticMaterials
                  (SetAt (StaticMaterials Mesh) (Z.to_nat MaterialIdx)
                     AssignMaterial) Mesh in
              (HoudiniOutput', Some Mesh',
               [FScopedTransaction "Houdini Material Reset";
                Modify_Output;
                Modify_StaticMesh (SM_Address Mesh)]
               ++ ResetOnObjects Mesh MaterialIdx AssignMaterial
                    (OutputObjects HoudiniOutput)
               ++ [UpdateEditorProperties] ++ Redraw)
          end
  end.

(** ** OnMaterialInterfaceDraggedOver (line 2206) *)
Definition OnMaterialInterfaceDraggedOver (InObject : Z) : bool :=
  negb (InObject =? nullptr) && IsMaterialInterface InObject.

End WithMaps.

Arguments key_refl {TMap key_eqb Find FindKey Add Remove} _.
Arguments key_sym {TMap key_eqb Find FindKey Add Remove} _.
Arguments key_trans {TMap key_eqb Find FindKey Add Remove} _.
Arguments key_empty {TMap key_eqb Find FindKey Add Remove} _.
Arguments Find_key {TMap key_eqb Find FindKey Add Remove} _.
Arguments Find_Add {TMap key_eqb Find FindKey Add Remove} _.
Arguments Find_Remove {TMap key_eqb Find FindKey Add Remove} _.
Arguments FindKey_Some {TMap key_eqb Find FindKey Add Remove} _.
Arguments FindKey_None {TMap key_eqb Find FindKey Add Remove} _.
Arguments ReplacementMaterials {TMap} _.
Arguments AssignementMaterials {TMap} _.
Arguments OutputObjects {TMap} _.
Arguments set_ReplacementMaterials {TMap} _ _.

End MaterialReplacement.

(* ===================================================================== *)
(** * What the translator is described to do                              *)
(* ===================================================================== *)

Module Described.
Import HoudiniInput Api InputTranslator.

(** ** Default input type of a label *)

Fixpoint FoldCase (s : string) : string :=
  match s with
  | EmptyString => EmptyString
  | String c s' => String (ToUpper c) (FoldCase s')
  end.

(** The label contains the word, whatever the case of its letters. *)
Definition Mentions (label word : string) : Prop :=
  exists pre mid suf,
    label = (pre ++ mid ++ suf)%string /\ FoldCase mid = FoldCase word.

(** The precedence among the magic words: curve, then the landscape
    words, then the world words, then the asset words, else geometry. *)
Inductive DefaultInputType (label : string) : EHoudiniInputType.t -> Prop :=
| Default_Curve :
    Mentions label "curve" ->
    DefaultInputType label EHoudiniInputType.Curve
| Default_Landscape :
    ~ Mentions label "curve" ->
    (Mentions label "landscape" \/ Mentions label "terrain"
     \/ Mentions label "heightfield") ->
    DefaultInputType label EHoudiniInputType.Landscape
| Default_World :
    ~ Mentions label "curve" ->
    ~ (Mentions label "landscape" \/ Mentions label "terrain"
       \/ Mentions label "heightfield") ->
    (Mentions label "world" \/ Mentions label "outliner") ->
    DefaultInputType label EHoudiniInputType.World
| Default_Asset :
    ~ Mentions label "curve" ->
    ~ (Mentions label "landscape" \/ Mentions label "terrain"
       \/ Mentions label "heightfield") ->
    ~ (Mentions label "world" \/ Mentions label "outliner") ->
    (Mentions label "asset" \/ Mentions label "hda") ->
    DefaultInputType label EHoudiniInputType.Asset
| Default_Geometry :
    ~ Mentions label "curve" ->
    ~ (Mentions label "landscape" \/ Mentions label "terrain"
       \/ Mentions label "heightfield") ->
    ~ (Mentions label "world" \/ Mentions label "outliner") ->
    ~ (Mentions label "asset" \/ Mentions label "hda") ->
    DefaultInputType label EHoudiniInputType.Geometry.

(** ** Results and added calls of a computation *)

(** From any session, the computation returns a value and adds calls to
    the session, related by [Q]; calls made before are never removed. *)
Definition Run {A} (m : M A) (Q : A -> list ApiCall -> Prop) : Prop :=
  forall s, exists a new, m s = (a, new ++ s) /\ Q a new.

(** Every call the computation adds satisfies [P]. *)
Definition Emits {A} (P : ApiCall -> Prop) (m : M A) : Prop :=
  Run m (fun _ new => Forall P new).

(** ** Building the inputs of an asset *)

(** The number of parameters whose type is Input. *)
Definition CountInputParameters (Parameters : list UHoudiniParameter) : Z :=
  Z.of_nat (Datatypes.length
              (filter (fun p => match ParameterType p with
                                | Input => true
                                | NotInput => false
                                end) Parameters)).

(** The input at index [k] is marked as it should be for an asset with
    [geo] SOP inputs: one of the first [geo] inputs is the SOP input of
    its index, a later one is an object-path parameter input. *)
Definition MarkedFor (geo k : Z) (i : UHoudiniInput) : Prop :=
  if k <? geo
  then bIsObjectPathParameter i = false /\ InputIndex i = k /\ ParmId i = -1
  else bIsObjectPathParameter i = true.

(** What the loop over the inputs makes of the element [p] at index [k]
    of the array, for an asset with [geo] SOP inputs: a null or
    pending-kill element is left as it is, a live input stays alive and is
    marked for its index. *)
Definition Built (geo k : Z) (p p' : option UHoudiniInput) : Prop :=
  match p with
  | None => p' = None
  | Some i =>
      if In_bPendingKill i then p' = Some i
      else exists i', p' = Some i' /\ In_bPendingKill i' = false /\
                      MarkedFor geo k i'
  end.

(** The objects that NewObject gives for the [count] indices from [idx]
    on, named "Input<index+1>", each in the session that the creations
    before it have left. *)
Fixpoint NewInputs (E : Engine) (s : Session) (idx : Z) (count : nat)
  : list (option UHoudiniInput) :=
  match count with
  | O => []
  | S count' =>
      new_input E s (InputObjectName idx)
      :: NewInputs E (NewObject (InputObjectName idx) :: s) (idx + 1) count'
  end.

(** The Inputs array resized for an asset with [InputCount] inputs, in
    the session [s]: with too many inputs, the first [InputCount] of them;
    otherwise the inputs followed by the new objects for the missing
    indices, those that are live. *)
Definition ResizedInputs (E : Engine) (s : Session) (InputCount : Z)
  (Inputs : list (option UHoudiniInput)) : list (option UHoudiniInput) :=
  let Num := Z.of_nat (Datatypes.length Inputs) in
  if InputCount <? Num then firstn (Z.to_nat InputCount) Inputs
  else Inputs ++ filter IsValidInput
                   (NewInputs E s Num (Z.to_nat (InputCount - Num))).

(** A host-side update of an input that leaves alone how the input is
    bound to its asset, and whether it is pending kill. *)
Definition KeepsBinding (i i' : UHoudiniInput) : Prop :=
  bIsObjectPathParameter i' = bIsObjectPathParameter i /\
  InputIndex i' = InputIndex i /\ ParmId i' = ParmId i /\
  In_bPendingKill i' = In_bPendingKill i.

(** The computation [m] is run at some point between the sessions [s]
    and [s']. *)
Definition RunsDuring {A} (m : M A) (s s' : Session) : Prop :=
  exists before after, s' = after ++ snd (m (before ++ s)).

(** ** Incremental re-upload *)

(** The node that UploadInputData keeps for an element of the object
    array: the node of a surviving object that is not marked changed and
    has a valid node id; when that object is an actor, the node of each
    such component of it instead. *)
Definition KeptNodeOf (p : option InputObject) (id : Z) : Prop :=
  exists o, p = Some o /\ bPendingKill o = false /\ KeepsNode o = true /\
    ((Type_ o <> EHoudiniInputObjectType.Actor /\ id = InputObjectNodeId o) \/
     (Type_ o = EHoudiniInputObjectType.Actor /\
      exists comps c, AsActor o = Some comps /\ In (Some c) comps /\
        bPendingKill c = false /\ KeepsNode c = true /\
        id = InputObjectNodeId c)).

(** A component that is not re-uploaded is left as it is. *)
Definition ComponentLeftAsIs (c c' : option UHoudiniInputObject) : Prop :=
  match c with
  | Some c0 => bPendingKill c0 = true \/ KeepsNode c0 = true -> c' = c
  | None => c' = None
  end.

(** An element of the object array that is not re-uploaded is left as it
    is; of an actor that is not re-uploaded, every component that is not
    re-uploaded is. *)
Definition ObjectLeftAsIs (p p' : option InputObject) : Prop :=
  match p with
  | None => p' = None
  | Some o =>
      (bPendingKill o = true -> p' = p) /\
      (bPendingKill o = false -> KeepsNode o = true ->
       (Type_ o <> EHoudiniInputObjectType.Actor -> p' = p) /\
       (Type_ o = EHoudiniInputObjectType.Actor ->
        match AsActor o with
        | None => p' = p
        | Some comps =>
            exists comps', p' = Some (WithActorComponents comps' o) /\
                           Forall2 ComponentLeftAsIs comps comps'
        end))
  end.

(** A call that uploads an input object: the marshalling part of a
    translator, or the creation of the node that refers to an asset. *)
Definition IsUpload (c : ApiCall) : Prop :=
  match c with
  | Translate _ _ | CreateReferenceNode _ _ _ => True
  | _ => False
  end.

(** The call uploads the object [x]: it hands [x] to a translator, or
    creates a new reference node with the transform of [x]. *)
Definition Uploads (c : ApiCall) (x : InputObject) : Prop :=
  (exists k, c = Translate k x) \/
  (exists ref, c = CreateReferenceNode (-1) ref (Transform x)).

(** The components an actor is uploaded with: its own or, for a Houdini
    asset actor of a world input, those of the actor as the host has
    updated it. *)
Definition UploadedComponents (E : Engine) (o : InputObject)
  (comps : list (option UHoudiniInputObject)) : Prop :=
  AsActor o = Some comps \/
  exists s o1, UpdateActor E s o = Some o1 /\ AsActor o1 = Some comps.

(** The object [x] needs an upload on account of the element [p] of the
    object array, which survives: [p] is [x], not an actor, and is marked
    changed or without a valid node id; or [p] is such an actor and [x] any
    of the components it is uploaded with, whatever the component's own
    flags; or [p] is an actor that is kept and [x] a surviving component
    of it that is marked changed or without a valid node id. *)
Definition UploadNeededFor (E : Engine) (p : option InputObject)
  (x : InputObject) : Prop :=
  exists o, p = Some o /\ bPendingKill o = false /\
    ((KeepsNode o = false /\ Type_ o <> EHoudiniInputObjectType.Actor /\
      x = o) \/
     (KeepsNode o = false /\ Type_ o = EHoudiniInputObjectType.Actor /\
      exists comps c, UploadedComponents E o comps /\ In (Some c) comps /\
        x = OfComponent c) \/
     (KeepsNode o = true /\ Type_ o = EHoudiniInputObjectType.Actor /\
      exists comps c, AsActor o = Some comps /\ In (Some c) comps /\
        bPendingKill c = false /\ KeepsNode c = false /\
        x = OfComponent c)).

(** ** Uploading an input object *)

(** The translator dedicated to each kind of input object. *)
Inductive Dedicated :=
| ByTranslator (k : TranslatorKind)   (* HapiCreateInputNodeFor<k>         *)
| ByAssetTranslator     (* HapiCreateInputNodeForHoudiniAssetComponent *)
| ByActorTranslator     (* HapiCreateInputNodeForActor                 *)
| NoTranslator.

Definition DedicatedTo (ty : EHoudiniInputObjectType.t) : Dedicated :=
  match ty with
  | EHoudiniInputObjectType.Object => ByTranslator ForObject
  | EHoudiniInputObjectType.StaticMesh => ByTranslator ForStaticMesh
  | EHoudiniInputObjectType.SkeletalMesh => ByTranslator ForSkeletalMesh
  | EHoudiniInputObjectType.SceneComponent => ByTranslator ForSceneComponent
  | EHoudiniInputObjectType.StaticMeshComponent =>
      ByTranslator ForStaticMeshComponent
  | EHoudiniInputObjectType.InstancedStaticMeshComponent =>
      ByTranslator ForInstancedStaticMeshComponent
  | EHoudiniInputObjectType.SplineComponent => ByTranslator ForSplineComponent
  | EHoudiniInputObjectType.HoudiniSplineComponent =>
      ByTranslator ForHoudiniSplineComponent
  | EHoudiniInputObjectType.HoudiniAssetActor => ByAssetTranslator
  | EHoudiniInputObjectType.HoudiniAssetComponent => ByAssetTranslator
  | EHoudiniInputObjectType.Actor => ByActorTranslator
  | EHoudiniInputObjectType.Landscape => ByTranslator ForLandscape
  | EHoudiniInputObjectType.Brush => ByTranslator ForBrush
  | EHoudiniInputObjectType.CameraComponent => ByTranslator ForCamera
  | EHoudiniInputObjectType.DataTable => ByTranslator ForDataTable
  | EHoudiniInputObjectType.FoliageType_InstancedStaticMesh =>
      ByTranslator ForFoliageType_InstancedStaticMesh
  | EHoudiniInputObjectType.Invalid => NoTranslator
  end.

(** The class of input object each translator takes; the translator of
    generic objects takes the object as it is. *)
Definition ClassOf (k : TranslatorKind) : UClass.t :=
  match k with
  | ForObject => UClass.HoudiniInputObject
  | ForStaticMesh => UClass.HoudiniInputStaticMesh
  | ForSkeletalMesh => UClass.HoudiniInputSkeletalMesh
  | ForSceneComponent => UClass.HoudiniInputSceneComponent
  | ForStaticMeshComponent => UClass.HoudiniInputMeshComponent
  | ForInstancedStaticMeshComponent => UClass.HoudiniInputInstancedMeshComponent
  | ForSplineComponent => UClass.HoudiniInputSplineComponent
  | ForHoudiniSplineComponent => UClass.HoudiniInputHoudiniSplineComponent
  | ForLandscape => UClass.HoudiniInputLandscape
  | ForBrush => UClass.HoudiniInputBrush
  | ForCamera => UClass.HoudiniInputCameraComponent
  | ForDataTable => UClass.HoudiniInputDataTable
  | ForFoliageType_InstancedStaticMesh =>
      UClass.HoudiniInputFoliageType_InstancedStaticMesh
  end.

(** The object seen as an object of the class: the object itself when it
    is one, and a null pointer otherwise. *)
Definition AsClass (E : Engine) (c : UClass.t) (o : InputObject)
  : option InputObject :=
  let when (b : bool) := if b then Some o else None in
  match c with
  | UClass.HoudiniInputObject => Some o
  | UClass.HoudiniInputStaticMesh =>
      when (match AsStaticMesh o with Some _ => true | None => false end)
  | UClass.HoudiniInputHoudiniSplineComponent =>
      when (match AsHoudiniSpline o with Some _ => true | None => false end)
  | UClass.HoudiniInputActor =>
      when (match AsActor o with Some _ => true | None => false end)
  | _ => when (IsA E (Class o) c)
  end.

(** The translator of kind [k] goes on to marshal the object: the object
    is of the translator's class and passes the translator's guard. *)
Definition Marshals (E : Engine) (k : TranslatorKind) (i : UHoudiniInput)
  (o : InputObject) : bool :=
  match AsClass E (ClassOf k) o with
  | Some _ =>
      match k with
      | ForObject => true
      | ForLandscape => negb (bPendingKill o) && negb (In_bPendingKill i)
      | _ => negb (bPendingKill o)
      end
  | None => false
  end.

(** The element [p] of the object array of the input [i] has the object
    [x] handed over to the translator of kind [k]: [p] survives and is
    [x], marked changed or without a valid node id; or [p] is an actor that
    is kept and [x] a surviving component of it that is marked changed or
    without a valid node id; and the translator of the kind of [x] is [k]
    and goes on to marshal [x]. *)
Definition HandsOver (E : Engine) (i : UHoudiniInput)
  (p : option InputObject) (k : TranslatorKind) (x : InputObject) : Prop :=
  exists o, p = Some o /\ bPendingKill o = false /\
    ((KeepsNode o = false /\ x = o) \/
     (KeepsNode o = true /\ Type_ o = EHoudiniInputObjectType.Actor /\
      exists comps c, AsActor o = Some comps /\ In (Some c) comps /\
        bPendingKill c = false /\ KeepsNode c = false /\
        x = OfComponent c)) /\
    DedicatedTo (Type_ x) = ByTranslator k /\ Marshals E k i x = true.

(** The merge node of the input could not be created: the last call made
    is the creation of the merge node, and it failed. *)
Definition MergeNodeNotCreated (E : Engine) (i : UHoudiniInput)
  (s : Session) (new : list ApiCall) : Prop :=
  let create :=
    CreateNode (-1) "SOP/merge" (NodeBaseName (Settings i) ++ "_Merge") in
  exists rest, new = create :: rest /\
               hapi_result E (rest ++ s) create = false.

(** What an upload may write of the input: the input's node id and its
    changed and trigger flags; everything else is left as it is. *)
Definition UploadWrites (i i' : UHoudiniInput) : Prop :=
  i' = SetInputNodeId (In_InputNodeId i')
         (In_SetNeedsToTriggerUpdate (In_bNeedsToTriggerUpdate i')
            (In_MarkChanged (In_bHasChanged i') i)).

(** The object after an upload with result [b] that left it as [o1]: the
    trigger flag is cleared, and the changed flag when [b] is true. *)
Definition AfterUpload (b : bool) (o1 : InputObject) : InputObject :=
  WithSelf (SetNeedsToTriggerUpdate false)
    (if b then WithSelf (MarkChanged false) o1 else o1).

(** The node ids a successful translator of kind [k] adds to the caller's
    list; [o1] is the object as the translator left it.  A blueprint
    static mesh adds the nodes of its static mesh objects, every other
    object its own node. *)
Definition CreatedNodeIdsOf (k : TranslatorKind) (o1 : InputObject) : list Z :=
  match k, AsStaticMesh o1 with
  | ForStaticMesh, Some (true, BlueprintStaticMeshes) =>
      map InputObjectNodeId BlueprintStaticMeshes
  | _, _ => [InputObjectNodeId o1]
  end.

(** ** Transform uploads *)

(** The input objects whose transform UploadInputTransform is to upload:
    those that survive and have their transform-changed flag set. *)
Definition NeedsTransformUpload (p : option InputObject) : bool :=
  match p with
  | Some o => negb (bPendingKill o) && bTransformChanged o
  | None => false
  end.

(** The object after a transform upload with result [b] that left it as
    [o1]: the trigger flag is cleared, and the transform-changed flag when
    [b] is true. *)
Definition AfterTransformUpload (b : bool) (o1 : InputObject) : InputObject :=
  WithSelf (SetNeedsToTriggerUpdate false)
    (if b then WithSelf (MarkTransformChanged false) o1 else o1).

(** The node [n] is one whose transform the upload of the object [o] may
    set: the OBJ node of [o] or, for an actor, the OBJ node of a surviving
    component of it whose transform-changed flag is set. *)
Definition TransformTargetOf (o : InputObject) (n : Z) : Prop :=
  n = InputObjectNodeId o \/
  exists comps c, AsActor o = Some comps /\ In (Some c) comps /\
    bPendingKill c = false /\ bTransformChanged c = true /\
    n = InputObjectNodeId c.

(** Going through the object array [objs] of the input [i] from the
    session [s]: an object that does not need a transform upload is left
    as it is, without a call; for one that does,
    UploadHoudiniInputTransform is run, in the order of the array; the
    result is true when every one of these runs returned true. *)
Inductive TransformsUploaded (E : Engine) (i : UHoudiniInput)
  : Session -> list (option InputObject) -> list (option InputObject) ->
    bool -> Session -> Prop :=
| TransformsUploaded_nil : forall s,
    TransformsUploaded E i s [] [] true s
| TransformsUploaded_skip : forall s p objs objs' b s',
    NeedsTransformUpload p = false ->
    TransformsUploaded E i s objs objs' b s' ->
    TransformsUploaded E i s (p :: objs) (p :: objs') b s'
| TransformsUploaded_upload : forall s p ok p' s1 objs objs' b s',
    NeedsTransformUpload p = true ->
    UploadHoudiniInputTransform E (Some i) p s = ((ok, p'), s1) ->
    TransformsUploaded E i s1 objs objs' b s' ->
    TransformsUploaded E i s (p :: objs) (p' :: objs') (ok && b) s'.

(** Uploading the transform of each of the given objects, in order. *)
Definition UploadTransformsOf (E : Engine) (i : UHoudiniInput)
  (ps : list (option InputObject)) : M unit :=
  forEach_ (fun p => bind (UploadHoudiniInputTransform E (Some i) p)
                       (fun _ => ret tt)) ps.

(** ** Disconnecting an input *)

(** The calls by which DisconnectInput takes an input off its asset:
    nulling the object-path parameter, disconnecting the node input, and
    clearing the downstream link of the outer asset component. *)
Definition IsDisconnect (i : UHoudiniInput) (c : ApiCall) : Prop :=
  c = SetParmStringValue (AssetNodeId i) EmptyString (ParmId i) 0 \/
  c = DisconnectNodeInput (AssetNodeId i) (InputIndex i) \/
  c = ClearDownstreamHoudiniAsset.

Definition NotDeleteNode (c : ApiCall) : Prop :=
  forall id, c <> DeleteNode id.

Definition NotNewObject (c : ApiCall) : Prop :=
  forall name, c <> NewObject name.

Definition NotTranslate (c : ApiCall) : Prop :=
  forall k x, c <> Translate k x.

(** ** Node ids that no longer name a node *)

(** A node id after its node is destroyed: negative, and -1 whenever it
    was a valid id or -1 before. *)
Definition Invalidated (before after : Z) : Prop :=
  after < 0 /\ (-1 <= before -> after = -1).

(** An element of the object array before and after DestroyInputNodes:
    null and pending-kill elements are left alone, a surviving object has
    both its node ids invalidated. *)
Definition ObjectInvalidated (p p' : option InputObject) : Prop :=
  match p with
  | None => p' = None
  | Some o =>
      if bPendingKill o then p' = Some o
      else exists o', p' = Some o' /\ bPendingKill o' = false /\
             Invalidated (InputNodeId o) (InputNodeId o') /\
             Invalidated (InputObjectNodeId o) (InputObjectNodeId o')
  end.

(** [id] is the input node of a surviving HoudiniAssetComponent input
    object of the array: the node of another asset, which is not this
    input's to delete. *)
Definition IsAssetNodeOf (p : option InputObject) (id : Z) : Prop :=
  exists o, p = Some o /\ bPendingKill o = false /\
            Type_ o = EHoudiniInputObjectType.HoudiniAssetComponent /\
            InputNodeId o = id.

Definition KeptAssetNode (objs : list (option InputObject)) (id : Z) : Prop :=
  exists p, In p objs /\ IsAssetNodeOf p id.

End Described.

(* ===================================================================== *)
(** * Concrete engines and inputs                                         *)
(* ===================================================================== *)

Module Scenarios.
Import HoudiniInput Api InputTranslator.

Definition settings : InputSettings :=
  {| bCanDeleteHoudiniNodes := true; bKeepWorldTransform := false;
     bPackBeforeMerge := false; NodeBaseName := "hda";
     In_bImportAsReference := false;
     OuterHAC := Some 1; OuterHAC_bPendingKill := false |}.

(** An input of asset 1 of the given type, with the given objects, node id
    and recorded data nodes. *)
Definition input_of_type (T : EHoudiniInputType.t)
  (objs : list (option InputObject)) (node : Z) (created : list Z)
  : UHoudiniInput :=
  {| ObjectName := "Input1"; Name := "Input1"; Label := "Input1";
     Help := "Input1(Input1)";
     InputType := T;
     PreviousType := EHoudiniInputType.Invalid;
     AssetNodeId := 1; In_InputNodeId := node; InputIndex := 0; ParmId := -1;
     bIsObjectPathParameter := false; CreatedDataNodeIds := created;
     In_bHasChanged := true; In_bNeedsToTriggerUpdate := true;
     In_bPendingKill := false; bDataUploadNeeded := true;
     bLandscapeExportTypeChanged := false;
     InputObjects := fun T' => if EHoudiniInputType.eqb T T' then Some objs
                               else match T' with
                                    | EHoudiniInputType.Invalid => None
                                    | _ => Some []
                                    end;
     Settings := settings |}.

Definition geo_input := input_of_type EHoudiniInputType.Geometry.

(** An asset input plugged into node 3 of asset 1. *)
Definition asset_input : UHoudiniInput :=
  input_of_type EHoudiniInputType.Asset [] 3 [].

(** The same asset input, which may not delete Houdini nodes. *)
Definition protected_asset_input : UHoudiniInput :=
  let i := asset_input in
  mkInput (ObjectName i) (Name i) (Label i) (Help i) (InputType i)
    (PreviousType i) (AssetNodeId i) (In_InputNodeId i) (InputIndex i)
    (ParmId i) (bIsObjectPathParameter i) (CreatedDataNodeIds i)
    (In_bHasChanged i) (In_bNeedsToTriggerUpdate i) (In_bPendingKill i)
    (bDataUploadNeeded i) (bLandscapeExportTypeChanged i) (InputObjects i)
    {| bCanDeleteHoudiniNodes := false; bKeepWorldTransform := false;
       bPackBeforeMerge := false; NodeBaseName := "hda";
       In_bImportAsReference := false;
       OuterHAC := Some 1; OuterHAC_bPendingKill := false |}.

(** An input object of the given type with the given node ids. *)
Definition object (ty : EHoudiniInputObjectType.t) (node obj_node : Z)
  (changed : bool) : InputObject :=
  {| Self := {| Type_ := ty; Class := UClass.HoudiniInputObject;
                InputNodeId := node; InputObjectNodeId := obj_node;
                bHasChanged := changed; bTransformChanged := false;
                bNeedsToTriggerUpdate := changed; bPendingKill := false;
                Transform := [];
                Obj_bImportAsReference := false |};
     AsActor := None; AsStaticMesh := None; AsHoudiniSpline := None |}.

(** A session in which every call succeeds, with the given answer of the
    translators; integers written by calls are 7. *)
Definition engine (translators_succeed : bool) : Engine :=
  {| hapi_result := fun _ _ => true;
     hapi_int := fun _ _ => 7;
     hapi_string := fun _ _ => "geo"%string;
     hapi_transform := fun _ _ => [];
     new_input := fun _ name => Some (geo_input [] (-1) []);
     translate := fun _ _ _ o => (translators_succeed, o);
     GetHoudiniAssetComponent := fun _ _ => None;
     OuterIsInput := fun _ => true;
     NeedInstantiation := fun _ _ => false;
     NeedsInitializationOrUpdate := fun _ _ => false;
     IsA := fun _ _ => true;
     IsGarbageCollecting := false;
     EqualsIdentity := fun _ => true;
     HasInputTypeChanged := fun _ => false;
     IsDataUploadNeeded := fun i => bDataUploadNeeded i;
     IsTransformUploadNeeded := fun _ => false;
     GetNumberOfInputMeshes := fun _ _ => 0;
     GetActor := fun _ => None;
     GetStaticMeshComponent := fun _ => None;
     GetSceneComponent := fun _ => None;
     GetLandscapeProxy := fun _ => None;
     LandscapeHeightfieldTransform := fun _ _ t => t;
     GetProxyState := fun _ _ => NoValidHAC;
     UpdateActor := fun _ _ => None;
     SetInputType := fun _ i => i;
     PresetDefaultObjects := fun _ i _ => i;
     UpdateHoudiniInputCurves := fun _ i => i;
     ScanWorldInput := fun i => ([], false) |}.

(** The same session with successful translators, in which NewObject
    gives no object. *)
Definition engine_creating_nothing : Engine :=
  let E := engine true in
  {| hapi_result := hapi_result E;
     hapi_int := hapi_int E;
     hapi_string := hapi_string E;
     hapi_transform := hapi_transform E;
     new_input := fun _ _ => None;
     translate := translate E;
     GetHoudiniAssetComponent := GetHoudiniAssetComponent E;
     OuterIsInput := OuterIsInput E;
     NeedInstantiation := NeedInstantiation E;
     NeedsInitializationOrUpdate := NeedsInitializationOrUpdate E;
     IsA := IsA E;
     IsGarbageCollecting := IsGarbageCollecting E;
     EqualsIdentity := EqualsIdentity E;
     HasInputTypeChanged := HasInputTypeChanged E;
     IsDataUploadNeeded := IsDataUploadNeeded E;
     IsTransformUploadNeeded := IsTransformUploadNeeded E;
     GetNumberOfInputMeshes := GetNumberOfInputMeshes E;
     GetActor := GetActor E;
     GetStaticMeshComponent := GetStaticMeshComponent E;
     GetSceneComponent := GetSceneComponent E;
     GetLandscapeProxy := GetLandscapeProxy E;
     LandscapeHeightfieldTransform := LandscapeHeightfieldTransform E;
     GetProxyState := GetProxyState E;
     UpdateActor := UpdateActor E;
     SetInputType := SetInputType E;
     PresetDefaultObjects := PresetDefaultObjects E;
     UpdateHoudiniInputCurves := UpdateHoudiniInputCurves E;
     ScanWorldInput := ScanWorldInput E |}.

(** An input whose only object is another asset's component, whose node
    5 is recorded among the created data nodes. *)
Definition input_with_asset_component : UHoudiniInput :=
  geo_input [Some (object EHoudiniInputObjectType.HoudiniAssetComponent 5 4 false)]
    3 [5].

(** An input with one object that has node 5 and is not marked changed,
    and one that is marked changed and has no node yet. *)
Definition kept_object : InputObject :=
  object EHoudiniInputObjectType.Object 4 5 false.

Definition changed_object : InputObject :=
  object EHoudiniInputObjectType.Object (-1) (-1) true.

Definition input_with_kept_object : UHoudiniInput :=
  geo_input [Some kept_object; Some changed_object] 3 [5].

(** A static mesh object with OBJ node 10 whose transform has changed,
    and one with OBJ node 20 whose transform has not. *)
Definition moved_mesh : InputObject :=
  {| Self := {| Type_ := EHoudiniInputObjectType.StaticMesh;
                Class := UClass.HoudiniInputStaticMesh;
                InputNodeId := 11; InputObjectNodeId := 10;
                bHasChanged := false; bTransformChanged := true;
                bNeedsToTriggerUpdate := true; bPendingKill := false;
                Transform := [1; 2; 3];
                Obj_bImportAsReference := false |};
     AsActor := None; AsStaticMesh := Some (false, []);
     AsHoudiniSpline := None |}.

Definition still_mesh : InputObject :=
  {| Self := {| Type_ := EHoudiniInputObjectType.StaticMesh;
                Class := UClass.HoudiniInputStaticMesh;
                InputNodeId := 21; InputObjectNodeId := 20;
                bHasChanged := false; bTransformChanged := false;
                bNeedsToTriggerUpdate := false; bPendingKill := false;
                Transform := [4; 5; 6];
                Obj_bImportAsReference := false |};
     AsActor := None; AsStaticMesh := Some (false, []);
     AsHoudiniSpline := None |}.

Definition input_with_moved_mesh : UHoudiniInput :=
  geo_input [Some moved_mesh; Some still_mesh] 3 [10; 20].

(** A changed input whose only object is to be uploaded, on an asset
    component in the editor world. *)
Definition input_to_upload : UHoudiniInput :=
  geo_input [Some changed_object] (-1) [].

Definition component_of (inputs : list (option UHoudiniInput))
  : UHoudiniAssetComponent :=
  {| HAC_bPendingKill := false; AssetId := 1; Inputs := inputs;
     Parameters := [];
     Owner := Some {| World := Some EWorldType.Editor |} |}.

End Scenarios.

(* ===================================================================== *)
(** * What more the code is observed to do                                *)
(* ===================================================================== *)

Module Observed.
Import HoudiniInput Api InputTranslator Described.

(** The value UpdateTransformType gives the xformtype parameter. *)
Definition TransformTypeOf (i : UHoudiniInput) : Z :=
  match InputType i with
  | EHoudiniInputType.Geometry => 0
  | _ => if bKeepWorldTransform (Settings i) then 1 else 0
  end.

(** The calls that only touch the properties of the input [i]: a query
    of the input of its asset node or of an input of its merge node, the
    setting of xformtype or pack on an object merge, and the transform of
    one of its surviving geometry objects. *)
Definition IsPropertyCallOf (E : Engine) (i : UHoudiniInput) (c : ApiCall) : Prop :=
  match c with
  | QueryNodeInput node idx =>
      (node = AssetNodeId i /\ idx = InputIndex i /\
       bIsObjectPathParameter i = false) \/
      (node = In_InputNodeId i /\ 0 <= node /\
       InputType i <> EHoudiniInputType.Asset)
  | SetParmIntValue node parm idx value =>
      idx = 0 /\
      ((parm = "xformtype"%string /\ value = TransformTypeOf i) \/
       (parm = "pack"%string /\
        value = (if bPackBeforeMerge (Settings i) then 1 else 0) /\
        (InputType i = EHoudiniInputType.World \/
         InputType i = EHoudiniInputType.Geometry)))
  | SetObjectTransform node xform =>
      InputType i = EHoudiniInputType.Geometry /\
      exists objs (o : InputObject),
        InputObjects i EHoudiniInputType.Geometry = Some objs /\
        In (Some o) objs /\ bPendingKill o = false /\
        EqualsIdentity E (Transform o) = false /\
        node = InputObjectNodeId o /\ xform = Transform o
  | _ => False
  end.


(** The transform offsets UpdateTransformOffset is to upload, in order:
    one for each surviving object whose transform is not the identity. *)
Definition OffsetCalls (E : Engine) (objs : list (option InputObject))
  : list ApiCall :=
  flat_map (fun p : option InputObject =>
              match p with
              | Some o =>
                  if negb (bPendingKill o) && negb (EqualsIdentity E (Transform o))
                  then [SetObjectTransform (InputObjectNodeId o) (Transform o)]
                  else []
              | None => []
              end) objs.

(** The node inputs queried by a sequence of calls, in order. *)
Definition QueriesOf (calls : list ApiCall) : list (Z * Z) :=
  flat_map (fun c => match c with
                     | QueryNodeInput node idx => [(node, idx)]
                     | _ => []
                     end) calls.

(** The call [c], made after the calls [before] of the session [s],
    fails. *)
Definition FailsAfter (E : Engine) (s before : list ApiCall) (c : ApiCall)
  : Prop :=
  hapi_result E (before ++ s) c = false.

(** The created nodes that UploadInputData plugs into the merge node:
    the valid ids other than the merge node's own. *)
Definition Pluggable (InputNodeId : Z) (CreatedNodeIds : list Z) : list Z :=
  filter (fun id => (0 <=? id) && negb (InputNodeId =? id)) CreatedNodeIds.

(** Plugging nodes into consecutive inputs of the merge node, from the
    input [first] on. *)
Fixpoint PlugCalls (InputNodeId first : Z) (ids : list Z) : list ApiCall :=
  match ids with
  | [] => []
  | id :: rest =>
      ConnectNodeInput InputNodeId first id 0
      :: PlugCalls InputNodeId (first + 1) rest
  end.

(** A call that takes an object merge off the merge node [node]: the
    query of one of its inputs, the disconnection of that input, or the
    deletion of a node. *)
Definition UnplugsFrom (node : Z) (c : ApiCall) : Prop :=
  exists k, c = QueryNodeInput node k \/ c = DisconnectNodeInput node k \/
            c = DeleteNode k.

(** Two states of an input that differ at most in the input's node id and
    in its input objects. *)
Definition SameButNodes (i i' : UHoudiniInput) : Prop :=
  ObjectName i' = ObjectName i /\ Name i' = Name i /\ Label i' = Label i /\
  Help i' = Help i /\ InputType i' = InputType i /\
  PreviousType i' = PreviousType i /\ AssetNodeId i' = AssetNodeId i /\
  InputIndex i' = InputIndex i /\ ParmId i' = ParmId i /\
  bIsObjectPathParameter i' = bIsObjectPathParameter i /\
  CreatedDataNodeIds i' = CreatedDataNodeIds i /\
  In_bHasChanged i' = In_bHasChanged i /\
  In_bNeedsToTriggerUpdate i' = In_bNeedsToTriggerUpdate i /\
  In_bPendingKill i' = In_bPendingKill i /\
  bDataUploadNeeded i' = bDataUploadNeeded i /\
  bLandscapeExportTypeChanged i' = bLandscapeExportTypeChanged i /\
  Settings i' = Settings i.

(** The calls by which a transform is uploaded: reading and setting the
    transform of an OBJ node. *)
Definition IsTransformCall (c : ApiCall) : Prop :=
  (exists node xform, c = SetObjectTransform node xform) \/
  (exists node, c = GetObjectTransform node).

(** The kinds of input object whose case in the switch of
    UploadHoudiniInputTransform only breaks. *)
Definition TransformNotUploaded (ty : EHoudiniInputObjectType.t) : bool :=
  match ty with
  | EHoudiniInputObjectType.StaticMesh
  | EHoudiniInputObjectType.FoliageType_InstancedStaticMesh
  | EHoudiniInputObjectType.StaticMeshComponent
  | EHoudiniInputObjectType.Actor
  | EHoudiniInputObjectType.SceneComponent
  | EHoudiniInputObjectType.Landscape => false
  | _ => true
  end.

(** The calls by which SetDefaultAssetFromHDA reads the default value of
    the input's parameter. *)
Definition ReadsParameter (i : UHoudiniInput) (c : ApiCall) : Prop :=
  c = GetParmInfo (AssetNodeId i) (ParmId i) \/
  (exists idx, c = GetParmStringValues (AssetNodeId i) idx) \/
  (exists handle, c = ToFString handle).

(** An input at which UploadChangedInputs does not return: it is alive
    and marked changed, and its outer is not an asset component. *)
Definition StopsAt (i : UHoudiniInput) : Prop :=
  In_bPendingKill i = false /\ In_bHasChanged i = true /\
  OuterHAC (Settings i) = None.

(** What UploadChangedInputs makes of an element of the Inputs array: a
    null, pending-kill or unchanged input is left as it is; a changed one
    no longer needs to trigger an update. *)
Definition ProcessedInput (p p' : option UHoudiniInput) : Prop :=
  match p with
  | None => p' = None
  | Some i =>
      if In_bPendingKill i || negb (In_bHasChanged i) then p' = Some i
      else exists i', p' = Some i' /\ In_bNeedsToTriggerUpdate i' = false
  end.

(** The editor broadcasting a sequence of delegates, the first one
    first. *)
Definition Broadcasts (ds : list EditorDelegate)
  (g : option FHoudiniMoveTracker) : option FHoudiniMoveTracker :=
  fold_left (fun g d => Broadcast d g) ds g.

(** What UpdateWorldInputs makes of an element of the Inputs array: only
    a world input is looked at. *)
Definition WorldInputUpdated (E : Engine) (p p' : option UHoudiniInput)
  : Prop :=
  match p with
  | None => p' = None
  | Some i =>
      match InputType i with
      | EHoudiniInputType.World => p' = snd (UpdateWorldInput E (Some i))
      | _ => p' = Some i
      end
  end.

(** What UpdateLoadedInputs makes of an element of the Inputs array that
    BuildAllInputs has left, for a component whose asset has the id [a]:
    a surviving input is given the asset's id and, when it may delete
    nodes and is not an asset input, keeps no valid node id, neither its
    own nor those of its surviving input objects. *)
Definition Reloaded (a : Z) (p p' : option UHoudiniInput) : Prop :=
  match p with
  | None => p' = None
  | Some i =>
      if In_bPendingKill i then p' = Some i
      else
        exists i', p' = Some i' /\ AssetNodeId i' = a /\
          InputType i' = InputType i /\ In_bPendingKill i' = false /\
          (bCanDeleteHoudiniNodes (Settings i) = true ->
           InputType i <> EHoudiniInputType.Asset ->
           In_InputNodeId i' < 0 /\
           forall objs' (o : InputObject),
             InputObjects i' (InputType i) = Some objs' ->
             In (Some o) objs' -> bPendingKill o = false ->
             InputNodeId o < 0 /\ InputObjectNodeId o < 0)
  end.

(** No character of the string is a space. *)
Fixpoint NoSpace (s : string) : Prop :=
  match s with
  | EmptyString => True
  | String c rest => c <> " "%char /\ NoSpace rest
  end.

(** ** More concrete engines and inputs *)

(** A session in which the calls [fails] says fail, and every other call
    succeeds; integers written by calls are 7, only the empty transform is
    the identity, every input has two input meshes, and the actor behind
    an actor input object is alive. *)
Definition engine_where (fails : ApiCall -> bool) : Engine :=
  {| hapi_result := fun _ c => negb (fails c);
     hapi_int := fun _ _ => 7;
     hapi_string := fun _ _ => "geo"%string;
     hapi_transform := fun _ _ => [];
     new_input := fun _ name => Some (Scenarios.geo_input [] (-1) []);
     translate := fun _ k _ o => (negb (fails (Translate k o)), o);
     GetHoudiniAssetComponent := fun _ _ => None;
     OuterIsInput := fun _ => true;
     NeedInstantiation := fun _ _ => false;
     NeedsInitializationOrUpdate := fun _ _ => false;
     IsA := fun _ _ => true;
     IsGarbageCollecting := false;
     EqualsIdentity := fun t => match t with [] => true | _ => false end;
     HasInputTypeChanged := fun _ => false;
     IsDataUploadNeeded := fun i => bDataUploadNeeded i;
     IsTransformUploadNeeded := fun _ => false;
     GetNumberOfInputMeshes := fun _ _ => 2;
     GetActor := fun _ => Some {| Actor_bPendingKill := false;
                                  Actor_Transform := [];
                                  bIsHoudiniAssetActor := false |};
     GetStaticMeshComponent := fun _ => None;
     GetSceneComponent := fun _ => None;
     GetLandscapeProxy := fun _ => None;
     LandscapeHeightfieldTransform := fun _ _ t => t;
     GetProxyState := fun _ _ => NoValidHAC;
     UpdateActor := fun _ _ => None;
     SetInputType := fun _ i => i;
     PresetDefaultObjects := fun _ i _ => i;
     UpdateHoudiniInputCurves := fun _ i => i;
     ScanWorldInput := fun i => ([], false) |}.

(** An input object with the given OBJ node and transform offset. *)
Definition moved_object (obj_node : Z) (xform : FTransform) : InputObject :=
  {| Self := {| Type_ := EHoudiniInputObjectType.StaticMesh;
                Class := UClass.HoudiniInputStaticMesh;
                InputNodeId := obj_node + 1; InputObjectNodeId := obj_node;
                bHasChanged := false; bTransformChanged := false;
                bNeedsToTriggerUpdate := false; bPendingKill := false;
                Transform := xform;
                Obj_bImportAsReference := false |};
     AsActor := None; AsStaticMesh := Some (false, []);
     AsHoudiniSpline := None |}.

(** A geometry input with three objects that have a transform offset. *)
Definition input_with_offsets : UHoudiniInput :=
  Scenarios.geo_input
    [Some (moved_object 10 [1]); Some (moved_object 20 [2]);
     Some (moved_object 30 [3])] 3 [10; 20; 30].

(** The upload of the offset of the second object fails. *)
Definition second_offset_fails (c : ApiCall) : bool :=
  match c with
  | SetObjectTransform 20 _ => true
  | _ => false
  end.

(** An object that is pending kill. *)
Definition dead_object : InputObject :=
  {| Self := {| Type_ := EHoudiniInputObjectType.StaticMesh;
                Class := UClass.HoudiniInputStaticMesh;
                InputNodeId := 5; InputObjectNodeId := 4;
                bHasChanged := true; bTransformChanged := false;
                bNeedsToTriggerUpdate := true; bPendingKill := true;
                Transform := [];
                Obj_bImportAsReference := false |};
     AsActor := None; AsStaticMesh := Some (false, []);
     AsHoudiniSpline := None |}.

(** A geometry input whose objects are all gone, with two data nodes
    recorded on the previous cook. *)
Definition input_with_dead_objects : UHoudiniInput :=
  Scenarios.geo_input [None; Some dead_object] 3 [4; 6].

(** An actor input object with one changed component. *)
Definition actor_object : InputObject :=
  {| Self := {| Type_ := EHoudiniInputObjectType.Actor;
                Class := UClass.HoudiniInputActor;
                InputNodeId := -1; InputObjectNodeId := -1;
                bHasChanged := true; bTransformChanged := false;
                bNeedsToTriggerUpdate := true; bPendingKill := false;
                Transform := [];
                Obj_bImportAsReference := false |};
     AsActor := Some [Some (Self (Scenarios.object
                                   EHoudiniInputObjectType.StaticMeshComponent
                                   (-1) (-1) true))];
     AsStaticMesh := None; AsHoudiniSpline := None |}.

(** A static-mesh component that is not marked changed and has the OBJ
    node 9, an actor marked changed whose only component it is, and a
    world input holding that actor, with node 9 on record. *)
Definition kept_component : UHoudiniInputObject :=
  Self (Scenarios.object EHoudiniInputObjectType.StaticMeshComponent 8 9 false).

Definition changed_actor : InputObject :=
  {| Self := {| Type_ := EHoudiniInputObjectType.Actor;
                Class := UClass.HoudiniInputActor;
                InputNodeId := -1; InputObjectNodeId := -1;
                bHasChanged := true; bTransformChanged := false;
                bNeedsToTriggerUpdate := true; bPendingKill := false;
                Transform := [];
                Obj_bImportAsReference := false |};
     AsActor := Some [Some kept_component];
     AsStaticMesh := None; AsHoudiniSpline := None |}.

Definition input_with_changed_actor : UHoudiniInput :=
  Scenarios.input_of_type EHoudiniInputType.World [Some changed_actor] 3 [9].

(** Every translator fails. *)
Definition translators_fail (c : ApiCall) : bool :=
  match c with
  | Translate _ _ => true
  | _ => false
  end.

End Observed.

(* ===================================================================== *)
(** * What the marshalling translators are observed to do                 *)
(* ===================================================================== *)

Module Point.
Import HoudiniInput Api InputTranslator Marshalling.

(** The calls of the upload of an object as a single point, in order. *)
Definition ObjectPoint (H : Host) (NodeName : string)
  (o : UHoudiniInputObject) (Object : UObject) (s : Log) : list GeoCall :=
  let node := geo_node H s (CreateInputNode NodeName) in
  let P := {| count := 1; tupleSize := 3;
              storage := HAPI_STORAGETYPE_FLOAT |} in
  let path := {| count := 1; tupleSize := 1;
                 storage := HAPI_STORAGETYPE_STRING |} in
  [ CreateInputNode NodeName;
    Api (HapiGetParentNodeId node);
    SetPartInfo node {| pointAttributeCount := 2; vertexCount := 0;
                        faceCount := 0; pointCount := 1 |};
    AddAttribute node HAPI_UNREAL_ATTRIB_POSITION P;
    SetAttributeFloatData node HAPI_UNREAL_ATTRIB_POSITION P
      (HoudiniPosition H (Transform o));
    AddAttribute node HAPI_UNREAL_ATTRIB_OBJECT_PATH path;
    Utils_SetAttributeStringData [Obj_PathName Object] node
      HAPI_UNREAL_ATTRIB_OBJECT_PATH path;
    CommitGeo node ].

(** The call adds an attribute. *)
Definition IsAddAttribute (c : GeoCall) : bool :=
  match c with
  | AddAttribute _ _ _ => true
  | _ => false
  end.

(** The two calls that upload one column of a data table. *)
Definition ColumnCalls (node NumRows : Z) (ColIdx : Z) (ColName : string)
  (values : list string) : list GeoCall :=
  let name := HAPI_UNREAL_ATTRIB_DATA_TABLE_PREFIX
                (FromInt ColIdx ++ "_" ++ ColName) in
  let info := {| count := NumRows; tupleSize := 1;
                 storage := HAPI_STORAGETYPE_STRING |} in
  [ AddAttribute node name info;
    Utils_SetAttributeStringData values node name info ].

(** The calls of the upload of a data table before its columns, in
    order. *)
Definition TableHead (H : Host) (NodeName : string) (T : UDataTable)
  (NumAttributes NumRows : Z) (s : Log) : list GeoCall :=
  let node := geo_node H s (CreateInputNode NodeName) in
  let P := {| count := NumRows; tupleSize := 3;
              storage := HAPI_STORAGETYPE_FLOAT |} in
  let str := {| count := NumRows; tupleSize := 1;
                storage := HAPI_STORAGETYPE_STRING |} in
  [ CreateInputNode NodeName;
    Api (HapiGetParentNodeId node);
    SetPartInfo node {| pointAttributeCount := NumAttributes;
                        vertexCount := 0; faceCount := 0;
                        pointCount := NumRows |};
    AddAttribute node HAPI_UNREAL_ATTRIB_POSITION P;
    SetAttributeFloatData node HAPI_UNREAL_ATTRIB_POSITION P
      (flat_map (fun RowIdx => [0; FloatOfInt H RowIdx; 0]) (upto NumRows));
    AddAttribute node HAPI_UNREAL_ATTRIB_OBJECT_PATH str;
    Utils_SetAttributeStringData
      (repeat (Table_PathName T) (Z.to_nat NumRows)) node
      HAPI_UNREAL_ATTRIB_OBJECT_PATH str;
    AddAttribute node HAPI_UNREAL_ATTRIB_DATA_TABLE_ROWSTRUCT str;
    Utils_SetAttributeStringData
      (repeat (RowStructName T) (Z.to_nat NumRows)) node
      HAPI_UNREAL_ATTRIB_DATA_TABLE_ROWSTRUCT str ].

(** The calls that upload the given columns of a table with the given
    header and rows: a column is named after its index and its header
    entry, and holds its entry of each row, in the order of the rows. *)
Definition ColumnsCalls (node NumRows : Z) (header : list string)
  (rows : list (list string)) (Columns : list Z) : list GeoCall :=
  flat_map (fun ColIdx =>
              ColumnCalls node NumRows ColIdx
                (nth (Z.to_nat ColIdx) header ""%string)
                (map (fun row => nth (Z.to_nat ColIdx) row ""%string) rows))
    Columns.

(** ** Scenarios *)

(** A host whose calls fail where [fails] says so; a new node gets the
    number of the calls made before as its id, from 100 on. *)
Definition host_where (fails : GeoCall -> bool)
  (table : list (list string)) : Host :=
  {| geo_result := fun _ c => negb (fails c);
     geo_node := fun s _ => 100 + Z.of_nat (Datatypes.length s);
     GetObject := fun _ =>
       Some {| Obj_bPendingKill := false; Obj_Name := "Cube";
               Obj_PathName := "/Game/Cube.Cube" |};
     GetSkeletalMesh := fun _ => None;
     GetSceneComponent := fun _ => None;
     GetDataTable := fun _ =>
       Some {| Table_bPendingKill := false; Table_Name := "Prices";
               Table_PathName := "/Game/Prices.Prices";
               RowStructName := "PriceRow";
               TableData := table |};
     GetLocation := fun t => (nth 0 t 0, nth 1 t 0, nth 2 t 0);
     ScalePosition := fun x => x;
     FloatOfInt := fun x => x |}.

Definition nothing_fails (c : GeoCall) : bool := false.

Definition commit_fails (c : GeoCall) : bool :=
  match c with
  | CommitGeo _ => true
  | _ => false
  end.

Definition prices : list (list string) :=
  [ ["Name"; "Price"]; ["apple"; "3"]; ["pear"; "4"]; ["plum"; "5"] ]%string.

(** An input object placed at (1, 2, 3), not uploaded yet. *)
Definition fresh_object (ty : EHoudiniInputObjectType.t) (cls : UClass.t)
  : UHoudiniInputObject :=
  {| Type_ := ty; Class := cls;
     InputNodeId := -1; InputObjectNodeId := -1;
     bHasChanged := true; bTransformChanged := false;
     bNeedsToTriggerUpdate := false; bPendingKill := false;
     Transform := [1; 2; 3]; Obj_bImportAsReference := false |}.

Definition table_object : UHoudiniInputObject :=
  fresh_object EHoudiniInputObjectType.DataTable UClass.HoudiniInputDataTable.

Definition plain_object : UHoudiniInputObject :=
  fresh_object EHoudiniInputObjectType.Object UClass.HoudiniInputObject.

End Point.

(* ===================================================================== *)
(** * What the detail panel is observed to show                           *)
(* ===================================================================== *)

Module Shown.
Import OutputObjects.

Section WithParts.

Variable Identifier : Type.
Variable EHoudiniPartType : Type.

(** The output object has a live static mesh. *)
Definition HasStaticMesh (v : FHoudiniOutputObject) : bool :=
  negb (Gone (Cast UStaticMesh (OutputObject v))).

(** The output object has a live proxy mesh. *)
Definition HasProxyMesh (v : FHoudiniOutputObject) : bool :=
  negb (Gone (Cast UHoudiniStaticMesh (ProxyObject v))).

(** The identifier a row is made for. *)
Definition WidgetIdentifier (w : Widget Identifier EHoudiniPartType)
  : Identifier :=
  match w with
  | CreateStaticMeshAndMaterialWidgets _ id _ _ _ _ => id
  | CreateProxyMeshAndMaterialWidgets _ id _ _ _ => id
  | CreateLandscapeOutputWidget_Helper _ _ id => id
  | CreateLandscapeEditLayerOutputWidget_Helper _ _ id => id
  | CreateCurveWidgets _ _ id _ => id
  end.

(** The row of a mesh entry, made with the given name of the asset, bake
    folder and part: the static mesh when there is a live one, the proxy
    mesh otherwise. *)
Definition MeshRow (name folder : string)
  (part : Identifier -> FHoudiniGeoPartObject EHoudiniPartType)
  (e : Identifier * FHoudiniOutputObject)
  : Widget Identifier EHoudiniPartType :=
  if HasStaticMesh (snd e)
  then CreateStaticMeshAndMaterialWidgets (OutputObject (snd e)) (fst e)
         name folder (part (fst e)) (bProxyIsCurrent (snd e))
  else CreateProxyMeshAndMaterialWidgets (ProxyObject (snd e)) (fst e)
         name folder (part (fst e)).

(** Two lists of output objects show the same objects, and have their
    components at the same entries. *)
Definition SameObjects (m1 m2 : list (Identifier * FHoudiniOutputObject))
  : Prop :=
  Forall2 (fun e1 e2 =>
             OutputObject (snd e1) = OutputObject (snd e2)
             /\ (OutputComponent (snd e1) = None
                 <-> OutputComponent (snd e2) = None)) m1 m2.

End WithParts.

Arguments WidgetIdentifier {Identifier EHoudiniPartType} _.
Arguments MeshRow {Identifier EHoudiniPartType} _ _ _ _.
Arguments SameObjects {Identifier} _ _.

(** ** Scenarios *)

Definition object_of (classes : list UClass) (dead : bool) (name : string)
  : UObject :=
  {| IsA := fun T =>
       existsb (fun c => match c, T with
                         | UStaticMesh, UStaticMesh
                         | UHoudiniStaticMesh, UHoudiniStaticMesh
                         | UHoudiniLandscapePtr, UHoudiniLandscapePtr
                         | UHoudiniLandscapeEditLayer, UHoudiniLandscapeEditLayer
                         | USceneComponent, USceneComponent => true
                         | _, _ => false
                         end) classes;
     Obj_bPendingKill := dead;
     Obj_Name := name;
     Obj_FullName := ("Object " ++ name)%string |}.

(** An output with a mesh under the key 1 and a bare component under the
    key 2. *)
Definition two_objects : list (Z * FHoudiniOutputObject) :=
  [ (1, {| OutputObject := Some (object_of [UStaticMesh] false "wall");
           OutputComponent := Some (object_of [USceneComponent] false "smc");
           ProxyObject := None; bProxyIsCurrent := false;
           BakeName := "" |});
    (2, {| OutputObject := None;
           OutputComponent := Some (object_of [USceneComponent] false "spline");
           ProxyObject := None; bProxyIsCurrent := false;
           BakeName := "" |}) ].

End Shown.

(* ===================================================================== *)
(** * Maps and materials to replace                                       *)
(* ===================================================================== *)

(** A map kept as a list of pairs, the later pairs of a key being
    shadowed; keys are compared without regard to case. *)
Module PairList.
Import MaterialReplacement.

Definition t := list (string * Z).

Definition key_eqb (a b : string) : bool :=
  String.eqb (Described.FoldCase a) (Described.FoldCase b).

Fixpoint Find (Key : string) (m : t) : option Z :=
  match m with
  | [] => None
  | (k, v) :: rest => if key_eqb k Key then Some v else Find Key rest
  end.

(** The first key under which the value is found. *)
Definition FindKey (Value : Z) (m : t) : option string :=
  option_map fst
    (find (fun e => match Find (fst e) m with
                    | Some v => v =? Value
                    | None => false
                    end) m).

Fixpoint Remove (Key : string) (m : t) : t :=
  match m with
  | [] => []
  | (k, v) :: rest =>
      if key_eqb k Key then Remove Key rest else (k, v) :: Remove Key rest
  end.

Definition Add (Key : string) (Value : Z) (m : t) : t :=
  (Key, Value) :: Remove Key m.

End PairList.

Module Replaced.
Import MaterialReplacement.

(** ** Scenarios *)

(** The materials 11 (brick) and 12 (moss) come from Houdini, 21 (gold)
    and 22 (rust) are the user's; 99 is the default material. *)
Definition material_name (m : Z) : string :=
  match m with
  | 11 => "brick" | 12 => "moss" | 21 => "gold" | 22 => "rust"
  | _ => "other"
  end.

Definition is_material (m : Z) : bool := (10 <? m) && (m <? 100).

Definition never_dead (m : Z) : bool := false.

(** A wall with two materials, shown by a component, and a second mesh
    without a component. *)
Definition wall : UStaticMesh :=
  {| SM_Address := 1000; SM_bPendingKill := false;
     StaticMaterials := [11; 12] |}.

Definition wall_output : UHoudiniOutput PairList.t :=
  {| ReplacementMaterials := [];
     AssignementMaterials := [("brick_mat", 11); ("moss_mat", 12)]%string;
     OutputObjects :=
       [ {| OutputComponent :=
              Some {| Comp_Address := 2000; IsStaticMeshComponent := true;
                      Comp_bPendingKill := false; GetStaticMesh := 1000 |};
            OutputObject :=
              Some {| Obj_Address := 1000; IsStaticMesh := true;
                      Obj_bPendingKill := false |} |};
         {| OutputComponent := None;
            OutputObject :=
              Some {| Obj_Address := 1001; IsStaticMesh := true;
                      Obj_bPendingKill := false |} |} ] |}.

(** The handlers of the scenarios: maps kept as lists of pairs, 99 as
    the default material, an editor at hand. *)
Definition drop :=
  OnMaterialInterfaceDropped PairList.t PairList.FindKey PairList.Add
    is_material never_dead material_name 99 "default_material" true.

Definition reset :=
  OnResetMaterialInterfaceClicked PairList.t PairList.Find PairList.FindKey
    PairList.Remove 99 true.

(** What the editor is told when gold (21) is dropped on the first
    material of the wall. *)
Definition told_of_gold_on_wall : list EditorCall :=
  [ FScopedTransaction "Houdini Material Replacement"; Modify_Output;
    Modify_StaticMesh 1000; Modify_Component 2000;
    SMC_SetMaterial 2000 0 21; Modify_StaticMesh 1001;
    SM_SetMaterial 1001 0 21; UpdateEditorProperties;
    RedrawAllViewports ].

(** The wall and its output after gold has been dropped on the first
    material. *)
Definition gold_wall : UStaticMesh :=
  set_StaticMaterials [21; 12] wall.

Definition gold_output : UHoudiniOutput PairList.t :=
  set_ReplacementMaterials [("brick_mat"%string, 21)] wall_output.

(** A mesh whose only material entry is empty. *)
Definition bare_mesh : UStaticMesh :=
  {| SM_Address := 1002; SM_bPendingKill := false; StaticMaterials := [0] |}.

End Replaced.

(* ===================================================================== *)
(** * Properties of the output details                                    *)
(* ===================================================================== *)

Module OutputDetailsSpec.
Import OutputDetails.

Lemma Renders_head_only : forall p rest rest' ws,
  Renders (p :: rest) ws -> Renders (p :: rest') ws.
Proof.
  intros p rest rest' ws H.
  inversion H; subst; eauto using Renders.
Qed.

(** C7.  CreateWidget shows, for the first output of a non-empty array,
    the widget of that output's type: the mesh, landscape, instancer or
    curve widget, and the default widget for every other type, Skeletal
    included; it shows nothing for an editable curve, for an empty array
    and for a null or pending-kill first output.  The description
    [Renders] admits exactly what CreateWidget does. *)
Theorem CreateWidget_dispatch : forall InOutputs,
  Renders InOutputs (CreateWidget InOutputs) /\
  (forall ws, Renders InOutputs ws -> ws = CreateWidget InOutputs).
Proof.
  intros [|[o|] rest].
  - split; [constructor|]. intros ws H; inversion H; reflexivity.
  - split.
    + unfold CreateWidget. cbn [Datatypes.length nth IsValid].
      replace (Z.of_nat (S (Datatypes.length rest)) <=? 0) with false
        by (symmetry; apply Z.leb_gt; lia).
      destruct o as [ty ed pk]; cbn.
      destruct pk; cbn; [now apply R_killed|].
      destruct ed, ty; cbn;
        first [ now apply R_editable_curve
              | now apply R_mesh | now apply R_landscape
              | now apply R_instancer | now apply R_curve
              | apply R_default; cbn; congruence ].
    + intros ws H. unfold CreateWidget. cbn [Datatypes.length nth IsValid].
      replace (Z.of_nat (S (Datatypes.length rest)) <=? 0) with false
        by (symmetry; apply Z.leb_gt; lia).
      inversion H; subst; clear H;
        repeat match goal with
               | h : bPendingKill _ = _ |- _ => rewrite h
               | h : bIsEditableNode _ = _ |- _ => rewrite h
               | h : Type_ _ = _ |- _ => rewrite h
               end; cbn; try reflexivity;
        destruct (Type_ o), (bIsEditableNode o); cbn; congruence.
  - split.
    + unfold CreateWidget. cbn [Datatypes.length nth IsValid].
      replace (Z.of_nat (S (Datatypes.length rest)) <=? 0) with false
        by (symmetry; apply Z.leb_gt; lia).
      cbn. constructor.
    + intros ws H. inversion H; subst.
      unfold CreateWidget. cbn [Datatypes.length nth IsValid].
      replace (Z.of_nat (S (Datatypes.length rest)) <=? 0) with false
        by (symmetry; apply Z.leb_gt; lia).
      reflexivity.
Qed.

End OutputDetailsSpec.

(* ===================================================================== *)
(** * Properties of the input translator                                  *)
(* ===================================================================== *)

Module InputTranslatorSpec.
Import HoudiniInput Api InputTranslator Described.
Local Open Scope api_scope.

(** ** GetDefaultInputTypeFromLabel *)

Lemma FoldCase_nil : forall s, FoldCase s = EmptyString -> s = EmptyString.
Proof. destruct s; cbn; congruence. Qed.

Lemma StartsWith_IgnoreCase_spec : forall sub s,
  StartsWith_IgnoreCase s sub = true <->
  exists mid suf, s = (mid ++ suf)%string /\ FoldCase mid = FoldCase sub.
Proof.
  induction sub as [|b sub IH]; intros s; cbn.
  - split; [intros _|intros _; destruct s; reflexivity].
    exists EmptyString, s. split; reflexivity.
  - destruct s as [|a s].
    + split; [discriminate|].
      intros (mid & suf & Hs & Hf).
      destruct mid; cbn in *; discriminate.
    + cbn [StartsWith_IgnoreCase].
      rewrite andb_true_iff, Ascii.eqb_eq, IH. split.
      * intros (Hab & mid & suf & -> & Hf).
        exists (String a mid), suf. cbn. rewrite Hab, Hf. split; reflexivity.
      * intros (mid & suf & Hs & Hf).
        destruct mid as [|a' mid]; cbn in *; [discriminate|].
        injection Hs as -> ->. injection Hf as Hab Hf.
        split; [assumption|]. exists mid, suf. split; [reflexivity|assumption].
Qed.

Lemma Contains_IgnoreCase_spec : forall s sub,
  Contains_IgnoreCase s sub = true <-> Mentions s sub.
Proof.
  induction s as [|c s IH]; intros sub.
  - cbn [Contains_IgnoreCase]. rewrite orb_false_r, StartsWith_IgnoreCase_spec.
    split.
    + intros (mid & suf & Hs & Hf). exists EmptyString, mid, suf. auto.
    + intros (pre & mid & suf & Hs & Hf).
      destruct pre; [|discriminate]. exists mid, suf. auto.
  - cbn [Contains_IgnoreCase].
    rewrite orb_true_iff, StartsWith_IgnoreCase_spec, IH. split.
    + intros [(mid & suf & Hs & Hf)|(pre & mid & suf & Hs & Hf)].
      * exists EmptyString, mid, suf. auto.
      * exists (String c pre), mid, suf. cbn. rewrite Hs. auto.
    + intros (pre & mid & suf & Hs & Hf).
      destruct pre as [|c' pre]; cbn in Hs.
      * left. exists mid, suf. auto.
      * right. injection Hs as -> ->. exists pre, mid, suf. auto.
Qed.

Lemma Contains_IgnoreCase_reflect : forall s sub,
  reflect (Mentions s sub) (Contains_IgnoreCase s sub).
Proof. intros. apply iff_reflect. symmetry. apply Contains_IgnoreCase_spec. Qed.

(** Settles one case of the precedence: the branch taken is allowed, and
    every other type is excluded by the words found so far. *)
Ltac settle :=
  cbn [orb];
  (split;
   [ first [ now apply Default_Curve
           | apply Default_Landscape; tauto
           | apply Default_World; tauto
           | apply Default_Asset; tauto
           | apply Default_Geometry; tauto ]
   | intros t Ht; inversion Ht; subst; first [reflexivity | tauto] ]).

(** C8.  GetDefaultInputTypeFromLabel is a total function of the label
    with a fixed precedence: Curve if the label contains "curve" in any
    letter case; otherwise Landscape if it contains "landscape", "terrain"
    or "heightfield"; otherwise World for "world" or "outliner"; otherwise
    Asset for "asset" or "hda"; otherwise Geometry.  The result is the
    only type this precedence allows. *)
Theorem GetDefaultInputTypeFromLabel_precedence : forall label,
  DefaultInputType label (GetDefaultInputTypeFromLabel label) /\
  (forall t, DefaultInputType label t -> t = GetDefaultInputTypeFromLabel label).
Proof.
  intros label. unfold GetDefaultInputTypeFromLabel.
  destruct (Contains_IgnoreCase_reflect label "curve") as [c|c]; [settle|].
  destruct (Contains_IgnoreCase_reflect label "landscape") as [l1|l1]; [settle|].
  destruct (Contains_IgnoreCase_reflect label "terrain") as [l2|l2]; [settle|].
  destruct (Contains_IgnoreCase_reflect label "heightfield") as [l3|l3]; [settle|].
  destruct (Contains_IgnoreCase_reflect label "world") as [w1|w1]; [settle|].
  destruct (Contains_IgnoreCase_reflect label "outliner") as [w2|w2]; [settle|].
  destruct (Contains_IgnoreCase_reflect label "asset") as [a1|a1]; [settle|].
  destruct (Contains_IgnoreCase_reflect label "hda") as [a2|a2]; settle.
Qed.

(** ** Results and added calls *)

Section Traces.

Variable E : Engine.

Lemma Run_ret : forall A (a : A) (Q : A -> list ApiCall -> Prop),
  Q a [] -> Run (ret a) Q.
Proof. intros A a Q H s. exists a, []. split; [reflexivity|assumption]. Qed.

Lemma Run_bind : forall A B (m : M A) (k : A -> M B) Q1 (Q : B -> list ApiCall -> Prop),
  Run m Q1 ->
  (forall a n1, Q1 a n1 -> Run (k a) (fun b n2 => Q b (n2 ++ n1))) ->
  Run (bind m k) Q.
Proof.
  intros A B m k Q1 Q Hm Hk s. unfold bind.
  destruct (Hm s) as (a & n1 & e1 & q1). rewrite e1.
  destruct (Hk a n1 q1 (n1 ++ s)) as (b & n2 & e2 & q2).
  exists b, (n2 ++ n1). rewrite e2, app_assoc. split; [reflexivity|assumption].
Qed.

Lemma Run_weaken : forall A (m : M A) (Q Q' : A -> list ApiCall -> Prop),
  Run m Q -> (forall a n, Q a n -> Q' a n) -> Run m Q'.
Proof.
  intros A m Q Q' Hm HQ s. destruct (Hm s) as (a & n & e & q).
  exists a, n. split; [assumption|]. now apply HQ.
Qed.

Lemma Run_log : forall A (f : Session -> A) (c : ApiCall) (Q : A -> list ApiCall -> Prop),
  (forall a, Q a [c]) -> Run (fun s => (f s, c :: s)) Q.
Proof. intros A f c Q H s. exists (f s), [c]. split; [reflexivity|apply H]. Qed.

Lemma Run_ask : forall A (f : Session -> A) (Q : A -> list ApiCall -> Prop),
  (forall a, Q a []) -> Run (fun s => (f s, s)) Q.
Proof. intros A f Q H s. exists (f s), []. split; [reflexivity|apply H]. Qed.

Lemma Run_call : forall c (Q : bool -> list ApiCall -> Prop),
  (forall b, Q b [c]) -> Run (call E c) Q.
Proof. intros. unfold call. now apply Run_log. Qed.

Lemma Run_call_int : forall c (Q : bool * Z -> list ApiCall -> Prop),
  (forall r, Q r [c]) -> Run (call_int E c) Q.
Proof. intros. unfold call_int. now apply Run_log. Qed.

Lemma Run_check : forall c (Q : unit -> list ApiCall -> Prop),
  Q tt [c] -> Run (check E c) Q.
Proof.
  intros c Q H. unfold check.
  eapply Run_bind; [apply Run_call with (Q := fun _ n => n = [c]); reflexivity|].
  intros b n1 ->. apply Run_ret. exact H.
Qed.

(** The result of a run, when the same run is known to satisfy [Q]. *)
Lemma Run_at : forall A (m : M A) Q s,
  Run m Q -> exists a new, m s = (a, new ++ s) /\ Q a new.
Proof. intros A m Q s H. apply H. Qed.

Lemma Emits_ret : forall A P (a : A), Emits P (ret a).
Proof. intros. apply Run_ret. constructor. Qed.

Lemma Emits_bind : forall A B P (m : M A) (k : A -> M B),
  Emits P m -> (forall a, Emits P (k a)) -> Emits P (bind m k).
Proof.
  intros A B P m k Hm Hk. eapply Run_bind; [exact Hm|].
  intros a n1 H1. eapply Run_weaken; [apply Hk|].
  intros b n2 H2. apply Forall_app; split; assumption.
Qed.

Lemma Emits_log : forall A P (f : Session -> A) (c : ApiCall),
  P c -> Emits P (fun s => (f s, c :: s)).
Proof. intros. apply Run_log. intros; repeat constructor; assumption. Qed.

Lemma Emits_ask : forall A P (f : Session -> A), Emits P (fun s => (f s, s)).
Proof. intros. apply Run_ask. intros; constructor. Qed.

Lemma Emits_call : forall P c, P c -> Emits P (call E c).
Proof. intros. unfold call. now apply Emits_log. Qed.

Lemma Emits_call_int : forall P c, P c -> Emits P (call_int E c).
Proof. intros. unfold call_int. now apply Emits_log. Qed.

Lemma Emits_check : forall P c, P c -> Emits P (check E c).
Proof.
  intros. unfold check. apply Emits_bind; [now apply Emits_call|].
  intros; apply Emits_ret.
Qed.

Lemma Emits_forEach : forall A S P (body : A -> S -> M (A * S)),
  (forall a st, Emits P (body a st)) ->
  forall l st, Emits P (forEach body l st).
Proof.
  intros A S P body Hb. induction l as [|a l IH]; intros st; cbn.
  - apply Emits_ret.
  - apply Emits_bind; [apply Hb|]. intros [a' st1].
    apply Emits_bind; [apply IH|]. intros [l' st2]. apply Emits_ret.
Qed.

Lemma Emits_forEach_ : forall A P (body : A -> M unit),
  (forall a, Emits P (body a)) -> forall l, Emits P (forEach_ body l).
Proof.
  intros A P body Hb. induction l as [|a l IH]; cbn.
  - apply Emits_ret.
  - apply Emits_bind; [apply Hb|]. intros _. apply IH.
Qed.

Lemma Emits_mapM : forall A B P (f : A -> M B),
  (forall a, Emits P (f a)) -> forall l, Emits P (mapM f l).
Proof.
  intros A B P f Hf. induction l as [|a l IH]; cbn.
  - apply Emits_ret.
  - apply Emits_bind; [apply Hf|]. intros b.
    apply Emits_bind; [apply IH|]. intros bs. apply Emits_ret.
Qed.

Lemma Emits_weaken : forall A (P Q : ApiCall -> Prop) (m : M A),
  (forall c, P c -> Q c) -> Emits P m -> Emits Q m.
Proof.
  intros A P Q m HPQ Hm. eapply Run_weaken; [exact Hm|].
  intros a n H. eapply Forall_impl; eauto.
Qed.

End Traces.

(** One step of a proof that a computation only adds calls of a kind:
    follows the structure of the computation. *)
Ltac emits_step :=
  match goal with
  | |- Emits _ (ret _) => apply Emits_ret
  | |- Emits _ (bind _ _) => apply Emits_bind; [|intros]
  | |- Emits _ (call _ _) => apply Emits_call
  | |- Emits _ (call_int _ _) => apply Emits_call_int
  | |- Emits _ (check _ _) => apply Emits_check
  | |- Emits _ (forEach _ _ _) => apply Emits_forEach; intros
  | |- Emits _ (forEach_ _ _) => apply Emits_forEach_; intros
  | |- Emits _ (mapM _ _) => apply Emits_mapM; intros
  | |- Emits _ (let '(_, _) := ?p in _) => destruct p
  | |- Emits _ (if ?b then _ else _) => destruct b
  | |- Emits _ (match ?x with _ => _ end) => destruct x
  | |- Emits _ (fun s => (_, _ :: s)) => apply Emits_log
  | |- Emits _ (fun s => (_, s)) => apply Emits_ask
  end.

Ltac emits := repeat emits_step.

(** The calls in front of [s] in the session [l]. *)
Ltac added_calls l s :=
  match l with
  | s => constr:(@nil ApiCall)
  | ?c :: ?l' => let p := added_calls l' s in constr:(c :: p)
  end.

(** Exhibits the calls a fully evaluated run has added. *)
Ltac exhibit_added :=
  match goal with
  | |- exists new, (_, ?l) = (_, new ++ ?s) /\ _ =>
      let p := added_calls l s in exists p; split; [reflexivity|]
  end.

(** ** DisconnectInput, DestroyInputNodes, DisconnectAndDestroyInput *)

Section Destroy.

Variable E : Engine.

Lemma DisconnectInput_never_deletes : forall p T,
  Emits NotDeleteNode (DisconnectInput E p T).
Proof.
  intros p T. unfold DisconnectInput. emits; intros id; discriminate.
Qed.

(** Whatever the input, null or not, destroying the nodes of an Asset
    input makes no call at all. *)
Lemma DestroyInputNodes_Asset_no_call : forall p s,
  snd (DestroyInputNodes E p EHoudiniInputType.Asset s) = s /\
  snd (fst (DestroyInputNodes E p EHoudiniInputType.Asset s)) = p.
Proof.
  intros [i|] s; cbn; [|split; reflexivity].
  destruct (In_bPendingKill i); [split; reflexivity|].
  destruct (bCanDeleteHoudiniNodes (Settings i)); split; reflexivity.
Qed.

Lemma DisconnectInput_Asset : forall i s,
  In_bPendingKill i = false ->
  exists new,
    DisconnectInput E (Some i) EHoudiniInputType.Asset s
    = ((true, Some (SetInputNodeId (-1) i)), new ++ s) /\
    Forall (IsDisconnect i) new.
Proof.
  intros i s Hpk. unfold DisconnectInput. rewrite Hpk. cbn [EHoudiniInputType.eqb].
  unfold bind, call, ret, IsDisconnect.
  destruct (bIsObjectPathParameter i);
    [|destruct ((AssetNodeId i >=? 0) && (In_InputNodeId i >=? 0))];
    destruct (OuterHAC (Settings i));
    cbn; exhibit_added;
    repeat first [apply Forall_nil | apply Forall_cons]; auto.
Qed.

(** C9 (amended).  An Asset input is never destroyed, only disconnected.
    With Asset as the input type and whatever the input, null or not,
    DestroyInputNodes makes no call and leaves the input as it is, and
    DisconnectAndDestroyInput deletes no node.  DestroyInputNodes returns
    true exactly when the input is not null, not pending kill and may
    delete Houdini nodes, and false otherwise.  For an input that is not
    pending kill, DisconnectInput only nulls the object-path parameter or
    disconnects the node input (and clears the downstream link of the
    outer component), resets the input's node id to -1 and returns true;
    so DisconnectAndDestroyInput changes nothing of the input but that
    node id, and returns what DestroyInputNodes returns. *)
Theorem Asset_input_is_only_disconnected : forall (s : Session),
  (forall p,
     snd (DestroyInputNodes E p EHoudiniInputType.Asset s) = s /\
     snd (fst (DestroyInputNodes E p EHoudiniInputType.Asset s)) = p /\
     fst (fst (DestroyInputNodes E p EHoudiniInputType.Asset s))
     = match p with
       | Some i => negb (In_bPendingKill i) &&
                   bCanDeleteHoudiniNodes (Settings i)
       | None => false
       end /\
     exists r new,
       DisconnectAndDestroyInput E p EHoudiniInputType.Asset s
       = (r, new ++ s) /\
       Forall NotDeleteNode new) /\
  (forall i : UHoudiniInput,
     In_bPendingKill i = false ->
     DestroyInputNodes E (Some i) EHoudiniInputType.Asset s
     = ((bCanDeleteHoudiniNodes (Settings i), Some i), s) /\
     (exists new,
        DisconnectInput E (Some i) EHoudiniInputType.Asset s
        = ((true, Some (SetInputNodeId (-1) i)), new ++ s) /\
        Forall (IsDisconnect i) new) /\
     (exists new,
        DisconnectAndDestroyInput E (Some i) EHoudiniInputType.Asset s
        = ((bCanDeleteHoudiniNodes (Settings i),
            Some (SetInputNodeId (-1) i)), new ++ s) /\
        Forall (IsDisconnect i) new)).
Proof.
  intros s.
  assert (Hdestroy : forall i s, In_bPendingKill i = false ->
            DestroyInputNodes E (Some i) EHoudiniInputType.Asset s
            = ((bCanDeleteHoudiniNodes (Settings i), Some i), s)).
  { intros i' s' H1. cbn. rewrite H1.
    destruct (bCanDeleteHoudiniNodes (Settings i')); reflexivity. }
  split.
  - intros p.
    destruct (DestroyInputNodes_Asset_no_call p s) as [Hs Hp].
    split; [exact Hs|]. split; [exact Hp|]. split.
    { destruct p as [i|]; cbn; [|reflexivity].
      destruct (In_bPendingKill i); [reflexivity|].
      destruct (bCanDeleteHoudiniNodes (Settings i)); reflexivity. }
    destruct (DisconnectInput_never_deletes p EHoudiniInputType.Asset s)
      as ([b r] & new & Hrun & Hnew).
    unfold DisconnectAndDestroyInput, bind. rewrite Hrun.
    destruct (DestroyInputNodes_Asset_no_call r (new ++ s)) as [Hs' _].
    destruct (DestroyInputNodes E r EHoudiniInputType.Asset (new ++ s))
      as [[b2 r2] s2].
    cbn in Hs'. subst s2. eexists _, new. split; [reflexivity|exact Hnew].
  - intros i Hpk.
    split; [now apply Hdestroy|].
    destruct (DisconnectInput_Asset i s Hpk) as (new & Hrun & Hnew).
    split; [exists new; split; assumption|].
    exists new. unfold DisconnectAndDestroyInput, bind. rewrite Hrun.
    rewrite Hdestroy by assumption. split; [reflexivity|assumption].
Qed.

End Destroy.

Lemma Asset_input_is_only_disconnected_witness :
  let E := Scenarios.engine true in
  let i := Scenarios.asset_input in
  DestroyInputNodes E (Some i) EHoudiniInputType.Asset [] = ((true, Some i), []) /\
  (exists new,
     DisconnectInput E (Some i) EHoudiniInputType.Asset []
     = ((true, Some (SetInputNodeId (-1) i)), new ++ []) /\
     Forall (IsDisconnect i) new) /\
  (exists new,
     DisconnectAndDestroyInput E (Some i) EHoudiniInputType.Asset []
     = ((true, Some (SetInputNodeId (-1) i)), new ++ []) /\
     Forall (IsDisconnect i) new).
Proof.
  apply (proj2 (Asset_input_is_only_disconnected (Scenarios.engine true) [])
           Scenarios.asset_input); reflexivity.
Defined.

(** C9 as stated fails: the input below is an Asset input, not pending
    kill, that may not delete Houdini nodes; DestroyInputNodes returns
    false on it, not true (and makes no call). *)
Lemma DestroyInputNodes_false_on_protected_Asset_input :
  let E := Scenarios.engine true in
  let i := Scenarios.protected_asset_input in
  InputType i = EHoudiniInputType.Asset /\
  In_bPendingKill i = false /\
  bCanDeleteHoudiniNodes (Settings i) = false /\
  DestroyInputNodes E (Some i) EHoudiniInputType.Asset []
  = ((false, Some i), []).
Proof. repeat split. Qed.

(** ** DestroyInputNodes on the other input types *)

Lemma EHoudiniInputObjectType_eqb_eq : forall a b,
  EHoudiniInputObjectType.eqb a b = true <-> a = b.
Proof.
  intros a b. unfold EHoudiniInputObjectType.eqb. rewrite Z.eqb_eq.
  split; [|now intros ->]. destruct a, b; cbn; intros H; congruence.
Qed.

Lemma EHoudiniInputType_eqb_eq : forall a b,
  EHoudiniInputType.eqb a b = true <-> a = b.
Proof. intros a b. split; [|intros ->; now destruct b]. destruct a, b; cbn; congruence. Qed.

Lemma TArray_Remove_In : forall Item l id,
  In id l -> id <> Item -> In id (TArray_Remove Item l).
Proof.
  intros Item l id Hin Hne. unfold TArray_Remove. apply filter_In.
  split; [assumption|]. apply negb_true_iff, Z.eqb_neq. assumption.
Qed.

(** Evaluates a run whose branches are all decided, and exhibits the
    value and the added calls. *)
Ltac run_leaf :=
  match goal with
  | |- exists a new, (?v, ?l) = (a, new ++ ?s) /\ _ =>
      let p := added_calls l s in exists v, p; split; [reflexivity|]
  end.

(** Decides the branches of a run, innermost test first; the answers of
    the engine are taken as they come. *)
Ltac split_run :=
  repeat match goal with
         | |- context [translate ?E ?s ?k ?i ?o] =>
             destruct (translate E s k i o) as [? ?] eqn:?
         | |- context [match ?x with _ => _ end] =>
             lazymatch x with
             | context [match _ with _ => _ end] => fail
             | _ => destruct x eqn:?
             end
         end.

Section DestroyNodes.

Variable E : Engine.

Lemma DestroyInputNodes_object_run : forall p Ids,
  Run (DestroyInputNodes_object E p Ids)
    (fun r _ => ObjectInvalidated p (fst r) /\
                forall id, In id Ids -> ~ IsAssetNodeOf p id -> In id (snd r)).
Proof.
  intros [o|] Ids s; [|exists (None, Ids), []; cbn; auto].
  unfold DestroyInputNodes_object, ObjectInvalidated, Invalidated.
  destruct (bPendingKill o) eqn:Hpk; [exists (Some o, Ids), []; cbn; auto|].
  destruct (EHoudiniInputObjectType.eqb (Type_ o) _) eqn:Hty.
  - apply EHoudiniInputObjectType_eqb_eq in Hty.
    unfold ret. run_leaf. cbn. split.
    + eexists; split; [reflexivity|]. cbn. repeat split; auto; lia.
    + intros id Hin Hk. apply TArray_Remove_In; [assumption|].
      intros ->. apply Hk. exists o. auto.
  - unfold bind, call, call_int, ret. cbn.
    split_run; cbn; run_leaf; cbn;
      (split; [eexists; split; [reflexivity|]; cbn;
               repeat match goal with
                      | h : (_ >=? _) = _ |- _ =>
                          first [apply Z.geb_le in h | rewrite Z.geb_leb in h;
                                                       apply Z.leb_gt in h]
                      end;
               cbn in *; repeat split; auto; lia
              | auto ]).
Qed.

Lemma DestroyInputNodes_objects_run : forall objs Ids,
  Run (forEach (DestroyInputNodes_object E) objs Ids)
    (fun r _ => Forall2 ObjectInvalidated objs (fst r) /\
                forall id, In id Ids -> ~ KeptAssetNode objs id -> In id (snd r)).
Proof.
  induction objs as [|p objs IH]; intros Ids; cbn [forEach].
  - apply Run_ret. cbn. split; [constructor|auto].
  - eapply Run_bind; [apply DestroyInputNodes_object_run|].
    intros [p' Ids1] n1 [Hp HIds1]. cbn in Hp, HIds1.
    eapply Run_bind; [apply IH|].
    intros [objs' Ids2] n2 [Hobjs HIds2]. cbn in Hobjs, HIds2.
    apply Run_ret. cbn. split; [constructor; assumption|].
    intros id Hin Hk. apply HIds2.
    + apply HIds1; [assumption|]. intros Hp'. apply Hk. exists p. cbn. auto.
    + intros (q & Hq & Hq'). apply Hk. exists q. cbn. auto.
Qed.

Lemma DestroyInputNodes_assets_run : forall Ids,
  Run (DestroyInputNodes_assets E Ids)
    (fun _ new => forall id, In id Ids -> 0 <= id -> In (DeleteNode id) new).
Proof.
  unfold DestroyInputNodes_assets.
  induction Ids as [|a Ids IH]; cbn [forEach_].
  - apply Run_ret. intros id [].
  - eapply Run_bind with
      (Q1 := fun _ new => 0 <= a -> In (DeleteNode a) new).
    + intros s. destruct (a <? 0) eqn:Ha.
      * exists tt, []. split; [reflexivity|]. apply Z.ltb_lt in Ha. lia.
      * unfold bind, call, ret. run_leaf. cbn. auto.
    + intros u1 n1 H1. eapply Run_weaken; [apply IH|].
      intros u2 n2 H2 id [Heq|Hin] Hid; apply in_or_app;
        [right; subst a; auto | left; auto].
Qed.

Lemma InputObjects_set_same : forall T objs i,
  InputObjects (set_InputObjects T objs i) T = Some objs.
Proof. intros. cbn. now destruct T. Qed.

(** The last step of DestroyInputNodes: the input's own node. *)
Lemma DestroyInputNodes_own_node_run : forall i1,
  Run (if In_InputNodeId i1 >=? 0 then
         let CreatedInputId := In_InputNodeId i1 in
         bind (call_int E (HapiGetParentNodeId CreatedInputId))
           (fun '(_, ParentId) =>
              bind (if CreatedInputId >=? 0 then
                      bind (call E (DeleteNode CreatedInputId))
                        (fun _ => ret (SetInputNodeId (-1) i1))
                    else ret i1)
                (fun i' =>
                   bind (call E (IsHoudiniNodeValid ParentId))
                     (fun valid =>
                        bind (if valid then
                                bind (call E (DeleteNode ParentId))
                                  (fun _ => ret tt)
                              else ret tt)
                          (fun _ => ret i'))))
       else ret i1)
    (fun i2 _ => Invalidated (In_InputNodeId i1) (In_InputNodeId i2) /\
                 InputObjects i2 = InputObjects i1).
Proof.
  intros i1 s. unfold Invalidated, bind, call, call_int, ret. cbn.
  destruct (In_InputNodeId i1 >=? 0) eqn:Hid; cbn.
  - destruct (hapi_result E _ (IsHoudiniNodeValid _)); run_leaf; cbn;
      (split; [split; [lia|reflexivity]|reflexivity]).
  - run_leaf. rewrite Z.geb_leb in Hid. apply Z.leb_gt in Hid.
    split; [split; [lia|intros; lia]|reflexivity].
Qed.

(** C2 (amended).  DestroyInputNodes returns false, and does nothing,
    when the input is null, pending kill or not allowed to delete nodes.
    For every other input and every input type but Asset it returns true
    and leaves no valid node id behind: the input's own node id, and the
    InputNodeId and InputObjectNodeId of every surviving object of the
    input's object array, are negative afterwards, and -1 whenever they
    were -1 or a valid id before; and every non-negative node id recorded
    among the created data nodes is deleted, unless it is the input node
    of a surviving HoudiniAssetComponent input object, which is kept out
    of the deletion. *)
Theorem DestroyInputNodes_leaves_no_valid_node_id :
  forall (T : EHoudiniInputType.t) (s : Session),
  DestroyInputNodes E None T s = ((false, None), s) /\
  (forall i,
     In_bPendingKill i = true \/ bCanDeleteHoudiniNodes (Settings i) = false ->
     DestroyInputNodes E (Some i) T s = ((false, Some i), s)) /\
  (forall i,
     In_bPendingKill i = false ->
     bCanDeleteHoudiniNodes (Settings i) = true ->
     T <> EHoudiniInputType.Asset ->
     exists i' new,
       DestroyInputNodes E (Some i) T s = ((true, Some i'), new ++ s) /\
       Invalidated (In_InputNodeId i) (In_InputNodeId i') /\
       (forall objs, InputObjects i T = Some objs ->
          exists objs', InputObjects i' T = Some objs' /\
                        Forall2 ObjectInvalidated objs objs') /\
       (forall id, In id (CreatedDataNodeIds i) -> 0 <= id ->
          (forall objs, InputObjects i T = Some objs ->
             ~ KeptAssetNode objs id) ->
          In (DeleteNode id) new)).
Proof.
  intros T s. split; [reflexivity|]. split.
  - intros i [H|H]; cbn; rewrite H; [reflexivity|].
    destruct (In_bPendingKill i); reflexivity.
  - intros i Hpk Hdel HT.
    assert (HT' : EHoudiniInputType.eqb T EHoudiniInputType.Asset = false).
    { destruct (EHoudiniInputType.eqb T _) eqn:H; [|reflexivity].
      apply EHoudiniInputType_eqb_eq in H. contradiction. }
    enough (HR : Run (DestroyInputNodes E (Some i) T)
              (fun r new => exists i', r = (true, Some i') /\
                 Invalidated (In_InputNodeId i) (In_InputNodeId i') /\
                 (forall objs, InputObjects i T = Some objs ->
                    exists objs', InputObjects i' T = Some objs' /\
                                  Forall2 ObjectInvalidated objs objs') /\
                 (forall id, In id (CreatedDataNodeIds i) -> 0 <= id ->
                    (forall objs, InputObjects i T = Some objs ->
                       ~ KeptAssetNode objs id) ->
                    In (DeleteNode id) new))).
    { destruct (HR s) as (r & new & Hrun & i' & -> & H). exists i', new. auto. }
    unfold DestroyInputNodes. rewrite Hpk, Hdel, HT'. cbn [negb].
    eapply Run_bind with
      (Q1 := fun r _ =>
         In_InputNodeId (fst r) = In_InputNodeId i /\
         (forall objs, InputObjects i T = Some objs ->
            exists objs', InputObjects (fst r) T = Some objs' /\
                          Forall2 ObjectInvalidated objs objs') /\
         (forall id, In id (CreatedDataNodeIds i) ->
            (forall objs, InputObjects i T = Some objs ->
               ~ KeptAssetNode objs id) ->
            In id (snd r))).
    + destruct (InputObjects i T) as [objs|] eqn:Hobjs.
      * eapply Run_bind; [apply DestroyInputNodes_objects_run|].
        intros [objs' Ids] n1 [H1 H2]. cbn in H1, H2. apply Run_ret. cbn.
        split; [reflexivity|]. split.
        -- intros objs0 Heq. injection Heq as <-. exists objs'.
           split; [now destruct T|assumption].
        -- intros id Hin Hk. apply H2; [assumption|]. now apply Hk.
      * apply Run_ret. cbn. split; [reflexivity|]. split; [discriminate|auto].
    + intros [i1 Ids] n1 (Hnode & Hobjs & HIds). cbn in Hnode, Hobjs, HIds.
      eapply Run_bind; [apply DestroyInputNodes_assets_run|].
      intros u n2 Hdeleted.
      eapply Run_bind; [apply DestroyInputNodes_own_node_run|].
      intros i2 n3 [Hinv Hsame]. apply Run_ret.
      exists i2. split; [reflexivity|]. rewrite <- Hnode.
      split; [assumption|]. split.
      * intros objs Ho. rewrite Hsame. now apply Hobjs.
      * intros id Hin Hid Hk.
        assert (Hd : In (DeleteNode id) n2)
          by (apply Hdeleted; [now apply HIds|assumption]).
        rewrite !in_app_iff. tauto.
Qed.

End DestroyNodes.

Lemma DestroyInputNodes_leaves_no_valid_node_id_witness :
  let E := Scenarios.engine true in
  let i := Scenarios.input_with_asset_component in
  exists i' new,
    DestroyInputNodes E (Some i) EHoudiniInputType.Geometry []
    = ((true, Some i'), new ++ []) /\
    Invalidated (In_InputNodeId i) (In_InputNodeId i') /\
    (forall objs, InputObjects i EHoudiniInputType.Geometry = Some objs ->
       exists objs', InputObjects i' EHoudiniInputType.Geometry = Some objs' /\
                     Forall2 ObjectInvalidated objs objs') /\
    (forall id, In id (CreatedDataNodeIds i) -> 0 <= id ->
       (forall objs, InputObjects i EHoudiniInputType.Geometry = Some objs ->
          ~ KeptAssetNode objs id) ->
       In (DeleteNode id) new).
Proof.
  apply (proj2 (proj2 (DestroyInputNodes_leaves_no_valid_node_id
                         (Scenarios.engine true)
                         EHoudiniInputType.Geometry []))
           Scenarios.input_with_asset_component);
    [reflexivity | reflexivity | discriminate].
Defined.

(** C2 as stated fails: the input below is valid, may delete nodes and is
    a Geometry input, and DestroyInputNodes succeeds on it; but node 5,
    recorded among its created data nodes, is not deleted, because it is
    the node of a HoudiniAssetComponent input object; and the input's list
    of created data nodes still holds it afterwards. *)
Lemma DestroyInputNodes_keeps_asset_component_node :
  let E := Scenarios.engine true in
  let i := Scenarios.input_with_asset_component in
  let r := DestroyInputNodes E (Some i) EHoudiniInputType.Geometry [] in
  In_bPendingKill i = false /\
  bCanDeleteHoudiniNodes (Settings i) = true /\
  InputType i <> EHoudiniInputType.Asset /\
  fst (fst r) = true /\
  In 5 (CreatedDataNodeIds i) /\
  ~ In (DeleteNode 5) (snd r) /\
  option_map CreatedDataNodeIds (snd (fst r)) = Some [5].
Proof.
  cbn. repeat split; try reflexivity; try discriminate; [now left|].
  intros H. repeat destruct H as [H|H]; try discriminate H. exact H.
Qed.

(** ** UploadInputTransform and UploadHoudiniInputTransform *)

Section Transforms.

Variable E : Engine.

Lemma Emits_Run_any : forall A (m : M A),
  Emits (fun _ => True) m -> Run m (fun _ _ => True).
Proof. intros A m H. eapply Run_weaken; [exact H|]. auto. Qed.

(** The switch of UploadHoudiniInputTransform never writes the
    transform-changed flag of the object it is given. *)
Lemma UploadHoudiniInputTransform_switch_flag : forall comp i o,
  (forall a b, Emits (fun _ => True) (comp a b)) ->
  Run (UploadHoudiniInputTransform_switch E comp i o)
    (fun r _ => bTransformChanged (snd r) = bTransformChanged o).
Proof.
  intros comp i o Hcomp. unfold UploadHoudiniInputTransform_switch.
  destruct (Type_ o);
    try (intros s; unfold UpdateTransform, Cast, bind, call, ret; cbn;
         split_run; run_leaf; reflexivity).
  destruct (AsActor o) as [comps|];
    [|intros s; unfold ret; run_leaf; reflexivity].
  destruct (bPendingKill o); [intros s; unfold ret; run_leaf; reflexivity|].
  eapply Run_bind.
  - apply Emits_Run_any. apply Emits_forEach. intros c b.
    unfold UploadHoudiniInputTransform_component. emits; auto.
  - intros [comps' b] n1 _. apply Run_ret. cbn.
    destruct (GetActor E o); reflexivity.
Qed.

Lemma UploadHoudiniInputTransform_flags_gen : forall comp i o,
  (forall a b, Emits (fun _ => True) (comp a b)) ->
  Run (UploadHoudiniInputTransform_ E comp (Some i) (Some o))
    (fun r _ => exists o', snd r = Some o' /\
       bTransformChanged o' = (if fst r then false else bTransformChanged o) /\
       bNeedsToTriggerUpdate o' = false).
Proof.
  intros comp i o Hcomp. unfold UploadHoudiniInputTransform_.
  eapply Run_bind; [now apply UploadHoudiniInputTransform_switch_flag|].
  intros [b o1] n1 Hflag. cbn in Hflag. apply Run_ret. cbn.
  destruct b; eexists; (split; [reflexivity|]); cbn; auto.
Qed.

Lemma UploadHoudiniInputTransform_flags : forall i o,
  Run (UploadHoudiniInputTransform E (Some i) (Some o))
    (fun r _ => exists o', snd r = Some o' /\
       bTransformChanged o' = (if fst r then false else bTransformChanged o) /\
       bNeedsToTriggerUpdate o' = false).
Proof.
  intros i o. apply UploadHoudiniInputTransform_flags_gen.
  intros a b. unfold UploadHoudiniInputComponentTransform.
  apply Emits_bind.
  - unfold UploadHoudiniInputTransform_, UploadHoudiniInputTransform_switch,
      UploadHoudiniInputTransform_component, UpdateTransform.
    emits; auto.
  - intros [ok o']. apply Emits_ret.
Qed.

Lemma forEach_cons : forall A S (body : A -> S -> M (A * S)) a l st s,
  forEach body (a :: l) st s
  = (let '(a', st1, s1) := body a st s in
     let '(l', st2, s2) := forEach body l st1 s1 in
     ((a' :: l', st2), s2)).
Proof.
  intros. cbn [forEach]. unfold bind. destruct (body a st s) as [[a' st1] s1].
  destruct (forEach body l st1 s1) as [[l' st2] s2]. reflexivity.
Qed.

Lemma UploadInputTransform_object_skip : forall i p b s,
  NeedsTransformUpload p = false ->
  UploadInputTransform_object E i p b s = ((p, b), s).
Proof.
  intros i [o|] b s H; [|reflexivity]. cbn in *.
  destruct (bPendingKill o); [reflexivity|].
  destruct (bTransformChanged o); [discriminate|reflexivity].
Qed.

Lemma UploadInputTransform_object_upload : forall i p b s,
  NeedsTransformUpload p = true ->
  UploadInputTransform_object E i p b s
  = (let '((ok, o'), s1) := UploadHoudiniInputTransform E (Some i) p s in
     ((o', if ok then b else false), s1)).
Proof.
  intros i [o|] b s H; [|discriminate]. cbn in H.
  unfold UploadInputTransform_object.
  destruct (bPendingKill o); [discriminate|].
  destruct (bTransformChanged o); [|discriminate]. cbn [negb]. unfold bind.
  destruct (UploadHoudiniInputTransform E (Some i) (Some o) s) as [[ok o'] s1].
  reflexivity.
Qed.

(** The loop of UploadInputTransform leaves alone every object that does
    not need a transform upload, and makes the calls of the uploads of
    those that do, in order. *)
Lemma UploadInputTransform_loop : forall i objs b s,
  Forall2 (fun p p' => NeedsTransformUpload p = false -> p' = p)
    objs (fst (fst (forEach (UploadInputTransform_object E i) objs b s))) /\
  snd (forEach (UploadInputTransform_object E i) objs b s)
  = snd (UploadTransformsOf E i (filter NeedsTransformUpload objs) s).
Proof.
  intros i. unfold UploadTransformsOf.
  induction objs as [|p objs IH]; intros b s; [split; [constructor|reflexivity]|].
  rewrite forEach_cons. cbn [filter].
  destruct (NeedsTransformUpload p) eqn:Hp.
  - rewrite UploadInputTransform_object_upload by assumption.
    cbn [forEach_]. unfold bind at 1 2.
    destruct (UploadHoudiniInputTransform E (Some i) p s) as [[ok o'] s1].
    specialize (IH (if ok then b else false) s1).
    destruct (forEach _ objs _ s1) as [[l st] s']. cbn [fst snd ret] in *.
    destruct IH as [IH1 IH2].
    split; [constructor; [congruence|assumption]|exact IH2].
  - rewrite UploadInputTransform_object_skip by assumption.
    specialize (IH b s). destruct (forEach _ objs b s) as [[l st] s'].
    cbn [fst snd] in *. destruct IH as [IH1 IH2].
    split; [constructor; auto|assumption].
Qed.

Lemma Emits_forEach_In : forall A S P (body : A -> S -> M (A * S)) l,
  (forall a st, In a l -> Emits P (body a st)) ->
  forall st, Emits P (forEach body l st).
Proof.
  intros A S P body. induction l as [|a l IH]; intros Hb st; cbn [forEach].
  - apply Emits_ret.
  - apply Emits_bind; [apply Hb; now left|]. intros [a' st1].
    apply Emits_bind; [apply IH; intros; apply Hb; now right|].
    intros [l' st2]. apply Emits_ret.
Qed.

(** The switch of UploadHoudiniInputTransform sets no transform but on the
    OBJ node of the object or, for an actor, on the nodes that the uploads
    of its flagged components set it on. *)
Lemma UploadHoudiniInputTransform_switch_targets :
  forall U i (o : InputObject),
  (forall c0, bPendingKill c0 = false -> bTransformChanged c0 = true ->
     Emits (fun call => forall n t, call = SetObjectTransform n t ->
                                    n = InputObjectNodeId c0)
       (U (Some i) (Some c0))) ->
  Emits (fun call => forall n t, call = SetObjectTransform n t ->
                                 TransformTargetOf o n)
    (UploadHoudiniInputTransform_switch E U i o).
Proof.
  intros U i o HU. unfold UploadHoudiniInputTransform_switch.
  destruct (Type_ o);
    try (unfold UpdateTransform, Cast; destruct (IsA E _ _); emits;
         intros n t Heq;
         first [discriminate Heq | injection Heq as <- _; left; reflexivity]);
    try (unfold UpdateTransform; emits;
         intros n t Heq;
         first [discriminate Heq | injection Heq as <- _; left; reflexivity]).
  destruct (AsActor o) as [comps|] eqn:Has; [|apply Emits_ret].
  destruct (bPendingKill o); [apply Emits_ret|].
  apply Emits_bind; [|intros [comps' b]; apply Emits_ret].
  apply Emits_forEach_In. intros [c0|] b Hin;
    unfold UploadHoudiniInputTransform_component; [|apply Emits_ret].
  destruct (bPendingKill c0) eqn:Hpk; [apply Emits_ret|].
  destruct (bTransformChanged c0) eqn:Hfl; cbn [negb]; [|apply Emits_ret].
  apply Emits_bind; [|intros [ok c']; apply Emits_ret].
  eapply Emits_weaken; [|apply HU; assumption].
  intros call H n t Heq. right. exists comps, c0.
  repeat (split; [assumption|]). exact (H n t Heq).
Qed.

Lemma UploadHoudiniInputComponentTransform_target : forall i c0,
  Emits (fun call => forall n t, call = SetObjectTransform n t ->
                                 n = InputObjectNodeId c0)
    (UploadHoudiniInputComponentTransform E (Some i) (Some c0)).
Proof.
  intros i c0. unfold UploadHoudiniInputComponentTransform.
  apply Emits_bind; [|intros [b o]; apply Emits_ret].
  cbn [option_map]. unfold UploadHoudiniInputTransform_.
  apply Emits_bind; [|intros [b o1]; apply Emits_ret].
  eapply Emits_weaken;
    [|apply UploadHoudiniInputTransform_switch_targets; intros; apply Emits_ret].
  intros call H n t Heq. destruct (H n t Heq) as [->|(comps & c & Has & _)];
    [reflexivity|discriminate Has].
Qed.

Lemma UploadHoudiniInputTransform_targets : forall i (o : InputObject),
  Emits (fun call => forall n t, call = SetObjectTransform n t ->
                                 TransformTargetOf o n)
    (UploadHoudiniInputTransform E (Some i) (Some o)).
Proof.
  intros i o. unfold UploadHoudiniInputTransform, UploadHoudiniInputTransform_.
  apply Emits_bind; [|intros [b o1]; apply Emits_ret].
  apply UploadHoudiniInputTransform_switch_targets.
  intros c0 _ _. apply UploadHoudiniInputComponentTransform_target.
Qed.

(** The upload of the transform of a static mesh or foliage object is one
    call, which sets the object's transform on its OBJ node; the result is
    the result of that call. *)
Lemma UploadHoudiniInputTransform_mesh : forall i (o : InputObject) s,
  Type_ o = EHoudiniInputObjectType.StaticMesh \/
  Type_ o = EHoudiniInputObjectType.FoliageType_InstancedStaticMesh ->
  let c := SetObjectTransform (InputObjectNodeId o) (Transform o) in
  UploadHoudiniInputTransform E (Some i) (Some o) s
  = ((hapi_result E s c, Some (AfterTransformUpload (hapi_result E s c) o)),
     c :: s).
Proof.
  intros i o s Hty c.
  unfold UploadHoudiniInputTransform, UploadHoudiniInputTransform_,
    UploadHoudiniInputTransform_switch, AfterTransformUpload.
  destruct Hty as [-> | ->]; unfold UpdateTransform, bind, call, ret;
    fold c; destruct (hapi_result E s c); reflexivity.
Qed.

(** The loop of UploadInputTransform. *)
Lemma UploadInputTransform_loop_facts : forall i objs b0 s,
  exists objs' b new,
    forEach (UploadInputTransform_object E i) objs b0 s
    = ((objs', b0 && b), new ++ s) /\
    TransformsUploaded E i s objs objs' b (new ++ s) /\
    Forall (fun call => forall n t, call = SetObjectTransform n t ->
              exists o, In (Some o) objs /\ bPendingKill o = false /\
                        bTransformChanged o = true /\
                        TransformTargetOf o n) new /\
    (forall o : InputObject,
       In (Some o) objs -> bPendingKill o = false ->
       bTransformChanged o = true ->
       Type_ o = EHoudiniInputObjectType.StaticMesh \/
       Type_ o = EHoudiniInputObjectType.FoliageType_InstancedStaticMesh ->
       In (SetObjectTransform (InputObjectNodeId o) (Transform o)) new).
Proof.
  intros i. induction objs as [|p objs IH]; intros b0 s.
  - exists [], true, []. split; [now rewrite andb_true_r|].
    split; [constructor|]. split; [constructor|intros o []].
  - rewrite forEach_cons.
    destruct (NeedsTransformUpload p) eqn:Hp.
    + rewrite UploadInputTransform_object_upload by assumption.
      destruct p as [o|]; [|discriminate].
      cbn in Hp. apply andb_true_iff in Hp. destruct Hp as [Hpk Hfl].
      apply negb_true_iff in Hpk.
      destruct (UploadHoudiniInputTransform_targets i o s)
        as ([ok p'] & n1 & Hrun & Hn1).
      rewrite Hrun.
      destruct (IH (if ok then b0 else false) (n1 ++ s))
        as (objs' & b & n2 & Hrun2 & Htu & Hn2 & Hif).
      rewrite Hrun2.
      exists (p' :: objs'), (ok && b), (n2 ++ n1).
      split; [rewrite app_assoc; destruct ok, b0; reflexivity|].
      split.
      { rewrite <- app_assoc. eapply TransformsUploaded_upload; eauto.
        cbn. now rewrite Hpk, Hfl. }
      split.
      { apply Forall_app. split.
        - eapply Forall_impl; [|exact Hn2]. intros call H n t Heq.
          destruct (H n t Heq) as (o' & Hin & Hrest). exists o'.
          split; [now right|assumption].
        - eapply Forall_impl; [|exact Hn1]. intros call H n t Heq.
          exists o. split; [now left|]. repeat (split; [assumption|]).
          exact (H n t Heq). }
      intros o' [[= <-]|Hin] Hpk' Hfl' Hty; apply in_or_app.
      * right.
        pose proof (UploadHoudiniInputTransform_mesh i o s Hty) as Heq.
        cbv zeta in Heq. rewrite Hrun in Heq.
        injection Heq as _ _ Hs.
        assert (Hn : n1 = [SetObjectTransform (InputObjectNodeId o)
                             (Transform o)]).
        { apply (app_inv_tail s). exact Hs. }
        rewrite Hn. now left.
      * left. now apply Hif.
    + rewrite UploadInputTransform_object_skip by assumption.
      destruct (IH b0 s) as (objs' & b & new & Hrun & Htu & Hn & Hif).
      rewrite Hrun. exists (p :: objs'), b, new.
      split; [reflexivity|].
      split; [now apply TransformsUploaded_skip|].
      split.
      { eapply Forall_impl; [|exact Hn]. intros call H n t Heq.
        destruct (H n t Heq) as (o' & Hin & Hrest). exists o'.
        split; [now right|assumption]. }
      intros o [Heq|Hin] Hpk Hfl Hty; [|now apply Hif].
      subst p. cbn in Hp. rewrite Hpk, Hfl in Hp. discriminate.
Qed.

Lemma TransformsUploaded_untouched : forall i s objs objs' b s',
  TransformsUploaded E i s objs objs' b s' ->
  Forall2 (fun p p' => NeedsTransformUpload p = false -> p' = p) objs objs'.
Proof.
  intros i s objs objs' b s' H. induction H; constructor; auto.
  intros Hp. congruence.
Qed.

(** The upload of the transform of a static mesh component that is
    alive: one call, which sets the component's transform on the object's
    OBJ node; the object caches that transform whatever the result. *)
Lemma UploadHoudiniInputTransform_mesh_component :
  forall i (o : InputObject) s,
  Type_ o = EHoudiniInputObjectType.StaticMeshComponent ->
  IsA E (Class o) UClass.HoudiniInputMeshComponent = true ->
  bPendingKill o = false ->
  let NewTransform := match GetStaticMeshComponent E o with
                      | Some t => t
                      | None => Transform o
                      end in
  let c := SetObjectTransform (InputObjectNodeId o) NewTransform in
  UploadHoudiniInputTransform E (Some i) (Some o) s
  = ((hapi_result E s c,
      Some (AfterTransformUpload (hapi_result E s c)
              (WithSelf (set_Transform NewTransform) o))),
     c :: s).
Proof.
  intros i o s Hty Hcast Hpk NewTransform c.
  unfold UploadHoudiniInputTransform, UploadHoudiniInputTransform_,
    UploadHoudiniInputTransform_switch, AfterTransformUpload, Cast.
  rewrite Hty, Hcast, Hpk. unfold UpdateTransform, bind, call, ret.
  fold NewTransform. fold c. destruct (hapi_result E s c); reflexivity.
Qed.


End Transforms.


(** ** UploadHoudiniInputObject *)

Section UploadObject.

Variable E : Engine.

Lemma UploadWrites_refl : forall i, UploadWrites i i.
Proof. intros []. reflexivity. Qed.

Lemma UploadWrites_trans : forall i1 i2 i3,
  UploadWrites i1 i2 -> UploadWrites i2 i3 -> UploadWrites i1 i3.
Proof.
  unfold UploadWrites. intros i1 i2 i3 H12 H23.
  destruct i1, i2, i3.
  unfold SetInputNodeId, In_SetNeedsToTriggerUpdate, In_MarkChanged in *.
  cbn in *. injection H12 as ? ? ? ? ? ? ? ? ? ? ? ? ? ? ? ?.
  injection H23 as ? ? ? ? ? ? ? ? ? ? ? ? ? ? ? ?. subst. reflexivity.
Qed.

Lemma HapiCreateInputNodeFor_marshals : forall k i o s,
  HapiCreateInputNodeFor E k i (AsClass E (ClassOf k) o) o s
  = if Marshals E k i o then (translate E s k i o, Translate k o :: s)
    else ((false, o), s).
Proof.
  intros k i o s. unfold HapiCreateInputNodeFor, Marshals.
  destruct (AsClass E (ClassOf k) o) as [o'|] eqn:Hc; [|reflexivity].
  assert (o' = o) as ->.
  { revert Hc. unfold AsClass. destruct (ClassOf k);
      repeat match goal with
             | |- context [match ?x with _ => _ end] => destruct x
             end; congruence. }
  destruct k; cbn; destruct (bPendingKill o); cbn;
    try destruct (In_bPendingKill i); reflexivity.
Qed.

(** The switch of UploadHoudiniInputObject hands the object to the
    translator dedicated to its kind. *)
Lemma UploadHoudiniInputObject_by_kind : forall comp i (o : InputObject) ids s,
  match DedicatedTo (Type_ o) with
  | ByTranslator k =>
      UploadHoudiniInputObject_ E comp (Some i) (Some o) ids s
      = (let '((b, o1), s') :=
           HapiCreateInputNodeFor E k i (AsClass E (ClassOf k) o) o s in
         ((b, Some (AfterUpload b o1),
           if b then ids ++ CreatedNodeIdsOf k o1 else ids, Some i), s'))
  | ByAssetTranslator =>
      UploadHoudiniInputObject_ E comp (Some i) (Some o) ids s
      = (let '((b, o1, i'), s') :=
           HapiCreateInputNodeForHoudiniAssetComponent E i
             (AsClass E UClass.HoudiniInputHoudiniAsset o) o
             (In_bImportAsReference (Settings i)) s in
         ((b, Some (AfterUpload b o1),
           if b then ids ++ [InputObjectNodeId o1] else ids, Some i'), s'))
  | ByActorTranslator =>
      UploadHoudiniInputObject_ E comp (Some i) (Some o) ids s
      = (let '((b, o1, ids', r), s') :=
           HapiCreateInputNodeForActor E comp
             (Some i) (AsClass E UClass.HoudiniInputActor o) o ids s in
         ((b, Some (AfterUpload b o1), ids', Some (orSame i r)), s'))
  | NoTranslator =>
      UploadHoudiniInputObject_ E comp (Some i) (Some o) ids s
      = ((true, Some (AfterUpload true o), ids, Some i), s)
  end.
Proof.
  intros comp i o ids s.
  unfold UploadHoudiniInputObject_,
    UploadHoudiniInputObject_switch, AfterUpload.
  destruct (Type_ o); cbn [DedicatedTo ClassOf]; unfold AsClass, Cast;
    try reflexivity;
    try (destruct (AsStaticMesh o));
    try (destruct (AsHoudiniSpline o));
    try (destruct (AsActor o));
    unfold bind;
    repeat match goal with
           | |- context [HapiCreateInputNodeFor ?a ?b ?c ?d ?e ?f] =>
               destruct (HapiCreateInputNodeFor a b c d e f) as [[? ?] ?]
           | |- context [HapiCreateInputNodeForHoudiniAssetComponent
                           ?a ?b ?c ?d ?e ?f] =>
               destruct (HapiCreateInputNodeForHoudiniAssetComponent
                           a b c d e f) as [[[? ?] ?] ?]
           | |- context [HapiCreateInputNodeForActor ?a ?b ?c ?d ?e ?f ?g] =>
               destruct (HapiCreateInputNodeForActor a b c d e f g)
                 as [[[[? ?] ?] ?] ?]
           end;
    cbn [ret CreatedNodeIdsOf];
    repeat match goal with
           | |- context [if ?b then _ else _] => destruct b
           | |- context [match ?x with _ => _ end] => destruct x
           end; reflexivity.
Qed.

(** Settles the facts about the calls exhibited by [run_leaf]: a call
    that is no upload, or the upload of the object at hand. *)
Ltac uploads_only :=
  repeat first [apply Forall_nil | apply Forall_cons];
  try (intros Hup; first [ contradiction Hup
                         | left; eexists; reflexivity
                         | right; eexists; reflexivity ]).

Ltac writes_only :=
  match goal with
  | |- UploadWrites ?i _ => unfold UploadWrites; destruct i; reflexivity
  end.

(** The translator of Houdini asset components: the calls it makes upload
    no other object, and of the input it writes only the node id and the
    changed and trigger flags; the object keeps its changed flag. *)
Lemma HapiCreateInputNodeForHoudiniAssetComponent_run :
  forall i p (o : InputObject) imp,
  p = Some o \/ p = None ->
  Run (HapiCreateInputNodeForHoudiniAssetComponent E i p o imp)
    (fun '(b, o1, i') new =>
       UploadWrites i i' /\
       Forall (fun c => IsUpload c -> Uploads c o) new /\
       Forall NotTranslate new /\
       bHasChanged o1 = bHasChanged o /\
       bPendingKill o1 = bPendingKill o).
Proof.
  intros i p o imp [-> | ->] s;
    unfold HapiCreateInputNodeForHoudiniAssetComponent, ConnectInputNode,
      bind, call, call_int, ret; cbn;
    split_run; cbn; run_leaf; cbn;
    (split; [writes_only|]);
    (split; [uploads_only|]);
    (split; [repeat first [apply Forall_nil | apply Forall_cons];
             intros k x; discriminate|]);
    split; first [reflexivity | congruence].
Qed.

(** The upload of an object that is not an actor with components. *)
Lemma UploadHoudiniInputObject_single : forall comp i (o : InputObject) ids s,
  (Type_ o = EHoudiniInputObjectType.Actor -> AsActor o = None) ->
  exists b o1 ids' i' new,
    UploadHoudiniInputObject_ E comp (Some i) (Some o) ids s
    = ((b, Some (AfterUpload b o1), ids', Some i'), new ++ s) /\
    UploadWrites i i' /\
    Forall (fun c => IsUpload c -> Uploads c o) new /\
    (b = false -> ids' = ids) /\
    (ids' = ids \/ ids' = ids ++ [InputObjectNodeId o1] \/
     exists l, Marshals E ForStaticMesh i o = true /\
               AsStaticMesh o1 = Some (true, l) /\
               ids' = ids ++ map InputObjectNodeId l) /\
    (forall k, DedicatedTo (Type_ o) = ByTranslator k ->
       Marshals E k i o = true -> new = [Translate k o]).
Proof.
  intros comp i o ids s Hactor.
  pose proof (UploadHoudiniInputObject_by_kind comp i o ids s) as Hk.
  destruct (DedicatedTo (Type_ o)) as [k| | |] eqn:Hd.
  - rewrite HapiCreateInputNodeFor_marshals in Hk.
    destruct (Marshals E k i o) eqn:Hm.
    + destruct (translate E s k i o) as [b o1] eqn:Ht.
      exists b, o1, (if b then ids ++ CreatedNodeIdsOf k o1 else ids), i,
        [Translate k o].
      split; [exact Hk|]. split; [apply UploadWrites_refl|].
      split; [uploads_only|].
      split; [now intros ->|].
      split.
      * destruct b; [|now left]. right. unfold CreatedNodeIdsOf.
        destruct k; try (left; reflexivity).
        destruct (AsStaticMesh o1) as [[[] l]|]; try (left; reflexivity).
        right. exists l. auto.
      * intros k' [= <-] _. reflexivity.
    + exists false, o, ids, i, []. split; [exact Hk|].
      split; [apply UploadWrites_refl|]. split; [constructor|].
      split; [auto|]. split; [now left|].
      intros k' [= <-]. rewrite Hm. discriminate.
  - destruct (HapiCreateInputNodeForHoudiniAssetComponent_run i
                (AsClass E UClass.HoudiniInputHoudiniAsset o) o
                (In_bImportAsReference (Settings i))) with (s := s)
      as ([[b o1] i'] & new & Hrun & Hw & Hup & _ & _).
    { unfold AsClass. destruct (IsA E _ _); auto. }
    rewrite Hrun in Hk.
    exists b, o1, (if b then ids ++ [InputObjectNodeId o1] else ids), i', new.
    split; [exact Hk|]. split; [exact Hw|]. split; [exact Hup|].
    split; [now intros ->|].
    split; [destruct b; auto|]. discriminate.
  - assert (Ha : AsActor o = None).
    { apply Hactor. destruct (Type_ o); try discriminate. reflexivity. }
    unfold AsClass in Hk. rewrite Ha in Hk. cbn in Hk.
    exists false, o, ids, i, []. split; [exact Hk|].
    split; [apply UploadWrites_refl|]. split; [constructor|].
    split; [auto|]. split; [now left|]. discriminate.
  - exists true, o, ids, i, []. split; [exact Hk|].
    split; [apply UploadWrites_refl|]. split; [constructor|].
    split; [discriminate|]. split; [now left|]. discriminate.
Qed.

(** The upload of a component of an actor. *)
Lemma UploadHoudiniInputComponent_facts : forall i c ids s,
  exists b c' ids' i' new,
    UploadHoudiniInputComponent E (Some i) c ids s
    = ((b, c', ids', Some i'), new ++ s) /\
    UploadWrites i i' /\
    Forall (fun call => IsUpload call ->
              exists c0, c = Some c0 /\ Uploads call (OfComponent c0)) new /\
    (b = false -> ids' = ids) /\
    (ids' = ids \/
     exists c1, c' = Some c1 /\ ids' = ids ++ [InputObjectNodeId c1]) /\
    (c = None -> c' = None /\ new = [] /\ b = false) /\
    (forall c0, c = Some c0 ->
       exists c1, c' = Some c1 /\ bNeedsToTriggerUpdate c1 = false /\
                  (b = true -> bHasChanged c1 = false)) /\
    (forall c0 k, c = Some c0 ->
       DedicatedTo (Type_ c0) = ByTranslator k ->
       Marshals E k i (OfComponent c0) = true ->
       new = [Translate k (OfComponent c0)]).
Proof.
  intros i [c|] ids s.
  2:{ exists false, None, ids, i, []. split; [reflexivity|].
      split; [apply UploadWrites_refl|]. split; [constructor|].
      split; [auto|]. split; [now left|]. split; [auto|].
      split; intros; discriminate. }
  destruct (UploadHoudiniInputObject_single
              (fun i c ids => ret (false, c, ids, i)) i (OfComponent c) ids s)
    as (b & o1 & ids' & i' & new & Hrun & Hw & Hup & Hf & Hids & Hm);
    [reflexivity|].
  exists b, (Some (Self (AfterUpload b o1))), ids', i', new.
  split.
  { unfold UploadHoudiniInputComponent, bind. cbn [option_map].
    rewrite Hrun. reflexivity. }
  split; [exact Hw|].
  split.
  { eapply Forall_impl; [|exact Hup]. intros call H Hc. exists c. auto. }
  split; [exact Hf|].
  split.
  { destruct Hids as [->|[->|(l & Hms & _)]]; [now left| |].
    - right. eexists. split; [reflexivity|]. destruct b; reflexivity.
    - discriminate Hms. }
  split; [discriminate|].
  split.
  - intros c0 [= <-]. eexists. split; [reflexivity|].
    destruct b; cbn; split; auto; discriminate.
  - intros c0 k [= <-]. apply Hm.
Qed.

(** The loop of HapiCreateInputNodeForActor over the components. *)
Lemma ActorComponents_upload_facts : forall comps ids i s,
  exists comps' ids' i' new,
    forEach (fun CurComponent '(ids, i0) =>
               bind (UploadHoudiniInputComponent E (Some i0) CurComponent ids)
                 (fun '(_, c, ids', r) => ret (c, (ids', orSame i0 r))))
      comps (ids, i) s
    = ((comps', (ids', i')), new ++ s) /\
    UploadWrites i i' /\
    Forall (fun call => IsUpload call ->
              exists c0, In (Some c0) comps /\
                         Uploads call (OfComponent c0)) new /\
    exists created, ids' = ids ++ created /\
      forall id, In id created ->
        exists c, In (Some c) comps' /\ InputObjectNodeId c = id.
Proof.
  induction comps as [|c comps IH]; intros ids i s.
  - exists [], ids, i, []. split; [reflexivity|].
    split; [apply UploadWrites_refl|]. split; [constructor|].
    exists []. split; [now rewrite app_nil_r|intros id []].
  - destruct (UploadHoudiniInputComponent_facts i c ids s)
      as (b & c' & ids1 & i1 & n1 & Hrun1 & Hw1 & Hup1 & _ & Hids1 & _).
    destruct (IH ids1 i1 (n1 ++ s))
      as (comps' & ids2 & i2 & n2 & Hrun2 & Hw2 & Hup2 & created & Hids2 & Hcr).
    exists (c' :: comps'), ids2, i2, (n2 ++ n1).
    split.
    { rewrite forEach_cons. unfold bind at 1. rewrite Hrun1. cbn [ret orSame].
      rewrite Hrun2. rewrite app_assoc. reflexivity. }
    split; [eapply UploadWrites_trans; eassumption|].
    split.
    { apply Forall_app. split.
      - eapply Forall_impl; [|exact Hup2]. intros call H Hc.
        destruct (H Hc) as (c0 & Hin & Hu). exists c0. split; [now right|auto].
      - eapply Forall_impl; [|exact Hup1]. intros call H Hc.
        destruct (H Hc) as (c0 & -> & Hu). exists c0. split; [now left|auto]. }
    destruct Hids1 as [->|(c1 & -> & ->)].
    + exists created. split; [assumption|].
      intros id Hin. destruct (Hcr id Hin) as (c0 & Hc0 & Hid).
      exists c0. split; [now right|assumption].
    + exists (InputObjectNodeId c1 :: created).
      split; [rewrite Hids2, <- app_assoc; reflexivity|].
      intros id [<-|Hin].
      * exists c1. split; [now left|reflexivity].
      * destruct (Hcr id Hin) as (c0 & Hc0 & Hid).
        exists c0. split; [now right|assumption].
Qed.

Lemma RefreshActorComponents_facts : forall o s,
  exists o1 new,
    RefreshActorComponents E o s = (o1, new ++ s) /\
    Forall (fun call => ~ IsUpload call) new /\
    (o1 = o \/ exists s', UpdateActor E s' o = Some o1).
Proof.
  intros o s. unfold RefreshActorComponents, bind, call, ret.
  destruct (GetProxyState E s o) as [| | | |h]; cbn.
  - exists o, []. split; [reflexivity|]. split; [constructor|now left].
  - match goal with
    | |- context [UpdateActor E ?s1 o] =>
        destruct (UpdateActor E s1 o) as [o'|] eqn:Hu
    end.
    + exists o', [TryCollectGarbage; BuildStaticMeshesOnHoudiniProxyMeshOutputs].
      split; [reflexivity|]. split; [repeat constructor; auto|].
      right. eexists. exact Hu.
    + exists o, [BuildStaticMeshesOnHoudiniProxyMeshOutputs].
      split; [reflexivity|]. split; [repeat constructor; auto|now left].
  - exists o, [MarkAsNeedCook]. split; [reflexivity|].
    split; [repeat constructor; auto|now left].
  - exists o, []. split; [reflexivity|]. split; [constructor|now left].
  - assert (Hsame : exists o1 new, (o, s) = (o1, new ++ s) /\
              Forall (fun call => ~ IsUpload call) new /\
              (o1 = o \/ exists s', UpdateActor E s' o = Some o1)).
    { exists o, []. split; [reflexivity|]. split; [constructor|now left]. }
    destruct (AsActor o) as [[|? ?]|]; try exact Hsame.
    destruct h; [|exact Hsame].
    destruct (UpdateActor E s o) as [o'|] eqn:Hu; [|exact Hsame].
    exists o', [TryCollectGarbage]. split; [reflexivity|].
    split; [repeat constructor; auto|]. right. eexists. exact Hu.
Qed.

(** The translator of actors: it uploads the components of the actor,
    or of the actor as the host has updated it, and nothing else. *)
Lemma HapiCreateInputNodeForActor_facts : forall i p (o : InputObject) ids s,
  p = Some o \/ p = None ->
  exists b o1 ids' i' new,
    HapiCreateInputNodeForActor E (UploadHoudiniInputComponent E)
      (Some i) p o ids s
    = ((b, o1, ids', Some i'), new ++ s) /\
    UploadWrites i i' /\
    Forall (fun call => IsUpload call ->
              exists comps c0, UploadedComponents E o comps /\
                In (Some c0) comps /\ Uploads call (OfComponent c0)) new /\
    (b = false -> o1 = o /\ ids' = ids /\ new = [] /\ i' = i) /\
    (b = true ->
     exists created, ids' = ids ++ created /\
       forall id, In id created ->
         exists comps c, AsActor o1 = Some comps /\ In (Some c) comps /\
                         InputObjectNodeId c = id).
Proof.
  intros i p o ids s Hp.
  assert (Hfalse : exists b o1 ids' i' new,
    (false, o, ids, Some i, s) = ((b, o1, ids', Some i'), new ++ s) /\
    UploadWrites i i' /\
    Forall (fun call => IsUpload call ->
              exists comps c0, UploadedComponents E o comps /\
                In (Some c0) comps /\ Uploads call (OfComponent c0)) new /\
    (b = false -> o1 = o /\ ids' = ids /\ new = [] /\ i' = i) /\
    (b = true ->
     exists created, ids' = ids ++ created /\
       forall id, In id created ->
         exists comps c, AsActor o1 = Some comps /\ In (Some c) comps /\
                         InputObjectNodeId c = id)).
  { exists false, o, ids, i, []. split; [reflexivity|].
    split; [apply UploadWrites_refl|]. split; [constructor|].
    split; [auto|discriminate]. }
  assert (Hnone : exists b o1 ids' i' new,
    (true, o, ids, Some i, s) = ((b, o1, ids', Some i'), new ++ s) /\
    UploadWrites i i' /\
    Forall (fun call => IsUpload call ->
              exists comps c0, UploadedComponents E o comps /\
                In (Some c0) comps /\ Uploads call (OfComponent c0)) new /\
    (b = false -> o1 = o /\ ids' = ids /\ new = [] /\ i' = i) /\
    (b = true ->
     exists created, ids' = ids ++ created /\
       forall id, In id created ->
         exists comps c, AsActor o1 = Some comps /\ In (Some c) comps /\
                         InputObjectNodeId c = id)).
  { exists true, o, ids, i, []. split; [reflexivity|].
    split; [apply UploadWrites_refl|]. split; [constructor|].
    split; [discriminate|]. intros _. exists [].
    split; [now rewrite app_nil_r|intros id []]. }
  unfold HapiCreateInputNodeForActor.
  destruct Hp as [-> | ->]; [|exact Hfalse].
  destruct (In_bPendingKill i || bPendingKill o); [exact Hfalse|].
  destruct (GetActor E o) as [Actor|]; [|exact Hnone].
  destruct (Actor_bPendingKill Actor); [exact Hnone|].
  clear Hfalse Hnone. unfold bind at 1.
  match goal with
  | |- context [let (_, _) := ?m s in _] =>
      assert (Hr : exists o1 new, m s = (o1, new ++ s) /\
                Forall (fun call => ~ IsUpload call) new /\
                (o1 = o \/ exists s', UpdateActor E s' o = Some o1))
  end.
  { destruct (_ && _); [apply RefreshActorComponents_facts|].
    exists o, []. split; [reflexivity|]. split; [constructor|now left]. }
  destruct Hr as (o1 & n1 & Hrun1 & Hn1 & Ho1). rewrite Hrun1.
  unfold bind at 1.
  destruct (ActorComponents_upload_facts
              (match AsActor o1 with Some cs => cs | None => [] end)
              ids i (n1 ++ s))
    as (comps' & ids' & i' & n2 & Hrun2 & Hw & Hup & created & Hids & Hcr).
  rewrite Hrun2. cbn [ret].
  eexists true, _, ids', i', (n2 ++ n1).
  split; [rewrite app_assoc; reflexivity|].
  split; [exact Hw|].
  split.
  { apply Forall_app. split.
    - eapply Forall_impl; [|exact Hup]. intros call H Hc.
      destruct (H Hc) as (c0 & Hin & Hu).
      destruct (AsActor o1) as [cs|] eqn:Has; [|destruct Hin].
      exists cs, c0. split; [|auto].
      destruct Ho1 as [-> | (s' & Hs')]; [now left|].
      right. exists s', o1. auto.
    - eapply Forall_impl; [|exact Hn1]. intros call H Hc. contradiction. }
  split; [discriminate|].
  intros _. exists created. split; [exact Hids|].
  intros id Hin. destruct (Hcr id Hin) as (c & Hc & Hid).
  destruct (AsActor o1) as [cs|] eqn:Has.
  - exists comps', c. cbn. auto.
  - cbn [forEach ret] in Hrun2. injection Hrun2 as <- _ _ _. destruct Hc.
Qed.

(** What every upload of an input object does. *)
Lemma UploadHoudiniInputObject_facts : forall i (o : InputObject) ids s,
  exists b o' ids' i' new,
    UploadHoudiniInputObject E (Some i) (Some o) ids s
    = ((b, Some o', ids', Some i'), new ++ s) /\
    UploadWrites i i' /\
    bNeedsToTriggerUpdate o' = false /\
    (b = true -> bHasChanged o' = false) /\
    (b = false -> ids' = ids) /\
    (exists created, ids' = ids ++ created) /\
    Forall (fun call => IsUpload call ->
              (Type_ o <> EHoudiniInputObjectType.Actor /\ Uploads call o) \/
              (Type_ o = EHoudiniInputObjectType.Actor /\
               exists comps c0, UploadedComponents E o comps /\
                 In (Some c0) comps /\ Uploads call (OfComponent c0))) new /\
    (forall k, DedicatedTo (Type_ o) = ByTranslator k ->
       Marshals E k i o = true -> new = [Translate k o]).
Proof.
  intros i o ids s.
  assert (Hflags : forall b o1,
    bNeedsToTriggerUpdate (AfterUpload b o1) = false /\
    (b = true -> bHasChanged (AfterUpload b o1) = false)).
  { intros [] o1; cbn; split; auto; discriminate. }
  destruct (EHoudiniInputObjectType.eqb (Type_ o)
              EHoudiniInputObjectType.Actor) eqn:Hty.
  - apply EHoudiniInputObjectType_eqb_eq in Hty.
    pose proof (UploadHoudiniInputObject_by_kind
                  (UploadHoudiniInputComponent E) i o ids s) as Hk.
    rewrite Hty in Hk. cbn [DedicatedTo] in Hk.
    destruct (HapiCreateInputNodeForActor_facts i
                (AsClass E UClass.HoudiniInputActor o) o ids s)
      as (b & o1 & ids' & i' & new & Hrun & Hw & Hup & Hf & Ht).
    { unfold AsClass. destruct (AsActor o); auto. }
    rewrite Hrun in Hk. cbn [orSame] in Hk.
    exists b, (AfterUpload b o1), ids', i', new.
    split; [exact Hk|]. split; [exact Hw|].
    split; [apply Hflags|]. split; [apply Hflags|].
    split; [intros Hb; now apply Hf|].
    split.
    { destruct b.
      - destruct (Ht eq_refl) as (created & -> & _). eauto.
      - destruct (Hf eq_refl) as (_ & -> & _). exists []. now rewrite app_nil_r. }
    split.
    { eapply Forall_impl; [|exact Hup]. intros call H Hc. right. auto. }
    rewrite Hty. discriminate.
  - assert (Hne : Type_ o <> EHoudiniInputObjectType.Actor).
    { intros Heq. apply EHoudiniInputObjectType_eqb_eq in Heq. congruence. }
    destruct (UploadHoudiniInputObject_single
                (UploadHoudiniInputComponent E) i o ids s)
      as (b & o1 & ids' & i' & new & Hrun & Hw & Hup & Hf & Hids & Hm);
      [contradiction|].
    exists b, (AfterUpload b o1), ids', i', new.
    split; [exact Hrun|]. split; [exact Hw|].
    split; [apply Hflags|]. split; [apply Hflags|].
    split; [exact Hf|].
    split.
    { destruct Hids as [->|[->|(l & _ & _ & ->)]]; eauto.
      exists []. now rewrite app_nil_r. }
    split; [|exact Hm].
    eapply Forall_impl; [|exact Hup]. intros call H Hc. left. auto.
Qed.

(** C4.  On a non-null input and input object, UploadHoudiniInputObject
    hands the object to the translator dedicated to its kind, and to no
    other.  A kind whose translator marshals through the session: when the
    object is of the translator's class and passes its guard, the
    translator's call on this object is the one call made, the result is
    the translator's, and on success the node ids created for the object
    are appended to the list; otherwise no call is made, the result is
    false and the list is left as it was.  A Houdini asset actor or
    component is handed to HapiCreateInputNodeForHoudiniAssetComponent,
    whose result is returned, with the object's node appended on success
    and the input as that translator leaves it; an actor to
    HapiCreateInputNodeForActor, which appends the nodes of the components
    it uploads; an invalid object to no translator: the result is true and
    the list is left as it was.  In every case the object is afterwards
    what the translator left of it with the trigger flag cleared, and with
    the changed flag cleared when the result is true; when the result is
    false the changed flag is the one the translator left, the list is as
    it was, and on a null input or object nothing is done. *)
Theorem UploadHoudiniInputObject_dispatches :
  forall (i : UHoudiniInput) (o : InputObject) (ids : list Z) (s : Session),
  match DedicatedTo (Type_ o) with
  | ByTranslator k =>
      UploadHoudiniInputObject E (Some i) (Some o) ids s
      = if Marshals E k i o
        then let (b, o1) := translate E s k i o in
             ((b, Some (AfterUpload b o1),
               if b then ids ++ CreatedNodeIdsOf k o1 else ids, Some i),
              Translate k o :: s)
        else ((false, Some (AfterUpload false o), ids, Some i), s)
  | ByAssetTranslator =>
      UploadHoudiniInputObject E (Some i) (Some o) ids s
      = (let '((b, o1, i'), s') :=
           HapiCreateInputNodeForHoudiniAssetComponent E i
             (AsClass E UClass.HoudiniInputHoudiniAsset o) o
             (In_bImportAsReference (Settings i)) s in
         ((b, Some (AfterUpload b o1),
           if b then ids ++ [InputObjectNodeId o1] else ids, Some i'), s'))
  | ByActorTranslator =>
      UploadHoudiniInputObject E (Some i) (Some o) ids s
      = (let '((b, o1, ids', r), s') :=
           HapiCreateInputNodeForActor E (UploadHoudiniInputComponent E)
             (Some i) (AsClass E UClass.HoudiniInputActor o) o ids s in
         ((b, Some (AfterUpload b o1), ids', Some (orSame i r)), s'))
  | NoTranslator =>
      UploadHoudiniInputObject E (Some i) (Some o) ids s
      = ((true, Some (AfterUpload true o), ids, Some i), s)
  end /\
  (exists b o' ids' i' new,
     UploadHoudiniInputObject E (Some i) (Some o) ids s
     = ((b, Some o', ids', Some i'), new ++ s) /\
     bNeedsToTriggerUpdate o' = false /\
     (b = true -> bHasChanged o' = false) /\
     (b = false ->
      ids' = ids /\
      bHasChanged o'
      = bHasChanged
          (match DedicatedTo (Type_ o) with
           | ByTranslator k =>
               if Marshals E k i o then snd (translate E s k i o) else o
           | _ => o
           end)) /\
     (exists created, ids' = ids ++ created) /\
     (Type_ o = EHoudiniInputObjectType.Actor -> b = true ->
      exists created, ids' = ids ++ created /\
        forall id, In id created ->
          exists comps c, AsActor o' = Some comps /\ In (Some c) comps /\
                          InputObjectNodeId c = id) /\
     Forall (fun call => IsUpload call ->
               (Type_ o <> EHoudiniInputObjectType.Actor /\ Uploads call o) \/
               (Type_ o = EHoudiniInputObjectType.Actor /\
                exists comps c0, UploadedComponents E o comps /\
                  In (Some c0) comps /\ Uploads call (OfComponent c0))) new) /\
  UploadHoudiniInputObject E None (Some o) ids s
  = ((false, Some o, ids, None), s) /\
  UploadHoudiniInputObject E (Some i) None ids s
  = ((false, None, ids, Some i), s).
Proof.
  intros i o ids s.
  pose proof (UploadHoudiniInputObject_by_kind
                (UploadHoudiniInputComponent E) i o ids s) as Hk.
  fold (UploadHoudiniInputObject E) in Hk.
  assert (Hkind :
    match DedicatedTo (Type_ o) with
    | ByTranslator k =>
        UploadHoudiniInputObject E (Some i) (Some o) ids s
        = if Marshals E k i o
          then let (b, o1) := translate E s k i o in
               ((b, Some (AfterUpload b o1),
                 if b then ids ++ CreatedNodeIdsOf k o1 else ids, Some i),
                Translate k o :: s)
          else ((false, Some (AfterUpload false o), ids, Some i), s)
    | ByAssetTranslator =>
        UploadHoudiniInputObject E (Some i) (Some o) ids s
        = (let '((b, o1, i'), s') :=
             HapiCreateInputNodeForHoudiniAssetComponent E i
               (AsClass E UClass.HoudiniInputHoudiniAsset o) o
               (In_bImportAsReference (Settings i)) s in
           ((b, Some (AfterUpload b o1),
             if b then ids ++ [InputObjectNodeId o1] else ids, Some i'), s'))
    | ByActorTranslator =>
        UploadHoudiniInputObject E (Some i) (Some o) ids s
        = (let '((b, o1, ids', r), s') :=
             HapiCreateInputNodeForActor E (UploadHoudiniInputComponent E)
               (Some i) (AsClass E UClass.HoudiniInputActor o) o ids s in
           ((b, Some (AfterUpload b o1), ids', Some (orSame i r)), s'))
    | NoTranslator =>
        UploadHoudiniInputObject E (Some i) (Some o) ids s
        = ((true, Some (AfterUpload true o), ids, Some i), s)
    end).
  { destruct (DedicatedTo (Type_ o)) as [k| | |]; try exact Hk.
    rewrite HapiCreateInputNodeFor_marshals in Hk.
    destruct (Marshals E k i o); [|exact Hk].
    destruct (translate E s k i o) as [b o1]. exact Hk. }
  split; [exact Hkind|]. split; [|split; reflexivity].
  assert (Hflags : forall b o1,
    bNeedsToTriggerUpdate (AfterUpload b o1) = false /\
    (b = true -> bHasChanged (AfterUpload b o1) = false) /\
    (b = false -> bHasChanged (AfterUpload b o1) = bHasChanged o1)).
  { intros [] o1; cbn; repeat split; auto; discriminate. }
  destruct (DedicatedTo (Type_ o)) as [k| | |] eqn:Hd.
  - assert (Hna : Type_ o <> EHoudiniInputObjectType.Actor)
      by (intros Heq; rewrite Heq in Hd; discriminate).
    destruct (Marshals E k i o) eqn:Hm.
    + destruct (translate E s k i o) as [b o1] eqn:Ht.
      exists b, (AfterUpload b o1),
        (if b then ids ++ CreatedNodeIdsOf k o1 else ids), i, [Translate k o].
      split; [exact Hkind|]. split; [apply Hflags|]. split; [apply Hflags|].
      split; [intros ->; split; [reflexivity|apply Hflags; reflexivity]|].
      split; [destruct b; eauto; exists []; now rewrite app_nil_r|].
      split; [contradiction|]. apply Forall_cons; [|apply Forall_nil].
      intros _. left. split; [exact Hna|]. left. eexists. reflexivity.
    + exists false, (AfterUpload false o), ids, i, [].
      split; [exact Hkind|]. split; [apply Hflags|]. split; [discriminate|].
      split; [intros _; split; reflexivity|].
      split; [exists []; now rewrite app_nil_r|].
      split; [contradiction|constructor].
  - assert (Hna : Type_ o <> EHoudiniInputObjectType.Actor)
      by (intros Heq; rewrite Heq in Hd; discriminate).
    destruct (HapiCreateInputNodeForHoudiniAssetComponent_run i
                (AsClass E UClass.HoudiniInputHoudiniAsset o) o
                (In_bImportAsReference (Settings i))) with (s := s)
      as ([[b o1] i'] & new & Hrun & Hw & Hup & _ & Hch & _).
    { unfold AsClass. destruct (IsA E _ _); auto. }
    rewrite Hrun in Hkind.
    exists b, (AfterUpload b o1),
      (if b then ids ++ [InputObjectNodeId o1] else ids), i', new.
    split; [exact Hkind|]. split; [apply Hflags|]. split; [apply Hflags|].
    split.
    { intros ->. split; [reflexivity|].
      rewrite <- Hch. apply Hflags. reflexivity. }
    split; [destruct b; eauto; exists []; now rewrite app_nil_r|].
    split; [contradiction|].
    eapply Forall_impl; [|exact Hup]. intros call H Hc. left. auto.
  - assert (Hty : Type_ o = EHoudiniInputObjectType.Actor)
      by (destruct (Type_ o); try discriminate; reflexivity).
    destruct (HapiCreateInputNodeForActor_facts i
                (AsClass E UClass.HoudiniInputActor o) o ids s)
      as (b & o1 & ids' & i' & new & Hrun & Hw & Hup & Hf & Ht).
    { unfold AsClass. destruct (AsActor o); auto. }
    rewrite Hrun in Hkind. cbn [orSame] in Hkind.
    exists b, (AfterUpload b o1), ids', i', new.
    split; [exact Hkind|]. split; [apply Hflags|]. split; [apply Hflags|].
    split.
    { intros ->. destruct (Hf eq_refl) as (-> & -> & _).
      split; [reflexivity|]. apply Hflags. reflexivity. }
    split.
    { destruct b.
      - destruct (Ht eq_refl) as (created & -> & _). eauto.
      - destruct (Hf eq_refl) as (_ & -> & _). exists []. now rewrite app_nil_r. }
    split.
    { intros _ ->. destruct (Ht eq_refl) as (created & -> & Hcr).
      exists created. split; [reflexivity|]. exact Hcr. }
    eapply Forall_impl; [|exact Hup]. intros call H Hc. right. auto.
  - assert (Hna : Type_ o <> EHoudiniInputObjectType.Actor)
      by (intros Heq; rewrite Heq in Hd; discriminate).
    exists true, (AfterUpload true o), ids, i, [].
    split; [exact Hkind|]. split; [apply Hflags|]. split; [apply Hflags|].
    split; [discriminate|].
    split; [exists []; now rewrite app_nil_r|].
    split; [contradiction|constructor].
Qed.

End UploadObject.

Lemma UploadHoudiniInputObject_dispatches_witness :
  let E := Scenarios.engine true in
  let i := Scenarios.input_to_upload in
  let o := Scenarios.changed_object in
  UploadHoudiniInputObject E (Some i) (Some o) [5] []
  = ((true, Some (AfterUpload true o), [5; InputObjectNodeId o], Some i),
     [Translate ForObject o]).
Proof.
  exact (proj1 (UploadHoudiniInputObject_dispatches (Scenarios.engine true)
                  Scenarios.input_to_upload Scenarios.changed_object [5] [])).
Defined.

(** ** UploadInputData *)

Section UploadData.

Variable E : Engine.

Lemma UploadWrites_pending : forall i i',
  UploadWrites i i' -> In_bPendingKill i' = In_bPendingKill i.
Proof. intros i i' ->. reflexivity. Qed.

Lemma Marshals_writes : forall k i i' o,
  UploadWrites i i' -> Marshals E k i' o = Marshals E k i o.
Proof.
  intros k i i' o H. unfold Marshals.
  rewrite (UploadWrites_pending _ _ H). reflexivity.
Qed.

Lemma bind_run : forall A B (m : M A) (k : A -> M B) s,
  bind m k s = k (fst (m s)) (snd (m s)).
Proof. intros. unfold bind. destruct (m s). reflexivity. Qed.

Lemma UploadInputData_component_facts : forall c ids b i s,
  exists c' ids' b' i' new,
    UploadInputData_component E c (ids, b, i) s
    = ((c', (ids', b', i')), new ++ s) /\
    UploadWrites i i' /\
    ComponentLeftAsIs c c' /\
    (exists more, ids' = ids ++ more) /\
    (forall c0, c = Some c0 -> bPendingKill c0 = false ->
       KeepsNode c0 = true -> In (InputObjectNodeId c0) ids') /\
    Forall (fun call => IsUpload call ->
              exists c0, c = Some c0 /\ bPendingKill c0 = false /\
                KeepsNode c0 = false /\ Uploads call (OfComponent c0)) new /\
    (forall c0 k, c = Some c0 -> bPendingKill c0 = false ->
       KeepsNode c0 = false ->
       DedicatedTo (Type_ c0) = ByTranslator k ->
       Marshals E k i (OfComponent c0) = true ->
       In (Translate k (OfComponent c0)) new).
Proof.
  intros [c|] ids b i s; unfold UploadInputData_component, ComponentLeftAsIs.
  2:{ exists None, ids, b, i, []. split; [reflexivity|].
      split; [apply UploadWrites_refl|]. split; [reflexivity|].
      split; [exists []; now rewrite app_nil_r|].
      split; [discriminate|]. split; [constructor|discriminate]. }
  destruct (bPendingKill c) eqn:Hpk.
  { exists (Some c), ids, b, i, []. split; [reflexivity|].
    split; [apply UploadWrites_refl|]. split; [reflexivity|].
    split; [exists []; now rewrite app_nil_r|].
    split; [intros c0 [= <-]; congruence|].
    split; [constructor|intros c0 k [= <-]; congruence]. }
  destruct (KeepsNode c) eqn:Hkeep.
  { exists (Some c), (ids ++ [InputObjectNodeId c]), b, i, [].
    split; [reflexivity|].
    split; [apply UploadWrites_refl|]. split; [reflexivity|].
    split; [eexists; reflexivity|].
    split; [intros c0 [= <-] _ _; apply in_or_app; right; now left|].
    split; [constructor|intros c0 k [= <-]; congruence]. }
  destruct (UploadHoudiniInputComponent_facts E i (Some c) ids s)
    as (ok & c' & ids' & i' & new & Hrun & Hw & Hup & _ & Hids & _ & _ & Hm).
  exists c', ids', (if ok then b else false), i', new.
  split; [unfold bind; rewrite Hrun; reflexivity|].
  split; [exact Hw|].
  split; [intros [H|H]; congruence|].
  split; [destruct Hids as [->|(c1 & _ & ->)];
          [exists []; now rewrite app_nil_r|eexists; reflexivity]|].
  split; [intros c0 [= <-]; congruence|].
  split.
  - eapply Forall_impl; [|exact Hup]. intros call H Hc.
    destruct (H Hc) as (c0 & [= <-] & Hu). exists c. auto.
  - intros c0 k [= <-] _ _ Hd HM. rewrite (Hm c k eq_refl Hd HM). now left.
Qed.

Lemma UploadInputData_components_facts : forall comps ids b i s,
  exists comps' ids' b' i' new,
    forEach (UploadInputData_component E) comps (ids, b, i) s
    = ((comps', (ids', b', i')), new ++ s) /\
    UploadWrites i i' /\
    Forall2 ComponentLeftAsIs comps comps' /\
    (exists more, ids' = ids ++ more) /\
    (forall c0, In (Some c0) comps -> bPendingKill c0 = false ->
       KeepsNode c0 = true -> In (InputObjectNodeId c0) ids') /\
    Forall (fun call => IsUpload call ->
              exists c0, In (Some c0) comps /\ bPendingKill c0 = false /\
                KeepsNode c0 = false /\ Uploads call (OfComponent c0)) new /\
    (forall c0 k, In (Some c0) comps -> bPendingKill c0 = false ->
       KeepsNode c0 = false ->
       DedicatedTo (Type_ c0) = ByTranslator k ->
       Marshals E k i (OfComponent c0) = true ->
       In (Translate k (OfComponent c0)) new).
Proof.
  induction comps as [|c comps IH]; intros ids b i s.
  - exists [], ids, b, i, []. split; [reflexivity|].
    split; [apply UploadWrites_refl|]. split; [constructor|].
    split; [exists []; now rewrite app_nil_r|].
    split; [intros c0 []|]. split; [constructor|intros c0 k []].
  - destruct (UploadInputData_component_facts c ids b i s)
      as (c' & ids1 & b1 & i1 & n1 & Hrun1 & Hw1 & Hc & (m1 & Hm1) & Hk1
          & Hup1 & Hif1).
    destruct (IH ids1 b1 i1 (n1 ++ s))
      as (comps' & ids2 & b2 & i2 & n2 & Hrun2 & Hw2 & Hcs & (m2 & Hm2) & Hk2
          & Hup2 & Hif2).
    exists (c' :: comps'), ids2, b2, i2, (n2 ++ n1).
    split; [rewrite forEach_cons, Hrun1, Hrun2, app_assoc; reflexivity|].
    split; [eapply UploadWrites_trans; eassumption|].
    split; [constructor; assumption|].
    split; [exists (m1 ++ m2); rewrite Hm2, Hm1, app_assoc; reflexivity|].
    split.
    { intros c0 [->|Hin] Hpk Hkeep.
      - rewrite Hm2. apply in_or_app. left. now apply Hk1.
      - now apply Hk2. }
    split.
    { apply Forall_app. split.
      - eapply Forall_impl; [|exact Hup2]. intros call H Hcall.
        destruct (H Hcall) as (c0 & Hin & Hrest). exists c0.
        split; [now right|assumption].
      - eapply Forall_impl; [|exact Hup1]. intros call H Hcall.
        destruct (H Hcall) as (c0 & -> & Hrest). exists c0.
        split; [now left|assumption]. }
    intros c0 k [->|Hin] Hpk Hkeep Hd HM; apply in_or_app.
    + right. eapply Hif1; eauto.
    + left. eapply Hif2; eauto. rewrite (Marshals_writes k i i1); assumption.
Qed.

Lemma UploadInputData_object_facts : forall p ids b i s,
  exists p' ids' b' i' new,
    UploadInputData_object E p (ids, b, i) s
    = ((p', (ids', b', i')), new ++ s) /\
    UploadWrites i i' /\
    ObjectLeftAsIs p p' /\
    (exists more, ids' = ids ++ more) /\
    (forall id, KeptNodeOf p id -> In id ids') /\
    Forall (fun call => IsUpload call ->
              exists x, UploadNeededFor E p x /\ Uploads call x) new /\
    (forall k x, HandsOver E i p k x -> In (Translate k x) new).
Proof.
  intros [o|] ids b i s;
    unfold UploadInputData_object, ObjectLeftAsIs, KeptNodeOf, HandsOver.
  2:{ exists None, ids, b, i, []. split; [reflexivity|].
      split; [apply UploadWrites_refl|]. split; [reflexivity|].
      split; [exists []; now rewrite app_nil_r|].
      split; [intros id (o & H & _); discriminate|].
      split; [constructor|intros k x (o & H & _); discriminate]. }
  destruct (bPendingKill o) eqn:Hpk.
  { exists (Some o), ids, b, i, []. split; [reflexivity|].
    split; [apply UploadWrites_refl|].
    split; [split; [reflexivity|discriminate]|].
    split; [exists []; now rewrite app_nil_r|].
    split; [intros id (o' & [= <-] & H & _); congruence|].
    split; [constructor|intros k x (o' & [= <-] & H & _); congruence]. }
  destruct (KeepsNode o) eqn:Hkeep.
  - (* the object is kept *)
    destruct (Type_ o) eqn:Hty;
      try (exists (Some o), (ids ++ [InputObjectNodeId o]), b, i, [];
           split; [reflexivity|];
           split; [apply UploadWrites_refl|];
           split; [split; [discriminate|intros _ _; split;
                            [reflexivity|discriminate]]|];
           split; [eexists; reflexivity|];
           split; [intros id (o' & [= <-] & _ & _ & [[_ ->]|[H _]]);
                   [apply in_or_app; right; now left|congruence]|];
           split; [constructor|];
           intros k x (o' & [= <-] & _ & [[H _]|[_ [H _]]] & _); congruence).
    destruct (AsActor o) as [comps|] eqn:Has.
    + destruct (UploadInputData_components_facts comps ids b i s)
        as (comps' & ids' & b' & i' & new & Hrun & Hw & Hcs & Hm & Hk
            & Hup & Hif).
      exists (Some (WithActorComponents comps' o)), ids', b', i', new.
      split; [unfold bind; rewrite Hrun; reflexivity|].
      split; [exact Hw|].
      split; [split; [discriminate|intros _ _; split; [congruence|]];
              intros _; exists comps'; auto|].
      split; [exact Hm|].
      split.
      { intros id (o' & [= <-] & _ & _ & [[H _]|[_ (cs & c & Hcs' & Hin & H)]]);
          [congruence|].
        rewrite Has in Hcs'. injection Hcs' as <-.
        destruct H as (H1 & H2 & ->). now apply Hk. }
      split.
      { eapply Forall_impl; [|exact Hup]. intros call H Hc.
        destruct (H Hc) as (c0 & Hin & H1 & H2 & Hu).
        exists (OfComponent c0). split; [|exact Hu].
        exists o. split; [reflexivity|]. split; [assumption|]. right. right.
        split; [assumption|]. split; [assumption|]. exists comps, c0. auto. }
      intros k x (o' & [= <-] & _ & [[H _]|(_ & _ & cs & c & Hcs' & Hin & H1 & H2 & ->)]
                  & Hd & HM); [congruence|].
      rewrite Has in Hcs'. injection Hcs' as <-. eapply Hif; eauto.
    + exists (Some o), ids, b, i, []. split; [reflexivity|].
      split; [apply UploadWrites_refl|].
      split; [split; [discriminate|intros _ _; split; [congruence|reflexivity]]|].
      split; [exists []; now rewrite app_nil_r|].
      split.
      { intros id (o' & [= <-] & _ & _ & [[H _]|[_ (cs & c & Hcs' & _)]]);
          congruence. }
      split; [constructor|].
      intros k x (o' & [= <-] & _ & [[H _]|(_ & _ & cs & c & Hcs' & _)] & _);
        congruence.
  - (* the object is uploaded *)
    destruct (UploadHoudiniInputObject_facts E i o ids s)
      as (ok & o' & ids' & i' & new & Hrun & Hw & _ & _ & _ & Hm & Hup & Hif).
    exists (Some o'), ids', (if ok then b else false), i', new.
    split; [unfold bind; rewrite Hrun; reflexivity|].
    split; [exact Hw|].
    split; [split; [discriminate|congruence]|].
    split; [exact Hm|].
    split; [intros id (o0 & [= <-] & _ & H & _); congruence|].
    split.
    { eapply Forall_impl; [|exact Hup]. intros call H Hc.
      destruct (H Hc) as [[Hne Hu]|(Hty & comps & c0 & Hcomps & Hin & Hu)].
      - exists o. split; [|exact Hu]. exists o. split; [reflexivity|].
        split; [assumption|]. left. auto.
      - exists (OfComponent c0). split; [|exact Hu]. exists o.
        split; [reflexivity|]. split; [assumption|]. right. left.
        split; [assumption|]. split; [assumption|]. exists comps, c0. auto. }
    intros k x (o0 & [= <-] & _ & [[_ ->]|[H _]] & Hd & HM); [|congruence].
    rewrite (Hif k Hd HM). now left.
Qed.

Lemma UploadInputData_objects_facts : forall objs ids b i s,
  exists objs' ids' b' i' new,
    forEach (UploadInputData_object E) objs (ids, b, i) s
    = ((objs', (ids', b', i')), new ++ s) /\
    UploadWrites i i' /\
    Forall2 ObjectLeftAsIs objs objs' /\
    (exists more, ids' = ids ++ more) /\
    (forall p id, In p objs -> KeptNodeOf p id -> In id ids') /\
    Forall (fun call => IsUpload call ->
              exists p x, In p objs /\ UploadNeededFor E p x /\
                          Uploads call x) new /\
    (forall p k x, In p objs -> HandsOver E i p k x ->
       In (Translate k x) new).
Proof.
  induction objs as [|p objs IH]; intros ids b i s.
  - exists [], ids, b, i, []. split; [reflexivity|].
    split; [apply UploadWrites_refl|]. split; [constructor|].
    split; [exists []; now rewrite app_nil_r|].
    split; [intros p id []|]. split; [constructor|intros p k x []].
  - destruct (UploadInputData_object_facts p ids b i s)
      as (p' & ids1 & b1 & i1 & n1 & Hrun1 & Hw1 & Hp & (m1 & Hm1) & Hk1
          & Hup1 & Hif1).
    destruct (IH ids1 b1 i1 (n1 ++ s))
      as (objs' & ids2 & b2 & i2 & n2 & Hrun2 & Hw2 & Hps & (m2 & Hm2) & Hk2
          & Hup2 & Hif2).
    exists (p' :: objs'), ids2, b2, i2, (n2 ++ n1).
    split; [rewrite forEach_cons, Hrun1, Hrun2, app_assoc; reflexivity|].
    split; [eapply UploadWrites_trans; eassumption|].
    split; [constructor; assumption|].
    split; [exists (m1 ++ m2); rewrite Hm2, Hm1, app_assoc; reflexivity|].
    split.
    { intros q id [->|Hin] Hkept.
      - rewrite Hm2. apply in_or_app. left. now apply Hk1.
      - eapply Hk2; eassumption. }
    split.
    { apply Forall_app. split.
      - eapply Forall_impl; [|exact Hup2]. intros call H Hcall.
        destruct (H Hcall) as (q & x & Hin & Hrest). exists q, x.
        split; [now right|assumption].
      - eapply Forall_impl; [|exact Hup1]. intros call H Hcall.
        destruct (H Hcall) as (x & Hrest). exists p, x.
        split; [now left|assumption]. }
    intros q k x [->|Hin] Hh; apply in_or_app.
    + right. now apply Hif1.
    + left. eapply Hif2; [eassumption|].
      destruct Hh as (o & Ho & Hpk & Hcase & Hd & HM).
      exists o. repeat (split; [assumption|]).
      rewrite (Marshals_writes k i i1); assumption.
Qed.

Lemma ConnectCreatedNodes_emits : forall P InputNodeId ids InputIndex,
  (forall a b c, P (ConnectNodeInput a b c 0)) ->
  Emits P (ConnectCreatedNodes E InputNodeId ids InputIndex).
Proof.
  intros P n ids idx HP. revert idx.
  induction ids as [|a ids IH]; intros idx; cbn [ConnectCreatedNodes].
  - apply Emits_ret.
  - emits; try apply IH. apply HP.
Qed.

(** The loop plugs every valid node of the list, but the merge node
    itself, into the merge node. *)
Lemma ConnectCreatedNodes_connects : forall InputNodeId ids InputIndex,
  Run (ConnectCreatedNodes E InputNodeId ids InputIndex)
    (fun _ new =>
       forall id, In id ids -> 0 <= id -> id <> InputNodeId ->
         exists k, In (ConnectNodeInput InputNodeId k id 0) new).
Proof.
  intros n ids. induction ids as [|a ids IH]; intros idx;
    cbn [ConnectCreatedNodes].
  - apply Run_ret. intros id [].
  - destruct (a <? 0) eqn:Hneg.
    { eapply Run_weaken; [apply IH|]. intros u new H id [<-|Hin] Hpos Hne.
      - apply Z.ltb_lt in Hneg. lia.
      - now apply H. }
    destruct (n =? a) eqn:Hsame.
    { eapply Run_weaken; [apply IH|]. intros u new H id [<-|Hin] Hpos Hne.
      - apply Z.eqb_eq in Hsame. congruence.
      - now apply H. }
    eapply Run_bind with
      (Q1 := fun _ new => new = [ConnectNodeInput n idx a 0]).
    + intros s. eexists _, [_]. split; reflexivity.
    + intros u n1 ->. eapply Run_weaken; [apply IH|].
      intros u2 new H id [<-|Hin] Hpos Hne; [exists idx|].
      * apply in_or_app. right. now left.
      * destruct (H id Hin Hpos Hne) as (k & Hk). exists k.
        apply in_or_app. now left.
Qed.

(** The part of UploadInputData after the loop uploads nothing. *)
Lemma UploadInputData_merge_emits : forall i1 ids b,
  Emits (fun call => ~ IsUpload call) (UploadInputData_merge E i1 ids b).
Proof.
  intros i1 ids b.
  unfold UploadInputData_merge, DisconnectObjectMerges, ConnectInputNode.
  repeat first [apply ConnectCreatedNodes_emits; intros | emits_step];
    cbn; auto.
Qed.

(** What the part after the loop returns.  With no node to plug it runs
    into the null pointer on an Asset input whose outer is no asset
    component, and otherwise empties the record; with nodes to plug it
    records them, unless the merge node cannot be created. *)
Lemma UploadInputData_merge_value : forall i1 ids b s,
  let create :=
    CreateNode (-1) "SOP/merge" (NodeBaseName (Settings i1) ++ "_Merge") in
  match fst (UploadInputData_merge E i1 ids b s) with
  | None =>
      ids = [] /\ InputType i1 = EHoudiniInputType.Asset /\
      OuterHAC (Settings i1) = None /\
      snd (UploadInputData_merge E i1 ids b s) = s
  | Some (b', r') =>
      exists i', r' = Some i' /\ InputObjects i' = InputObjects i1 /\
        ((ids = [] /\ b' = b /\ CreatedDataNodeIds i' = []) \/
         (ids <> [] /\ CreatedDataNodeIds i' = ids /\
          exists new,
            snd (UploadInputData_merge E i1 ids b s) = new ++ s /\
            forall id, In id ids -> 0 <= id -> id <> In_InputNodeId i' ->
              exists k, In (ConnectNodeInput (In_InputNodeId i') k id 0) new) \/
         (ids <> [] /\ b' = false /\ i' = i1 /\
          exists rest,
            snd (UploadInputData_merge E i1 ids b s) = (create :: rest) ++ s /\
            hapi_result E (rest ++ s) create = false))
  end.
Proof.
  intros i1 ids b s create. unfold UploadInputData_merge.
  destruct ids as [|a ids].
  - cbn [Datatypes.length Z.of_nat Z.eqb]. rewrite bind_run.
    match goal with
    | |- context [snd (?m s)] =>
        assert (Hin : fst (m s) = true \/
                      (fst (m s) = false /\
                       InputType i1 = EHoudiniInputType.Asset /\
                       OuterHAC (Settings i1) = None /\ snd (m s) = s));
        [|destruct (m s) as [ok s1]]
    end.
    { destruct (HasInputTypeChanged E i1); cbn [negb]; [now left|].
      destruct (InputType i1) eqn:HT; try (rewrite bind_run; now left);
        [|now left].
      destruct (OuterHAC (Settings i1)); [rewrite bind_run; now left|].
      right. cbn. auto. }
    cbn [fst snd] in *.
    destruct Hin as [-> | (-> & H1 & H2 & ->)]; cbn.
    + eexists. split; [reflexivity|]. split; [reflexivity|]. left. auto.
    + auto.
  - replace (Z.of_nat (Datatypes.length (a :: ids)) =? 0) with false
      by (symmetry; apply Z.eqb_neq; cbn [Datatypes.length]; lia).
    rewrite bind_run.
    match goal with
    | |- context [snd (?m s)] =>
        assert (Hst : exists pre, snd (m s) = pre ++ s);
        [|destruct (m s) as [stale s1]]
    end.
    { destruct (In_InputNodeId i1 <? 0); [exists []; reflexivity|].
      unfold bind, call, ret. eexists [_]. reflexivity. }
    destruct Hst as (pre & Hs1). cbn [fst snd] in *. subst s1.
    rewrite bind_run.
    match goal with
    | |- context [snd (?m (pre ++ s))] =>
        assert (Hcr : (exists id s2, m (pre ++ s) = (Some id, s2)) \/
                      (m (pre ++ s) = (None, create :: pre ++ s) /\
                       hapi_result E (pre ++ s) create = false));
        [|destruct Hcr as [(id & s2 & Hcr) | (-> & Hres)]]
    end.
    { destruct stale; [|left; eexists _, _; reflexivity].
      unfold bind, call_int, ret. fold create.
      destruct (hapi_result E (pre ++ s) create) eqn:Hres;
        [left; eexists _, _; reflexivity|right; auto]. }
    + assert (Hs2 : exists mid, s2 = mid ++ s).
      { destruct stale.
        - unfold bind, call_int, ret in Hcr.
          destruct (hapi_result E (pre ++ s) _); injection Hcr as _ <-.
          + eexists (_ :: pre). reflexivity.
          + eexists (_ :: pre). reflexivity.
        - injection Hcr as _ <-. exists pre. reflexivity. }
      destruct Hs2 as (mid & ->).
      rewrite Hcr.
      assert (Hid : id = In_InputNodeId
                           (if stale then SetInputNodeId id i1 else i1)).
      { destruct stale; [reflexivity|]. now injection Hcr. }
      cbn [fst snd].
      repeat (rewrite bind_run; cbn [fst snd ret]).
      eexists. split; [reflexivity|]. split; [destruct stale; reflexivity|].
      right. left. split; [discriminate|]. split; [reflexivity|].
      destruct (ConnectCreatedNodes_connects id (a :: ids) 0 (mid ++ s))
        as (u & nc & Hrc & Hconn).
      rewrite Hrc. cbn [snd].
      match goal with
      | |- context [snd (?d (nc ++ mid ++ s))] =>
          assert (Hd : exists nd, snd (d (nc ++ mid ++ s))
                                  = nd ++ nc ++ mid ++ s)
      end.
      { match goal with
        | |- context [snd (?d (nc ++ mid ++ s))] =>
            assert (He : Emits (fun _ => True) d)
        end.
        { unfold DisconnectObjectMerges. emits; exact I. }
        destruct (He (nc ++ mid ++ s)) as (u2 & nd & Hrd & _).
        exists nd. now rewrite Hrd. }
      destruct Hd as (nd & ->).
      match goal with
      | |- context [snd (ConnectInputNode E ?x ?s0)] =>
          assert (Hc : exists nn, snd (ConnectInputNode E x s0) = nn ++ s0)
      end.
      { match goal with
        | |- context [snd (ConnectInputNode E ?x ?s0)] =>
            assert (He : Emits (fun _ => True) (ConnectInputNode E x))
        end.
        { unfold ConnectInputNode. emits; exact I. }
        match goal with
        | |- context [snd (ConnectInputNode E ?x ?s0)] =>
            destruct (He s0) as (u3 & nn & Hrn & _)
        end.
        exists nn. now rewrite Hrn. }
      destruct Hc as (nn & ->).
      exists (nn ++ nd ++ nc ++ mid).
      split; [now rewrite <- !app_assoc|].
      cbn [In_InputNodeId set_CreatedDataNodeIds]. rewrite <- Hid.
      intros id0 Hin Hpos Hne. destruct (Hconn id0 Hin Hpos Hne) as (k & Hk).
      exists k. apply in_or_app. right. apply in_or_app. right.
      apply in_or_app. now left.
    + cbn. exists i1. split; [reflexivity|]. split; [reflexivity|].
      right. right. split; [discriminate|]. split; [reflexivity|].
      split; [reflexivity|]. exists pre. split; [reflexivity|assumption].
Qed.

Lemma UploadWrites_fields : forall i i',
  UploadWrites i i' ->
  Settings i' = Settings i /\ InputType i' = InputType i /\
  CreatedDataNodeIds i' = CreatedDataNodeIds i.
Proof. intros i i' ->. repeat split. Qed.

(** UploadInputData runs into the null pointer only on an Asset input
    whose outer is not an asset component. *)
Lemma UploadInputData_null_pointer : forall p s,
  fst (UploadInputData E p s) = None ->
  exists i, p = Some i /\ InputType i = EHoudiniInputType.Asset /\
            OuterHAC (Settings i) = None.
Proof.
  intros [i|] s; [|discriminate]. unfold UploadInputData.
  destruct (In_bPendingKill i); [discriminate|].
  destruct (InputObjects i (InputType i)) as [objs|]; [|discriminate].
  destruct (UploadInputData_objects_facts objs [] true i s)
    as (objs' & ids & b0 & i0 & n1 & Hrun & Hw & _).
  unfold bind at 1. rewrite Hrun.
  destruct (UploadWrites_fields _ _ Hw) as (Hset & HT & _).
  pose proof (UploadInputData_merge_value
                (set_InputObjects (InputType i) objs' i0) ids b0 (n1 ++ s))
    as Hval.
  cbv zeta in Hval. intros Hnone. rewrite Hnone in Hval.
  destruct Hval as (_ & HT1 & Ho & _). cbn in HT1, Ho.
  exists i. split; [reflexivity|]. split; congruence.
Qed.

(** C1 (amended).  Incremental re-upload.  On an input that is null,
    pending kill or without an object array, UploadInputData returns
    false, makes no call and changes nothing.  On any other input:
    - an upload call (a translator run on an object, or the creation of a
      reference node) is made only for an object that needs one: a
      surviving object of the array that is not an actor and is marked
      changed or has no valid node id; any component an actor that is
      marked changed or has no valid node id is uploaded with, whatever
      the component's own flags; or a surviving component, marked changed
      or without a valid node id, of an actor that is kept;
    - every surviving object that is marked changed or has no valid node
      id, and every such component of an actor that is kept, is handed to
      the translator of its kind when it is of the translator's class;
    - the function then returns, unless no node at all was collected and
      the input is an Asset input whose outer is not an asset component,
      where the source dereferences a null pointer; and when it returns,
      every surviving object that is not marked changed and has a valid
      node id is left as it is, and of an actor of that kind every such
      component, and their node ids are among the nodes recorded for the
      input's merge node and, but for the input's node itself, plugged
      into it, unless the last call made is the creation of the merge
      node and it failed: then the function returns false and the record
      is as it was. *)
Theorem UploadInputData_is_incremental :
  (forall (i : UHoudiniInput) (objs : list (option InputObject)) (s : Session),
   In_bPendingKill i = false ->
   InputObjects i (InputType i) = Some objs ->
   exists r new,
     UploadInputData E (Some i) s = (r, new ++ s) /\
     (forall call, In call new -> IsUpload call ->
        exists p x, In p objs /\ UploadNeededFor E p x /\ Uploads call x) /\
     (forall p k x, In p objs -> HandsOver E i p k x ->
        In (Translate k x) new) /\
     match r with
     | Some (b, r') =>
         exists i' objs', r' = Some i' /\
           InputObjects i' (InputType i) = Some objs' /\
           Forall2 ObjectLeftAsIs objs objs' /\
           (forall p id, In p objs -> KeptNodeOf p id ->
              (In id (CreatedDataNodeIds i') /\
               (id <> In_InputNodeId i' ->
                exists k,
                  In (ConnectNodeInput (In_InputNodeId i') k id 0) new)) \/
              (MergeNodeNotCreated E i s new /\ b = false /\
               CreatedDataNodeIds i' = CreatedDataNodeIds i))
     | None =>
         InputType i = EHoudiniInputType.Asset /\
         OuterHAC (Settings i) = None /\
         (forall p id, In p objs -> ~ KeptNodeOf p id)
     end) /\
  (forall p s,
     match p with
     | None => True
     | Some i =>
         In_bPendingKill i = true \/ InputObjects i (InputType i) = None
     end ->
     UploadInputData E p s = (Some (false, p), s)).
Proof.
  split; cycle 1.
  { intros [i|] s H; [|reflexivity]. unfold UploadInputData.
    destruct (In_bPendingKill i); [reflexivity|].
    destruct H as [H|H]; [discriminate|]. rewrite H. reflexivity. }
  intros i objs s Hpk Hobjs. unfold UploadInputData. rewrite Hpk, Hobjs.
  destruct (UploadInputData_objects_facts objs [] true i s)
    as (objs' & ids & b0 & i0 & n1 & Hrun & Hw & Hleft & _ & Hkept & Hup & Hif).
  unfold bind at 1. rewrite Hrun.
  destruct (UploadWrites_fields _ _ Hw) as (Hset & HT & Hcr).
  set (i1 := set_InputObjects (InputType i) objs' i0).
  destruct (UploadInputData_merge_emits i1 ids b0 (n1 ++ s))
    as (r & n2 & Hrun2 & Hn2).
  pose proof (UploadInputData_merge_value i1 ids b0 (n1 ++ s)) as Hval.
  cbv zeta in Hval. rewrite Hrun2 in Hval. cbn [fst snd] in Hval.
  exists r, (n2 ++ n1).
  split; [rewrite Hrun2, app_assoc; reflexivity|].
  split.
  { intros call Hin Hc. apply in_app_or in Hin. destruct Hin as [Hin|Hin].
    - exfalso. rewrite Forall_forall in Hn2. exact (Hn2 _ Hin Hc).
    - rewrite Forall_forall in Hup. exact (Hup _ Hin Hc). }
  split.
  { intros p k x Hin Hh. apply in_or_app. right. eapply Hif; eassumption. }
  destruct r as [[b r']|].
  - destruct Hval as (i' & -> & Hsame & Hids).
    exists i', objs'. split; [reflexivity|].
    split; [rewrite Hsame; apply InputObjects_set_same|].
    split; [assumption|].
    intros p id Hin Hk. specialize (Hkept p id Hin Hk).
    assert (Hpos : 0 <= id).
    { destruct Hk as (o & _ & _ & Hko & [[_ ->]|(_ & cs & c & _ & _ & _ & Hkc & ->)]).
      - unfold KeepsNode in Hko. apply andb_prop in Hko.
        destruct Hko as [_ Hko]. rewrite Z.geb_leb in Hko.
        now apply Z.leb_le in Hko.
      - unfold KeepsNode in Hkc. apply andb_prop in Hkc.
        destruct Hkc as [_ Hkc]. rewrite Z.geb_leb in Hkc.
        now apply Z.leb_le in Hkc. }
    destruct Hids as [(-> & _)|[(_ & Hrec & newm & Hs & Hconn)
                               |(_ & -> & -> & rest & Hs & Hres)]].
    + destruct Hkept.
    + left. rewrite Hrec. split; [exact Hkept|]. intros Hne.
      apply app_inv_tail in Hs. subst newm. destruct (Hconn id Hkept Hpos Hne) as (k & Hin').
      exists k. apply in_or_app. now left.
    + right. split; [|split; [reflexivity|exact Hcr]].
      change (Settings i1) with (Settings i0) in Hs, Hres.
      rewrite Hset in Hs, Hres.
      exists (rest ++ n1). split.
      * rewrite app_comm_cons. f_equal.
        apply (app_inv_tail (n1 ++ s)). rewrite Hs. reflexivity.
      * rewrite <- app_assoc. exact Hres.
  - destruct Hval as (-> & HT1 & Ho & _).
    change (InputType i1) with (InputType i0) in HT1.
    change (Settings i1) with (Settings i0) in Ho.
    rewrite HT in HT1. rewrite Hset in Ho.
    split; [assumption|]. split; [assumption|].
    intros p id Hin Hk. exact (Hkept p id Hin Hk).
Qed.

End UploadData.

Lemma UploadInputData_is_incremental_witness :
  let E := Scenarios.engine true in
  let i := Scenarios.input_with_kept_object in
  let objs := [Some Scenarios.kept_object; Some Scenarios.changed_object] in
  exists r new,
    UploadInputData E (Some i) [] = (r, new ++ []) /\
    (forall call, In call new -> IsUpload call ->
       exists p x, In p objs /\ UploadNeededFor E p x /\ Uploads call x) /\
    (forall p k x, In p objs -> HandsOver E i p k x ->
       In (Translate k x) new) /\
    match r with
    | Some (b, r') =>
        exists i' objs', r' = Some i' /\
          InputObjects i' (InputType i) = Some objs' /\
          Forall2 ObjectLeftAsIs objs objs' /\
          (forall p id, In p objs -> KeptNodeOf p id ->
             (In id (CreatedDataNodeIds i') /\
              (id <> In_InputNodeId i' ->
               exists k,
                 In (ConnectNodeInput (In_InputNodeId i') k id 0) new)) \/
             (MergeNodeNotCreated E i [] new /\ b = false /\
              CreatedDataNodeIds i' = CreatedDataNodeIds i))
    | None =>
        InputType i = EHoudiniInputType.Asset /\
        OuterHAC (Settings i) = None /\
        (forall p id, In p objs -> ~ KeptNodeOf p id)
    end.
Proof.
  apply (proj1 (UploadInputData_is_incremental (Scenarios.engine true))
           Scenarios.input_with_kept_object
           [Some Scenarios.kept_object; Some Scenarios.changed_object] []);
    reflexivity.
Defined.

(** C1 as stated fails: the rule is not applied per component when the
    actor itself is marked changed.  The component below is not marked
    changed and has the valid node id 9, yet it is handed to its
    translator again, because HapiCreateInputNodeForActor uploads every
    component of the actor it is called on. *)
Lemma UploadInputData_uploads_kept_component_of_changed_actor :
  let E := Observed.engine_where (fun _ => false) in
  let i := Observed.input_with_changed_actor in
  let c := Observed.kept_component in
  InputObjects i (InputType i) = Some [Some Observed.changed_actor] /\
  AsActor Observed.changed_actor = Some [Some c] /\
  bPendingKill c = false /\
  bHasChanged c = false /\
  0 <= InputObjectNodeId c /\
  In (Translate ForStaticMeshComponent (OfComponent c))
    (snd (UploadInputData E (Some i) [])).
Proof.
  cbn. repeat split; try reflexivity; try discriminate.
  right. right. right. now left.
Qed.

(** ** UploadChangedInputs *)

Section ChangedInputs.

Variable E : Engine.

(** The functions that take an input off its asset leave its settings
    alone. *)
Lemma DisconnectInput_settings : forall p T s,
  option_map Settings (snd (fst (DisconnectInput E p T s)))
  = option_map Settings p.
Proof.
  intros [i|] T s; [|reflexivity]. unfold DisconnectInput.
  destruct (In_bPendingKill i); [reflexivity|].
  rewrite bind_run.
  destruct (EHoudiniInputType.eqb T EHoudiniInputType.Asset);
    [rewrite bind_run|]; reflexivity.
Qed.

Lemma DestroyInputNodes_settings : forall p T s,
  option_map Settings (snd (fst (DestroyInputNodes E p T s)))
  = option_map Settings p.
Proof.
  intros [i|] T s; [|reflexivity]. unfold DestroyInputNodes.
  destruct (In_bPendingKill i); [reflexivity|].
  destruct (negb (bCanDeleteHoudiniNodes (Settings i))); [reflexivity|].
  destruct (EHoudiniInputType.eqb T EHoudiniInputType.Asset); [reflexivity|].
  rewrite bind_run.
  match goal with
  | |- context [fst (?m s)] =>
      assert (H1 : Settings (fst (fst (m s))) = Settings i);
      [|destruct (m s) as [[i1 Ids] s1]]
  end.
  { destruct (InputObjects i T); [|reflexivity].
    rewrite bind_run.
    match goal with
    | |- context [fst (?m s)] => destruct (fst (m s)) as [objs Ids]
    end. reflexivity. }
  cbn [fst snd] in *. rewrite bind_run, bind_run.
  cbn [fst snd ret option_map].
  match goal with
  | |- context [fst (?m ?s2)] =>
      assert (H2 : Settings (fst (m s2)) = Settings i1);
      [|rewrite H2, H1; reflexivity]
  end.
  unfold bind, call, call_int, ret. cbn.
  destruct (In_InputNodeId i1 >=? 0); cbn;
    [destruct (hapi_result E _ (IsHoudiniNodeValid _))|]; reflexivity.
Qed.

Lemma DisconnectAndDestroyInput_settings : forall i T s,
  Settings (orSame i (snd (fst (DisconnectAndDestroyInput E (Some i) T s))))
  = Settings i.
Proof.
  intros i T s. unfold DisconnectAndDestroyInput. rewrite bind_run.
  pose proof (DisconnectInput_settings (Some i) T s) as H1.
  destruct (DisconnectInput E (Some i) T s) as [[b1 r1] s1].
  cbn [fst snd] in *. rewrite bind_run.
  pose proof (DestroyInputNodes_settings r1 T s1) as H2.
  destruct (DestroyInputNodes E r1 T s1) as [[b2 r2] s2].
  cbn [fst snd ret] in *. rewrite H1 in H2.
  destruct r2 as [i2|]; [|reflexivity]. cbn in *. congruence.
Qed.

Lemma MarkAllInputObjectsChanged_settings : forall b i,
  Settings (MarkAllInputObjectsChanged b i) = Settings i.
Proof.
  intros b i. unfold MarkAllInputObjectsChanged.
  destruct (InputObjects _ _); reflexivity.
Qed.

Lemma ChangeInputType_settings : forall i bForce s,
  Settings (orSame i (snd (fst (ChangeInputType E (Some i) bForce s))))
  = Settings i.
Proof.
  intros i bForce s. unfold ChangeInputType.
  destruct (In_bPendingKill i); [reflexivity|].
  destruct (_ && _); [reflexivity|].
  rewrite bind_run.
  pose proof (DisconnectAndDestroyInput_settings i (PreviousType i) s) as H.
  destruct (DisconnectAndDestroyInput E (Some i) (PreviousType i) s)
    as [[b r] s1].
  cbn [fst snd ret] in *. destruct r as [i1|]; [|reflexivity]. cbn in *.
  rewrite MarkAllInputObjectsChanged_settings. exact H.
Qed.

(** An input that is null, pending kill or not marked changed is skipped:
    it is left as it is and no call is made. *)
Lemma UploadChangedInputs_input_skips : forall p s,
  match p with
  | None => True
  | Some i => In_bPendingKill i = true \/ In_bHasChanged i = false
  end ->
  UploadChangedInputs_input E p s = (Some p, s).
Proof.
  intros [i|] s H; [|reflexivity]. cbn.
  destruct H as [-> | ->]; [reflexivity|].
  rewrite orb_true_r. reflexivity.
Qed.

(** After a changed input is processed its trigger flag is cleared,
    whether or not a step failed; the processing only fails to return
    where UploadInputData runs into its null pointer, on an input whose
    outer is not an asset component. *)
Lemma UploadChangedInputs_input_clears_trigger : forall i s,
  In_bPendingKill i = false -> In_bHasChanged i = true ->
  match fst (UploadChangedInputs_input E (Some i) s) with
  | Some r => exists i', r = Some i' /\ In_bNeedsToTriggerUpdate i' = false
  | None => OuterHAC (Settings i) = None
  end.
Proof.
  intros i s Hpk Hch. unfold UploadChangedInputs_input.
  rewrite Hpk, Hch. cbn [orb negb].
  rewrite bind_run.
  match goal with
  | |- context [fst (?m s)] =>
      assert (H1 : Settings (fst (m s)) = Settings i);
      [|destruct (m s) as [i1 s1]]
  end.
  { destruct (HasInputTypeChanged E i); [|reflexivity].
    rewrite bind_run.
    pose proof (ChangeInputType_settings i false s) as H.
    destruct (ChangeInputType E (Some i) false s) as [[b r] s1]. exact H. }
  cbn [fst snd] in *. rewrite bind_run.
  match goal with
  | |- context [fst (?m s1)] =>
      assert (H2 : Settings (fst (m s1)) = Settings i1);
      [|destruct (m s1) as [i2 s2]]
  end.
  { destruct (_ && _); [|reflexivity].
    rewrite bind_run.
    pose proof (DisconnectAndDestroyInput_settings i1 (InputType i1) s1) as H.
    destruct (DisconnectAndDestroyInput E (Some i1) (InputType i1) s1)
      as [[b r] s2].
    cbn [fst snd ret] in *.
    change (Settings (SetHasLandscapeExportTypeChanged false ?x))
      with (Settings x).
    rewrite MarkAllInputObjectsChanged_settings. exact H. }
  cbn [fst snd] in *. rewrite bind_run.
  match goal with
  | |- context [fst (?m s2)] =>
      assert (H3 : fst (m s2) = None -> OuterHAC (Settings i2) = None);
      [|destruct (m s2) as [[[b3 i3]|] s3]]
  end.
  { destruct (IsDataUploadNeeded E i2); [|discriminate].
    rewrite bind_run.
    pose proof (UploadInputData_null_pointer E (Some i2) s2) as H.
    destruct (UploadInputData E (Some i2) s2) as [[[ok r]|] s3];
      [discriminate|].
    intros _. destruct (H eq_refl) as (i' & [= <-] & _ & Ho). exact Ho. }
  - cbn [fst snd].
    repeat (rewrite bind_run;
            repeat match goal with
                   | |- context [let '(_, _) := ?p in _] => destruct p
                   end;
            cbn [fst snd ret]).
    eexists. split; reflexivity.
  - cbn [fst snd ret]. rewrite <- H1, <- H2. now apply H3.
Qed.

End ChangedInputs.

(** C6, at an input the code can receive.  The component below has one
    changed geometry input with one changed object; the translator of the
    object fails, while the calls that UpdateInputProperties makes
    succeed.  UploadInputData, the upload step, returns false on this
    input.  UploadChangedInputs then
    nevertheless clears the changed flag of the input and of its object,
    which still has no node: the result of UpdateInputProperties has
    replaced the accumulated bSuccess. *)
Lemma UploadChangedInputs_clears_flags_after_failed_upload :
  let E := Scenarios.engine false in
  let i := Scenarios.input_to_upload in
  option_map fst (fst (UploadInputData E (Some i) [])) = Some false /\
  exists i' o',
    fst (UploadChangedInputs E (Some (Scenarios.component_of [Some i])) [])
    = Some (true, Some (Scenarios.component_of [Some i'])) /\
    InputObjects i' EHoudiniInputType.Geometry = Some [Some o'] /\
    In_bHasChanged i = true /\ In_bHasChanged i' = false /\
    bHasChanged Scenarios.changed_object = true /\ bHasChanged o' = false /\
    InputObjectNodeId o' = -1.
Proof.
  split; [reflexivity|].
  eexists _, _. split; [vm_compute; reflexivity|].
  repeat split; reflexivity.
Qed.

(** ** BuildAllInputs *)

Lemma int32_small : forall z, - 2^31 <= z < 2^31 -> int32 z = z.
Proof.
  intros z H. unfold int32. rewrite Z.mod_small; lia.
Qed.

Section BuildInputs.

Variable E : Engine.

(** The host-side updates of an input leave its binding alone. *)
Hypothesis SetInputType_binding : forall t i,
  KeepsBinding i (SetInputType E t i).
Hypothesis PresetDefaultObjects_binding : forall s i v,
  KeepsBinding i (PresetDefaultObjects E s i v).
Hypothesis UpdateHoudiniInputCurves_binding : forall s i,
  KeepsBinding i (UpdateHoudiniInputCurves E s i).

Lemma InputParameterPositions_length : forall Params pos,
  Z.of_nat (Datatypes.length (InputParameterPositions pos Params))
  = CountInputParameters Params.
Proof.
  unfold CountInputParameters.
  induction Params as [|p ps IH]; intros pos; cbn; [reflexivity|].
  destruct (ParameterType p); cbn [Datatypes.length]; [|apply IH].
  rewrite !Nat2Z.inj_succ, IH. reflexivity.
Qed.

Lemma KeepsBinding_refl : forall i, KeepsBinding i i.
Proof. intros i. repeat split. Qed.

Lemma KeepsBinding_trans : forall i1 i2 i3,
  KeepsBinding i1 i2 -> KeepsBinding i2 i3 -> KeepsBinding i1 i3.
Proof.
  intros i1 i2 i3 (a1 & a2 & a3 & a4) (b1 & b2 & b3 & b4).
  repeat split; congruence.
Qed.

Lemma SetDefaultAssetFromHDA_binding : forall i s,
  KeepsBinding i (orSame i (snd (fst (SetDefaultAssetFromHDA E (Some i) s)))).
Proof.
  intros i s. unfold SetDefaultAssetFromHDA, bind, call_int, ret.
  split_run; cbn; first [apply KeepsBinding_refl
                        | apply PresetDefaultObjects_binding].
Qed.

(** The body of the loop: a null or pending-kill element is left alone, a
    live input comes out live and marked for its index. *)
Lemma BuildAllInputs_input_value : forall AssetId geo k p Params s,
  match p, fst (fst (BuildAllInputs_input E AssetId geo k p Params s)) with
  | None, p' => p' = None
  | Some i, p' =>
      if In_bPendingKill i then p' = Some i
      else exists i', p' = Some i' /\ In_bPendingKill i' = false /\
                      MarkedFor geo k i'
  end.
Proof.
  intros AssetId geo k [i|] Params s; [|reflexivity].
  unfold BuildAllInputs_input.
  destruct (In_bPendingKill i) eqn:Hpk; [reflexivity|].
  rewrite bind_run.
  match goal with
  | |- context [fst (?m s)] => destruct (m s) as [[[i2 names] ps] s1] eqn:Hm
  end.
  destruct names as [[nm lb] hp].
  assert (Hi2 : In_bPendingKill i2 = false /\ MarkedFor geo k i2).
  { unfold MarkedFor. revert Hm. unfold bind, ret.
    destruct (k >=? geo) eqn:Hk; cbn [negb].
    - assert (Hlt : (k <? geo) = false)
        by (apply Z.ltb_ge; rewrite Z.geb_leb in Hk; now apply Z.leb_le).
      rewrite Hlt. split_run; intros [= <- <- <- <- <- <-]; cbn; auto.
    - assert (Hlt : (k <? geo) = true)
        by (apply Z.ltb_lt; rewrite Z.geb_leb in Hk; now apply Z.leb_gt).
      rewrite Hlt. intros [= <- <- <- <- <- <-]. cbn. auto. }
  destruct Hi2 as [Hpk2 Hmark]. cbn [fst snd].
  set (i4 := SetHelp _ (SetLabel _ (SetName _ i2))).
  assert (H4 : KeepsBinding i2 i4) by (repeat split).
  rewrite bind_run.
  match goal with
  | |- context [fst (?m s1)] =>
      assert (H5 : KeepsBinding i4 (fst (m s1)));
      [|destruct (m s1) as [i5 s2]]
  end.
  { destruct (InputType i4); try apply KeepsBinding_refl.
    rewrite bind_run.
    match goal with
    | |- context [SetDefaultAssetFromHDA E (Some ?x) s1] =>
        pose proof (SetDefaultAssetFromHDA_binding x s1) as Hb;
        destruct (SetDefaultAssetFromHDA E (Some x) s1) as [[b r] s']
    end.
    cbn [fst snd ret] in *.
    eapply KeepsBinding_trans; [apply SetInputType_binding|exact Hb]. }
  cbn [fst snd] in *. rewrite bind_run.
  match goal with
  | |- context [fst (?m s2)] =>
      assert (H6 : KeepsBinding i5 (fst (m s2)));
      [|destruct (m s2) as [i6 s3]]
  end.
  { destruct (InputType i5); try apply KeepsBinding_refl.
    apply UpdateHoudiniInputCurves_binding. }
  cbn [fst snd ret] in *. exists i6. split; [reflexivity|].
  assert (H : KeepsBinding i2 i6)
    by (eapply KeepsBinding_trans; [exact H4|];
        eapply KeepsBinding_trans; eassumption).
  destruct H as (h1 & h2 & h3 & h4). split; [congruence|].
  unfold MarkedFor in *. destruct (k <? geo); [|congruence].
  destruct Hmark as (m1 & m2 & m3). repeat split; congruence.
Qed.

Lemma BuildAllInputs_input_built : forall AssetId geo k p Params s,
  Built geo k p (fst (fst (BuildAllInputs_input E AssetId geo k p Params s))).
Proof.
  intros AssetId geo k p Params s.
  pose proof (BuildAllInputs_input_value AssetId geo k p Params s) as Hp.
  destruct p as [i|]; exact Hp.
Qed.

(** The loop keeps the length of the array and builds each element for
    its index. *)
Lemma BuildAllInputs_loop_built : forall AssetId geo Inputs0 k Params s,
  Datatypes.length
    (fst (fst (BuildAllInputs_loop E AssetId geo k Inputs0 Params s)))
  = Datatypes.length Inputs0 /\
  forall j p,
    nth_error Inputs0 j = Some p ->
    exists p',
      nth_error (fst (fst (BuildAllInputs_loop E AssetId geo k Inputs0 Params s))) j
      = Some p' /\
      Built geo (k + Z.of_nat j) p p'.
Proof.
  intros AssetId geo. induction Inputs0 as [|p rest IH]; intros k Params s.
  - cbn. split; [reflexivity|]. intros [|j] p H; discriminate H.
  - cbn [BuildAllInputs_loop]. rewrite bind_run.
    pose proof (BuildAllInputs_input_built AssetId geo k p Params s) as Hp.
    destruct (BuildAllInputs_input E AssetId geo k p Params s)
      as [[p' Params1] s1].
    cbn [fst snd] in *. rewrite bind_run.
    specialize (IH (k + 1) Params1 s1).
    destruct (BuildAllInputs_loop E AssetId geo (k + 1) rest Params1 s1)
      as [[rest' Params2] s2].
    cbn [fst snd ret Datatypes.length] in *. destruct IH as [IHlen IHbuilt].
    split; [now rewrite IHlen|].
    intros [|j] q Hnth; cbn [nth_error] in *.
    + injection Hnth as <-. rewrite Z.add_0_r. now exists p'.
    + replace (k + Z.of_nat (S j)) with (k + 1 + Z.of_nat j) by lia.
      now apply IHbuilt.
Qed.

(** The loop that appends: the array grows by the live ones among the new
    objects, in order. *)
Lemma AppendNewInputs_value : forall count idx Inputs0 s,
  fst (AppendNewInputs E count idx Inputs0 s)
  = Inputs0 ++ filter IsValidInput (NewInputs E s idx count).
Proof.
  induction count as [|count IH]; intros idx Inputs0 s;
    cbn [AppendNewInputs NewInputs filter].
  - cbn. now rewrite app_nil_r.
  - rewrite bind_run. cbn [fst snd].
    destruct (IsValidInput (new_input E s (InputObjectName idx))).
    + rewrite IH, <- app_assoc. reflexivity.
    + apply IH.
Qed.

(** The calls of the loop that appends: one NewObject for each missing
    index, and nothing else. *)
Lemma AppendNewInputs_run : forall count idx Inputs0,
  Run (AppendNewInputs E count idx Inputs0)
    (fun _ new =>
       forall c, In c new <->
                 exists k, idx <= k < idx + Z.of_nat count /\
                           c = NewObject (InputObjectName k)).
Proof.
  induction count as [|count IH]; intros idx Inputs0; cbn [AppendNewInputs].
  - apply Run_ret. intros c. split; [intros []|]. intros (k & Hk & _). lia.
  - eapply Run_bind with
      (Q1 := fun _ new => new = [NewObject (InputObjectName idx)]).
    + intros s. eexists _, [_]. split; reflexivity.
    + intros a n1 ->.
      assert (Hboth : forall Inputs1,
        Run (AppendNewInputs E count (idx + 1) Inputs1)
          (fun _ n2 =>
             forall c, In c (n2 ++ [NewObject (InputObjectName idx)]) <->
                       exists k, idx <= k < idx + Z.of_nat (S count) /\
                                 c = NewObject (InputObjectName k))).
      { intros Inputs1. eapply Run_weaken; [apply IH|]. intros r n2 Hnew c.
        split.
        - intros H. apply in_app_or in H.
          destruct H as [H|[<-|[]]].
          + apply Hnew in H. destruct H as (k & Hk & ->).
            exists k. split; [lia|reflexivity].
          + exists idx. split; [lia|reflexivity].
        - intros (k & Hk & ->). apply in_or_app.
          destruct (Z.eq_dec k idx) as [->|Hne]; [right; now left|].
          left. apply Hnew. exists k. split; [lia|reflexivity]. }
      destruct (IsValidInput a); apply Hboth.
Qed.

(** Objects are created by the loop that appends, and nowhere else. *)
Lemma DisconnectAndDestroyInput_creates_no_object : forall p T,
  Emits NotNewObject (DisconnectAndDestroyInput E p T).
Proof.
  intros p T.
  unfold DisconnectAndDestroyInput, DisconnectInput, DestroyInputNodes,
    DestroyInputNodes_assets.
  repeat first [ progress unfold DestroyInputNodes_object
               | emits_step ]; intros name; discriminate.
Qed.

(** Every computation of the translator only adds calls. *)
Lemma DisconnectAndDestroyInput_extends : forall p T,
  Emits (fun _ => True) (DisconnectAndDestroyInput E p T).
Proof.
  intros p T. eapply Emits_weaken;
    [|apply DisconnectAndDestroyInput_creates_no_object].
  intros; exact I.
Qed.

Lemma forEach__runs_each : forall A (body : A -> M unit) l a s,
  (forall a, Emits (fun _ => True) (body a)) ->
  In a l -> RunsDuring (body a) s (snd (forEach_ body l s)).
Proof.
  intros A body l a s Hext. revert s.
  induction l as [|x l IH]; intros s Hin; [contradiction|].
  cbn [forEach_]. rewrite bind_run. destruct Hin as [->|Hin].
  - destruct (Emits_forEach_ _ _ body Hext l (snd (body a s)))
      as (u & after & Hrun & _).
    exists [], after. rewrite Hrun. reflexivity.
  - destruct (Hext x s) as (u & n & Hrun & _).
    destruct (IH (snd (body x s)) Hin) as (before & after & Heq).
    exists (before ++ n), after. rewrite Heq, Hrun. cbn [snd].
    now rewrite app_assoc.
Qed.

Lemma DestroySurplusInputs_runs : forall surplus i s,
  In (Some i) surplus -> In_bPendingKill i = false ->
  RunsDuring (DisconnectAndDestroyInput E (Some i) (InputType i)) s
    (snd (DestroySurplusInputs E surplus s)).
Proof.
  intros surplus i s Hin Hpk. unfold DestroySurplusInputs.
  match goal with
  | |- context [forEach_ ?body _ _] =>
      destruct (forEach__runs_each _ body (rev surplus) (Some i) s)
        as (before & after & Heq)
  end.
  - intros [j|]; [|apply Emits_ret].
    destruct (In_bPendingKill j); [apply Emits_ret|].
    apply Emits_bind; [apply DisconnectAndDestroyInput_extends|].
    intros; apply Emits_ret.
  - now apply in_rev in Hin.
  - exists before, after. rewrite Heq. cbn beta iota. rewrite Hpk.
    rewrite bind_run. reflexivity.
Qed.

Lemma DestroySurplusInputs_creates_no_object : forall surplus,
  Emits NotNewObject (DestroySurplusInputs E surplus).
Proof.
  intros surplus. unfold DestroySurplusInputs. apply Emits_forEach_.
  intros [j|]; [|apply Emits_ret].
  destruct (In_bPendingKill j); [apply Emits_ret|].
  apply Emits_bind; [apply DisconnectAndDestroyInput_creates_no_object|].
  intros; apply Emits_ret.
Qed.

Lemma BuildAllInputs_loop_creates_no_object :
  forall AssetId geo Inputs0 k Params,
  Emits NotNewObject (BuildAllInputs_loop E AssetId geo k Inputs0 Params).
Proof.
  intros AssetId geo. induction Inputs0 as [|p rest IH]; intros k Params;
    cbn [BuildAllInputs_loop]; [apply Emits_ret|].
  apply Emits_bind.
  - unfold BuildAllInputs_input, SetDefaultAssetFromHDA.
    emits; intros name; discriminate.
  - intros [p' Params1]. apply Emits_bind; [apply IH|].
    intros [rest' Params2]. apply Emits_ret.
Qed.

Lemma NewInputs_length : forall count s idx,
  Datatypes.length (NewInputs E s idx count) = count.
Proof.
  induction count as [|count IH]; intros s idx; cbn; [reflexivity|].
  now rewrite IH.
Qed.

Lemma filter_keeps_length : forall A (f : A -> bool) (l : list A),
  Datatypes.length (filter f l) = Datatypes.length l <->
  Forall (fun a => f a = true) l.
Proof.
  intros A f. induction l as [|a l IH]; cbn [filter Datatypes.length].
  - split; [constructor|reflexivity].
  - pose proof (filter_length_le f l) as Hle.
    destruct (f a) eqn:Ha; cbn [Datatypes.length].
    + split.
      * intros [= H]. constructor; [exact Ha|now apply IH].
      * intros H. inversion H; subst. f_equal. now apply IH.
    + split; [lia|]. intros H. inversion H; congruence.
Qed.

Lemma RunsDuring_later : forall A (m : M A) s s1 more,
  RunsDuring m s s1 -> RunsDuring m s (more ++ s1).
Proof.
  intros A m s s1 more (before & after & ->).
  exists before, (more ++ after). now rewrite app_assoc.
Qed.


End BuildInputs.



(** Inputs are named from 1: the input of index 0 is Input1. *)
Example InputObjectName_from_one :
  InputObjectName 0 = "Input1"%string /\ InputObjectName 9 = "Input10"%string.
Proof. split; reflexivity. Qed.

(** With the engine of the scenarios, an asset with seven SOP inputs and
    no input yet gets seven inputs. *)
Example BuildAllInputs_seven_inputs :
  option_map (fun r => Datatypes.length (snd (fst r)))
    (fst (BuildAllInputs (Scenarios.engine true) 1 [] [] []))
  = Some 7%nat.
Proof. vm_compute. reflexivity. Qed.

(** ** UpdateWorldInputs and the move tracker *)

(** The tracker says an object is moving exactly from OnBeginObjectMovement
    to the next delegate of any of the four kinds. *)
Lemma FHoudiniMoveTracker_moving : forall d t,
  IsObjectMoving (FHoudiniMoveTracker_on d t) = true <->
  d = OnBeginObjectMovement.
Proof. intros [] t; cbn; split; congruence. Qed.

(** The gate of UpdateWorldInputs: for a live component, it returns false
    and leaves the component as it is when the owner's world is missing or
    not the editor world, and when the tracker says that an object is
    moving. *)
Lemma UpdateWorldInputs_gate : forall E h g,
  HAC_bPendingKill h = false ->
  (exists owner, Owner h = Some owner /\
                 World owner <> Some EWorldType.Editor) \/
  ((forall owner, Owner h = Some owner ->
                  World owner = Some EWorldType.Editor) /\
   exists t, g = Some t /\ IsObjectMoving t = true) ->
  fst (UpdateWorldInputs E (Some h) g) = (false, Some h).
Proof.
  intros E h g Hpk H. unfold UpdateWorldInputs. rewrite Hpk.
  destruct H as [(owner & Ho & Hw)|(Hed & t & -> & Hmov)].
  - rewrite Ho. destruct (World owner) as [[]|]; try reflexivity.
    contradiction.
  - destruct (Owner h) as [owner|] eqn:Ho.
    + rewrite (Hed owner eq_refl). cbn. rewrite Hmov. reflexivity.
    + cbn. rewrite Hmov. reflexivity.
Qed.

(** The tracker is a function-local static: a movement that began before
    the first call of UpdateWorldInputs is not seen by that call. *)
Example UpdateWorldInputs_first_call_sees_no_movement :
  fst (fst (UpdateWorldInputs (Scenarios.engine true)
              (Some (Scenarios.component_of []))
              (Broadcast OnBeginObjectMovement None)))
  = true.
Proof. reflexivity. Qed.

End InputTranslatorSpec.

(* ===================================================================== *)
(** * More properties of the input translator                             *)
(* ===================================================================== *)

Module InputTranslatorMore.
Import HoudiniInput Api InputTranslator Described Scenarios InputTranslatorSpec Observed.
Local Open Scope api_scope.

Section Properties.

Variable E : Engine.


Lemma SetParmOnObjectMerges_emits : forall (P : ApiCall -> Prop) Parent parm value N b,
  (forall n, P (QueryNodeInput Parent n)) ->
  (forall node, P (SetParmIntValue node parm 0 value)) ->
  Emits P (SetParmOnObjectMerges E Parent parm value N b).
Proof.
  intros P Parent parm value N b Hq Hs. unfold SetParmOnObjectMerges.
  emits; auto.
Qed.

Lemma UpdateTransformOffset_loop_emits : forall (P : ApiCall -> Prop) objs,
  (forall o : InputObject, In (Some o) objs -> bPendingKill o = false ->
     EqualsIdentity E (Transform o) = false ->
     P (SetObjectTransform (InputObjectNodeId o) (Transform o))) ->
  Emits P (UpdateTransformOffset_loop E objs).
Proof.
  intros P. induction objs as [|[o|] objs IH]; intros H; cbn [UpdateTransformOffset_loop].
  - apply Emits_ret.
  - destruct (bPendingKill o) eqn:Hpk; [apply IH; intros; apply H; auto; now right|].
    destruct (EqualsIdentity E (Transform o)) eqn:Hid; cbn [negb];
      [apply IH; intros; apply H; auto; now right|].
    apply Emits_bind.
    + apply Emits_call. apply H; auto. now left.
    + intros []; [apply IH; intros; apply H; auto; now right|apply Emits_ret].
  - apply IH. intros; apply H; auto. now right.
Qed.

Lemma UpdateInputProperties_by_cases : forall p,
  match p with
  | Some i =>
      if In_bPendingKill i
      then forall s, UpdateInputProperties E p s = (false, s)
      else Emits (IsPropertyCallOf E i) (UpdateInputProperties E p)
  | None => forall s, UpdateInputProperties E p s = (false, s)
  end.
Proof.
  intros [i|]; [|reflexivity].
  destruct (In_bPendingKill i) eqn:Hpk.
  { intros s. unfold UpdateInputProperties, UpdateTransformType,
      UpdatePackBeforeMerge, UpdateTransformOffset, bind, ret.
    rewrite Hpk. reflexivity. }
  unfold UpdateInputProperties.
  apply Emits_bind; [|intros b1; apply Emits_bind;
                       [|intros b2; apply Emits_bind;
                         [|intros; apply Emits_ret]]].
  - unfold UpdateTransformType. rewrite Hpk.
    assert (Hv : (if EHoudiniInputType.eqb (InputType i) EHoudiniInputType.Geometry
                  then 0 else if bKeepWorldTransform (Settings i) then 1 else 0)
                 = TransformTypeOf i).
    { unfold TransformTypeOf. destruct (InputType i); reflexivity. }
    rewrite Hv.
    apply Emits_bind.
    + destruct (bIsObjectPathParameter i) eqn:Hop.
      * apply Emits_bind; [apply Emits_call|intros; apply Emits_ret].
        cbn. auto.
      * apply Emits_bind; [apply Emits_call_int; cbn; auto|].
        intros [[] id]; [apply Emits_call; cbn; auto|apply Emits_ret].
    + intros b.
      destruct (In_InputNodeId i >=? 0) eqn:Hn; cbn [andb]; [|apply Emits_ret].
      destruct (EHoudiniInputType.eqb (InputType i) EHoudiniInputType.Geometry) eqn:Hg;
        cbn [negb andb]; [apply Emits_ret|].
      destruct (EHoudiniInputType.eqb (InputType i) EHoudiniInputType.Asset) eqn:Ha;
        cbn [negb andb]; [apply Emits_ret|].
      apply SetParmOnObjectMerges_emits.
      * intros n. cbn. right. split; [reflexivity|]. split; [lia|].
        intros Heq. rewrite Heq in Ha. discriminate.
      * intros node. cbn. auto.
  - unfold UpdatePackBeforeMerge. rewrite Hpk.
    destruct (negb (EHoudiniInputType.eqb (InputType i) EHoudiniInputType.World)
              && negb (EHoudiniInputType.eqb (InputType i) EHoudiniInputType.Geometry)) eqn:Hty;
      [apply Emits_ret|].
    destruct (In_InputNodeId i >=? 0) eqn:Hn; [|apply Emits_ret].
    assert (HT : InputType i = EHoudiniInputType.World \/
                 InputType i = EHoudiniInputType.Geometry)
      by (destruct (InputType i); cbn in Hty; try discriminate; auto).
    apply SetParmOnObjectMerges_emits.
    + intros n. cbn. right. split; [reflexivity|]. split; [lia|].
      destruct HT as [-> | ->]; discriminate.
    + intros node. cbn. auto.
  - unfold UpdateTransformOffset. rewrite Hpk.
    destruct (EHoudiniInputType.eqb (InputType i) EHoudiniInputType.Geometry) eqn:Hg;
      cbn [negb]; [|apply Emits_ret].
    apply EHoudiniInputType_eqb_eq in Hg.
    destruct (InputObjects i (InputType i)) as [objs|] eqn:Hobjs; [|apply Emits_ret].
    apply UpdateTransformOffset_loop_emits.
    intros o Hin Hlive Hid. cbn. split; [assumption|].
    exists objs, o. rewrite <- Hg. repeat split; assumption.
Qed.

(** X1.  UpdateInputProperties returns false without a call on an input
    that is null or pending kill.  On any other input its calls are
    confined to the properties of that input: it queries the input of the
    asset node the input is bound to, or the inputs of the input's own
    merge node; it sets the parameter xformtype to the value of the keep
    world transform setting (0 on a geometry input) and, on a world or
    geometry input, the parameter pack to the pack before merge setting;
    and on a geometry input it sets the transform of the surviving
    objects whose transform is not the identity.  It creates, deletes and
    connects nothing. *)
Theorem UpdateInputProperties_only_sets_properties :
  (forall s, UpdateInputProperties E None s = (false, s)) /\
  (forall i s, In_bPendingKill i = true ->
               UpdateInputProperties E (Some i) s = (false, s)) /\
  (forall i, In_bPendingKill i = false ->
             Emits (IsPropertyCallOf E i) (UpdateInputProperties E (Some i))).
Proof.
  split; [exact (UpdateInputProperties_by_cases None)|].
  split; intros i.
  - intros s Hpk. pose proof (UpdateInputProperties_by_cases (Some i)) as H.
    cbn beta iota in H. rewrite Hpk in H. apply H.
  - intros Hpk. pose proof (UpdateInputProperties_by_cases (Some i)) as H.
    cbn beta iota in H. rewrite Hpk in H. exact H.
Qed.

(** ** UpdateTransformOffset *)

Lemma UpdateTransformOffset_loop_prefix : forall objs s,
  exists done rest,
    snd (UpdateTransformOffset_loop E objs s) = rev done ++ s /\
    OffsetCalls E objs = done ++ rest /\
    if fst (UpdateTransformOffset_loop E objs s) then rest = []
    else exists pre c, done = pre ++ [c] /\ FailsAfter E s (rev pre) c.
Proof.
  induction objs as [|[o|] objs IH]; intros s;
    cbn [UpdateTransformOffset_loop OffsetCalls flat_map].
  - exists [], []. cbn. auto.
  - fold (OffsetCalls E objs).
    destruct (bPendingKill o); cbn [negb andb app]; [apply IH|].
    destruct (EqualsIdentity E (Transform o)); cbn [negb app]; [apply IH|].
    set (c := SetObjectTransform (InputObjectNodeId o) (Transform o)).
    unfold bind, call. destruct (hapi_result E s c) eqn:Hc.
    + destruct (IH (c :: s)) as (done & rest & Hs & Hd & Hr).
      exists (c :: done), rest. rewrite Hs. cbn [rev].
      split; [now rewrite <- app_assoc|]. split; [now rewrite Hd|].
      destruct (fst (UpdateTransformOffset_loop E objs (c :: s)));
        [assumption|].
      destruct Hr as (pre & c' & -> & Hf). exists (c :: pre), c'.
      split; [reflexivity|]. unfold FailsAfter in *. cbn [rev].
      now rewrite <- app_assoc.
    + exists [c], (OffsetCalls E objs). cbn. split; [reflexivity|].
      split; [reflexivity|]. exists [], c. split; [reflexivity|exact Hc].
  - apply IH.
Qed.

(** X2.  UpdateTransformOffset does nothing and returns true on an input
    that is not a geometry input.  On a geometry input it uploads, in the
    order of the array, the transform of each surviving object whose
    transform is not the identity, and stops at the first upload that
    fails: the calls made are a prefix of the uploads to make, all of them
    when it returns true, and up to a failed one when it returns false. *)
Theorem UpdateTransformOffset_stops_at_first_failure :
  forall (i : UHoudiniInput) (s : Session),
  In_bPendingKill i = false ->
  (InputType i <> EHoudiniInputType.Geometry ->
   UpdateTransformOffset E (Some i) s = (true, s)) /\
  (forall objs,
     InputType i = EHoudiniInputType.Geometry ->
     InputObjects i EHoudiniInputType.Geometry = Some objs ->
     exists b done rest,
       UpdateTransformOffset E (Some i) s = (b, rev done ++ s) /\
       OffsetCalls E objs = done ++ rest /\
       (b = true -> rest = []) /\
       (b = false ->
        exists pre c, done = pre ++ [c] /\ FailsAfter E s (rev pre) c)).
Proof.
  intros i s Hpk. unfold UpdateTransformOffset. rewrite Hpk. split.
  - intros HT.
    destruct (EHoudiniInputType.eqb (InputType i) _) eqn:Heq; [|reflexivity].
    apply EHoudiniInputType_eqb_eq in Heq. contradiction.
  - intros objs HT Hobjs. rewrite HT. cbn [EHoudiniInputType.eqb negb].
    rewrite Hobjs.
    destruct (UpdateTransformOffset_loop_prefix objs s)
      as (done & rest & Hs & Hd & Hr).
    destruct (UpdateTransformOffset_loop E objs s) as [b s'].
    cbn [fst snd] in *. subst s'. exists b, done, rest.
    split; [reflexivity|]. split; [assumption|].
    destruct b; split; intros; try discriminate; assumption.
Qed.

(** ** The loop over the object merges of a merge node *)

Lemma QueriesOf_app : forall a b, QueriesOf (a ++ b) = QueriesOf a ++ QueriesOf b.
Proof. intros. unfold QueriesOf. apply flat_map_app. Qed.

(** The loop queries each index once, in order, whatever fails; its result
    is false exactly when it starts from false or a parameter could not be
    set. *)
Lemma SetParmOnObjectMerges_loop : forall Parent parm value l b s,
  exists new b',
    forEach (fun (n : Z) (bSuccess : bool) =>
               bind (call_int E (QueryNodeInput Parent n))
                 (fun '(ok, InputObjectNodeId) =>
                    if negb ok then ret (n, bSuccess)
                    else if InputObjectNodeId =? -1 then ret (n, bSuccess)
                    else bind (call E (SetParmIntValue InputObjectNodeId parm 0 value))
                           (fun set => ret (n, if set then bSuccess else false))))
      l b s = ((l, b'), new ++ s) /\
    QueriesOf (rev new) = map (fun n => (Parent, n)) l /\
    (b' = true <->
     b = true /\
     forall pre c post node, new = post ++ c :: pre ->
       c = SetParmIntValue node parm 0 value ->
       hapi_result E (pre ++ s) c = true).
Proof.
  intros Parent parm value. induction l as [|n l IH]; intros b s; cbn [forEach].
  - exists [], b. split; [reflexivity|]. split; [reflexivity|].
    split; [intros ->; split; [reflexivity|]; intros pre c [|? ?] ? H; discriminate H
           |intros [-> _]; reflexivity].
  - unfold bind at 1. unfold bind at 1. unfold call_int at 1.
    set (q := QueryNodeInput Parent n).
    (* the body, on [n] *)
    assert (Hbody : exists n1 b1,
      (if negb (hapi_result E s q) then ret (n, b)
       else if hapi_int E s q =? -1 then ret (n, b)
       else bind (call E (SetParmIntValue (hapi_int E s q) parm 0 value))
              (fun set => ret (n, if set then b else false))) (q :: s)
      = ((n, b1), n1 ++ q :: s) /\
      QueriesOf (rev n1) = [] /\
      (b1 = true <->
       b = true /\
       forall pre c post node, n1 ++ [q] = post ++ c :: pre ->
         c = SetParmIntValue node parm 0 value ->
         hapi_result E (pre ++ s) c = true)).
    { destruct (hapi_result E s q); cbn [negb].
      - destruct (hapi_int E s q =? -1).
        + exists [], b. split; [reflexivity|]. split; [reflexivity|].
          split; [intros ->; split; [reflexivity|]|intros [-> _]; reflexivity].
          intros pre c [|c0 [|? ?]] node Heq Hc; cbn in Heq;
            [injection Heq as <- <-; discriminate Hc
            |injection Heq as _ Heq; discriminate Heq
            |injection Heq as _ Heq; discriminate Heq].
        + unfold bind, call, ret.
          set (c0 := SetParmIntValue (hapi_int E s q) parm 0 value).
          exists [c0], (if hapi_result E (q :: s) c0 then b else false).
          split; [reflexivity|]. split; [reflexivity|]. split.
          * intros Hb. destruct (hapi_result E (q :: s) c0) eqn:Hr;
              [|discriminate]. subst b. split; [reflexivity|].
            intros pre c [|c1 [|c2 [|? ?]]] node Heq Hc; cbn in Heq.
            -- injection Heq as <- <-. exact Hr.
            -- injection Heq as _ <- <-. discriminate Hc.
            -- injection Heq as _ _ Heq. discriminate Heq.
            -- injection Heq as _ _ Heq. discriminate Heq.
          * intros [-> Hall].
            pose proof (Hall [q] c0 [] (hapi_int E s q) eq_refl eq_refl) as Hr.
            cbn in Hr. rewrite Hr. reflexivity.
      - exists [], b. split; [reflexivity|]. split; [reflexivity|].
        split; [intros ->; split; [reflexivity|]|intros [-> _]; reflexivity].
        intros pre c [|c0 [|? ?]] node Heq Hc; cbn in Heq;
          [injection Heq as <- <-; discriminate Hc
          |injection Heq as _ Heq; discriminate Heq
          |injection Heq as _ Heq; discriminate Heq]. }
    destruct Hbody as (n1 & b1 & Hrun1 & Hq1 & Hb1).
    cbv zeta. cbn [fst snd]. rewrite Hrun1.
    destruct (IH b1 (n1 ++ q :: s)) as (n2 & b2 & Hrun2 & Hq2 & Hb2).
    unfold bind at 1. rewrite Hrun2. unfold ret.
    exists (n2 ++ n1 ++ [q]), b2.
    split; [now rewrite <- !app_assoc|]. split.
    + rewrite !rev_app_distr, !QueriesOf_app. cbn [rev app].
      rewrite Hq1, Hq2. reflexivity.
    + rewrite Hb2, Hb1. split.
      * intros [[Hb Hall1] Hall2]. split; [assumption|].
        intros pre c post node Heq Hc.
        (* the call is in the first or in the later part *)
        assert (Hcase :
          (exists post1, post = n2 ++ post1 /\ n1 ++ [q] = post1 ++ c :: pre) \/
          (exists pre2, pre = pre2 ++ n1 ++ [q] /\ n2 = post ++ c :: pre2)).
        { clear - Heq. revert post Heq.
          induction n2 as [|a n2 IHn]; intros post Heq.
          - left. exists post. auto.
          - destruct post as [|p post]; cbn in Heq.
            + right. injection Heq as <- <-. exists n2. auto.
            + injection Heq as <- Heq. destruct (IHn post Heq)
                as [(post1 & -> & H)|(pre2 & -> & ->)].
              * left. exists post1. auto.
              * right. exists pre2. auto. }
        destruct Hcase as [(post1 & -> & H1)|(pre2 & -> & H2)].
        -- exact (Hall1 pre c post1 node H1 Hc).
        -- rewrite <- !app_assoc. cbn [app].
           exact (Hall2 pre2 c post node H2 Hc).
      * intros [Hb Hall]. split; [split; [assumption|]|].
        -- intros pre c post node Heq Hc.
           apply (Hall pre c (n2 ++ post) node); [|assumption].
           rewrite <- app_assoc. now rewrite Heq.
        -- intros pre c post node Heq Hc.
           specialize (Hall (pre ++ n1 ++ [q]) c post node).

           rewrite <- !app_assoc in Hall. cbn [app] in Hall.
           apply Hall; [|assumption].
           subst n2. now rewrite <- app_assoc.
Qed.

(** X3.  UpdatePackBeforeMerge does nothing and returns true on an input
    that is neither a world nor a geometry input, and on one without a
    merge node.  Otherwise it queries each of the first
    GetNumberOfInputMeshes inputs of the merge node once, in order,
    whatever fails on the way, and returns true exactly when every pack
    parameter it set could be set. *)
Theorem UpdatePackBeforeMerge_queries_each_merge :
  forall (i : UHoudiniInput) (s : Session),
  In_bPendingKill i = false ->
  ((InputType i <> EHoudiniInputType.World /\
    InputType i <> EHoudiniInputType.Geometry) \/ In_InputNodeId i < 0 ->
   UpdatePackBeforeMerge E (Some i) s = (true, s)) /\
  (InputType i = EHoudiniInputType.World \/
   InputType i = EHoudiniInputType.Geometry ->
   0 <= In_InputNodeId i ->
   let nPackValue := if bPackBeforeMerge (Settings i) then 1 else 0 in
   exists b new,
     UpdatePackBeforeMerge E (Some i) s = (b, new ++ s) /\
     QueriesOf (rev new)
     = map (fun n => (In_InputNodeId i, n))
         (upto (GetNumberOfInputMeshes E i (InputType i))) /\
     (b = true <->
      forall pre c post node, new = post ++ c :: pre ->
        c = SetParmIntValue node "pack" 0 nPackValue ->
        hapi_result E (pre ++ s) c = true)).
Proof.
  intros i s Hpk. unfold UpdatePackBeforeMerge. rewrite Hpk. split.
  - intros [[HW HG]|Hn].
    + destruct (InputType i); try reflexivity; contradiction.
    + destruct (_ && _); [reflexivity|].
      replace (In_InputNodeId i >=? 0) with false; [reflexivity|].
      symmetry. rewrite Z.geb_leb. apply Z.leb_gt. assumption.
  - intros HT Hn. cbv zeta.
    set (nPackValue := if bPackBeforeMerge (Settings i) then 1 else 0).
    replace (negb (EHoudiniInputType.eqb (InputType i) EHoudiniInputType.World)
             && negb (EHoudiniInputType.eqb (InputType i)
                        EHoudiniInputType.Geometry)) with false
      by (destruct HT as [-> | ->]; reflexivity).
    replace (In_InputNodeId i >=? 0) with true
      by (symmetry; rewrite Z.geb_leb; apply Z.leb_le; assumption).
    unfold SetParmOnObjectMerges.
    destruct (SetParmOnObjectMerges_loop (In_InputNodeId i) "pack" nPackValue
                (upto (GetNumberOfInputMeshes E i (InputType i))) true s)
      as (new & b' & Hrun & Hq & Hb).
    unfold bind at 1. rewrite Hrun. unfold ret.
    exists b', new. split; [reflexivity|]. split; [assumption|].
    rewrite Hb. split; [intros [_ H]; exact H|intros H; split; [reflexivity|exact H]].
Qed.

(** ** UploadInputData: plugging the created nodes into the merge node *)

(** X4.  The loop of UploadInputData that connects the created nodes to
    the merge node skips the negative ids and the merge node itself, and
    plugs the remaining nodes, in order, into consecutive inputs of the
    merge node: a skipped id leaves no gap, and a failed connection does
    not stop the loop. *)
Theorem ConnectCreatedNodes_fills_consecutive_inputs :
  forall (InputNodeId : Z) (CreatedNodeIds : list Z) (first : Z) (s : Session),
  ConnectCreatedNodes E InputNodeId CreatedNodeIds first s
  = (tt, rev (PlugCalls InputNodeId first (Pluggable InputNodeId CreatedNodeIds))
         ++ s) /\
  (forall n id,
     nth_error (Pluggable InputNodeId CreatedNodeIds) n = Some id ->
     In (ConnectNodeInput InputNodeId (first + Z.of_nat n) id 0)
        (PlugCalls InputNodeId first (Pluggable InputNodeId CreatedNodeIds))).
Proof.
  intros node ids. split.
  - revert first s. induction ids as [|id ids IH]; intros first s;
      cbn [ConnectCreatedNodes Pluggable filter]; [reflexivity|].
    fold (Pluggable node ids).
    destruct (id <? 0) eqn:Hneg.
    + replace (0 <=? id) with false
        by (symmetry; apply Z.leb_gt; now apply Z.ltb_lt).
      cbn [andb]. apply IH.
    + replace (0 <=? id) with true
        by (symmetry; apply Z.leb_le; now apply Z.ltb_ge).
      cbn [andb]. destruct (node =? id); cbn [negb]; [apply IH|].
      unfold bind, check, call, bind, ret. rewrite IH.
      cbn [PlugCalls rev]. now rewrite <- app_assoc.
  - generalize (Pluggable node ids) as l. intros l. revert first.
    induction l as [|a l IH]; intros first [|n] id Hn; cbn in Hn;
      try discriminate.
    + injection Hn as ->. left. f_equal. lia.
    + right. replace (first + Z.of_nat (S n)) with (first + 1 + Z.of_nat n)
        by lia. now apply IH.
Qed.

(** ** UploadInputData on an input with nothing to plug *)

Lemma UploadInputData_dead_objects : forall objs st s,
  Forall (fun p => IsValidObject p = false) objs ->
  forEach (UploadInputData_object E) objs st s = ((objs, st), s).
Proof.
  induction objs as [|p objs IH]; intros st s H; cbn [forEach];
    [reflexivity|].
  inversion H as [|? ? Hp Hobjs]; subst.
  unfold bind at 1.
  assert (Hbody : UploadInputData_object E p st s = ((p, st), s)).
  { destruct st as [[ids b] i]. destruct p as [o|]; cbn; [|reflexivity].
    cbn in Hp. apply negb_false_iff in Hp. rewrite Hp. reflexivity. }
  rewrite Hbody. unfold bind. rewrite (IH st s Hobjs). reflexivity.
Qed.

Lemma DisconnectObjectMerges_unplugs : forall node indices b,
  Run (DisconnectObjectMerges E node indices b)
    (fun _ new => Forall (UnplugsFrom node) new /\
                  forall k, In k indices -> In (DisconnectNodeInput node k) new).
Proof.
  intros node indices b. unfold DisconnectObjectMerges.
  induction indices as [|k indices IH]; cbn [forEach_].
  - apply Run_ret. split; [constructor|intros k []].
  - eapply Run_bind with
      (Q1 := fun _ new => Forall (UnplugsFrom node) new /\
                          In (DisconnectNodeInput node k) new).
    + intros s. unfold bind, check, call_int, call, bind, ret.
      destruct b; run_leaf; (split; [|cbn; auto]);
        repeat first [apply Forall_nil | apply Forall_cons];
        unfold UnplugsFrom; eauto.
    + intros u n1 [H1 Hk]. eapply Run_weaken; [apply IH|].
      intros u2 n2 [H2 Hall]. split; [apply Forall_app; split; assumption|].
      intros k' [<-|Hin]; apply in_or_app; [right|left]; auto.
Qed.

(** X5.  When no element of the object array of a valid input survives
    (the array may be empty), UploadInputData runs no translator and
    creates and connects nothing.  On an Asset input whose type has not
    changed and whose outer is not an asset component it makes no call and
    does not return: the source dereferences the null pointer which the
    cast of the outer gives.  On every other input it returns true, resets
    the input's node id to -1 and empties the record of created data
    nodes; unless the input type has changed, it first takes the input
    apart: an asset input is disconnected from the outer asset, a world
    input is left alone, and for any other type every input of the merge
    node recorded before is queried, disconnected and the node found there
    deleted. *)
Theorem UploadInputData_with_nothing_to_plug :
  forall (i : UHoudiniInput) (objs : list (option InputObject)) (s : Session),
  In_bPendingKill i = false ->
  InputObjects i (InputType i) = Some objs ->
  Forall (fun p => IsValidObject p = false) objs ->
  let i1 := set_InputObjects (InputType i) objs i in
  (HasInputTypeChanged E i1 = false ->
   InputType i = EHoudiniInputType.Asset ->
   OuterHAC (Settings i) = None ->
   UploadInputData E (Some i) s = (None, s)) /\
  (HasInputTypeChanged E i1 = true \/
   InputType i <> EHoudiniInputType.Asset \/
   OuterHAC (Settings i) <> None ->
   exists new,
     UploadInputData E (Some i) s
     = (Some (true, Some (SetInputNodeId (-1) (set_CreatedDataNodeIds [] i1))),
        new ++ s) /\
     (HasInputTypeChanged E i1 = true -> new = []) /\
     (HasInputTypeChanged E i1 = false ->
      match InputType i with
      | EHoudiniInputType.Asset =>
          forall AssetId, OuterHAC (Settings i) = Some AssetId ->
          new = if (In_InputNodeId i >=? 0) && (InputIndex i >=? 0)
                then [DisconnectNodeInput AssetId (InputIndex i)]
                else []
      | EHoudiniInputType.World => new = []
      | _ =>
          Forall (UnplugsFrom (In_InputNodeId i)) new /\
          (In_InputNodeId i < 0 -> new = []) /\
          (0 <= In_InputNodeId i ->
           forall k, 0 <= k < Z.of_nat (Datatypes.length (CreatedDataNodeIds i)) ->
             In (DisconnectNodeInput (In_InputNodeId i) k) new)
      end)).
Proof.
  intros i objs s Hpk Hobjs Hdead i1.
  assert (Hstart : UploadInputData E (Some i) s
                   = UploadInputData_merge E i1 [] true s).
  { unfold UploadInputData. rewrite Hpk. cbv zeta. rewrite Hobjs.
    unfold bind at 1.
    rewrite (UploadInputData_dead_objects objs ([], true, i) s Hdead).
    reflexivity. }
  rewrite Hstart. unfold UploadInputData_merge.
  cbn [Datatypes.length Z.of_nat Z.eqb].
  assert (Hrange : forall n k, 0 <= k < Z.of_nat n -> In k (range 0 (Z.of_nat n))).
  { intros n k Hk. unfold range. apply in_map_iff. exists (Z.to_nat k).
    split; [lia|]. apply in_seq. lia. }
  assert (HT : InputType i1 = InputType i) by reflexivity.
  assert (Hn : In_InputNodeId i1 = In_InputNodeId i) by reflexivity.
  assert (Hc : CreatedDataNodeIds i1 = CreatedDataNodeIds i) by reflexivity.
  assert (Hx : InputIndex i1 = InputIndex i) by reflexivity.
  assert (Ho : Settings i1 = Settings i) by reflexivity.
  rewrite HT, Hn, Hc, Hx, Ho. split.
  { intros -> -> ->. reflexivity. }
  intros Hother.
  destruct (HasInputTypeChanged E i1) eqn:Hch; cbn [negb].
  - exists []. split; [reflexivity|]. split; [reflexivity|discriminate].
  - destruct (InputType i) eqn:HTi.
    all: try (destruct (In_InputNodeId i >=? 0) eqn:Hge;
      [ destruct (Run_at _ _ _ s
                    (DisconnectObjectMerges_unplugs (In_InputNodeId i)
                       (range 0 (Z.of_nat (Datatypes.length (CreatedDataNodeIds i))))
                       true)) as (u & new & Hrun & Hun & Hall);
        exists new; unfold bind; rewrite Hrun; unfold ret;
        split; [reflexivity|]; split; [discriminate|]; intros _;
        split; [exact Hun|]; split;
        [ intros Hneg; rewrite Z.geb_leb in Hge; apply Z.leb_le in Hge; lia
        | intros _ k Hk; apply Hall; now apply Hrange ]
      | exists []; unfold bind, ret; split; [reflexivity|];
        split; [discriminate|]; intros _; split; [constructor|];
        split; [reflexivity|];
        intros Hpos; rewrite Z.geb_leb in Hge; apply Z.leb_gt in Hge; lia ]).
    + (* Asset *)
      destruct (OuterHAC (Settings i)) as [AssetId|] eqn:Hout.
      * destruct ((In_InputNodeId i >=? 0) && (InputIndex i >=? 0)).
        -- exists [DisconnectNodeInput AssetId (InputIndex i)].
           split; [reflexivity|]. split; [discriminate|].
           intros _ a [= <-]. reflexivity.
        -- exists []. split; [reflexivity|]. split; [discriminate|].
           intros _ a _. reflexivity.
      * destruct Hother as [H|[H|H]]; [discriminate|contradiction|contradiction].
    + (* World *)
      exists []. split; [reflexivity|]. split; [discriminate|reflexivity].
Qed.

(** ** What disconnecting and destroying leaves of an input *)

Lemma SameButNodes_refl : forall i, SameButNodes i i.
Proof. intros i. unfold SameButNodes. repeat split; reflexivity. Qed.

Lemma SameButNodes_trans : forall a b c,
  SameButNodes a b -> SameButNodes b c -> SameButNodes a c.
Proof.
  unfold SameButNodes. intros a b c H1 H2.
  repeat match goal with H : _ /\ _ |- _ => destruct H end.
  repeat split; congruence.
Qed.

Lemma DisconnectInput_frame : forall i T,
  Run (DisconnectInput E (Some i) T)
    (fun r _ => fst r = negb (In_bPendingKill i) /\
                exists i', snd r = Some i' /\ SameButNodes i i' /\
                           InputObjects i' = InputObjects i).
Proof.
  intros i T s. unfold DisconnectInput, bind, call, ret.
  destruct (In_bPendingKill i);
    [exists (false, Some i), []; split; [reflexivity|];
     split; [reflexivity|]; exists i;
     split; [reflexivity|]; split; [apply SameButNodes_refl|reflexivity]|].
  destruct (bIsObjectPathParameter i);
    [|destruct ((AssetNodeId i >=? 0) && (In_InputNodeId i >=? 0))];
    destruct (EHoudiniInputType.eqb T EHoudiniInputType.Asset);
    try destruct (OuterHAC (Settings i));
    cbn; run_leaf; (split; [reflexivity|]); eexists; (split; [reflexivity|]);
    (split; [unfold SameButNodes; repeat split; reflexivity|reflexivity]).
Qed.

Lemma DestroyInputNodes_frame : forall i T,
  Run (DestroyInputNodes E (Some i) T)
    (fun r _ => fst r = (negb (In_bPendingKill i)
                         && bCanDeleteHoudiniNodes (Settings i))%bool /\
                exists i', snd r = Some i' /\ SameButNodes i i').
Proof.
  intros i T. unfold DestroyInputNodes.
  destruct (In_bPendingKill i).
  { apply Run_ret. split; [reflexivity|]. exists i.
    split; [reflexivity|apply SameButNodes_refl]. }
  destruct (bCanDeleteHoudiniNodes (Settings i)); cbn [negb andb].
  2: { apply Run_ret. split; [reflexivity|]. exists i.
       split; [reflexivity|apply SameButNodes_refl]. }
  destruct (EHoudiniInputType.eqb T EHoudiniInputType.Asset).
  { apply Run_ret. split; [reflexivity|]. exists i.
    split; [reflexivity|apply SameButNodes_refl]. }
  eapply Run_bind with (Q1 := fun r _ => SameButNodes i (fst r)).
  - destruct (InputObjects i T) as [objs|].
    + eapply Run_bind; [apply DestroyInputNodes_objects_run|].
      intros [objs' Ids] n1 _. apply Run_ret. cbn.
      unfold SameButNodes. repeat split; reflexivity.
    + apply Run_ret. apply SameButNodes_refl.
  - intros [i1 Ids] n1 H1. cbn in H1.
    eapply Run_bind; [apply DestroyInputNodes_assets_run|].
    intros u n2 _.
    eapply Run_bind with (Q1 := fun i2 _ => SameButNodes i1 i2).
    + intros s. unfold bind, call, call_int, ret. cbn.
      destruct (In_InputNodeId i1 >=? 0); cbn;
        [destruct (hapi_result E _ (IsHoudiniNodeValid _))|];
        run_leaf; unfold SameButNodes; repeat split; reflexivity.
    + intros i2 n3 H2. apply Run_ret. split; [reflexivity|].
      exists i2. split; [reflexivity|].
      eapply SameButNodes_trans; eassumption.
Qed.

Lemma DisconnectAndDestroyInput_frame : forall i T,
  Run (DisconnectAndDestroyInput E (Some i) T)
    (fun r _ => fst r = (negb (In_bPendingKill i)
                         && bCanDeleteHoudiniNodes (Settings i))%bool /\
                exists i', snd r = Some i' /\ SameButNodes i i').
Proof.
  intros i T. unfold DisconnectAndDestroyInput.
  eapply Run_bind; [apply DisconnectInput_frame|].
  intros [b r] n1 (Hb & i1 & Hr & H1 & _). cbn in Hb, Hr. subst r b.
  eapply Run_bind; [apply DestroyInputNodes_frame|].
  intros [b2 r2] n2 (Hb2 & i2 & Hr2 & H2). cbn in Hb2, Hr2. subst r2 b2.
  apply Run_ret. cbn [fst snd]. split.
  - assert (Hpk : In_bPendingKill i1 = In_bPendingKill i)
      by (unfold SameButNodes in H1; tauto).
    assert (Hset : Settings i1 = Settings i)
      by (unfold SameButNodes in H1; tauto).
    rewrite Hpk, Hset. destruct (In_bPendingKill i); reflexivity.
  - exists i2. split; [reflexivity|].
    eapply SameButNodes_trans; eassumption.
Qed.

(** X6.  DisconnectAndDestroyInput changes nothing of an input but its
    node id and its input objects: names, type, binding, flags, settings
    and the record of created data nodes are as before.  Its result does
    not depend on what any call answers: it is true exactly when the
    input is not pending kill and may delete Houdini nodes; on a null
    input it is false and no call is made. *)
Theorem DisconnectAndDestroyInput_keeps_the_rest :
  forall (T : EHoudiniInputType.t) (s : Session),
  DisconnectAndDestroyInput E None T s = ((false, None), s) /\
  forall i : UHoudiniInput,
  exists i' new,
    DisconnectAndDestroyInput E (Some i) T s
    = (((negb (In_bPendingKill i)
         && bCanDeleteHoudiniNodes (Settings i))%bool,
        Some i'), new ++ s) /\
    SameButNodes i i'.
Proof.
  intros T s. split; [reflexivity|]. intros i.
  destruct (DisconnectAndDestroyInput_frame i T s)
    as ([b r] & new & Hrun & Hb & i' & Hr & Hsame).
  cbn in Hb, Hr. subst b r. exists i', new. split; assumption.
Qed.

(** Two facts about the same run hold together. *)
Lemma Run_both : forall A (m : M A) (Q1 Q2 : A -> list ApiCall -> Prop),
  Run m Q1 -> Run m Q2 -> Run m (fun a n => Q1 a n /\ Q2 a n).
Proof.
  intros A m Q1 Q2 H1 H2 s.
  destruct (H1 s) as (a & n & e & q1). destruct (H2 s) as (a' & n' & e' & q2).
  rewrite e in e'. injection e' as <- Hn. apply app_inv_tail in Hn. subst n'.
  exists a, n. auto.
Qed.

Lemma DisconnectAndDestroyInput_Asset_never_deletes : forall p,
  Emits NotDeleteNode (DisconnectAndDestroyInput E p EHoudiniInputType.Asset).
Proof.
  intros p. unfold DisconnectAndDestroyInput.
  apply Emits_bind; [apply DisconnectInput_never_deletes|].
  intros [b r]. apply Emits_bind; [|intros [b2 r2]; apply Emits_ret].
  intros s. destruct (DestroyInputNodes_Asset_no_call E r s) as [Hs _].
  destruct (DestroyInputNodes E r EHoudiniInputType.Asset s) as [a s'].
  cbn in Hs. subst s'. exists a, []. split; [reflexivity|constructor].
Qed.

Lemma MarkAllInputObjectsChanged_marks : forall b i objs (o : InputObject),
  InputObjects (MarkAllInputObjectsChanged b i) (InputType i) = Some objs ->
  In (Some o) objs -> bPendingKill o = false -> bHasChanged o = b.
Proof.
  intros b i objs o. unfold MarkAllInputObjectsChanged.
  change (InputType (MarkDataUploadNeeded b i)) with (InputType i).
  change (InputObjects (MarkDataUploadNeeded b i)) with (InputObjects i).
  destruct (InputObjects i (InputType i)) as [arr|] eqn:Harr.
  - rewrite InputObjects_set_same. intros [= <-] Hin Hlive.
    apply in_map_iff in Hin. destruct Hin as ([o0|] & Ho & _); [|discriminate].
    destruct (bPendingKill o0) eqn:Hpk0.
    + injection Ho as <-. congruence.
    + injection Ho as <-. reflexivity.
  - cbn. rewrite Harr. discriminate.
Qed.

(** X7.  ChangeInputType returns false, untouched, only on a null or
    pending-kill input.  On any other input it returns true whatever the
    calls answer: without a call when the type has not changed and the
    change is not forced; otherwise after DisconnectAndDestroyInput on the
    previous input type, which deletes no node when that type is Asset.
    Afterwards the input has its type and binding as before, needs a data
    upload, and every surviving object of the current type is marked
    changed. *)
Theorem ChangeInputType_always_succeeds :
  forall (bForce : bool) (s : Session),
  ChangeInputType E None bForce s = ((false, None), s) /\
  forall i : UHoudiniInput,
    (In_bPendingKill i = true ->
     ChangeInputType E (Some i) bForce s = ((false, Some i), s)) /\
    (In_bPendingKill i = false ->
     HasInputTypeChanged E i = false -> bForce = false ->
     ChangeInputType E (Some i) bForce s = ((true, Some i), s)) /\
    (In_bPendingKill i = false ->
     HasInputTypeChanged E i = true \/ bForce = true ->
     exists i1 new,
       ChangeInputType E (Some i) bForce s
       = ((true, Some (MarkAllInputObjectsChanged true i1)), new ++ s) /\
       SameButNodes i i1 /\
       bDataUploadNeeded (MarkAllInputObjectsChanged true i1) = true /\
       (forall objs (o : InputObject),
          InputObjects (MarkAllInputObjectsChanged true i1) (InputType i)
          = Some objs ->
          In (Some o) objs -> bPendingKill o = false -> bHasChanged o = true) /\
       (PreviousType i = EHoudiniInputType.Asset -> Forall NotDeleteNode new)).
Proof.
  intros bForce s. split; [reflexivity|]. intros i.
  unfold ChangeInputType. split; [intros ->; reflexivity|]. split.
  - intros -> -> ->. reflexivity.
  - intros -> Hch.
    assert (Hgo : negb (HasInputTypeChanged E i) && negb bForce = false)
      by (destruct Hch as [-> | ->]; [reflexivity|apply andb_false_r]).
    rewrite Hgo.
    assert (Hrun : Run (DisconnectAndDestroyInput E (Some i) (PreviousType i))
              (fun r new => (exists i', snd r = Some i' /\ SameButNodes i i') /\
                 (PreviousType i = EHoudiniInputType.Asset ->
                  Forall NotDeleteNode new))).
    { apply Run_both.
      - eapply Run_weaken; [apply DisconnectAndDestroyInput_frame|].
        intros a n [_ H]. exact H.
      - destruct (EHoudiniInputType.eqb (PreviousType i) EHoudiniInputType.Asset)
          eqn:HT.
        + apply EHoudiniInputType_eqb_eq in HT. rewrite HT.
          eapply Run_weaken;
            [apply DisconnectAndDestroyInput_Asset_never_deletes|].
          intros a n H _. exact H.
        + eapply Run_weaken; [apply DisconnectAndDestroyInput_frame|].
          intros a n _ Heq. rewrite Heq in HT. discriminate. }
    destruct (Hrun s) as ([b r] & new & Heq & (i1 & Hr & Hsame) & Hdel).
    cbn in Hr. subst r. unfold bind. rewrite Heq. cbn [option_map ret].
    exists i1, new. split; [reflexivity|]. split; [assumption|].
    split.
    { unfold MarkAllInputObjectsChanged.
      destruct (InputObjects _ _); reflexivity. }
    split; [|assumption].
    intros objs o Hobjs Hin Hlive.
    assert (HT : InputType i1 = InputType i)
      by (unfold SameButNodes in Hsame; tauto).
    rewrite <- HT in Hobjs.
    exact (MarkAllInputObjectsChanged_marks true i1 objs o Hobjs Hin Hlive).
Qed.

(** ** Uploading an actor *)

Lemma HapiCreateInputNodeForActor_live : forall i (o : InputObject) ids s,
  In_bPendingKill i = false -> bPendingKill o = false ->
  exists o1 ids' i' new,
    HapiCreateInputNodeForActor E (UploadHoudiniInputComponent E)
      (Some i) (Some o) o ids s
    = ((true, o1, ids', Some i'), new ++ s) /\
    (match GetActor E o with
     | Some a => Actor_bPendingKill a = true
     | None => True
     end -> new = [] /\ ids' = ids /\ o1 = o /\ i' = i).
Proof.
  intros i o ids s Hi Ho. unfold HapiCreateInputNodeForActor.
  rewrite Hi, Ho. cbn [orb].
  destruct (GetActor E o) as [a|];
    [|exists o, ids, i, []; split; [reflexivity|auto]].
  destruct (Actor_bPendingKill a) eqn:Ha;
    [exists o, ids, i, []; split; [reflexivity|auto]|].
  unfold bind at 1.
  match goal with
  | |- context [let (_, _) := ?m s in _] =>
      assert (Hr : exists o1 new, m s = (o1, new ++ s))
  end.
  { destruct (_ && _); [|exists o, []; reflexivity].
    destruct (RefreshActorComponents_facts E o s) as (o1 & new & Hrun & _).
    exists o1, new. exact Hrun. }
  destruct Hr as (o1 & n1 & Hrun1). rewrite Hrun1. unfold bind at 1.
  destruct (ActorComponents_upload_facts E
              (match AsActor o1 with Some cs => cs | None => [] end)
              ids i (n1 ++ s))
    as (comps' & ids' & i' & n2 & Hrun2 & _).
  rewrite Hrun2. cbn [ret].
  eexists _, ids', i', (n2 ++ n1).
  split; [rewrite app_assoc; reflexivity|discriminate].
Qed.

(** X8.  The upload of an actor input object that is alive, on an input
    that is alive, succeeds whatever the uploads of its components do:
    UploadHoudiniInputObject returns true and clears the object's changed
    flag.  When the actor behind the object is gone (null or pending kill)
    this is done without a call, and the list of created nodes and the
    input are left as they were. *)
Theorem Actor_upload_succeeds_whatever_its_components_do :
  forall (i : UHoudiniInput) (o : InputObject) (ids : list Z) (s : Session),
  In_bPendingKill i = false ->
  bPendingKill o = false ->
  Type_ o = EHoudiniInputObjectType.Actor ->
  AsActor o <> None ->
  exists o' ids' i' new,
    UploadHoudiniInputObject E (Some i) (Some o) ids s
    = ((true, Some o', ids', Some i'), new ++ s) /\
    bHasChanged o' = false /\
    bNeedsToTriggerUpdate o' = false /\
    (match GetActor E o with
     | Some a => Actor_bPendingKill a = true
     | None => True
     end -> new = [] /\ ids' = ids /\ i' = i).
Proof.
  intros i o ids s Hi Ho Hty Has.
  unfold UploadHoudiniInputObject, UploadHoudiniInputObject_,
    UploadHoudiniInputObject_switch.
  rewrite Hty. destruct (AsActor o) as [comps|] eqn:Hcomps; [|contradiction].
  destruct (HapiCreateInputNodeForActor_live i o ids s Hi Ho)
    as (o1 & ids' & i' & new & Hrun & Hgone).
  unfold bind at 1. unfold bind at 1. rewrite Hrun. unfold ret.
  eexists _, ids', i', new. split; [reflexivity|].
  split; [reflexivity|]. split; [reflexivity|].
  intros H. destruct (Hgone H) as (-> & -> & _ & ->). auto.
Qed.

(** ** What a transform upload calls *)

Lemma UploadHoudiniInputTransform_switch_emits : forall U i o,
  (forall p c, Emits IsTransformCall (U p c)) ->
  Emits IsTransformCall (UploadHoudiniInputTransform_switch E U i o).
Proof.
  intros U i o HU. unfold UploadHoudiniInputTransform_switch, UpdateTransform,
    UploadHoudiniInputTransform_component, Cast.
  emits; auto; unfold IsTransformCall; eauto.
Qed.

Lemma UploadHoudiniInputTransform_emits : forall p q,
  Emits IsTransformCall (UploadHoudiniInputTransform E p q).
Proof.
  assert (Hc : forall p c,
            Emits IsTransformCall (UploadHoudiniInputComponentTransform E p c)).
  { intros p c. unfold UploadHoudiniInputComponentTransform,
      UploadHoudiniInputTransform_.
    apply Emits_bind; [|intros [b o]; apply Emits_ret].
    destruct p as [i|], (option_map OfComponent c) as [o|];
      try apply Emits_ret.
    apply Emits_bind; [|intros [b o1]; apply Emits_ret].
    apply UploadHoudiniInputTransform_switch_emits.
    intros; apply Emits_ret. }
  intros p q. unfold UploadHoudiniInputTransform, UploadHoudiniInputTransform_.
  destruct p as [i|], q as [o|]; try apply Emits_ret.
  apply Emits_bind; [|intros [b o1]; apply Emits_ret].
  apply UploadHoudiniInputTransform_switch_emits. exact Hc.
Qed.

(** X9.  UploadHoudiniInputTransform only reads and sets transforms of
    OBJ nodes: it never creates, deletes or connects a node.  For the
    kinds of input object whose case only breaks (all but static mesh,
    foliage type, static mesh component, actor, scene component and
    landscape) it makes no call at all and still returns true, clearing
    the transform-changed flag: the transform of such an object is never
    uploaded. *)
Theorem UploadHoudiniInputTransform_only_sets_transforms :
  (forall p q, Emits IsTransformCall (UploadHoudiniInputTransform E p q)) /\
  (forall (i : UHoudiniInput) (o : InputObject) (s : Session),
     TransformNotUploaded (Type_ o) = true ->
     UploadHoudiniInputTransform E (Some i) (Some o) s
     = ((true,
         Some (WithSelf (SetNeedsToTriggerUpdate false)
                 (WithSelf (MarkTransformChanged false) o))), s)).
Proof.
  split; [apply UploadHoudiniInputTransform_emits|].
  intros i o s Hty.
  unfold UploadHoudiniInputTransform, UploadHoudiniInputTransform_,
    UploadHoudiniInputTransform_switch.
  destruct (Type_ o); try discriminate Hty; reflexivity.
Qed.

(** ** SetDefaultAssetFromHDA *)

(** Exhibits the value and the added calls of a fully evaluated run that
    returns a pair. *)
Ltac run_leaf_pair :=
  match goal with
  | |- exists b r new, ((?vb, ?vr), ?l) = ((b, r), new ++ ?s) /\ _ =>
      let p := added_calls l s in exists vb, vr, p; split; [reflexivity|]
  end.

(** X10.  SetDefaultAssetFromHDA only reads: the calls it makes are
    GetParmInfo and GetParmStringValues on the input's asset and the
    conversion of the string handle, three at most.  It makes none and
    returns false when the input is bound to no parameter.  Whenever it
    returns false the input is as it was. *)
Theorem SetDefaultAssetFromHDA_only_reads :
  forall (i : UHoudiniInput) (s : Session),
  exists b r new,
    SetDefaultAssetFromHDA E (Some i) s = ((b, r), new ++ s) /\
    Forall (ReadsParameter i) new /\
    (Datatypes.length new <= 3)%nat /\
    (ParmId i < 0 -> b = false /\ new = []) /\
    (b = false -> r = Some i).
Proof.
  intros i s. unfold SetDefaultAssetFromHDA, bind, call_int, ret.
  destruct (In_bPendingKill i);
    [exists false, (Some i), []; cbn; repeat split; auto; lia|].
  destruct (ParmId i <? 0) eqn:Hp;
    [exists false, (Some i), []; cbn; repeat split; auto; lia|].
  apply Z.ltb_ge in Hp.
  repeat match goal with
         | |- context [if negb ?b then _ else _] => destruct b; cbn [negb]
         | |- context [if ?a <=? ?b then _ else _] => destruct (a <=? b)
         end;
    run_leaf_pair;
    (split; [repeat first [apply Forall_nil | apply Forall_cons];
             unfold ReadsParameter; eauto|]);
    (split; [cbn; lia|]);
    (split; [intros; lia|]);
    first [reflexivity | discriminate | intros; reflexivity].
Qed.

(** ** UploadChangedInputs over the whole array *)

Lemma UploadChangedInputs_input_processed : forall p s,
  match fst (UploadChangedInputs_input E p s) with
  | Some p' => ProcessedInput p p'
  | None => exists i, p = Some i /\ StopsAt i
  end /\
  (match p with
   | Some i => In_bPendingKill i || negb (In_bHasChanged i) = true
   | None => True
   end -> snd (UploadChangedInputs_input E p s) = s).
Proof.
  intros [i|] s; [|split; reflexivity]. unfold ProcessedInput, StopsAt.
  destruct (In_bPendingKill i) eqn:Hpk; cbn [orb].
  - rewrite (UploadChangedInputs_input_skips E (Some i) s) by (left; exact Hpk).
    cbn. try rewrite Hpk. split; reflexivity.
  - destruct (In_bHasChanged i) eqn:Hch; cbn [negb].
    + split; [|discriminate].
      pose proof (UploadChangedInputs_input_clears_trigger E i s Hpk Hch) as H.
      destruct (fst (UploadChangedInputs_input E (Some i) s)) as [p'|].
      * try rewrite Hpk; try rewrite Hch. exact H.
      * exists i. auto.
    + rewrite (UploadChangedInputs_input_skips E (Some i) s)
        by (right; exact Hch).
      cbn. try rewrite Hpk; try rewrite Hch. split; reflexivity.
Qed.

Lemma mapM_until_UploadChangedInputs_input : forall l s,
  match fst (mapM_until (UploadChangedInputs_input E) l s) with
  | Some l' => Forall2 ProcessedInput l l'
  | None => exists i, In (Some i) l /\ StopsAt i
  end /\
  (Forall (fun p => match p with
                    | Some i => In_bPendingKill i || negb (In_bHasChanged i) = true
                    | None => True
                    end) l ->
   snd (mapM_until (UploadChangedInputs_input E) l s) = s).
Proof.
  induction l as [|p l IH]; intros s; cbn [mapM_until].
  - split; [constructor|reflexivity].
  - rewrite bind_run.
    destruct (UploadChangedInputs_input_processed p s) as [Hp Hs].
    destruct (UploadChangedInputs_input E p s) as [[p'|] s1]; cbn [fst snd] in *.
    + rewrite bind_run. cbn [ret fst snd].
      destruct (IH s1) as [Hl Hls].
      destruct (mapM_until (UploadChangedInputs_input E) l s1) as [[l'|] s2];
        cbn [fst snd option_map] in *.
      * split; [constructor; assumption|].
        intros Hall. inversion Hall as [|? ? H1 H2]; subst.
        rewrite Hls by assumption. now apply Hs.
      * split.
        -- destruct Hl as (i & Hin & Hi). exists i. split; [now right|auto].
        -- intros Hall. inversion Hall as [|? ? H1 H2]; subst.
           rewrite Hls by assumption. now apply Hs.
    + cbn [ret fst snd]. split.
      * destruct Hp as (i & -> & Hi). exists i. split; [now left|auto].
      * intros Hall. inversion Hall as [|? ? H1 H2]; subst. now apply Hs.
Qed.

(** X11.  On a null or pending-kill component UploadChangedInputs returns
    false and does nothing.  On a component that is alive it goes through
    the inputs in order and, when it returns, returns true, whatever has
    failed on the way: the Inputs array keeps its length, a null,
    pending-kill or unchanged input is left as it is, and a changed input
    no longer needs to trigger an update.  It does not return when the
    upload of a changed input runs into the null pointer of UploadInputData
    (lines 991-992), which takes an input that is alive, marked changed and
    whose outer is not an asset component.  When no input is changed, no
    call is made. *)
Theorem UploadChangedInputs_processes_each_changed_input :
  forall (s : Session),
  UploadChangedInputs E None s = (Some (false, None), s) /\
  forall h : UHoudiniAssetComponent,
    (HAC_bPendingKill h = true ->
     UploadChangedInputs E (Some h) s = (Some (false, Some h), s)) /\
    (HAC_bPendingKill h = false ->
     match fst (UploadChangedInputs E (Some h) s) with
     | Some r =>
         exists inputs,
           r = (true, Some (set_Inputs inputs h)) /\
           Forall2 ProcessedInput (Inputs h) inputs /\
           Datatypes.length inputs = Datatypes.length (Inputs h)
     | None => exists i, In (Some i) (Inputs h) /\ StopsAt i
     end /\
     (Forall (fun p => match p with
                       | Some i =>
                           In_bPendingKill i || negb (In_bHasChanged i) = true
                       | None => True
                       end) (Inputs h) ->
      UploadChangedInputs E (Some h) s = (Some (true, Some h), s))).
Proof.
  intros s. split; [reflexivity|]. intros h. unfold UploadChangedInputs.
  split; [intros ->; reflexivity|]. intros ->.
  destruct (mapM_until_UploadChangedInputs_input (Inputs h) s) as [Hl Hs].
  rewrite bind_run.
  destruct (mapM_until (UploadChangedInputs_input E) (Inputs h) s)
    as [[inputs|] s1] eqn:Hrun; cbn [ret fst snd] in *.
  - split.
    + exists inputs. split; [reflexivity|]. split; [exact Hl|].
      symmetry. eapply Forall2_length. exact Hl.
    + intros Hall. rewrite (Hs Hall). f_equal. f_equal. f_equal.
      assert (Hsame : inputs = Inputs h).
      { clear Hrun Hs. revert inputs Hl Hall.
        induction (Inputs h) as [|p l IH]; intros inputs Hl Hall;
          inversion Hl as [|? p' ? l' Hp Hrest]; subst; [reflexivity|].
        inversion Hall as [|? ? H1 H2]; subst.
        f_equal; [|now apply IH].
        unfold ProcessedInput in Hp. destruct p as [i|]; [|assumption].
        rewrite H1 in Hp. assumption. }
      rewrite Hsame. destruct h; reflexivity.
  - split; [exact Hl|].
    intros Hall. exfalso. destruct Hl as (i & Hin & Hpk & Hch & _).
    rewrite Forall_forall in Hall. specialize (Hall _ Hin). cbn in Hall.
    rewrite Hpk, Hch in Hall. discriminate.
Qed.

(** ** The move tracker and UpdateWorldInputs *)

Lemma Broadcasts_None : forall ds, Broadcasts ds None = None.
Proof. induction ds as [|d ds IH]; [reflexivity|exact IH]. Qed.

Lemma Broadcasts_app : forall ds1 ds2 g,
  Broadcasts (ds1 ++ ds2) g = Broadcasts ds2 (Broadcasts ds1 g).
Proof. intros. unfold Broadcasts. apply fold_left_app. Qed.

(** X12.  The move tracker says that an object is moving exactly when the
    last delegate broadcast since its construction is
    OnBeginObjectMovement: the end of the movement and both camera
    delegates reset it.  Delegates broadcast before the tracker is
    constructed, at the first call of Get, are lost, so that the first
    call of UpdateWorldInputs on a live component in the editor world is
    never refused on account of a movement. *)
Theorem FHoudiniMoveTracker_follows_the_last_delegate :
  (forall ds d t,
     option_map IsObjectMoving (Broadcasts (ds ++ [d]) (Some t))
     = Some match d with
            | OnBeginObjectMovement => true
            | _ => false
            end) /\
  (forall ds, Broadcasts ds None = None) /\
  (forall ds (h : UHoudiniAssetComponent),
     HAC_bPendingKill h = false ->
     Owner h = Some {| World := Some EWorldType.Editor |} ->
     fst (fst (UpdateWorldInputs E (Some h) (Broadcasts ds None))) = true).
Proof.
  split; [|split].
  - intros ds d t. rewrite Broadcasts_app. cbn.
    assert (H : exists t', Broadcasts ds (Some t) = Some t').
    { revert t. induction ds as [|a ds IH]; intros t; [now exists t|].
      cbn. apply IH. }
    destruct H as (t' & ->). destruct d; reflexivity.
  - apply Broadcasts_None.
  - intros ds h Hpk Ho. rewrite Broadcasts_None.
    unfold UpdateWorldInputs. rewrite Hpk, Ho. reflexivity.
Qed.

(** X13.  When UpdateWorldInputs goes through (a live component whose
    owner, if any, is in the editor world, and no object moving), it
    returns true and looks at the world inputs only: the Inputs array
    keeps its length, null inputs and inputs of every other type are left
    as they are, and each world input is what UpdateWorldInput makes of
    it.  UpdateWorldInput itself returns false and changes nothing on an
    input that is null, pending kill or not a world input. *)
Theorem UpdateWorldInputs_only_looks_at_world_inputs :
  (forall (h : UHoudiniAssetComponent) (t : FHoudiniMoveTracker),
     HAC_bPendingKill h = false ->
     match Owner h with
     | Some owner => World owner = Some EWorldType.Editor
     | None => True
     end ->
     IsObjectMoving t = false ->
     exists inputs,
       UpdateWorldInputs E (Some h) (Some t)
       = (true, Some (set_Inputs inputs h), Some t) /\
       Forall2 (WorldInputUpdated E) (Inputs h) inputs /\
       Datatypes.length inputs = Datatypes.length (Inputs h)) /\
  (forall p,
     match p with
     | Some i => In_bPendingKill i = true \/
                 InputType i <> EHoudiniInputType.World
     | None => True
     end ->
     UpdateWorldInput E p = (false, p)).
Proof.
  split.
  - intros h t Hpk Ho Hmov. unfold UpdateWorldInputs. rewrite Hpk.
    replace (match Owner h with
             | Some ActorOwner =>
                 match World ActorOwner with
                 | Some EWorldType.Editor => false
                 | _ => true
                 end
             | None => false
             end) with false.
    2: { destruct (Owner h) as [owner|]; [rewrite Ho|]; reflexivity. }
    cbn [FHoudiniMoveTracker_Get]. rewrite Hmov.
    eexists. split; [reflexivity|]. split.
    + induction (Inputs h) as [|p l IH]; cbn [map]; constructor; [|exact IH].
      destruct p as [i|]; cbn; [|reflexivity].
      destruct (InputType i); reflexivity.
    + apply length_map.
  - intros [i|] H; [|reflexivity]. unfold UpdateWorldInput.
    destruct (In_bPendingKill i); [reflexivity|].
    destruct H as [H|H]; [discriminate|].
    destruct (InputType i); try reflexivity. contradiction.
Qed.

(** ** UpdateInputs and UpdateLoadedInputs *)

Lemma DestroyInputNodes_invalidates : forall i T,
  In_bPendingKill i = false ->
  bCanDeleteHoudiniNodes (Settings i) = true ->
  T <> EHoudiniInputType.Asset ->
  Run (DestroyInputNodes E (Some i) T)
    (fun r _ => exists i', snd r = Some i' /\
       Invalidated (In_InputNodeId i) (In_InputNodeId i') /\
       match InputObjects i T with
       | Some objs => exists objs', InputObjects i' T = Some objs' /\
                                    Forall2 ObjectInvalidated objs objs'
       | None => InputObjects i' T = None
       end).
Proof.
  intros i T Hpk Hdel HT.
  assert (HT' : EHoudiniInputType.eqb T EHoudiniInputType.Asset = false).
  { destruct (EHoudiniInputType.eqb T _) eqn:H; [|reflexivity].
    apply EHoudiniInputType_eqb_eq in H. contradiction. }
  unfold DestroyInputNodes. rewrite Hpk, Hdel, HT'. cbn [negb].
  eapply Run_bind with
    (Q1 := fun r _ =>
       In_InputNodeId (fst r) = In_InputNodeId i /\
       match InputObjects i T with
       | Some objs => exists objs', InputObjects (fst r) T = Some objs' /\
                                    Forall2 ObjectInvalidated objs objs'
       | None => InputObjects (fst r) T = None
       end).
  - destruct (InputObjects i T) as [objs|] eqn:Hobjs.
    + eapply Run_bind; [apply DestroyInputNodes_objects_run|].
      intros [objs' Ids] n1 [H1 _]. cbn in H1. apply Run_ret. cbn [fst].
      split; [reflexivity|]. exists objs'.
      split; [apply InputObjects_set_same|assumption].
    + apply Run_ret. cbn [fst]. split; [reflexivity|assumption].
  - intros [i1 Ids] n1 [Hnode Hobjs]. cbn [fst] in Hnode, Hobjs.
    eapply Run_bind; [apply DestroyInputNodes_assets_run|].
    intros u n2 _.
    eapply Run_bind; [apply DestroyInputNodes_own_node_run|].
    intros i2 n3 [Hinv Hsame]. apply Run_ret.
    exists i2. split; [reflexivity|]. rewrite <- Hnode.
    split; [assumption|]. rewrite Hsame. assumption.
Qed.

Lemma UpdateLoadedInputs_input_reloaded : forall a p s,
  Reloaded a p (fst (UpdateLoadedInputs_input E a p s)).
Proof.
  intros a [i|] s; [|reflexivity]. unfold Reloaded, UpdateLoadedInputs_input.
  destruct (In_bPendingKill i) eqn:Hpk; [reflexivity|].
  set (i1 := SetAssetNodeId a i).
  destruct (DestroyInputNodes_frame i1 (InputType i1) s)
    as ([b r] & new & Hrun & _ & i' & Hr & Hsame).
  cbn in Hr. subst r. rewrite bind_run. rewrite Hrun. cbn [fst snd ret orSame].
  exists i'. split; [reflexivity|].
  unfold SameButNodes in Hsame.
  repeat match goal with H : _ /\ _ |- _ => destruct H end.
  split; [assumption|]. split; [assumption|].
  split; [match goal with
          | H : In_bPendingKill i' = _ |- _ => rewrite H; exact Hpk
          end|].
  intros Hdel HT.
  assert (Hr := DestroyInputNodes_invalidates i1 (InputType i1) Hpk Hdel HT s).
  destruct Hr as ([b' r'] & new' & Hrun' & i'' & Hr' & Hinv & Hobjs).
  rewrite Hrun in Hrun'. injection Hrun' as <- <- _. cbn in Hr'.
  injection Hr' as <-.
  split; [destruct Hinv; lia|].
  intros objs' o Ho' Hin Hlive.
  change (InputType i1) with (InputType i) in Hobjs.
  change (InputObjects i1) with (InputObjects i) in Hobjs.
  destruct (InputObjects i (InputType i)) as [objs|]; [|congruence].
  destruct Hobjs as (objs'' & Ho'' & HF). rewrite Ho' in Ho''.
  injection Ho'' as <-.
  clear - HF Hin Hlive. induction HF as [|p p' l l' Hp HF IH]; [destruct Hin|].
  destruct Hin as [->|Hin]; [|now apply IH].
  unfold ObjectInvalidated in Hp. destruct p as [o0|]; [|discriminate].
  destruct (bPendingKill o0) eqn:Hpk0.
  - injection Hp as <-. congruence.
  - destruct Hp as (o' & Heq & _ & [H1 _] & [H2 _]). injection Heq as <-.
    split; assumption.
Qed.

Lemma mapM_UpdateLoadedInputs_input : forall a l s,
  Forall2 (Reloaded a) l (fst (mapM (UpdateLoadedInputs_input E a) l s)).
Proof.
  intros a. induction l as [|p l IH]; intros s; cbn [mapM]; [constructor|].
  rewrite bind_run, bind_run. cbn [ret fst snd].
  constructor; [apply UpdateLoadedInputs_input_reloaded|apply IH].
Qed.

(** X14.  UpdateInputs and UpdateLoadedInputs return false without a call
    on a component that is null or pending kill, and fail as BuildAllInputs
    does.  Whenever BuildAllInputs succeeds UpdateLoadedInputs returns
    true, whatever DestroyInputNodes answers.  Every surviving input that
    BuildAllInputs has left then carries the asset id of the component,
    keeps its type, and, if it may delete nodes and is not an asset input,
    is left with no valid node id, neither its own nor those of its
    surviving input objects. *)
Theorem UpdateLoadedInputs_resets_the_loaded_inputs :
  forall (s : Session),
  UpdateInputs E None s = (Some (false, None), s) /\
  UpdateLoadedInputs E None s = (Some (false, None), s) /\
  forall h : UHoudiniAssetComponent,
    (HAC_bPendingKill h = true ->
     UpdateInputs E (Some h) s = (Some (false, Some h), s) /\
     UpdateLoadedInputs E (Some h) s = (Some (false, Some h), s)) /\
    (HAC_bPendingKill h = false ->
     match fst (BuildAllInputs E (AssetId h) (Inputs h) (Parameters h) s) with
     | None =>
         fst (UpdateInputs E (Some h) s) = None /\
         fst (UpdateLoadedInputs E (Some h) s) = None
     | Some (false, built, params) =>
         UpdateInputs E (Some h) s
         = (Some (false, Some (set_Inputs_Parameters built params h)),
            snd (BuildAllInputs E (AssetId h) (Inputs h) (Parameters h) s)) /\
         UpdateLoadedInputs E (Some h) s = UpdateInputs E (Some h) s
     | Some (true, built, params) =>
         fst (UpdateInputs E (Some h) s)
         = Some (true, Some (set_Inputs_Parameters built params h)) /\
         exists inputs,
           fst (UpdateLoadedInputs E (Some h) s)
           = Some (true, Some (set_Inputs_Parameters inputs params h)) /\
           Forall2 (Reloaded (AssetId h)) built inputs
     end).
Proof.
  intros s. split; [reflexivity|]. split; [reflexivity|]. intros h.
  unfold UpdateInputs, UpdateLoadedInputs.
  split; [intros ->; split; reflexivity|]. intros ->.
  rewrite !bind_run.
  destruct (BuildAllInputs E (AssetId h) (Inputs h) (Parameters h) s)
    as [[[[[|] built] params]|] s1]; cbn [fst snd ret].
  - split; [reflexivity|]. rewrite bind_run. cbn [fst snd ret].
    eexists. split; [reflexivity|]. apply mapM_UpdateLoadedInputs_input.
  - split; reflexivity.
  - split; reflexivity.
Qed.

(** ** The reference to an asset *)

Lemma String_length_append : forall a b : string,
  String.length (a ++ b) = (String.length a + String.length b)%nat.
Proof. induction a as [|c a IH]; intros b; cbn; [reflexivity|now rewrite IH]. Qed.

(** X15.  The reference built from an object's full name, which is the
    class name, a space and the path name, is the class name followed by
    the path name between single quotes: only the first space is
    replaced, later spaces of the path are kept.  A name without a space
    only has the quote attached; in every case the reference is one
    character longer than the name. *)
Theorem QuoteAssetReference_quotes_the_path :
  (forall cls path : string,
     NoSpace cls ->
     QuoteAssetReference (cls ++ " " ++ path)
     = (cls ++ "'" ++ path ++ "'")%string) /\
  (forall name : string,
     NoSpace name -> QuoteAssetReference name = (name ++ "'")%string) /\
  (forall name : string,
     String.length (QuoteAssetReference name) = S (String.length name)).
Proof.
  unfold QuoteAssetReference. split; [|split].
  - induction cls as [|c cls IH]; intros path H; cbn [ReplaceFirstSpace append].
    + reflexivity.
    + destruct H as [Hc H]. destruct (Ascii.eqb c " ") eqn:Heq.
      * apply Ascii.eqb_eq in Heq. contradiction.
      * cbn [append]. f_equal. apply IH. exact H.
  - induction name as [|c name IH]; intros H; cbn [ReplaceFirstSpace append].
    + reflexivity.
    + destruct H as [Hc H]. destruct (Ascii.eqb c " ") eqn:Heq.
      * apply Ascii.eqb_eq in Heq. contradiction.
      * cbn [append]. f_equal. apply IH. exact H.
  - intros name.
    assert (Hlen : String.length (ReplaceFirstSpace name) = String.length name).
    { induction name as [|c name IH]; cbn [ReplaceFirstSpace]; [reflexivity|].
      destruct (Ascii.eqb c " "); cbn; [reflexivity|now rewrite IH]. }
    rewrite String_length_append, Hlen. cbn. lia.
Qed.

End Properties.

Lemma UpdateTransformOffset_stops_at_first_failure_witness :
  let E := engine_where second_offset_fails in
  let i := input_with_offsets in
  exists b done rest,
    UpdateTransformOffset E (Some i) [] = (b, rev done ++ []) /\
    OffsetCalls E [Some (moved_object 10 [1]); Some (moved_object 20 [2]);
                   Some (moved_object 30 [3])] = done ++ rest /\
    (b = true -> rest = []) /\
    (b = false ->
     exists pre c, done = pre ++ [c] /\ FailsAfter E [] (rev pre) c).
Proof.
  exact (proj2 (UpdateTransformOffset_stops_at_first_failure
                  (engine_where second_offset_fails) input_with_offsets []
                  eq_refl)
           _ eq_refl eq_refl).
Defined.

Lemma UpdatePackBeforeMerge_queries_each_merge_witness :
  let E := engine_where (fun _ => false) in
  let i := input_with_offsets in
  exists b new,
    UpdatePackBeforeMerge E (Some i) [] = (b, new ++ []) /\
    QueriesOf (rev new) = [(3, 0); (3, 1)] /\
    (b = true <->
     forall pre c post node, new = post ++ c :: pre ->
       c = SetParmIntValue node "pack" 0 0 ->
       hapi_result E (pre ++ []) c = true).
Proof.
  exact (proj2 (UpdatePackBeforeMerge_queries_each_merge
                  (engine_where (fun _ => false)) input_with_offsets []
                  eq_refl)
           (or_intror eq_refl) ltac:(vm_compute; discriminate)).
Defined.

Lemma UploadInputData_with_nothing_to_plug_witness :
  let E := Scenarios.engine true in
  let i := input_with_dead_objects in
  let i1 := set_InputObjects (InputType i) [None; Some dead_object] i in
  exists new,
    UploadInputData E (Some i) []
    = (Some (true, Some (SetInputNodeId (-1) (set_CreatedDataNodeIds [] i1))),
       new ++ []) /\
    (HasInputTypeChanged E i1 = true -> new = []) /\
    (HasInputTypeChanged E i1 = false ->
     Forall (UnplugsFrom 3) new /\
     (3 < 0 -> new = []) /\
     (0 <= 3 ->
      forall k, 0 <= k < 2 -> In (DisconnectNodeInput 3 k) new)).
Proof.
  apply (proj2 (UploadInputData_with_nothing_to_plug (Scenarios.engine true)
                  input_with_dead_objects [None; Some dead_object] []
                  eq_refl eq_refl
                  ltac:(repeat constructor))).
  right. left. discriminate.
Defined.

Lemma Actor_upload_succeeds_whatever_its_components_do_witness :
  let E := engine_where translators_fail in
  exists o' ids' i' new,
    UploadHoudiniInputObject E (Some (Scenarios.geo_input [Some actor_object] 3 []))
      (Some actor_object) [] []
    = ((true, Some o', ids', Some i'), new ++ []) /\
    bHasChanged o' = false /\
    bNeedsToTriggerUpdate o' = false /\
    (false = true ->
     new = [] /\ ids' = [] /\
     i' = Scenarios.geo_input [Some actor_object] 3 []).
Proof.
  apply (Actor_upload_succeeds_whatever_its_components_do
           (engine_where translators_fail)
           (Scenarios.geo_input [Some actor_object] 3 []) actor_object [] []);
    [reflexivity | reflexivity | reflexivity | discriminate].
Defined.

End InputTranslatorMore.

(* ===================================================================== *)
(** * Properties of the marshalling translators                           *)
(* ===================================================================== *)

Module MarshallingSpec.
Import HoudiniInput Api InputTranslator Marshalling Point.

Ltac unfold_geo :=
  cbv [checked gbind gcall gcall_int gret GetParentNodeId].

Ltac by_results H :=
  repeat match goal with
         | |- context [if negb (geo_result H ?s ?c) then _ else _] =>
             destruct (geo_result H s c) eqn:?; cbn [negb]
         | |- context [if geo_result H ?s ?c then _ else _] =>
             destruct (geo_result H s c) eqn:?
         end.

(** The run made the first [n] calls of the list in the goal. *)
Ltac made n :=
  solve [ eexists _, _, n; cbn; repeat split; auto;
          try discriminate; try lia ].

(** The calls in front of [s] in the log [l]. *)
Ltac geo_added l s :=
  match l with
  | s => constr:(@nil GeoCall)
  | ?c :: ?l' => let p := geo_added l' s in constr:(c :: p)
  end.

Section Properties.

Variable H : Host.

(** X16. On a live object, HapiCreateInputNodeForObject makes an initial
    part of the eight calls of [ObjectPoint], in that order: it creates
    the node, asks for its parent, declares a part of one point with two
    point attributes, and uploads the position (X, Z, Y, scaled) and the
    path name of the object.  It answers true only after all eight.  When
    the node cannot be created the input object is left as it was; once
    it is created the input object names the node and its parent, whether
    or not the rest of the upload succeeds. *)
Theorem HapiCreateInputNodeForObject_uploads_one_point :
  forall (name : string) (o : UHoudiniInputObject) (Object : UObject) (s : Log),
    GetObject H o = Some Object ->
    Obj_bPendingKill Object = false ->
    let NodeName := (name ++ "_" ++ Obj_Name Object)%string in
    let node := geo_node H s (CreateInputNode NodeName) in
    exists (b : bool) (o' : UHoudiniInputObject) (n : nat),
      HapiCreateInputNodeForObject H name (Some o) s
      = ((b, Some o'), rev (firstn n (ObjectPoint H NodeName o Object s)) ++ s)
      /\ (b = true -> n = 8%nat)
      /\ (geo_result H s (CreateInputNode NodeName) = false ->
          b = false /\ o' = o /\ n = 1%nat)
      /\ (geo_result H s (CreateInputNode NodeName) = true ->
          (2 <= n)%nat
          /\ o' = set_InputObjectNodeId
                    (geo_node H (CreateInputNode NodeName :: s)
                       (Api (HapiGetParentNodeId node)))
                    (set_InputNodeId node o)).
Proof.
  intros name o Object s HO Hpk NodeName node.
  unfold HapiCreateInputNodeForObject. rewrite HO, Hpk.
  fold NodeName. unfold_geo. fold node.
  destruct (geo_result H s (CreateInputNode NodeName)) eqn:Hc; cbn [negb].
  2:{ exists false, o, 1%nat. cbn. repeat split; auto; discriminate. }
  by_results H.
  all: first [ made 8%nat | made 7%nat | made 6%nat | made 5%nat
             | made 4%nat | made 3%nat | made 2%nat ].
Qed.

(** X17. CreateInputNodeForReference creates the new node first.  When
    the node is created and valid, and the id it was given names a
    previous node (it is not negative), that node and its parent are
    deleted, and nothing else ever is.  It answers true only after the
    reference string and the position have been uploaded to the new node,
    and then hands back the id of the new node; when it answers false the
    id is left as it was, also when the previous node has been deleted. *)
Theorem CreateInputNodeForReference_replaces_the_node :
  forall (InputNodeId : Z) (InRef name : string) (xf : FTransform) (s : Log),
    let create := CreateInputNode name in
    let NewNodeId := geo_node H s create in
    let check := Api (IsHoudiniNodeValid NewNodeId) in
    let usable := geo_result H s create && geo_result H (create :: s) check in
    let parent := geo_node H (check :: create :: s)
                    (Api (HapiGetParentNodeId InputNodeId)) in
    exists (b : bool) (id' : Z) (new : list GeoCall),
      CreateInputNodeForReference H InputNodeId InRef name xf s
      = ((b, id'), new ++ s)
      /\ (b = true ->
          id' = NewNodeId /\ usable = true
          /\ In (SetAttributeStringData NewNodeId
                   HAPI_UNREAL_ATTRIB_INSTANCE_OVERRIDE
                   {| count := 1; tupleSize := 1;
                      storage := HAPI_STORAGETYPE_STRING |} [InRef]) new
          /\ In (SetAttributeFloatData NewNodeId HAPI_UNREAL_ATTRIB_POSITION
                   {| count := 1; tupleSize := 3;
                      storage := HAPI_STORAGETYPE_FLOAT |}
                   (HoudiniPosition H xf)) new)
      /\ (b = false -> id' = InputNodeId)
      /\ (forall n : Z,
            In (Api (DeleteNode n)) new <->
            usable = true /\ 0 <= InputNodeId
            /\ (n = InputNodeId \/ n = parent)).
Proof.
  intros InputNodeId InRef name xf s create NewNodeId check usable parent.
  unfold CreateInputNodeForReference. fold create. unfold_geo.
  fold NewNodeId. fold check. subst usable.
  destruct (geo_result H s create) eqn:Hc; cbn [negb andb].
  2:{ exists false, InputNodeId, [create].
      split; [reflexivity|]. split; [discriminate|]. split; [reflexivity|].
      intros n. cbn. split.
      - intros [Hf|[]]; discriminate.
      - intros [Hf _]; discriminate. }
  destruct (geo_result H (create :: s) check) eqn:Hv; cbn [negb].
  2:{ exists false, InputNodeId, [check; create].
      split; [reflexivity|]. split; [discriminate|]. split; [reflexivity|].
      intros n. cbn. split.
      - intros [Hf|[Hf|[]]]; discriminate.
      - intros [Hf _]; discriminate. }
  destruct (InputNodeId >=? 0) eqn:Hge; cbn.
  - fold parent. by_results H.
    all: match goal with
         | |- exists b id' new, (_, ?l) = _ /\ _ =>
             let p := geo_added l s in
             eexists _, _, p; split; [reflexivity|]
         end.
    all: split;
      [ first [ discriminate
              | intros _; cbn; repeat split; auto 12 ]
      | split; [ first [ reflexivity | discriminate ] | ] ].
    all: intros n; cbn; split;
      [ intros Hi;
        repeat (destruct Hi as [Hi|Hi]; try discriminate Hi);
        try contradiction;
        (split; [reflexivity|split; [lia|]]);
        first [ left; congruence | right; congruence ]
      | intros (_ & _ & [Hn|Hn]); subst n; tauto ].
  - by_results H.
    all: match goal with
         | |- exists b id' new, (_, ?l) = _ /\ _ =>
             let p := geo_added l s in
             eexists _, _, p; split; [reflexivity|]
         end.
    all: split;
      [ first [ discriminate
              | intros _; cbn; repeat split; auto 12 ]
      | split; [ first [ reflexivity | discriminate ] | ] ].
    all: intros n; cbn; split;
      [ intros Hi;
        repeat (destruct Hi as [Hi|Hi]; try discriminate Hi);
        contradiction
      | intros (_ & Hn & _); lia ].
Qed.

(** HapiCreateInputNodeForSceneComponent never calls the session and
    never changes the input object: it answers true exactly when the
    input object is alive and its scene component is gone, so a live
    scene component is never uploaded. *)
Lemma HapiCreateInputNodeForSceneComponent_never_uploads :
  forall (name : string) (InObject : option UHoudiniInputObject) (s : Log),
    exists b : bool,
      HapiCreateInputNodeForSceneComponent H name InObject s
      = ((b, InObject), s)
      /\ (b = true <->
          exists o, InObject = Some o /\ bPendingKill o = false
                    /\ forall c, GetSceneComponent H o = Some c ->
                                 Obj_bPendingKill c = true).
Proof.
  intros name [o|] s; cbn.
  2:{ exists false. split; [reflexivity|].
      split; [discriminate|intros (o & Ho & _); discriminate]. }
  destruct (bPendingKill o) eqn:Hpk.
  { exists false. split; [reflexivity|].
    split; [discriminate|].
    intros (o' & Ho & Hl & _). injection Ho as <-. congruence. }
  destruct (GetSceneComponent H o) as [c|] eqn:Hc.
  - destruct (Obj_bPendingKill c) eqn:Hck.
    + exists true. split; [reflexivity|]. split; [|reflexivity].
      intros _. exists o. split; [reflexivity|]. split; [assumption|].
      intros c' Hc'. congruence.
    + exists false. split; [reflexivity|]. split; [discriminate|].
      intros (o' & Ho & _ & Hall). injection Ho as <-.
      rewrite Hc in Hall. specialize (Hall c eq_refl). congruence.
  - exists true. split; [reflexivity|]. split; [|reflexivity].
    intros _. exists o. split; [reflexivity|]. split; [assumption|].
    intros c' Hc'. congruence.
Qed.

(** ** The data table *)

Lemma ColumnValues_entries : forall (rows : list (list string)) (c : nat) vs,
  ColumnValues rows c = Some vs ->
  vs = map (fun row => nth c row ""%string) rows
  /\ Forall (fun row => (c < Datatypes.length row)%nat) rows.
Proof.
  induction rows as [|row rows IH]; intros c vs Hv; cbn in Hv.
  - injection Hv as <-. split; constructor.
  - destruct (nth_error row c) as [v|] eqn:Hn; [|discriminate].
    destruct (ColumnValues rows c) as [vs'|] eqn:Hr; [|discriminate].
    injection Hv as <-. destruct (IH c vs' Hr) as [-> HF].
    split.
    + cbn. f_equal. symmetry. apply nth_error_nth. exact Hn.
    + constructor; [|exact HF].
      apply nth_error_Some. congruence.
Qed.

Lemma UploadColumns_true :
  forall (A : Type) (node NumRows : Z) header rows (Columns : list Z)
         (f x : A) (k : G (option (bool * A))) (s s' : Log),
    UploadColumns H node NumRows (header :: rows) Columns (Some (false, f)) k s
    = (Some (true, x), s') ->
    k (rev (ColumnsCalls node NumRows header rows Columns) ++ s)
    = (Some (true, x), s')
    /\ Forall (fun c => Forall (fun row => (Z.to_nat c < Datatypes.length row)%nat)
                          rows) Columns.
Proof.
  intros A node NumRows header rows Columns f x k.
  induction Columns as [|c Columns IH]; intros s s' Hrun.
  - split; [exact Hrun|constructor].
  - cbn [UploadColumns] in Hrun. cbn [nth tl] in Hrun.
    destruct (nth_error header (Z.to_nat c)) as [ColName|] eqn:Hh;
      [|discriminate Hrun].
    destruct (ColumnValues rows (Z.to_nat c)) as [vs|] eqn:Hv;
      [|discriminate Hrun].
    destruct (ColumnValues_entries _ _ _ Hv) as [-> HF].
    revert Hrun. unfold_geo.
    match goal with
    | |- context [if geo_result H ?s ?c then _ else _] =>
        destruct (geo_result H s c) eqn:?; [|discriminate]
    end.
    match goal with
    | |- context [if geo_result H ?s ?c then _ else _] =>
        destruct (geo_result H s c) eqn:?; [|discriminate]
    end.
    intros Hrun. apply IH in Hrun. destruct Hrun as [Hk HFs].
    split; [|constructor; assumption].
    rewrite <- Hk. f_equal.
    unfold ColumnsCalls. cbn [flat_map].
    rewrite (nth_error_nth _ _ _ Hh).
    rewrite rev_app_distr. unfold ColumnCalls at 1. cbn [rev app].
    rewrite <- !app_assoc. reflexivity.
Qed.

Lemma ColumnsCalls_attributes : forall node NumRows header rows Columns,
  Datatypes.length (filter IsAddAttribute
                      (ColumnsCalls node NumRows header rows Columns))
  = Datatypes.length Columns.
Proof.
  intros node NumRows header rows Columns.
  induction Columns as [|c Columns IH]; [reflexivity|].
  unfold ColumnsCalls in *. cbn. f_equal. exact IH.
Qed.

Lemma upto_length : forall n : nat,
  Datatypes.length (upto (Z.of_nat n)) = n.
Proof.
  intros n. unfold upto. rewrite length_map, length_seq. apply Nat2Z.id.
Qed.

(** X18. When HapiCreateInputNodeForDataTable answers true for a table
    with a header and rows, the calls it has made are those of
    [TableHead], one pair of calls for each column of the header in
    order, CommitGeo and CookNode: the columns are uploaded one by one,
    each as a string attribute named after the prefix, its index and its
    header entry, holding the entries of that column in the order of the
    rows.  Every row then has an entry for every column; the part
    declares as many point attributes as the header has columns although
    three more are added; and the input object names the new node and
    its parent. *)
Theorem HapiCreateInputNodeForDataTable_uploads_each_column :
  forall (name : string) (o o' : UHoudiniInputObject) (T : UDataTable)
         (header : list string) (rows : list (list string)) (s : Log),
    bPendingKill o = false ->
    GetDataTable H o = Some T ->
    Table_bPendingKill T = false ->
    TableData T = header :: rows ->
    header <> [] ->
    rows <> [] ->
    fst (HapiCreateInputNodeForDataTable H name (Some o) s)
    = Some (true, Some o') ->
    let NodeName := (name ++ "_" ++ Table_Name T)%string in
    let node := geo_node H s (CreateInputNode NodeName) in
    let NumRows := Z.of_nat (Datatypes.length rows) in
    let NumAttributes := Z.of_nat (Datatypes.length header) in
    let new := TableHead H NodeName T NumAttributes NumRows s
               ++ ColumnsCalls node NumRows header rows (upto NumAttributes)
               ++ [CommitGeo node; CookNode node] in
    snd (HapiCreateInputNodeForDataTable H name (Some o) s) = rev new ++ s
    /\ Forall (fun row => (Datatypes.length header
                           <= Datatypes.length row)%nat) rows
    /\ Datatypes.length (filter IsAddAttribute new)
       = (Datatypes.length header + 3)%nat
    /\ o' = set_InputObjectNodeId
              (geo_node H (CreateInputNode NodeName :: s)
                 (Api (HapiGetParentNodeId node)))
              (set_InputNodeId node o).
Proof.
  intros name o o' T header rows s Hlive HT Hpk HD Hh Hr Hrun
         NodeName node NumRows NumAttributes new.
  destruct rows as [|row rows']; [contradiction|].
  destruct header as [|h header']; [contradiction|].
  clear Hh Hr.
  set (rows := row :: rows') in *. set (header := h :: header') in *.
  assert (Hn : Z.of_nat (Datatypes.length (TableData T)) - 1 = NumRows).
  { rewrite HD. subst NumRows. cbn [Datatypes.length]. lia. }
  assert (Hg1 : (Z.of_nat (Datatypes.length (TableData T)) <=? 1) = false).
  { apply Z.leb_gt. rewrite HD. subst rows. cbn [Datatypes.length]. lia. }
  assert (Hg2 : ((NumRows <=? 0) || (NumAttributes <=? 0)) = false).
  { apply orb_false_iff. split; apply Z.leb_gt.
    - subst NumRows rows. cbn [Datatypes.length]. lia.
    - subst NumAttributes header. cbn [Datatypes.length]. lia. }
  revert Hrun. unfold HapiCreateInputNodeForDataTable.
  rewrite Hlive, HT, Hpk. cbv zeta. rewrite Hg1, Hn.
  replace (nth 0 (TableData T) []) with header by (rewrite HD; reflexivity).
  fold NumAttributes. rewrite Hg2. fold NodeName.
  rewrite HD. unfold_geo. fold node.
  destruct (geo_result H s (CreateInputNode NodeName)) eqn:Hc; cbn [negb];
    [|discriminate].
  repeat match goal with
         | |- context [if geo_result H ?s ?c then _ else _] =>
             destruct (geo_result H s c) eqn:?; [|discriminate]
         end.
  match goal with
  | |- context [UploadColumns H ?n ?r ?t ?c ?f ?k ?s0] =>
      destruct (UploadColumns H n r t c f k s0) as [[[b x]|] s'] eqn:Hup
  end; cbn [fst snd]; try discriminate.
  intros Hres. injection Hres as -> ->.
  apply UploadColumns_true in Hup. destruct Hup as [Hk HF].
  revert Hk. unfold_geo.
  repeat match goal with
         | |- context [if geo_result H ?s ?c then _ else _] =>
             destruct (geo_result H s c) eqn:?; [|discriminate]
         end.
  intros Hk. injection Hk as Ho' <-.
  split; [|split; [|split]].
  - subst new. unfold TableHead. fold node.
    rewrite !rev_app_distr. cbn [rev app]. rewrite <- !app_assoc.
    reflexivity.
  - apply Forall_forall. intros r Hr.
    rewrite Forall_forall in HF.
    assert (Hin : In (Z.of_nat (Datatypes.length header')) (upto NumAttributes)).
    { unfold upto. apply in_map. apply in_seq.
      subst NumAttributes header. rewrite Nat2Z.id. cbn [Datatypes.length]. lia. }
    specialize (HF _ Hin). rewrite Forall_forall in HF.
    specialize (HF r Hr). rewrite Nat2Z.id in HF.
    subst header. cbn [Datatypes.length]. lia.
  - subst new. rewrite !filter_app, !length_app.
    rewrite ColumnsCalls_attributes. subst NumAttributes.
    rewrite upto_length. cbn. lia.
  - symmetry. exact Ho'.
Qed.

(** X19. A data table with no row after its header, or with an empty
    first row, is not uploaded: HapiCreateInputNodeForDataTable answers
    true without a call and leaves the input object as it is.  The same
    holds when the table itself is gone, while a missing or dead input
    object gives false. *)
Theorem HapiCreateInputNodeForDataTable_skips_an_empty_table :
  forall (name : string) (s : Log),
    HapiCreateInputNodeForDataTable H name None s = (Some (false, None), s)
    /\ forall o : UHoudiniInputObject,
         (bPendingKill o = true ->
          HapiCreateInputNodeForDataTable H name (Some o) s
          = (Some (false, Some o), s))
         /\ (bPendingKill o = false ->
             (forall T, GetDataTable H o = Some T ->
                        Table_bPendingKill T = true
                        \/ (Datatypes.length (TableData T) <= 1)%nat
                        \/ nth 0 (TableData T) [] = []) ->
             HapiCreateInputNodeForDataTable H name (Some o) s
             = (Some (true, Some o), s)).
Proof.
  intros name s. split; [reflexivity|].
  intros o. split; intros Hpk; unfold HapiCreateInputNodeForDataTable;
    rewrite Hpk; [reflexivity|].
  intros HT. destruct (GetDataTable H o) as [T|]; [|reflexivity].
  destruct (HT T eq_refl) as [Hk|[Hl|He]].
  - rewrite Hk. reflexivity.
  - destruct (Table_bPendingKill T); [reflexivity|]. cbv zeta.
    destruct (Z.of_nat (Datatypes.length (TableData T)) <=? 1) eqn:Hg;
      [reflexivity|].
    apply Z.leb_gt in Hg. lia.
  - destruct (Table_bPendingKill T); [reflexivity|]. cbv zeta.
    destruct (Z.of_nat (Datatypes.length (TableData T)) <=? 1);
      [reflexivity|].
    rewrite He. cbn [Datatypes.length Z.of_nat].
    rewrite orb_true_r. reflexivity.
Qed.

End Properties.

Lemma HapiCreateInputNodeForObject_uploads_one_point_witness :
  let H := host_where commit_fails prices in
  exists (b : bool) (o' : UHoudiniInputObject) (n : nat),
    HapiCreateInputNodeForObject H "in" (Some plain_object) []
    = ((b, Some o'),
       rev (firstn n (ObjectPoint H "in_Cube" plain_object
                        {| Obj_bPendingKill := false; Obj_Name := "Cube";
                           Obj_PathName := "/Game/Cube.Cube" |} [])) ++ [])
    /\ (b = true -> n = 8%nat)
    /\ (true = false -> b = false /\ o' = plain_object /\ n = 1%nat)
    /\ (true = true ->
        (2 <= n)%nat
        /\ o' = set_InputObjectNodeId 101 (set_InputNodeId 100 plain_object)).
Proof.
  exact (HapiCreateInputNodeForObject_uploads_one_point
           (host_where commit_fails prices) "in" plain_object _ []
           eq_refl eq_refl).
Defined.

Lemma HapiCreateInputNodeForDataTable_uploads_each_column_witness :
  let H := host_where nothing_fails prices in
  let o' := set_InputObjectNodeId 101 (set_InputNodeId 100 table_object) in
  let str := {| count := 3; tupleSize := 1;
                storage := HAPI_STORAGETYPE_STRING |} in
  snd (HapiCreateInputNodeForDataTable H "in" (Some table_object) [])
  = rev (TableHead H "in_Prices"
           {| Table_bPendingKill := false; Table_Name := "Prices";
              Table_PathName := "/Game/Prices.Prices";
              RowStructName := "PriceRow"; TableData := prices |} 2 3 []
         ++ [ AddAttribute 100
                (HAPI_UNREAL_ATTRIB_DATA_TABLE_PREFIX "0_Name") str;
              Utils_SetAttributeStringData ["apple"; "pear"; "plum"]%string 100
                (HAPI_UNREAL_ATTRIB_DATA_TABLE_PREFIX "0_Name") str;
              AddAttribute 100
                (HAPI_UNREAL_ATTRIB_DATA_TABLE_PREFIX "1_Price") str;
              Utils_SetAttributeStringData ["3"; "4"; "5"]%string 100
                (HAPI_UNREAL_ATTRIB_DATA_TABLE_PREFIX "1_Price") str ]
         ++ [CommitGeo 100; CookNode 100]) ++ []
  /\ Forall (fun row => (2 <= Datatypes.length row)%nat)
       [ ["apple"; "3"]; ["pear"; "4"]; ["plum"; "5"] ]%string
  /\ 5%nat = (2 + 3)%nat
  /\ o' = o'.
Proof.
  exact (HapiCreateInputNodeForDataTable_uploads_each_column
           (host_where nothing_fails prices) "in" table_object
           (set_InputObjectNodeId 101 (set_InputNodeId 100 table_object))
           _ ["Name"; "Price"]%string
           [ ["apple"; "3"]; ["pear"; "4"]; ["plum"; "5"] ]%string []
           eq_refl eq_refl eq_refl eq_refl
           ltac:(discriminate) ltac:(discriminate) eq_refl).
Defined.

End MarshallingSpec.

(* ===================================================================== *)
(** * Properties of the objects of an output                              *)
(* ===================================================================== *)

Module OutputObjectsSpec.
Import OutputObjects Shown.

Section Properties.

Variable Identifier : Type.
Variable Identifier_eqb : Identifier -> Identifier -> bool.
Variable EHoudiniPartType : Type.
Variable HoudiniPartTypeToString : EHoudiniPartType -> string.
Variable Matches : Identifier -> FHoudiniGeoPartObject EHoudiniPartType -> bool.
Variable DefaultHGPO : FHoudiniGeoPartObject EHoudiniPartType.

Lemma Find_split : forall (Key : Identifier) m v,
  Find Identifier_eqb Key m = Some v ->
  exists pre k post,
    m = pre ++ (k, v) :: post
    /\ Identifier_eqb k Key = true
    /\ Forall (fun e => Identifier_eqb (fst e) Key = false) pre
    /\ forall f, WriteFound Identifier_eqb Key f m = pre ++ (k, f v) :: post.
Proof.
  intros Key m. induction m as [|[k w] m IH]; intros v Hf; [discriminate|].
  cbn in Hf. destruct (Identifier_eqb k Key) eqn:Hk.
  - injection Hf as <-. exists [], k, m.
    repeat split; auto. intros f. cbn. rewrite Hk. reflexivity.
  - destruct (IH v Hf) as (pre & k' & post & -> & Hk' & Hpre & Hw).
    exists ((k, w) :: pre), k', post.
    repeat split; auto.
    intros f. cbn. rewrite Hk, Hw. reflexivity.
Qed.

Lemma Find_WriteFound : forall (Key : Identifier) f m,
  Find Identifier_eqb Key (WriteFound Identifier_eqb Key f m)
  = option_map f (Find Identifier_eqb Key m).
Proof.
  intros Key f m. induction m as [|[k w] m IH]; [reflexivity|].
  cbn. destruct (Identifier_eqb k Key) eqn:Hk; cbn; rewrite Hk; auto.
Qed.

Lemma WriteFound_twice : forall (Key : Identifier) f g m,
  WriteFound Identifier_eqb Key g (WriteFound Identifier_eqb Key f m)
  = WriteFound Identifier_eqb Key (fun v => g (f v)) m.
Proof.
  intros Key f g m. induction m as [|[k w] m IH]; [reflexivity|].
  cbn. destruct (Identifier_eqb k Key) eqn:Hk; cbn; rewrite Hk;
    [reflexivity|]. rewrite IH. reflexivity.
Qed.

(** X20. OnBakeNameCommitted changes at most one thing: the bake name of
    the first output object whose key equals the identifier, which becomes
    the committed text.  No output object is added, removed or moved, and
    when no key equals the identifier the output is left as it is. *)
Theorem OnBakeNameCommitted_names_the_found_object :
  forall (Val : string) (o : UHoudiniOutput Identifier EHoudiniPartType)
         (Id : Identifier),
    OnBakeNameCommitted (EHoudiniPartType := EHoudiniPartType)
      Identifier_eqb Val None Id = None
    /\ exists o',
         OnBakeNameCommitted Identifier_eqb Val (Some o) Id = Some o'
         /\ bPendingKill o' = bPendingKill o
         /\ Outer o' = Outer o
         /\ HoudiniGeoPartObjects o' = HoudiniGeoPartObjects o
         /\ (Find Identifier_eqb Id (OutputObjects o) = None -> o' = o)
         /\ (forall v, Find Identifier_eqb Id (OutputObjects o) = Some v ->
             Find Identifier_eqb Id (OutputObjects o')
             = Some (set_BakeName Val v)
             /\ exists pre k post,
                  OutputObjects o = pre ++ (k, v) :: post
                  /\ OutputObjects o'
                     = pre ++ (k, set_BakeName Val v) :: post
                  /\ Identifier_eqb k Id = true
                  /\ Forall (fun e => Identifier_eqb (fst e) Id = false) pre).
Proof.
  intros Val o Id. split; [reflexivity|].
  unfold OnBakeNameCommitted.
  destruct (Find Identifier_eqb Id (OutputObjects o)) as [v|] eqn:Hf.
  - eexists. split; [reflexivity|]. cbn.
    repeat split; auto; try discriminate.
    + injection H as <-. rewrite Find_WriteFound, Hf. reflexivity.
    + injection H as <-.
      destruct (Find_split _ _ _ Hf) as (pre & k & post & Hm & Hk & Hpre & Hw).
      exists pre, k, post. rewrite Hw. auto.
  - exists o. repeat split; auto; discriminate.
Qed.

(** X21. Reverting the bake name undoes a commit: reverting after any
    text has been committed for the same identifier gives the output that
    reverting alone gives, in which the found object, if there is one,
    has the empty bake name; and reverting a second time changes
    nothing. *)
Theorem OnRevertBakeNameToDefault_undoes_a_commit :
  forall (Val : string)
         (InOutput : option (UHoudiniOutput Identifier EHoudiniPartType))
         (Id : Identifier),
    let reverted := OnRevertBakeNameToDefault Identifier_eqb InOutput Id in
    OnRevertBakeNameToDefault Identifier_eqb
      (OnBakeNameCommitted Identifier_eqb Val InOutput Id) Id = reverted
    /\ OnRevertBakeNameToDefault Identifier_eqb reverted Id = reverted
    /\ forall o', reverted = Some o' ->
         forall v, Find Identifier_eqb Id (OutputObjects o') = Some v ->
                   BakeName v = EmptyString.
Proof.
  intros Val [o|] Id reverted; subst reverted; [|repeat split; discriminate].
  unfold OnRevertBakeNameToDefault, OnBakeNameCommitted.
  destruct (Find Identifier_eqb Id (OutputObjects o)) as [v|] eqn:Hf.
  - cbn. rewrite !Find_WriteFound, Hf. cbn. rewrite !WriteFound_twice.
    split; [reflexivity|]. split; [reflexivity|].
    intros o' Ho' w. injection Ho' as <-. cbn.
    rewrite Find_WriteFound, Hf. cbn. intros Hw. injection Hw as <-.
    reflexivity.
  - rewrite Hf. split; [reflexivity|]. split; [reflexivity|].
    intros o' Ho' w. injection Ho' as <-. congruence.
Qed.

(** ** The debug description *)

Lemma DescribeObjects_None : forall (m : list (Identifier * FHoudiniOutputObject)) acc,
  DescribeObjects acc m = None <->
  exists Id v, In (Id, v) m /\ OutputObject v = None
               /\ OutputComponent v <> None.
Proof.
  induction m as [|[k v] m IH]; intros acc; cbn.
  - split; [discriminate|intros (Id & v & [] & _)].
  - destruct (OutputComponent v) as [c|] eqn:Hc;
      destruct (OutputObject v) as [obj|] eqn:Ho.
    + rewrite IH. split.
      * intros (Id & w & Hin & Hw). exists Id, w. auto.
      * intros (Id & w & [Heq|Hin] & Hw1 & Hw2).
        -- injection Heq as <- <-. congruence.
        -- exists Id, w. auto.
    + split; [intros _|reflexivity].
      exists k, v. rewrite Hc. repeat split; auto. discriminate.
    + rewrite IH. split.
      * intros (Id & w & Hin & Hw). exists Id, w. auto.
      * intros (Id & w & [Heq|Hin] & Hw1 & Hw2).
        -- injection Heq as <- <-. congruence.
        -- exists Id, w. auto.
    + rewrite IH. split.
      * intros (Id & w & Hin & Hw). exists Id, w. auto.
      * intros (Id & w & [Heq|Hin] & Hw1 & Hw2).
        -- injection Heq as <- <-. congruence.
        -- exists Id, w. auto.
Qed.

Lemma DescribeObjects_same : forall (m1 m2 : list (Identifier * FHoudiniOutputObject)),
  SameObjects m1 m2 ->
  forall acc, DescribeObjects acc m1 = DescribeObjects acc m2.
Proof.
  intros m1 m2 HS. induction HS as [|[k1 v1] [k2 v2] m1 m2 [Ho Hc] _ IH];
    intros acc; [reflexivity|].
  cbn in Ho, Hc. cbn. rewrite Ho.
  destruct (OutputComponent v1) as [c1|], (OutputComponent v2) as [c2|].
  - destruct (OutputObject v2); [apply IH|reflexivity].
  - exfalso. assert (Hf : Some c1 = None) by (apply Hc; reflexivity).
    discriminate Hf.
  - exfalso. assert (Hf : Some c2 = None) by (apply Hc; reflexivity).
    discriminate Hf.
  - apply IH.
Qed.

(** X22. GetOutputDebugDescription dereferences a null pointer exactly
    when some output object has a component but no object: the line of a
    component is written with the full name of the object of its entry.
    Which component an entry has is never shown: two outputs with the
    same parts whose entries have the same objects, and components at the
    same entries, have the same description. *)
Theorem GetOutputDebugDescription_names_the_object_twice :
  forall (o : UHoudiniOutput Identifier EHoudiniPartType),
    (GetOutputDebugDescription HoudiniPartTypeToString o = None <->
     exists Id v, In (Id, v) (OutputObjects o) /\ OutputObject v = None
                  /\ OutputComponent v <> None)
    /\ forall o2 : UHoudiniOutput Identifier EHoudiniPartType,
         HoudiniGeoPartObjects o2 = HoudiniGeoPartObjects o ->
         SameObjects (OutputObjects o) (OutputObjects o2) ->
         GetOutputDebugDescription HoudiniPartTypeToString o2
         = GetOutputDebugDescription HoudiniPartTypeToString o.
Proof.
  intros o. unfold GetOutputDebugDescription. split.
  - destruct (OutputObjects o) as [|e m] eqn:Hm.
    + cbn. split; [discriminate|intros (Id & v & [] & _)].
    + replace (Z.of_nat (Datatypes.length (e :: m)) >? 0) with true
        by (symmetry; apply Z.gtb_lt; cbn [Datatypes.length]; lia).
      apply DescribeObjects_None.
  - intros o2 HG HS. rewrite HG.
    destruct HS as [|e1 e2 m1 m2 He HS]; [reflexivity|].
    replace (Z.of_nat (Datatypes.length (e1 :: m1)) >? 0) with true
      by (symmetry; apply Z.gtb_lt; cbn [Datatypes.length]; lia).
    replace (Z.of_nat (Datatypes.length (e2 :: m2)) >? 0) with true
      by (symmetry; apply Z.gtb_lt; cbn [Datatypes.length]; lia).
    symmetry. apply DescribeObjects_same. constructor; assumption.
Qed.

(** ** The widgets *)

Lemma Cast_kept : forall T p,
  Gone (Cast T p) = false -> Cast T p = p.
Proof.
  intros T [obj|]; cbn; [|discriminate].
  destruct (IsA obj T); [reflexivity|discriminate].
Qed.

(** X23. For a live output of a live component, CreateMeshOutputWidget
    makes one row for each output object that has a live static mesh or a
    live proxy mesh, in the order of the output objects, and none for the
    others.  The row is that of the static mesh whenever there is a live
    one, also when the proxy is current, and that of the proxy mesh
    otherwise; every row gets the same name of the asset and bake folder,
    and the first part that matches its identifier or else the default
    part.  The name of the asset is that of the owner only when the owner
    is pending kill.  A missing or dead output or component gives no
    row. *)
Theorem CreateMeshOutputWidget_shows_each_mesh_once :
  forall (o : UHoudiniOutput Identifier EHoudiniPartType),
    (forall HAC,
       bPendingKill o = false -> Outer o = Some HAC ->
       HAC_bPendingKill HAC = false ->
       CreateMeshOutputWidget Matches DefaultHGPO (Some o)
       = map (MeshRow (HoudiniAssetNameOf HAC) (BakeFolder_Path HAC)
                (fun Id => HGPOOrDefault Matches DefaultHGPO Id
                             (HoudiniGeoPartObjects o)))
           (filter (fun e => HasStaticMesh (snd e) || HasProxyMesh (snd e))
              (OutputObjects o))
       /\ (forall owner, Owner HAC = Some owner ->
                         Actor_bPendingKill owner = true ->
                         HoudiniAssetNameOf HAC = Actor_Name owner)
       /\ ((forall owner, Owner HAC = Some owner ->
                          Actor_bPendingKill owner = false) ->
           HoudiniAssetNameOf HAC
           = match HoudiniAsset HAC with
             | Some name => name
             | None => HAC_Name HAC
             end))
    /\ (bPendingKill o = true \/ Outer o = None
        \/ (exists HAC, Outer o = Some HAC /\ HAC_bPendingKill HAC = true) ->
        CreateMeshOutputWidget Matches DefaultHGPO (Some o) = [])
    /\ CreateMeshOutputWidget (Identifier := Identifier) Matches DefaultHGPO
         None = [].
Proof.
  intros o. split; [|split; [|reflexivity]].
  - intros HAC Hlive HO Hk. split; [|split].
    + unfold CreateMeshOutputWidget. rewrite Hlive, HO, Hk.
      induction (OutputObjects o) as [|[Id v] m IH]; [reflexivity|].
      cbn [flat_map filter snd]. rewrite IH. clear IH.
      unfold HasStaticMesh, HasProxyMesh.
      destruct (Gone (Cast UStaticMesh (OutputObject v))) eqn:HS;
        destruct (Gone (Cast UHoudiniStaticMesh (ProxyObject v))) eqn:HP;
        cbn [negb andb orb app map]; try reflexivity;
        unfold MeshRow, HasStaticMesh; cbn [fst snd]; rewrite HS; cbn [negb];
        rewrite ?(Cast_kept _ _ HS), ?(Cast_kept _ _ HP); reflexivity.
    + intros owner Hown Hdead. unfold HoudiniAssetNameOf.
      rewrite Hown, Hdead. reflexivity.
    + intros Hown. unfold HoudiniAssetNameOf.
      destruct (Owner HAC) as [owner|]; [|reflexivity].
      rewrite (Hown owner eq_refl). reflexivity.
  - unfold CreateMeshOutputWidget.
    intros [Hd|[Hn|(HAC & HO & Hk)]].
    + rewrite Hd. reflexivity.
    + rewrite Hn. destruct (bPendingKill o); reflexivity.
    + rewrite HO, Hk. destruct (bPendingKill o); reflexivity.
Qed.

(** X24. CreateLandscapeOutputWidget makes a row only for an output
    object that has a part matching its identifier, and gives the row the
    first such part: an output object without a matching part is not
    shown.  The row is the landscape row when the object is a landscape
    pointer, the edit layer row when it is an edit layer and no landscape
    pointer, and there is none for other objects; that the object is
    pending kill is not looked at. *)
Theorem CreateLandscapeOutputWidget_needs_a_matching_part :
  forall (o : UHoudiniOutput Identifier EHoudiniPartType)
         (w : Widget Identifier EHoudiniPartType),
    (bPendingKill o = true ->
     CreateLandscapeOutputWidget Matches (Some o) = [])
    /\ (bPendingKill o = false ->
        (In w (CreateLandscapeOutputWidget Matches (Some o)) <->
         exists Id v HGPO obj,
           In (Id, v) (OutputObjects o)
           /\ FindHGPO Matches Id (HoudiniGeoPartObjects o) = Some HGPO
           /\ Matches Id HGPO = true
           /\ OutputObject v = Some obj
           /\ ((IsA obj UHoudiniLandscapePtr = true
                /\ w = CreateLandscapeOutputWidget_Helper HGPO obj Id)
               \/ (IsA obj UHoudiniLandscapePtr = false
                   /\ IsA obj UHoudiniLandscapeEditLayer = true
                   /\ w = CreateLandscapeEditLayerOutputWidget_Helper
                            HGPO obj Id)))).
Proof.
  intros o w. unfold CreateLandscapeOutputWidget. split; intros Hl; rewrite Hl;
    [reflexivity|].
  rewrite in_flat_map. split.
  - intros ([Id v] & Hin & Hw).
    destruct (FindHGPO Matches Id (HoudiniGeoPartObjects o)) as [h|] eqn:Hf;
      [|destruct Hw].
    assert (Hm : Matches Id h = true).
    { unfold FindHGPO in Hf. apply find_some in Hf. apply Hf. }
    destruct (OutputObject v) as [obj|] eqn:Ho; [|destruct Hw].
    cbn in Hw.
    destruct (IsA obj UHoudiniLandscapePtr) eqn:HP.
    + destruct Hw as [<-|[]]. exists Id, v, h, obj. auto 10.
    + destruct (IsA obj UHoudiniLandscapeEditLayer) eqn:HE; [|destruct Hw].
      destruct Hw as [<-|[]]. exists Id, v, h, obj. auto 10.
  - intros (Id & v & h & obj & Hin & Hf & _ & Ho & Hw).
    exists (Id, v). split; [exact Hin|].
    rewrite Hf, Ho. cbn.
    destruct Hw as [[HP ->]|(HP & HE & ->)].
    + rewrite HP. left. reflexivity.
    + rewrite HP, HE. left. reflexivity.
Qed.

(** X25. CreateCurveOutputWidget makes a row exactly for the output
    objects whose component is a live scene component, whether or not a
    part matches: the row gets the first part that matches the identifier
    and, when none does, the default part. *)
Theorem CreateCurveOutputWidget_shows_each_live_component :
  forall (o : UHoudiniOutput Identifier EHoudiniPartType)
         (w : Widget Identifier EHoudiniPartType),
    (bPendingKill o = true ->
     CreateCurveOutputWidget Matches DefaultHGPO (Some o) = [])
    /\ (bPendingKill o = false ->
        (In w (CreateCurveOutputWidget Matches DefaultHGPO (Some o)) <->
         exists Id v c,
           In (Id, v) (OutputObjects o)
           /\ OutputComponent v = Some c
           /\ IsA c USceneComponent = true
           /\ Obj_bPendingKill c = false
           /\ w = CreateCurveWidgets c v Id
                    (match FindHGPO Matches Id (HoudiniGeoPartObjects o) with
                     | Some HGPO => HGPO
                     | None => DefaultHGPO
                     end))).
Proof.
  intros o w. unfold CreateCurveOutputWidget. split; intros Hl; rewrite Hl;
    [reflexivity|].
  rewrite in_flat_map. split.
  - intros ([Id v] & Hin & Hw).
    destruct (OutputComponent v) as [c|] eqn:Hc; [|destruct Hw].
    cbn in Hw. destruct (IsA c USceneComponent) eqn:HA; [|destruct Hw].
    destruct (Obj_bPendingKill c) eqn:Hk; [destruct Hw|].
    destruct Hw as [<-|[]]. exists Id, v, c. auto 10.
  - intros (Id & v & c & Hin & Hc & HA & Hk & ->).
    exists (Id, v). split; [exact Hin|].
    rewrite Hc. cbn. rewrite HA, Hk. left. reflexivity.
Qed.

End Properties.

Lemma GetOutputDebugDescription_names_the_object_twice_witness :
  GetOutputDebugDescription (fun _ : unit => "Mesh"%string)
    {| bPendingKill := false; Outer := None; HoudiniGeoPartObjects := [];
       OutputObjects := two_objects |} = None.
Proof.
  apply (proj1 (GetOutputDebugDescription_names_the_object_twice
                  Z unit (fun _ => "Mesh"%string)
                  {| bPendingKill := false; Outer := None;
                     HoudiniGeoPartObjects := [];
                     OutputObjects := two_objects |})).
  eexists 2, _. split; [right; left; reflexivity|].
  split; [reflexivity|discriminate].
Defined.

End OutputObjectsSpec.

(* ===================================================================== *)
(** * Properties of the replacement of materials                          *)
(* ===================================================================== *)

Module MaterialReplacementSpec.
Import MaterialReplacement.

Lemma IsValidIndex_spec : forall (A : Type) (l : list A) (i : Z),
  IsValidIndex l i = true <-> 0 <= i /\ (Z.to_nat i < Datatypes.length l)%nat.
Proof.
  intros A l i. unfold IsValidIndex.
  rewrite andb_true_iff, Z.leb_le, Z.ltb_lt. lia.
Qed.

Lemma SetAt_length : forall (A : Type) (l : list A) n v,
  Datatypes.length (SetAt l n v) = Datatypes.length l.
Proof.
  induction l as [|x l IH]; intros [|n] v; cbn; auto.
Qed.

Lemma SetAt_nth : forall (A : Type) (l : list A) n v d,
  (n < Datatypes.length l)%nat -> nth n (SetAt l n v) d = v.
Proof.
  induction l as [|x l IH]; intros [|n] v d Hn; cbn in *; try lia; auto.
  apply IH. lia.
Qed.

Lemma SetAt_back : forall (A : Type) (l : list A) n v d,
  (n < Datatypes.length l)%nat -> SetAt (SetAt l n v) n (nth n l d) = l.
Proof.
  induction l as [|x l IH]; intros [|n] v d Hn; cbn in *; try lia; auto.
  f_equal. apply IH. lia.
Qed.

Lemma SetAt_twice : forall (A : Type) (l : list A) n v w,
  SetAt (SetAt l n v) n w = SetAt l n w.
Proof.
  induction l as [|x l IH]; intros [|n] v w; cbn; auto.
  f_equal. apply IH.
Qed.

Section Properties.

Variable TMap : Type.
Variable key_eqb : string -> string -> bool.
Variable Find : string -> TMap -> option Z.
Variable FindKey : Z -> TMap -> option string.
Variable Add : string -> Z -> TMap -> TMap.
Variable Remove : string -> TMap -> TMap.
Variable IsMaterialInterface : Z -> bool.
Variable IsPendingKill : Z -> bool.
Variable GetName : Z -> string.
Variable HoudiniDefaultMaterial : Z.
Variable HAPI_UNREAL_DEFAULT_MATERIAL_NAME : string.
Variable GEditor : bool.

Hypothesis Laws : TMapLaws TMap key_eqb Find FindKey Add Remove.

Local Abbreviation Dropped :=
  (OnMaterialInterfaceDropped TMap FindKey Add IsMaterialInterface
     IsPendingKill GetName HoudiniDefaultMaterial
     HAPI_UNREAL_DEFAULT_MATERIAL_NAME GEditor).

Local Abbreviation Reset :=
  (OnResetMaterialInterfaceClicked TMap Find FindKey Remove
     HoudiniDefaultMaterial GEditor).

(** The key found for a material that is kept under one key only. *)
Lemma FindKey_after_Add : forall (S : string) (M : Z) (R : TMap),
  (forall k, Find k R <> Some M) ->
  exists k, FindKey M (Add S M R) = Some k /\ key_eqb S k = true.
Proof.
  intros S M R Hnot.
  destruct (FindKey M (Add S M R)) as [k|] eqn:Hk.
  - exists k. split; [reflexivity|].
    apply (FindKey_Some Laws) in Hk.
    rewrite (Find_Add Laws) in Hk.
    destruct (key_eqb S k); [reflexivity|].
    exfalso. exact (Hnot k Hk).
  - exfalso. apply (FindKey_None Laws _ _ Hk S).
    rewrite (Find_Add Laws), (key_refl Laws).
    reflexivity.
Qed.

Lemma key_eqb_congr : forall a b c,
  key_eqb a b = true -> key_eqb a c = key_eqb b c.
Proof.
  intros a b c Hab.
  destruct (key_eqb b c) eqn:Hbc.
  - exact (key_trans Laws _ _ _ Hab Hbc).
  - destruct (key_eqb a c) eqn:Hac; [|reflexivity].
    rewrite (key_sym Laws) in Hab.
    rewrite <- Hbc. symmetry.
    exact (key_trans Laws _ _ _ Hab Hac).
Qed.

Lemma Cast_of_material : forall M,
  M <> nullptr -> IsMaterialInterface M = true ->
  Cast_UMaterialInterface IsMaterialInterface M = M.
Proof.
  intros M Hn Hm. unfold Cast_UMaterialInterface.
  destruct (M =? nullptr) eqn:He; [apply Z.eqb_eq in He; contradiction|].
  rewrite Hm. reflexivity.
Qed.

(** The drop of a live material on the entry of another material that
    has a string. *)
Lemma Dropped_goes_through :
  forall (M : Z) (Mesh : UStaticMesh) (Out : UHoudiniOutput TMap)
         (MaterialIdx : Z) (S : string),
    M <> nullptr -> IsMaterialInterface M = true -> IsPendingKill M = false ->
    SM_bPendingKill Mesh = false ->
    IsValidIndex (StaticMaterials Mesh) MaterialIdx = true ->
    nth (Z.to_nat MaterialIdx) (StaticMaterials Mesh) nullptr <> M ->
    ReplacedMaterialString TMap FindKey GetName HoudiniDefaultMaterial
      HAPI_UNREAL_DEFAULT_MATERIAL_NAME Out
      (nth (Z.to_nat MaterialIdx) (StaticMaterials Mesh) nullptr) = Some S ->
    IsEmpty S = false ->
    exists told,
      Dropped M (Some Mesh) Out MaterialIdx
      = Some (set_ReplacementMaterials (Add S M (ReplacementMaterials Out)) Out,
              Some (set_StaticMaterials
                      (SetAt (StaticMaterials Mesh) (Z.to_nat MaterialIdx) M)
                      Mesh),
              told).
Proof.
  intros M Mesh Out MaterialIdx S Hn Hm Hk Hl Hv Hold HS HE.
  unfold OnMaterialInterfaceDropped.
  rewrite (Cast_of_material _ Hn Hm), Hk, Hl, Hv.
  destruct (M =? nullptr) eqn:He; [apply Z.eqb_eq in He; contradiction|].
  cbn [orb negb].
  destruct (nth (Z.to_nat MaterialIdx) (StaticMaterials Mesh) nullptr =? M)
    eqn:Ho; [apply Z.eqb_eq in Ho; contradiction|].
  rewrite HS, HE. eexists. reflexivity.
Qed.

(** X26. A reset undoes a drop.  Let a live material be dropped on a
    valid entry of a live mesh whose material is another one, not null,
    that is no replacement itself and is assigned under a string that is
    not empty and has no replacement yet; let the dropped material be no
    replacement yet.  Then the drop puts the material on the entry and
    records it under that string, and the reset of the entry that
    follows gives the mesh back as it was and leaves the lookups of the
    replacement map, the assignments and the output objects as before
    the drop. *)
Theorem a_reset_undoes_a_drop :
  forall (M : Z) (Mesh : UStaticMesh) (Out : UHoudiniOutput TMap)
         (MaterialIdx : Z) (S : string),
    let Old := nth (Z.to_nat MaterialIdx) (StaticMaterials Mesh) nullptr in
    M <> nullptr -> IsMaterialInterface M = true -> IsPendingKill M = false ->
    SM_bPendingKill Mesh = false ->
    IsValidIndex (StaticMaterials Mesh) MaterialIdx = true ->
    Old <> M -> Old <> nullptr ->
    FindKey Old (ReplacementMaterials Out) = None ->
    FindKey Old (AssignementMaterials Out) = Some S ->
    IsEmpty S = false ->
    (forall k, Find k (ReplacementMaterials Out) <> Some M) ->
    Find S (ReplacementMaterials Out) = None ->
    exists Out1 Mesh1 told1,
      Dropped M (Some Mesh) Out MaterialIdx = Some (Out1, Some Mesh1, told1)
      /\ nth (Z.to_nat MaterialIdx) (StaticMaterials Mesh1) nullptr = M
      /\ Find S (ReplacementMaterials Out1) = Some M
      /\ exists Out2 told2,
           Reset (Some Mesh1) Out1 MaterialIdx = (Out2, Some Mesh, told2)
           /\ (forall k, Find k (ReplacementMaterials Out2)
                         = Find k (ReplacementMaterials Out))
           /\ AssignementMaterials Out2 = AssignementMaterials Out
           /\ OutputObjects Out2 = OutputObjects Out.
Proof.
  intros M Mesh Out MaterialIdx S Old Hn Hm Hk Hl Hv Hold Hnull HR HA HE
         Hfresh HS.
  assert (Hstr : ReplacedMaterialString TMap FindKey GetName
                   HoudiniDefaultMaterial HAPI_UNREAL_DEFAULT_MATERIAL_NAME
                   Out Old = Some S).
  { unfold ReplacedMaterialString. rewrite HR, HA. reflexivity. }
  destruct (Dropped_goes_through M Mesh Out MaterialIdx S
              Hn Hm Hk Hl Hv Hold Hstr HE) as [told1 Hdrop].
  pose proof (proj1 (IsValidIndex_spec _ _ _) Hv) as [Hpos Hlen].
  eexists _, _, told1. split; [exact Hdrop|].
  split; [cbn; apply SetAt_nth; exact Hlen|].
  split.
  { cbn. rewrite (Find_Add Laws), (key_refl Laws). reflexivity. }
  destruct (FindKey_after_Add S M (ReplacementMaterials Out) Hfresh)
    as (k & Hfk & HSk).
  unfold OnResetMaterialInterfaceClicked.
  cbn [SM_bPendingKill set_StaticMaterials StaticMaterials SM_Address
       ReplacementMaterials set_ReplacementMaterials AssignementMaterials
       OutputObjects].
  rewrite Hl.
  assert (Hv' : IsValidIndex (SetAt (StaticMaterials Mesh)
                                (Z.to_nat MaterialIdx) M) MaterialIdx = true).
  { apply IsValidIndex_spec. rewrite SetAt_length. split; assumption. }
  rewrite Hv'. cbn [negb].
  rewrite (SetAt_nth _ _ _ _ _ Hlen).
  destruct (M =? nullptr) eqn:He; [apply Z.eqb_eq in He; contradiction|].
  rewrite Hfk.
  assert (HfS : Find k (AssignementMaterials Out) = Some Old).
  { rewrite <- (Find_key Laws _ _ _ HSk).
    apply (FindKey_Some Laws). exact HA. }
  rewrite HfS.
  destruct (Old =? nullptr) eqn:Ho; [apply Z.eqb_eq in Ho; contradiction|].
  cbn [negb]. rewrite SetAt_twice.
  replace (SetAt (StaticMaterials Mesh) (Z.to_nat MaterialIdx) Old)
    with (StaticMaterials Mesh).
  2:{ symmetry. rewrite <- (SetAt_back _ (StaticMaterials Mesh)
                              (Z.to_nat MaterialIdx) M nullptr Hlen) at 2.
      rewrite SetAt_twice. reflexivity. }
  eexists _, _. split.
  { destruct Mesh; reflexivity. }
  cbn. split; [|split; reflexivity].
  intros k'. rewrite (Find_Remove Laws), (Find_Add Laws).
  assert (Hkk : key_eqb k k' = key_eqb S k').
  { apply key_eqb_congr. rewrite (key_sym Laws). exact HSk. }
  rewrite Hkk. destruct (key_eqb S k') eqn:HSk'; [|reflexivity].
  rewrite <- (Find_key Laws _ _ _ HSk'). symmetry. exact HS.
Qed.

(** X27. A second drop replaces the same entry of the replacement map.
    Let a mesh that is not pending kill hold, at a valid index, a
    material that no string of the replacement map leads to and that the
    assignment map holds under a string S that is not empty.  Let M be a
    live material interface (not null, not pending kill) that differs
    from the material of the entry and is not yet a value of the
    replacement map, and M2 a live material interface that differs from
    M.  When M is dropped on the entry and then M2 on the same entry,
    both drops go through, the replacement map then answers with M2
    under S and as before the two drops under every other string, so
    that the string of the material cooked by Houdini is kept; and the
    entry of the mesh holds M2. *)
Theorem a_second_drop_replaces_the_same_entry :
  forall (M M2 : Z) (Mesh : UStaticMesh) (Out : UHoudiniOutput TMap)
         (MaterialIdx : Z) (S : string),
    let Old := nth (Z.to_nat MaterialIdx) (StaticMaterials Mesh) nullptr in
    M <> nullptr -> IsMaterialInterface M = true -> IsPendingKill M = false ->
    M2 <> nullptr -> IsMaterialInterface M2 = true ->
    IsPendingKill M2 = false ->
    M2 <> M ->
    SM_bPendingKill Mesh = false ->
    IsValidIndex (StaticMaterials Mesh) MaterialIdx = true ->
    Old <> M ->
    FindKey Old (ReplacementMaterials Out) = None ->
    FindKey Old (AssignementMaterials Out) = Some S ->
    IsEmpty S = false ->
    (forall k, Find k (ReplacementMaterials Out) <> Some M) ->
    exists Out1 Mesh1 told1,
      Dropped M (Some Mesh) Out MaterialIdx = Some (Out1, Some Mesh1, told1)
      /\ exists Out2 Mesh2 told2,
           Dropped M2 (Some Mesh1) Out1 MaterialIdx
           = Some (Out2, Some Mesh2, told2)
           /\ StaticMaterials Mesh2
              = SetAt (StaticMaterials Mesh) (Z.to_nat MaterialIdx) M2
           /\ forall k, Find k (ReplacementMaterials Out2)
                        = if key_eqb S k then Some M2
                          else Find k (ReplacementMaterials Out).
Proof.
  intros M M2 Mesh Out MaterialIdx S Old Hn Hm Hk Hn2 Hm2 Hk2 Hdiff Hl Hv
         Hold HR HA HE Hfresh.
  assert (Hstr : ReplacedMaterialString TMap FindKey GetName
                   HoudiniDefaultMaterial HAPI_UNREAL_DEFAULT_MATERIAL_NAME
                   Out Old = Some S).
  { unfold ReplacedMaterialString. rewrite HR, HA. reflexivity. }
  destruct (Dropped_goes_through M Mesh Out MaterialIdx S
              Hn Hm Hk Hl Hv Hold Hstr HE) as [told1 Hdrop].
  pose proof (proj1 (IsValidIndex_spec _ _ _) Hv) as [Hpos Hlen].
  eexists _, _, told1. split; [exact Hdrop|].
  destruct (FindKey_after_Add S M (ReplacementMaterials Out) Hfresh)
    as (k & Hfk & HSk).
  set (Out1 := set_ReplacementMaterials
                 (Add S M (ReplacementMaterials Out)) Out).
  set (Mesh1 := set_StaticMaterials
                  (SetAt (StaticMaterials Mesh) (Z.to_nat MaterialIdx) M) Mesh).
  assert (Hnth : nth (Z.to_nat MaterialIdx) (StaticMaterials Mesh1) nullptr = M).
  { cbn. apply SetAt_nth. exact Hlen. }
  destruct (Dropped_goes_through M2 Mesh1 Out1 MaterialIdx k) as [told2 Hdrop2];
    auto.
  - apply IsValidIndex_spec. cbn. rewrite SetAt_length. split; assumption.
  - rewrite Hnth. congruence.
  - rewrite Hnth. unfold ReplacedMaterialString. cbn. rewrite Hfk. reflexivity.
  - rewrite <- (key_empty Laws _ _ HSk). exact HE.
  - eexists _, _, told2. split; [exact Hdrop2|]. split.
    + cbn. apply SetAt_twice.
    + intros k'. cbn. rewrite !(Find_Add Laws).
      assert (Hkk : key_eqb k k' = key_eqb S k').
      { apply key_eqb_congr. rewrite (key_sym Laws). exact HSk. }
      rewrite Hkk. destruct (key_eqb S k'); reflexivity.
Qed.

(** X28. OnMaterialInterfaceDropped on a static mesh dereferences a null
    pointer exactly when a live material is dropped on a valid entry of a
    live mesh whose material is null, the null material is in neither
    map, and there is a default material: the name of the replaced
    material is then asked of the null pointer.  A drop of anything but a
    live material, on a missing or dead mesh, on an index out of range or
    of the material that is already there changes nothing and tells the
    editor nothing. *)
Theorem OnMaterialInterfaceDropped_at_the_edges :
  forall (InObject : Z) (StaticMesh : option UStaticMesh)
         (Out : UHoudiniOutput TMap) (MaterialIdx : Z),
    (Dropped InObject StaticMesh Out MaterialIdx = None <->
     InObject <> nullptr /\ IsMaterialInterface InObject = true
     /\ IsPendingKill InObject = false
     /\ exists Mesh,
          StaticMesh = Some Mesh /\ SM_bPendingKill Mesh = false
          /\ IsValidIndex (StaticMaterials Mesh) MaterialIdx = true
          /\ nth (Z.to_nat MaterialIdx) (StaticMaterials Mesh) nullptr = nullptr
          /\ FindKey nullptr (ReplacementMaterials Out) = None
          /\ FindKey nullptr (AssignementMaterials Out) = None
          /\ HoudiniDefaultMaterial <> nullptr)
    /\ (InObject = nullptr \/ IsMaterialInterface InObject = false
        \/ IsPendingKill InObject = true
        \/ (forall Mesh, StaticMesh = Some Mesh ->
              SM_bPendingKill Mesh = true
              \/ IsValidIndex (StaticMaterials Mesh) MaterialIdx = false
              \/ nth (Z.to_nat MaterialIdx) (StaticMaterials Mesh) nullptr
                 = InObject) ->
        Dropped InObject StaticMesh Out MaterialIdx
        = Some (Out, StaticMesh, [])).
Proof.
  intros InObject StaticMesh Out MaterialIdx.
  unfold OnMaterialInterfaceDropped, Cast_UMaterialInterface.
  destruct (InObject =? nullptr) eqn:He.
  { apply Z.eqb_eq in He. cbn. split; [|reflexivity].
    split; [discriminate|intros (Hn & _); contradiction]. }
  assert (Hne : InObject <> nullptr) by (apply Z.eqb_neq; exact He).
  destruct (IsMaterialInterface InObject) eqn:Hm.
  2:{ cbn. split; [|reflexivity].
      split; [discriminate|intros (_ & Hf & _); discriminate]. }
  rewrite He. cbn [orb].
  destruct (IsPendingKill InObject) eqn:Hk.
  { split; [|reflexivity].
    split; [discriminate|intros (_ & _ & Hf & _); discriminate]. }
  destruct StaticMesh as [Mesh|].
  2:{ split; [|reflexivity].
      split; [discriminate|intros (_ & _ & _ & Mesh & Hf & _); discriminate]. }
  destruct (SM_bPendingKill Mesh) eqn:Hl.
  { split; [|reflexivity].
    split; [discriminate|].
    intros (_ & _ & _ & Mesh' & Heq & Hf & _). injection Heq as <-.
    congruence. }
  destruct (IsValidIndex (StaticMaterials Mesh) MaterialIdx) eqn:Hv; cbn [negb].
  2:{ split; [|reflexivity].
      split; [discriminate|].
      intros (_ & _ & _ & Mesh' & Heq & _ & Hf & _). injection Heq as <-.
      congruence. }
  set (Old := nth (Z.to_nat MaterialIdx) (StaticMaterials Mesh) nullptr).
  destruct (Old =? InObject) eqn:Ho.
  { apply Z.eqb_eq in Ho. split; [|reflexivity].
    split; [discriminate|].
    intros (_ & _ & _ & Mesh' & Heq & _ & _ & Hf & _). injection Heq as <-.
    fold Old in Hf. congruence. }
  apply Z.eqb_neq in Ho.
  split.
  - unfold ReplacedMaterialString.
    destruct (FindKey Old (ReplacementMaterials Out)) as [s|] eqn:HR.
    { split.
      - destruct (IsEmpty s); discriminate.
      - intros (_ & _ & _ & Mesh' & Heq & _ & _ & Hf & HR' & _).
        injection Heq as <-. fold Old in Hf. rewrite Hf in HR. congruence. }
    destruct (FindKey Old (AssignementMaterials Out)) as [s|] eqn:HA.
    { split.
      - destruct (IsEmpty s); discriminate.
      - intros (_ & _ & _ & Mesh' & Heq & _ & _ & Hf & _ & HA' & _).
        injection Heq as <-. fold Old in Hf. rewrite Hf in HA. congruence. }
    destruct (Old =? HoudiniDefaultMaterial) eqn:Hd.
    { apply Z.eqb_eq in Hd. split.
      - destruct (IsEmpty HAPI_UNREAL_DEFAULT_MATERIAL_NAME); discriminate.
      - intros (_ & _ & _ & Mesh' & Heq & _ & _ & Hf & _ & _ & Hdef).
        injection Heq as <-. fold Old in Hf. congruence. }
    apply Z.eqb_neq in Hd.
    destruct (Old =? nullptr) eqn:Hz.
    + apply Z.eqb_eq in Hz. split; [intros _|reflexivity].
      repeat split; auto. exists Mesh.
      rewrite Hz in HR, HA, Hd. repeat split; auto.
    + apply Z.eqb_neq in Hz. split.
      * destruct (IsEmpty (GetName Old)); discriminate.
      * intros (_ & _ & _ & Mesh' & Heq & _ & _ & Hf & _).
        injection Heq as <-. fold Old in Hf. contradiction.
  - intros [Hf|[Hf|[Hf|Hf]]]; try congruence.
    destruct (Hf Mesh eq_refl) as [Hg|[Hg|Hg]]; try congruence.
    fold Old in Hg. contradiction.
Qed.

Lemma SetAt_other : forall (A : Type) (l : list A) n j v d,
  j <> n -> nth j (SetAt l n v) d = nth j l d.
Proof.
  induction l as [|x l IH]; intros [|n] [|j] v d Hj; cbn; auto;
    try contradiction; try (apply IH; congruence).
Qed.

(** X30. OnResetMaterialInterfaceClicked on a static mesh changes
    nothing and tells the editor nothing when the mesh is missing or
    dead, the index is out of range, or the material of the entry is null
    or not found as a replacement.  Otherwise it removes the replacement
    under the string found for the material and nothing else from the
    replacement map, leaves the assignments and the other entries of the
    mesh alone, and puts on the entry the material assigned under that
    string, or the default material when none or a null one is assigned:
    the entry is not left null unless the default material is null. *)
Theorem OnResetMaterialInterfaceClicked_puts_back_the_assignment :
  forall (StaticMesh : option UStaticMesh) (Out : UHoudiniOutput TMap)
         (MaterialIdx : Z),
    ((forall Mesh, StaticMesh = Some Mesh ->
        SM_bPendingKill Mesh = true
        \/ IsValidIndex (StaticMaterials Mesh) MaterialIdx = false
        \/ nth (Z.to_nat MaterialIdx) (StaticMaterials Mesh) nullptr = nullptr
        \/ FindKey (nth (Z.to_nat MaterialIdx) (StaticMaterials Mesh) nullptr)
             (ReplacementMaterials Out) = None) ->
     Reset StaticMesh Out MaterialIdx = (Out, StaticMesh, []))
    /\ forall Mesh S,
         StaticMesh = Some Mesh ->
         SM_bPendingKill Mesh = false ->
         IsValidIndex (StaticMaterials Mesh) MaterialIdx = true ->
         nth (Z.to_nat MaterialIdx) (StaticMaterials Mesh) nullptr <> nullptr ->
         FindKey (nth (Z.to_nat MaterialIdx) (StaticMaterials Mesh) nullptr)
           (ReplacementMaterials Out) = Some S ->
         exists Out2 Mesh2 told,
           Reset StaticMesh Out MaterialIdx = (Out2, Some Mesh2, told)
           /\ (forall k, Find k (ReplacementMaterials Out2)
                         = if key_eqb S k then None
                           else Find k (ReplacementMaterials Out))
           /\ AssignementMaterials Out2 = AssignementMaterials Out
           /\ OutputObjects Out2 = OutputObjects Out
           /\ SM_Address Mesh2 = SM_Address Mesh
           /\ Datatypes.length (StaticMaterials Mesh2)
              = Datatypes.length (StaticMaterials Mesh)
           /\ (forall j, j <> Z.to_nat MaterialIdx ->
                 nth j (StaticMaterials Mesh2) nullptr
                 = nth j (StaticMaterials Mesh) nullptr)
           /\ nth (Z.to_nat MaterialIdx) (StaticMaterials Mesh2) nullptr
              = match Find S (AssignementMaterials Out) with
                | Some FoundMat =>
                    if FoundMat =? nullptr then HoudiniDefaultMaterial
                    else FoundMat
                | None => HoudiniDefaultMaterial
                end
           /\ (HoudiniDefaultMaterial <> nullptr ->
               nth (Z.to_nat MaterialIdx) (StaticMaterials Mesh2) nullptr
               <> nullptr).
Proof.
  intros StaticMesh Out MaterialIdx. unfold OnResetMaterialInterfaceClicked.
  split.
  - intros Hno. destruct StaticMesh as [Mesh|]; [|reflexivity].
    destruct (SM_bPendingKill Mesh) eqn:Hl; [reflexivity|].
    destruct (IsValidIndex (StaticMaterials Mesh) MaterialIdx) eqn:Hv;
      [|reflexivity].
    cbn [negb].
    destruct (nth (Z.to_nat MaterialIdx) (StaticMaterials Mesh) nullptr
              =? nullptr) eqn:Hz; [reflexivity|].
    apply Z.eqb_neq in Hz.
    destruct (Hno Mesh eq_refl) as [Hf|[Hf|[Hf|Hf]]]; try congruence.
    rewrite Hf. reflexivity.
  - intros Mesh S -> Hl Hv Hz HS.
    rewrite Hl, Hv. cbn [negb].
    destruct (nth (Z.to_nat MaterialIdx) (StaticMaterials Mesh) nullptr
              =? nullptr) eqn:Hz'; [apply Z.eqb_eq in Hz'; contradiction|].
    rewrite HS.
    pose proof (proj1 (IsValidIndex_spec _ _ _) Hv) as [Hpos Hlen].
    eexists _, _, _. split; [reflexivity|].
    cbn [ReplacementMaterials set_ReplacementMaterials AssignementMaterials
         OutputObjects SM_Address set_StaticMaterials StaticMaterials].
    split; [intros k; apply (Find_Remove Laws)|].
    split; [reflexivity|]. split; [reflexivity|]. split; [reflexivity|].
    split; [apply SetAt_length|].
    split; [intros j Hj; apply SetAt_other; exact Hj|].
    rewrite (SetAt_nth _ _ _ _ _ Hlen).
    split.
    + destruct (Find S (AssignementMaterials Out)) as [m|]; [|reflexivity].
      destruct (m =? nullptr); reflexivity.
    + intros Hd.
      destruct (Find S (AssignementMaterials Out)) as [m|]; [|exact Hd].
      destruct (m =? nullptr) eqn:Hm; cbn [negb]; [exact Hd|].
      apply Z.eqb_neq. exact Hm.
Qed.

(** ** What a drop tells the meshes and the components *)

Lemma DroppedOnObjects_meshes :
  forall (Mesh : UStaticMesh) (MaterialIdx M : Z)
         (Objects : list FHoudiniOutputObject) (a i m : Z),
    In (SM_SetMaterial a i m) (DroppedOnObjects Mesh MaterialIdx M Objects) <->
    i = MaterialIdx /\ m = M
    /\ exists e obj,
         In e Objects /\ OutputObject e = Some obj
         /\ IsStaticMesh obj = true /\ Obj_bPendingKill obj = false
         /\ Obj_Address obj = a
         /\ forall c, OutputComponent e = Some c ->
                      IsStaticMeshComponent c = false
                      \/ Comp_bPendingKill c = true.
Proof.
  intros Mesh MaterialIdx M Objects a i m.
  unfold DroppedOnObjects. rewrite in_flat_map. split.
  - intros (e & Hin & Hw).
    destruct (OutputComponent e) as [c|] eqn:Hc.
    + destruct (IsStaticMeshComponent c) eqn:Hs; cbn in Hw.
      * destruct (Comp_bPendingKill c) eqn:Hk.
        -- destruct (OutputObject e) as [obj|] eqn:Ho; [|destruct Hw].
           destruct (IsStaticMesh obj) eqn:Hi; [|destruct Hw]. cbn in Hw.
           destruct (Obj_bPendingKill obj) eqn:Hd; [destruct Hw|].
           destruct Hw as [Hw|[Hw|[]]]; [discriminate|].
           injection Hw as <- <- <-. repeat split; auto.
           exists e, obj. repeat split; auto.
           intros c' Hc'. rewrite Hc in Hc'. injection Hc' as <-. auto.
        -- destruct (GetStaticMesh c =? SM_Address Mesh);
             [destruct Hw as [Hw|[Hw|[]]]; discriminate|destruct Hw].
      * destruct (OutputObject e) as [obj|] eqn:Ho; [|destruct Hw].
        destruct (IsStaticMesh obj) eqn:Hi; [|destruct Hw]. cbn in Hw.
        destruct (Obj_bPendingKill obj) eqn:Hd; [destruct Hw|].
        destruct Hw as [Hw|[Hw|[]]]; [discriminate|].
        injection Hw as <- <- <-. repeat split; auto.
        exists e, obj. repeat split; auto.
        intros c' Hc'. rewrite Hc in Hc'. injection Hc' as <-. auto.
    + cbn in Hw.
      destruct (OutputObject e) as [obj|] eqn:Ho; [|destruct Hw].
      destruct (IsStaticMesh obj) eqn:Hi; [|destruct Hw]. cbn in Hw.
      destruct (Obj_bPendingKill obj) eqn:Hd; [destruct Hw|].
      destruct Hw as [Hw|[Hw|[]]]; [discriminate|].
      injection Hw as <- <- <-. repeat split; auto.
      exists e, obj. repeat split; auto.
      intros c' Hc'. rewrite Hc in Hc'. discriminate Hc'.
  - intros (-> & -> & e & obj & Hin & Ho & Hi & Hd & <- & Hc).
    exists e. split; [exact Hin|].
    rewrite Ho, Hi. cbn. rewrite Hd.
    destruct (OutputComponent e) as [c|].
    + destruct (Hc c eq_refl) as [Hs|Hk].
      * rewrite Hs. cbn. auto.
      * destruct (IsStaticMeshComponent c); cbn; [rewrite Hk|]; cbn; auto.
    + cbn. auto.
Qed.

Lemma DroppedOnObjects_components :
  forall (Mesh : UStaticMesh) (MaterialIdx M : Z)
         (Objects : list FHoudiniOutputObject) (c i m : Z),
    In (SMC_SetMaterial c i m) (DroppedOnObjects Mesh MaterialIdx M Objects) <->
    i = MaterialIdx /\ m = M
    /\ exists e comp,
         In e Objects /\ OutputComponent e = Some comp
         /\ IsStaticMeshComponent comp = true
         /\ Comp_bPendingKill comp = false
         /\ GetStaticMesh comp = SM_Address Mesh
         /\ Comp_Address comp = c.
Proof.
  intros Mesh MaterialIdx M Objects c i m.
  unfold DroppedOnObjects. rewrite in_flat_map. split.
  - intros (e & Hin & Hw).
    assert (Hobj : forall l,
              l = match match OutputObject e with
                        | Some m0 => if IsStaticMesh m0 then Some m0 else None
                        | None => None
                        end with
                  | Some m0 =>
                      if Obj_bPendingKill m0 then None else Some m0
                  | None => None
                  end ->
              ~ In (SMC_SetMaterial c i m)
                  match l with
                  | Some m0 =>
                      [Modify_StaticMesh (Obj_Address m0);
                       SM_SetMaterial (Obj_Address m0) MaterialIdx M]
                  | None => []
                  end).
    { intros [m0|] _ Hf; [|destruct Hf].
      destruct Hf as [Hf|[Hf|[]]]; discriminate. }
    destruct (OutputComponent e) as [comp|] eqn:Hc.
    + destruct (IsStaticMeshComponent comp) eqn:Hs; cbn in Hw.
      * destruct (Comp_bPendingKill comp) eqn:Hk.
        -- exfalso. exact (Hobj _ eq_refl Hw).
        -- destruct (GetStaticMesh comp =? SM_Address Mesh) eqn:Hg;
             [|destruct Hw].
           apply Z.eqb_eq in Hg.
           destruct Hw as [Hw|[Hw|[]]]; [discriminate|].
           injection Hw as <- <- <-. repeat split; auto.
           exists e, comp. repeat split; auto.
      * exfalso. exact (Hobj _ eq_refl Hw).
    + exfalso. exact (Hobj _ eq_refl Hw).
  - intros (-> & -> & e & comp & Hin & Hc & Hs & Hk & Hg & <-).
    exists e. split; [exact Hin|].
    rewrite Hc, Hs. cbn. rewrite Hk, Hg, Z.eqb_refl. cbn. auto.
Qed.

(** What the editor is told by a drop that goes through. *)
Lemma Dropped_told :
  forall (InObject : Z) (Mesh : UStaticMesh) (Out : UHoudiniOutput TMap)
         (MaterialIdx : Z) Out1 Mesh1 told,
    Dropped InObject (Some Mesh) Out MaterialIdx = Some (Out1, Mesh1, told) ->
    told <> [] ->
    told = [FScopedTransaction "Houdini Material Replacement";
            Modify_Output; Modify_StaticMesh (SM_Address Mesh)]
           ++ DroppedOnObjects Mesh MaterialIdx InObject (OutputObjects Out)
           ++ [UpdateEditorProperties]
           ++ Redraw GEditor.
Proof.
  intros InObject Mesh Out MaterialIdx Out1 Mesh1 told.
  unfold OnMaterialInterfaceDropped, Cast_UMaterialInterface.
  destruct (InObject =? nullptr) eqn:He.
  { cbn. intros Hr; injection Hr as <- <- <-. contradiction. }
  destruct (IsMaterialInterface InObject).
  2:{ cbn. intros Hr; injection Hr as <- <- <-. contradiction. }
  rewrite He. cbn [orb].
  destruct (IsPendingKill InObject).
  { intros Hr; injection Hr as <- <- <-. contradiction. }
  destruct (SM_bPendingKill Mesh).
  { intros Hr; injection Hr as <- <- <-. contradiction. }
  destruct (IsValidIndex (StaticMaterials Mesh) MaterialIdx); cbn [negb].
  2:{ intros Hr; injection Hr as <- <- <-. contradiction. }
  destruct (nth (Z.to_nat MaterialIdx) (StaticMaterials Mesh) nullptr
            =? InObject).
  { intros Hr; injection Hr as <- <- <-. contradiction. }
  destruct (ReplacedMaterialString TMap FindKey GetName HoudiniDefaultMaterial
              HAPI_UNREAL_DEFAULT_MATERIAL_NAME Out
              (nth (Z.to_nat MaterialIdx) (StaticMaterials Mesh) nullptr))
    as [s|]; [|discriminate].
  destruct (IsEmpty s).
  { intros Hr; injection Hr as <- <- <-. contradiction. }
  intros Hr _. injection Hr as <- <- <-. reflexivity.
Qed.

(** X29. A drop that goes through sets the material on more than the
    mesh it is dropped on.  UStaticMesh::SetMaterial is called, for the
    index and the material of the drop, on every live static mesh that is
    the object of an output object without a live static mesh component,
    whichever mesh that is; UStaticMeshComponent::SetMaterial is called
    on exactly the live static mesh components of the output whose mesh
    is the one dropped on. *)
Theorem a_drop_reaches_every_mesh_without_a_component :
  forall (InObject : Z) (Mesh : UStaticMesh) (Out : UHoudiniOutput TMap)
         (MaterialIdx : Z) Out1 Mesh1 told,
    Dropped InObject (Some Mesh) Out MaterialIdx = Some (Out1, Mesh1, told) ->
    told <> [] ->
    (forall a i m,
       In (SM_SetMaterial a i m) told <->
       i = MaterialIdx /\ m = InObject
       /\ exists e obj,
            In e (OutputObjects Out) /\ OutputObject e = Some obj
            /\ IsStaticMesh obj = true /\ Obj_bPendingKill obj = false
            /\ Obj_Address obj = a
            /\ forall c, OutputComponent e = Some c ->
                         IsStaticMeshComponent c = false
                         \/ Comp_bPendingKill c = true)
    /\ (forall c i m,
          In (SMC_SetMaterial c i m) told <->
          i = MaterialIdx /\ m = InObject
          /\ exists e comp,
               In e (OutputObjects Out) /\ OutputComponent e = Some comp
               /\ IsStaticMeshComponent comp = true
               /\ Comp_bPendingKill comp = false
               /\ GetStaticMesh comp = SM_Address Mesh
               /\ Comp_Address comp = c).
Proof.
  intros InObject Mesh Out MaterialIdx Out1 Mesh1 told Hrun Hne.
  rewrite (Dropped_told _ _ _ _ _ _ _ Hrun Hne).
  assert (Hred : forall c, In c (Redraw GEditor) -> c = RedrawAllViewports).
  { unfold Redraw. destruct GEditor; intros c Hc;
      [destruct Hc as [<-|[]]; reflexivity|destruct Hc]. }
  split.
  - intros a i m. rewrite <- (DroppedOnObjects_meshes Mesh).
    cbn [app In]. rewrite in_app_iff. cbn [In]. split.
    + intros [Hf|[Hf|[Hf|[Hin|[Hf|Hin]]]]]; try discriminate; auto.
      apply Hred in Hin. discriminate.
    + intros Hin. auto 10.
  - intros c i m. rewrite <- DroppedOnObjects_components.
    cbn [app In]. rewrite in_app_iff. cbn [In]. split.
    + intros [Hf|[Hf|[Hf|[Hin|[Hf|Hin]]]]]; try discriminate; auto.
      apply Hred in Hin. discriminate.
    + intros Hin. auto 10.
Qed.

End Properties.

(** ** The laws hold of the maps kept as lists of pairs *)

Lemma PairList_key_eqb_eq : forall a b,
  PairList.key_eqb a b = true <-> Described.FoldCase a = Described.FoldCase b.
Proof. intros a b. unfold PairList.key_eqb. apply String.eqb_eq. Qed.

Lemma PairList_key_eqb_congr : forall a b c,
  PairList.key_eqb a b = true -> PairList.key_eqb c a = PairList.key_eqb c b.
Proof.
  intros a b c Hab. apply PairList_key_eqb_eq in Hab.
  unfold PairList.key_eqb. rewrite Hab. reflexivity.
Qed.

Lemma PairList_Find_key : forall a b m,
  PairList.key_eqb a b = true -> PairList.Find a m = PairList.Find b m.
Proof.
  intros a b m Hab. induction m as [|[k v] m IH]; [reflexivity|].
  cbn. rewrite (PairList_key_eqb_congr a b k Hab), IH. reflexivity.
Qed.

Lemma PairList_Find_Remove : forall k m k',
  PairList.Find k' (PairList.Remove k m)
  = if PairList.key_eqb k k' then None else PairList.Find k' m.
Proof.
  intros k m k'. induction m as [|[k0 v] m IH].
  - cbn. destruct (PairList.key_eqb k k'); reflexivity.
  - cbn. destruct (PairList.key_eqb k0 k) eqn:H0.
    + rewrite IH.
      assert (He : PairList.key_eqb k0 k' = PairList.key_eqb k k').
      { unfold PairList.key_eqb.
        rewrite (proj1 (PairList_key_eqb_eq _ _) H0). reflexivity. }
      rewrite He. destruct (PairList.key_eqb k k'); reflexivity.
    + cbn. rewrite IH.
      destruct (PairList.key_eqb k k') eqn:Hk; [|reflexivity].
      destruct (PairList.key_eqb k0 k') eqn:H1; [|reflexivity].
      exfalso. apply PairList_key_eqb_eq in Hk, H1.
      assert (Hf : PairList.key_eqb k0 k = true)
        by (apply PairList_key_eqb_eq; congruence).
      congruence.
Qed.

Lemma PairList_Find_In : forall k m v,
  PairList.Find k m = Some v ->
  exists k0, In (k0, v) m /\ PairList.key_eqb k0 k = true.
Proof.
  intros k m v. induction m as [|[k0 w] m IH]; [discriminate|].
  cbn. destruct (PairList.key_eqb k0 k) eqn:H0.
  - intros Hv. injection Hv as <-. exists k0. auto.
  - intros Hv. destruct (IH Hv) as (k1 & Hin & Hk). exists k1. auto.
Qed.

Lemma PairList_laws :
  TMapLaws PairList.t PairList.key_eqb PairList.Find PairList.FindKey
    PairList.Add PairList.Remove.
Proof.
  constructor.
  - intros a. apply String.eqb_refl.
  - intros a b. apply String.eqb_sym.
  - intros a b c Hab Hbc. apply PairList_key_eqb_eq in Hab, Hbc.
    apply PairList_key_eqb_eq. congruence.
  - intros a b Hab. apply PairList_key_eqb_eq in Hab.
    destruct a, b; cbn in *; congruence.
  - intros a b m. apply PairList_Find_key.
  - intros k v m k'. unfold PairList.Add. cbn.
    destruct (PairList.key_eqb k k') eqn:Hk; [reflexivity|].
    rewrite PairList_Find_Remove, Hk. reflexivity.
  - intros k m k'. apply PairList_Find_Remove.
  - intros v m k Hk. unfold PairList.FindKey in Hk.
    destruct (find _ m) as [[k0 w]|] eqn:Hf; [|discriminate].
    cbn in Hk. injection Hk as ->.
    apply find_some in Hf. destruct Hf as [_ Hf]. cbn in Hf.
    destruct (PairList.Find k m) as [w'|]; [|discriminate].
    apply Z.eqb_eq in Hf. congruence.
  - intros v m Hn k Hk. unfold PairList.FindKey in Hn.
    destruct (find _ m) as [e|] eqn:Hf; [discriminate|].
    destruct (PairList_Find_In _ _ _ Hk) as (k0 & Hin & Hk0).
    pose proof (find_none _ _ Hf _ Hin) as Ht. cbn in Ht.
    rewrite (PairList_Find_key _ _ m Hk0), Hk, Z.eqb_refl in Ht.
    discriminate.
Qed.

Lemma a_reset_undoes_a_drop_witness :
  exists Out1 Mesh1 told1,
    Replaced.drop 21 (Some Replaced.wall) Replaced.wall_output 0
    = Some (Out1, Some Mesh1, told1)
    /\ nth (Z.to_nat 0) (StaticMaterials Mesh1) nullptr = 21
    /\ PairList.Find "brick_mat" (ReplacementMaterials Out1) = Some 21
    /\ exists Out2 told2,
         Replaced.reset (Some Mesh1) Out1 0
         = (Out2, Some Replaced.wall, told2)
         /\ (forall k, PairList.Find k (ReplacementMaterials Out2)
                       = PairList.Find k
                           (ReplacementMaterials Replaced.wall_output))
         /\ AssignementMaterials Out2
            = AssignementMaterials Replaced.wall_output
         /\ OutputObjects Out2 = OutputObjects Replaced.wall_output.
Proof.
  apply (a_reset_undoes_a_drop PairList.t PairList.key_eqb PairList.Find
           PairList.FindKey PairList.Add PairList.Remove
           Replaced.is_material Replaced.never_dead Replaced.material_name
           99 "default_material" true PairList_laws
           21 Replaced.wall Replaced.wall_output 0 "brick_mat");
    first [ reflexivity | discriminate | intros k; discriminate ].
Defined.

Lemma a_second_drop_replaces_the_same_entry_witness :
  exists Out1 Mesh1 told1,
    Replaced.drop 21 (Some Replaced.wall) Replaced.wall_output 0
    = Some (Out1, Some Mesh1, told1)
    /\ exists Out2 Mesh2 told2,
         Replaced.drop 22 (Some Mesh1) Out1 0 = Some (Out2, Some Mesh2, told2)
         /\ StaticMaterials Mesh2 = [22; 12]
         /\ forall k, PairList.Find k (ReplacementMaterials Out2)
                      = if PairList.key_eqb "brick_mat" k then Some 22
                        else None.
Proof.
  apply (a_second_drop_replaces_the_same_entry PairList.t PairList.key_eqb
           PairList.Find PairList.FindKey PairList.Add PairList.Remove
           Replaced.is_material Replaced.never_dead Replaced.material_name
           99 "default_material" true PairList_laws
           21 22 Replaced.wall Replaced.wall_output 0 "brick_mat");
    first [ reflexivity | discriminate | intros k; discriminate ].
Defined.

Lemma a_drop_reaches_every_mesh_without_a_component_witness :
  (forall a i m,
     In (SM_SetMaterial a i m) Replaced.told_of_gold_on_wall <->
     i = 0 /\ m = 21
     /\ exists e obj,
          In e (OutputObjects Replaced.wall_output)
          /\ OutputObject e = Some obj
          /\ IsStaticMesh obj = true /\ Obj_bPendingKill obj = false
          /\ Obj_Address obj = a
          /\ forall c, OutputComponent e = Some c ->
                       IsStaticMeshComponent c = false
                       \/ Comp_bPendingKill c = true)
  /\ (forall c i m,
        In (SMC_SetMaterial c i m) Replaced.told_of_gold_on_wall <->
        i = 0 /\ m = 21
        /\ exists e comp,
             In e (OutputObjects Replaced.wall_output)
             /\ OutputComponent e = Some comp
             /\ IsStaticMeshComponent comp = true
             /\ Comp_bPendingKill comp = false
             /\ GetStaticMesh comp = SM_Address Replaced.wall
             /\ Comp_Address comp = c).
Proof.
  apply (a_drop_reaches_every_mesh_without_a_component PairList.t
           PairList.FindKey PairList.Add
           Replaced.is_material Replaced.never_dead Replaced.material_name
           99 "default_material" true
           21 Replaced.wall Replaced.wall_output 0
           (set_ReplacementMaterials [("brick_mat"%string, 21)]
              Replaced.wall_output)
           (Some (set_StaticMaterials [21; 12] Replaced.wall))
           Replaced.told_of_gold_on_wall);
    [reflexivity | discriminate].
Defined.

Lemma OnMaterialInterfaceDropped_at_the_edges_witness :
  Replaced.drop 21 (Some Replaced.bare_mesh) Replaced.wall_output 0 = None.
Proof.
  apply (proj1 (OnMaterialInterfaceDropped_at_the_edges PairList.t
                  PairList.FindKey PairList.Add
                  Replaced.is_material Replaced.never_dead
                  Replaced.material_name 99 "default_material" true
                  21 (Some Replaced.bare_mesh) Replaced.wall_output 0)).
  split; [discriminate|]. split; [reflexivity|]. split; [reflexivity|].
  exists Replaced.bare_mesh.
  repeat split; first [reflexivity | discriminate].
Defined.

Lemma OnResetMaterialInterfaceClicked_puts_back_the_assignment_witness :
  exists Out2 Mesh2 told,
    Replaced.reset (Some Replaced.gold_wall) Replaced.gold_output 0
    = (Out2, Some Mesh2, told)
    /\ (forall k, PairList.Find k (ReplacementMaterials Out2)
                  = if PairList.key_eqb "brick_mat" k then None
                    else PairList.Find k
                           (ReplacementMaterials Replaced.gold_output))
    /\ AssignementMaterials Out2 = AssignementMaterials Replaced.gold_output
    /\ OutputObjects Out2 = OutputObjects Replaced.gold_output
    /\ SM_Address Mesh2 = 1000
    /\ Datatypes.length (StaticMaterials Mesh2) = 2%nat
    /\ (forall j, j <> Z.to_nat 0 ->
          nth j (StaticMaterials Mesh2) nullptr
          = nth j (StaticMaterials Replaced.gold_wall) nullptr)
    /\ nth (Z.to_nat 0) (StaticMaterials Mesh2) nullptr = 11
    /\ (99 <> nullptr ->
        nth (Z.to_nat 0) (StaticMaterials Mesh2) nullptr <> nullptr).
Proof.
  apply (proj2 (OnResetMaterialInterfaceClicked_puts_back_the_assignment
                  PairList.t PairList.key_eqb PairList.Find PairList.FindKey
                  PairList.Add PairList.Remove 99 true PairList_laws
                  (Some Replaced.gold_wall) Replaced.gold_output 0)
           Replaced.gold_wall "brick_mat"%string);
    first [reflexivity | discriminate].
Defined.

End MaterialReplacementSpec.
